(** * Maze-chase simulation core of [apps/pacman.py]

    A shallow embedding of the maze model, the centerline standing masks,
    the tunnel wrap, the pellet layout, the pursuer decision procedure and
    the main simulation loop, followed by the properties the specification
    states about them and by further properties read off the code: the
    invariants of the loop, the joystick thread and the drawing of the
    text, the side panel, the sprites and the overlays.

    Conventions.
    - Python integers are [Z].
    - Python floats that hold time or fractional movement (elapsed time,
      accumulators, frightened timers) are idealised as rationals [Q]; the
      accumulators are kept in reduced form with [Qred].
    - Python sets of tiles are duplicate-free lists, compared by membership.
    - The dictionaries keyed by the four ghost names are total functions out
      of [GhostName]; iteration follows the insertion order of [GHOSTS].
    - [random.random()] and [random.choice] read an explicit oracle, and
      [time.time()] is an input of each pass of the loop.
    - The high-score file is an [option Z] ([None]: missing or unreadable);
      a write to it is taken to succeed.
    - The records read from the joystick device are taken unpacked, as
      their value, type and number.
    - A drawing function is the list of calls it makes on the [ImageDraw]
      object, in order; what the imaging library does with a call is not
      modelled.  The maze, pellet and power-pellet layers, the animation
      timers and [start_time], the wall-clock reading the side panel's
      clock counts from, are left out of the loop state. *)

From Stdlib Require Import ZArith QArith Qround List String Ascii Bool Lia Sorted
  DecimalString.
Import ListNotations.
Local Open Scope string_scope.
Local Open Scope list_scope.
Local Open Scope Z_scope.

(** ** Python exceptions as an error monad *)

Inductive PyExc : Type :=
| IndexError.

Inductive result (A : Type) : Type :=
| Ok (a : A)
| Raise (e : PyExc).
Arguments Ok {A} a.
Arguments Raise {A} e.

Definition bind {A B : Type} (c : result A) (k : A -> result B) : result B :=
  match c with
  | Ok a => k a
  | Raise e => Raise e
  end.

Notation "x <- c ;; k" := (bind c (fun x => k))
  (at level 61, c at next level, right associativity).

Fixpoint foldM {A S : Type} (f : S -> A -> result S) (l : list A) (s : S)
  : result S :=
  match l with
  | [] => Ok s
  | a :: l' => s' <- f s a ;; foldM f l' s'
  end.

Definition raises {A : Type} (c : result A) : bool :=
  match c with
  | Ok _ => false
  | Raise _ => true
  end.

(** [range(a, b)] *)
Definition range (a b : Z) : list Z :=
  map (fun i => a + Z.of_nat i) (seq 0 (Z.to_nat (b - a))).

(** Python's [seq[i]] on a list: negative indices count from the end and an
    index outside the sequence raises [IndexError]. *)
Definition py_index {A : Type} (l : list A) (i : Z) : result A :=
  let n := Z.of_nat (List.length l) in
  let j := if i <? 0 then i + n else i in
  if (0 <=? j) && (j <? n) then
    match nth_error l (Z.to_nat j) with
    | Some a => Ok a
    | None => Raise IndexError
    end
  else Raise IndexError.

Definition py_str_index (s : string) (i : Z) : result ascii :=
  py_index (list_ascii_of_string s) i.

(** ** Screen and scale constants *)

Definition W : Z := 128.
Definition H : Z := 64.
Definition CELL_X : Z := 4.
Definition CELL_Y : Z := 2.
Definition OX : Z := 0.
Definition OY : Z := 1.

Definition GATE_CY : Z := 12.
Definition GATE_XS : list Z := range 11 17.
Definition HOUSE_X0 : Z := 10.
Definition HOUSE_X1 : Z := 17.
Definition HOUSE_Y0 : Z := 11.
Definition HOUSE_Y1 : Z := 18.

Definition Tile : Type := (Z * Z)%type.
Definition Dir : Type := (Z * Z)%type.

Definition DIR_L : Dir := (-1, 0).
Definition DIR_R : Dir := (1, 0).
Definition DIR_U : Dir := (0, -1).
Definition DIR_D : Dir := (0, 1).
Definition DIR_LIST : list Dir := [DIR_L; DIR_R; DIR_U; DIR_D].

Definition mem_Z (a : Z) (l : list Z) : bool := existsb (Z.eqb a) l.

Definition tile_eqb (a b : Tile) : bool :=
  (fst a =? fst b) && (snd a =? snd b).

Definition mem_tile (a : Tile) (l : list Tile) : bool := existsb (tile_eqb a) l.

Definition is_gate_tile (cx cy : Z) : bool :=
  (cy =? GATE_CY) && mem_Z cx GATE_XS.

Definition in_house (cx cy : Z) : bool :=
  (HOUSE_X0 <=? cx) && (cx <=? HOUSE_X1) && (HOUSE_Y0 <=? cy) && (cy <=? HOUSE_Y1).

Definition cell_center (cx cy : Z) : Z * Z :=
  (OX + cx * CELL_X + CELL_X / 2, OY + cy * CELL_Y + CELL_Y / 2).

(** [round(n / d)] for integers [n] and [d > 0]: Python 3 rounds a float to
    the nearest integer and a tie to the even one. *)
Definition round_div (n d : Z) : Z :=
  let q := n / d in
  let r := n mod d in
  if 2 * r <? d then q
  else if d <? 2 * r then q + 1
  else if Z.even q then q else q + 1.

(** A pixel mask: [H] rows of [W] booleans, indexed [mask[y][x]]. *)
Definition Mask : Type := list (list bool).

Definition blank_mask : Mask :=
  repeat (repeat false (Z.to_nat W)) (Z.to_nat H).

Fixpoint list_set {A : Type} (l : list A) (i : nat) (f : A -> A) : list A :=
  match l, i with
  | [], _ => []
  | a :: l', O => f a :: l'
  | a :: l', S i' => a :: list_set l' i' f
  end.

Definition can_stand (mask : Mask) (x y : Z) : bool :=
  (0 <=? x) && (x <? W) && (0 <=? y) && (y <? H) &&
  nth (Z.to_nat x) (nth (Z.to_nat y) mask []) false.

(** ** The maze model over an arbitrary layout

    Every function that reads the layout is written here over a layout
    [wm : list string], with Python's checked indexing, so that what the
    code does on a layout other than the built-in one can be stated. *)

Module Layout.

Section WithLayout.

Variable wm : list string.

Definition ROWS : Z := Z.of_nat (List.length wm).

  (** [COLS = len(WALLMAP[0])] *)
Definition COLS : result Z :=
    r0 <- py_index wm 0 ;; Ok (Z.of_nat (String.length r0)).

Section WithCols.

Variable cols : Z.

Definition MAZE_W : Z := OX + cols * CELL_X.

Definition in_bounds (cx cy : Z) : bool :=
      (0 <=? cx) && (cx <? cols) && (0 <=? cy) && (cy <? ROWS).

Definition is_wall (cx cy : Z) : result bool :=
      if negb (in_bounds cx cy) then Ok true
      else
        row <- py_index wm cy ;;
        c <- py_str_index row cx ;;
        Ok (Ascii.eqb c "X").

Definition is_open_for_pac (cx cy : Z) : result bool :=
      if is_gate_tile cx cy then Ok false
      else w <- is_wall cx cy ;; Ok (negb w).

Definition is_open_for_ghost (cx cy : Z) : result bool :=
      w <- is_wall cx cy ;; Ok (negb w || is_gate_tile cx cy).

Definition setpix (mask : Mask) (x y : Z) : Mask :=
      if (0 <=? x) && (x <? W) && (0 <=? y) && (y <? H) && (x <? MAZE_W)
      then list_set mask (Z.to_nat y)
             (fun row => list_set row (Z.to_nat x) (fun _ => true))
      else mask.

    (** The two inner band loops of [build_centerline_masks]: the band is
        drawn into the ghost mask, and into the player mask when both end
        tiles are open for the player (tested again at every pixel). *)
Definition band_pixel (a b : Tile) (pt : Z -> Z * Z)
      (m : Mask * Mask) (t : Z) : result (Mask * Mask) :=
      let '(pac, ghost) := m in
      let '(x, y) := pt t in
      oa <- is_open_for_pac (fst a) (snd a) ;;
      both <- (if oa then is_open_for_pac (fst b) (snd b) else Ok false) ;;
      let pac' := if both then setpix pac x y else pac in
      Ok (pac', setpix ghost x y).

Definition mask_tile (m : Mask * Mask) (c : Tile) : result (Mask * Mask) :=
      let '(cx, cy) := c in
      w <- is_wall cx cy ;;
      if w && negb (is_gate_tile cx cy) then Ok m
      else
        let '(x, y) := cell_center cx cy in
        op <- is_open_for_pac cx cy ;;
        let m1 := if op then (setpix (fst m) x y, snd m) else m in
        og <- is_open_for_ghost cx cy ;;
        let m2 := if og then (fst m1, setpix (snd m1) x y) else m1 in
        m3 <- (if cx + 1 <? cols then
                 o <- is_open_for_ghost (cx + 1) cy ;;
                 if o then
                   let x2 := fst (cell_center (cx + 1) cy) in
                   foldM (band_pixel (cx, cy) (cx + 1, cy) (fun xx => (xx, y)))
                     (range (Z.min x x2) (Z.max x x2 + 1)) m2
                 else Ok m2
               else Ok m2) ;;
        (if cy + 1 <? ROWS then
           o <- is_open_for_ghost cx (cy + 1) ;;
           if o then
             let y2 := snd (cell_center cx (cy + 1)) in
             foldM (band_pixel (cx, cy) (cx, cy + 1) (fun yy => (x, yy)))
               (range (Z.min y y2) (Z.max y y2 + 1)) m3
           else Ok m3
         else Ok m3).

Definition mask_row (m : Mask * Mask) (cy : Z) : result (Mask * Mask) :=
      foldM (fun m cx => mask_tile m (cx, cy)) (range 0 cols) m.

Definition gate_pixels (ghost : Mask) : Mask :=
      fold_left (fun g cx => let '(x, y) := cell_center cx GATE_CY in setpix g x y)
        GATE_XS ghost.

Definition build_masks_with_cols : result (Mask * Mask) :=
      m <- foldM mask_row (range 0 ROWS) (blank_mask, blank_mask) ;;
      Ok (fst m, gate_pixels (snd m)).

    (** The module-level loop that fills [TUNNEL_ROWS]. *)
Definition tunnel_row (acc : list Z) (cy : Z) : result (list Z) :=
      l <- is_open_for_ghost 0 cy ;;
      r <- (if l then is_open_for_ghost (cols - 1) cy else Ok false) ;;
      Ok (if r then acc ++ [cy] else acc).

Definition tunnel_rows_with_cols : result (list Z) :=
      foldM tunnel_row (range 0 ROWS) [].

    (** One candidate of [compute_house_exit_tile]; the loop returns at
        the first candidate that is a space, which [found] carries. *)
Definition house_exit_candidate (found : option Tile) (c : Tile)
      : result (option Tile) :=
      match found with
      | Some t => Ok (Some t)
      | None =>
          let '(cx, cy) := c in
          if (0 <=? cx) && (cx <? cols) && (0 <=? cy) && (cy <? ROWS) then
            row <- py_index wm cy ;;
            ch <- py_str_index row cx ;;
            Ok (if Ascii.eqb ch " " then Some c else None)
          else Ok None
      end.

Definition house_exit_with_cols : result Tile :=
      r <- foldM house_exit_candidate
             [(14, 10); (13, 10); (15, 10); (14, 9); (14, 11)] None ;;
      Ok (match r with
          | Some t => t
          | None => (14, 10)
          end).

    (** What runs before the first frame and reads the layout: the
        module-level constants [HOUSE_EXIT_TILE] and [TUNNEL_ROWS], then
        the masks built at the top of [main]. *)
Definition startup_with_cols : result (Tile * list Z * (Mask * Mask)) :=
      ex <- house_exit_with_cols ;;
      tr <- tunnel_rows_with_cols ;;
      m <- build_masks_with_cols ;;
      Ok (ex, tr, m).

    (** Every row has at least [cols] characters. *)
Definition rows_cover : bool :=
      forallb (fun r => cols <=? Z.of_nat (String.length r)) wm.

End WithCols.

Definition build_centerline_masks : result (Mask * Mask) :=
    cols <- COLS ;; build_masks_with_cols cols.

Definition TUNNEL_ROWS : result (list Z) :=
    cols <- COLS ;; tunnel_rows_with_cols cols.

Definition compute_house_exit_tile : result Tile :=
    cols <- COLS ;; house_exit_with_cols cols.

Definition startup : result (Tile * list Z * (Mask * Mask)) :=
    cols <- COLS ;; startup_with_cols cols.

  (** A layout is rectangular when every row is as long as the first, and
      well formed when it only holds the two characters the maze is
      drawn with. *)
Definition rectangular : bool :=
    match wm with
    | [] => false
    | r0 :: _ => forallb (fun r => Nat.eqb (String.length r) (String.length r0)) wm
    end.

Definition well_formed : bool :=
    forallb (fun r => forallb (fun c => Ascii.eqb c "X" || Ascii.eqb c " ")
                        (list_ascii_of_string r)) wm.

End WithLayout.

End Layout.

(** ** The built-in layout *)

Definition WALLMAP : list string := [
"XXXXXXXXXXXXXXXXXXXXXXXXXXXX";
"X            XX            X";
"X XXXX XXXXX XX XXXXX XXXX X";
"X XXXX XXXXX XX XXXXX XXXX X";
"X XXXX XXXXX XX XXXXX XXXX X";
"X                          X";
"X XXXX XX XXXXXXXX XX XXXX X";
"X XXXX XX XXXXXXXX XX XXXX X";
"X      XX    XX    XX      X";
"XXXXXX XXXXX XX XXXXX XXXXXX";
"     X XXXXX XX XXXXX X     ";
"     X XX          XX X     ";
"     X XX XXXXXXXX XX X     ";
"XXXXXX XX X      X XX XXXXXX";
"          X      X          ";
"XXXXXX XX X      X XX XXXXXX";
"     X XX XXXXXXXX XX X     ";
"     X XX          XX X     ";
"     X XX XXXXXXXX XX X     ";
"XXXXXX XX XXXXXXXX XX XXXXXX";
"X            XX            X";
"X XXXX XXXXX XX XXXXX XXXX X";
"X XXXX XXXXX XX XXXXX XXXX X";
"X   XX                XX   X";
"XXX XX XX XXXXXXXX XX XX XXX";
"XXX XX XX XXXXXXXX XX XX XXX";
"X      XX    XX    XX      X";
"X XXXXXXXXXX XX XXXXXXXXXX X";
"X XXXXXXXXXX XX XXXXXXXXXX X";
"X                          X";
"XXXXXXXXXXXXXXXXXXXXXXXXXXXX"
].

Definition ROWS : Z := Eval vm_compute in Layout.ROWS WALLMAP.
Definition COLS : Z := 28.
Definition MAZE_W : Z := OX + COLS * CELL_X.

Definition in_bounds (cx cy : Z) : bool :=
  (0 <=? cx) && (cx <? COLS) && (0 <=? cy) && (cy <? ROWS).

(** [WALLMAP[cy][cx]] on the built-in layout, read only inside the bounds. *)
Definition wall_char (cx cy : Z) : ascii :=
  match String.get (Z.to_nat cx) (nth (Z.to_nat cy) WALLMAP EmptyString) with
  | Some c => c
  | None => " "%char
  end.

Definition is_wall (cx cy : Z) : bool :=
  if negb (in_bounds cx cy) then true
  else Ascii.eqb (wall_char cx cy) "X".

Definition is_open_for_pac (cx cy : Z) : bool :=
  if is_gate_tile cx cy then false else negb (is_wall cx cy).

Definition is_open_for_ghost (cx cy : Z) : bool :=
  negb (is_wall cx cy) || is_gate_tile cx cy.

Definition px_to_cell (px py : Z) : Z * Z :=
  let cx := round_div (px - (OX + CELL_X / 2)) CELL_X in
  let cy := round_div (py - (OY + CELL_Y / 2)) CELL_Y in
  (Z.max 0 (Z.min (COLS - 1) cx), Z.max 0 (Z.min (ROWS - 1) cy)).

Definition is_at_tile_center (px py : Z) : bool :=
  let '(cx, cy) := px_to_cell px py in
  let '(tx, ty) := cell_center cx cy in
  (px =? tx) && (py =? ty).

Definition collide (px py gx gy r : Z) : bool :=
  (Z.abs (px - gx) <=? r) && (Z.abs (py - gy) <=? r).

(** The masks of the built-in layout, computed once as in [main]. *)
Definition centerline_masks : Mask * Mask :=
  Eval vm_compute in
    match Layout.build_centerline_masks WALLMAP with
    | Ok m => m
    | Raise _ => ([], [])
    end.

Definition pac_mask : Mask := fst centerline_masks.
Definition ghost_mask : Mask := snd centerline_masks.

Definition TUNNEL_ROWS : list Z :=
  Eval vm_compute in
    match Layout.TUNNEL_ROWS WALLMAP with
    | Ok l => l
    | Raise _ => []
    end.

Definition tunnel_wrap_on_centerline (x y dirx : Z) : Z * Z :=
  let '(cx, cy) := px_to_cell x y in
  if negb (mem_Z cy TUNNEL_ROWS) then (x, y)
  else
    let '(lx, ly) := cell_center 0 cy in
    let '(rx, ry) := cell_center (COLS - 1) cy in
    let y := ly in
    if (dirx <? 0) && (x <=? lx) then (rx, ry)
    else if (0 <? dirx) && (rx <=? x) then (lx, ly)
    else (x, y).



(** ** Pellets *)

(** [range(a, b, -1)] *)
Definition range_down (a b : Z) : list Z :=
  map (fun i => a - Z.of_nat i) (seq 0 (Z.to_nat (a - b))).

Definition set_add_tile (t : Tile) (l : list Tile) : list Tile :=
  if mem_tile t l then l else l ++ [t].

Definition set_discard_tile (t : Tile) (l : list Tile) : list Tile :=
  filter (fun u => negb (tile_eqb t u)) l.

(** One neighbour inside the [for dx, dy in DIR_LIST] loop of the flood
    fill; the state is the queue and the set of seen tiles. *)
Definition visit (x y : Z) (st : list Tile * list Tile) (d : Dir)
  : list Tile * list Tile :=
  let '(q, seen) := st in
  let n : Tile := (x + fst d, y + snd d) in
  if mem_tile n seen then st
  else if in_bounds (fst n) (snd n) && is_open_for_pac (fst n) (snd n)
       then (q ++ [n], seen ++ [n])
       else st.

(** The [while q] loop, bounded by the number of tiles that may be popped. *)
Fixpoint flood_loop (fuel : nat) (q seen : list Tile) : option (list Tile) :=
  match q with
  | [] => Some seen
  | (x, y) :: q' =>
      match fuel with
      | O => None
      | S fuel' =>
          let '(q2, seen2) := fold_left (visit x y) DIR_LIST (q', seen) in
          flood_loop fuel' q2 seen2
      end
  end.

Definition flood_fuel : nat := Z.to_nat (COLS * ROWS).

Definition flood_reachable_opt (start : Tile) : option (list Tile) :=
  let '(sx, sy) := start in
  if negb (is_open_for_pac sx sy) then Some []
  else flood_loop flood_fuel [(sx, sy)] [(sx, sy)].

(** The fuel always suffices ([flood_reachable_total] below), so the
    second branch is never taken. *)
Definition flood_reachable (start : Tile) : list Tile :=
  match flood_reachable_opt start with
  | Some seen => seen
  | None => []
  end.

Definition pick_start_tile_pac : Tile :=
  let cx := COLS / 2 in
  match find (fun cy => is_open_for_pac cx cy) (range_down (ROWS - 2) 0) with
  | Some cy => (cx, cy)
  | None => (1, 1)
  end.

Definition power_candidates : list Tile :=
  [(1, 3); (COLS - 2, 3); (1, 23); (COLS - 2, 23)].

Definition build_pellets (reachable : list Tile) : list Tile * list Tile :=
  let pellets :=
    fold_left (fun p c => if in_house (fst c) (snd c) then p else set_add_tile c p)
      reachable [] in
  fold_left
    (fun pp c =>
       if mem_tile c reachable
       then (set_discard_tile c (fst pp), set_add_tile c (snd pp))
       else pp)
    power_candidates (pellets, []).

(** ** Ghost AI *)

Inductive GhostName : Type := blinky | pinky | inky | clyde.

Definition GHOSTS : list GhostName := [blinky; pinky; inky; clyde].

Definition ghost_name_eqb (a b : GhostName) : bool :=
  match a, b with
  | blinky, blinky | pinky, pinky | inky, inky | clyde, clyde => true
  | _, _ => false
  end.

Definition GHOST_HOME_TILES (n : GhostName) : Tile :=
  match n with
  | blinky => (13, 14)
  | pinky => (14, 14)
  | inky => (13, 15)
  | clyde => (14, 15)
  end.

Definition compute_house_exit_tile : Tile :=
  match find (fun c : Tile =>
                let '(cx, cy) := c in
                (0 <=? cx) && (cx <? COLS) && (0 <=? cy) && (cy <? ROWS) &&
                Ascii.eqb (wall_char cx cy) " ")
          [(14, 10); (13, 10); (15, 10); (14, 9); (14, 11)] with
  | Some c => c
  | None => (14, 10)
  end.

Definition HOUSE_EXIT_TILE : Tile := compute_house_exit_tile.

Definition ghost_possible_dirs (mask : Mask) (x y : Z) : list Dir :=
  filter (fun d : Dir => can_stand mask (x + fst d) (y + snd d)) DIR_LIST.

(** [list.sort(key=...)] is stable; insertion from the right keeps equal
    keys in their original order. *)
Fixpoint insert_by (key : Dir -> Z) (d : Dir) (l : list Dir) : list Dir :=
  match l with
  | [] => [d]
  | e :: l' => if key d <=? key e then d :: e :: l' else e :: insert_by key d l'
  end.

Definition sort_by (key : Dir -> Z) (l : list Dir) : list Dir :=
  fold_right (insert_by key) [] l.

(** The two draws [ghost_choose_dir] may make: [random.random()] and the
    index [random.choice] picks. *)
Record Rand : Type := { roll : Q; pick : nat }.

Definition random_choice (l : list Dir) (k : nat) : Dir :=
  nth (Nat.modulo k (List.length l)) l (0, 0).

Definition Qltb (a b : Q) : bool := negb (Qle_bool b a).

Definition score_dir (gx gy : Z) (target_px : Z * Z) (frightened : bool) (d : Dir) : Z :=
  let '(tx, ty) := target_px in
  let nx := gx + fst d in
  let ny := gy + snd d in
  let md := Z.abs (tx - nx) + Z.abs (ty - ny) in
  if frightened then - md else md.

Definition reverse_dir (gdir : Dir) : Dir := (- fst gdir, - snd gdir).

(** The list [choices] before it is sorted. *)
Definition ghost_choices (mask : Mask) (gx gy : Z) (gdir : Dir) : list Dir :=
  let dirs := ghost_possible_dirs mask gx gy in
  let rev := reverse_dir gdir in
  match filter (fun d => negb (tile_eqb d rev)) dirs with
  | [] => dirs
  | c => c
  end.

Definition tie_break_odds (frightened : bool) : Q :=
  if negb frightened then 25 # 100 else 10 # 100.

Definition ghost_choose_dir (gx gy : Z) (gdir : Dir) (target_px : Z * Z)
  (frightened : bool) (mask : Mask) (r : Rand) : Dir :=
  match ghost_possible_dirs mask gx gy with
  | [] => (0, 0)
  | _ =>
      let choices :=
        sort_by (score_dir gx gy target_px frightened) (ghost_choices mask gx gy gdir) in
      if (1 <? Z.of_nat (List.length choices)) &&
         Qltb (roll r) (tie_break_odds frightened)
      then random_choice (firstn 2 choices) (pick r)
      else hd (0, 0) choices
  end.

(** ** Game state *)

Record Ghost : Type := mkGhost {
  g_x : Z;
  g_y : Z;
  g_dir : Dir;
  g_fright : Q;
  g_home : Tile
}.

(** The dictionary built by [new_game], without the fields that only the
    renderer reads and no pause, death or restart rule depends on: the
    ghost colours, the mouth and blink animation and [start_time], the
    wall-clock reading the HUD clock counts from.  [time_offset], the time
    spent paused, is kept. *)
Record Game : Type := mkGame {
  score : Z;
  hiscore : Z;
  lives : Z;
  level : Z;
  pellets : list Tile;
  power : list Tile;
  px : Z;
  py : Z;
  dir : Dir;
  want : Dir;
  ghosts : GhostName -> Ghost;
  dead : bool;
  dead_t : Q;
  time_offset : Q;
  p_acc : Q;
  g_acc : GhostName -> Q;
  menu : bool;
  menu_idx : Z;
  fright_chain : Z;
  waiting : bool;
  last_menu_toggle : Q
}.

Definition set_score v g := mkGame v (hiscore g) (lives g) (level g) (pellets g) (power g) (px g) (py g) (dir g) (want g) (ghosts g) (dead g) (dead_t g) (time_offset g) (p_acc g) (g_acc g) (menu g) (menu_idx g) (fright_chain g) (waiting g) (last_menu_toggle g).
Definition set_hiscore v g := mkGame (score g) v (lives g) (level g) (pellets g) (power g) (px g) (py g) (dir g) (want g) (ghosts g) (dead g) (dead_t g) (time_offset g) (p_acc g) (g_acc g) (menu g) (menu_idx g) (fright_chain g) (waiting g) (last_menu_toggle g).
Definition set_lives v g := mkGame (score g) (hiscore g) v (level g) (pellets g) (power g) (px g) (py g) (dir g) (want g) (ghosts g) (dead g) (dead_t g) (time_offset g) (p_acc g) (g_acc g) (menu g) (menu_idx g) (fright_chain g) (waiting g) (last_menu_toggle g).
Definition set_level v g := mkGame (score g) (hiscore g) (lives g) v (pellets g) (power g) (px g) (py g) (dir g) (want g) (ghosts g) (dead g) (dead_t g) (time_offset g) (p_acc g) (g_acc g) (menu g) (menu_idx g) (fright_chain g) (waiting g) (last_menu_toggle g).
Definition set_pellets v g := mkGame (score g) (hiscore g) (lives g) (level g) v (power g) (px g) (py g) (dir g) (want g) (ghosts g) (dead g) (dead_t g) (time_offset g) (p_acc g) (g_acc g) (menu g) (menu_idx g) (fright_chain g) (waiting g) (last_menu_toggle g).
Definition set_power v g := mkGame (score g) (hiscore g) (lives g) (level g) (pellets g) v (px g) (py g) (dir g) (want g) (ghosts g) (dead g) (dead_t g) (time_offset g) (p_acc g) (g_acc g) (menu g) (menu_idx g) (fright_chain g) (waiting g) (last_menu_toggle g).
Definition set_pos x y g := mkGame (score g) (hiscore g) (lives g) (level g) (pellets g) (power g) x y (dir g) (want g) (ghosts g) (dead g) (dead_t g) (time_offset g) (p_acc g) (g_acc g) (menu g) (menu_idx g) (fright_chain g) (waiting g) (last_menu_toggle g).
Definition set_dir v g := mkGame (score g) (hiscore g) (lives g) (level g) (pellets g) (power g) (px g) (py g) v (want g) (ghosts g) (dead g) (dead_t g) (time_offset g) (p_acc g) (g_acc g) (menu g) (menu_idx g) (fright_chain g) (waiting g) (last_menu_toggle g).
Definition set_want v g := mkGame (score g) (hiscore g) (lives g) (level g) (pellets g) (power g) (px g) (py g) (dir g) v (ghosts g) (dead g) (dead_t g) (time_offset g) (p_acc g) (g_acc g) (menu g) (menu_idx g) (fright_chain g) (waiting g) (last_menu_toggle g).
Definition set_ghosts v g := mkGame (score g) (hiscore g) (lives g) (level g) (pellets g) (power g) (px g) (py g) (dir g) (want g) v (dead g) (dead_t g) (time_offset g) (p_acc g) (g_acc g) (menu g) (menu_idx g) (fright_chain g) (waiting g) (last_menu_toggle g).
Definition set_dead v g := mkGame (score g) (hiscore g) (lives g) (level g) (pellets g) (power g) (px g) (py g) (dir g) (want g) (ghosts g) v (dead_t g) (time_offset g) (p_acc g) (g_acc g) (menu g) (menu_idx g) (fright_chain g) (waiting g) (last_menu_toggle g).
Definition set_dead_t v g := mkGame (score g) (hiscore g) (lives g) (level g) (pellets g) (power g) (px g) (py g) (dir g) (want g) (ghosts g) (dead g) v (time_offset g) (p_acc g) (g_acc g) (menu g) (menu_idx g) (fright_chain g) (waiting g) (last_menu_toggle g).
Definition set_time_offset v g := mkGame (score g) (hiscore g) (lives g) (level g) (pellets g) (power g) (px g) (py g) (dir g) (want g) (ghosts g) (dead g) (dead_t g) v (p_acc g) (g_acc g) (menu g) (menu_idx g) (fright_chain g) (waiting g) (last_menu_toggle g).
Definition set_p_acc v g := mkGame (score g) (hiscore g) (lives g) (level g) (pellets g) (power g) (px g) (py g) (dir g) (want g) (ghosts g) (dead g) (dead_t g) (time_offset g) v (g_acc g) (menu g) (menu_idx g) (fright_chain g) (waiting g) (last_menu_toggle g).
Definition set_g_acc v g := mkGame (score g) (hiscore g) (lives g) (level g) (pellets g) (power g) (px g) (py g) (dir g) (want g) (ghosts g) (dead g) (dead_t g) (time_offset g) (p_acc g) v (menu g) (menu_idx g) (fright_chain g) (waiting g) (last_menu_toggle g).
Definition set_menu v g := mkGame (score g) (hiscore g) (lives g) (level g) (pellets g) (power g) (px g) (py g) (dir g) (want g) (ghosts g) (dead g) (dead_t g) (time_offset g) (p_acc g) (g_acc g) v (menu_idx g) (fright_chain g) (waiting g) (last_menu_toggle g).
Definition set_menu_idx v g := mkGame (score g) (hiscore g) (lives g) (level g) (pellets g) (power g) (px g) (py g) (dir g) (want g) (ghosts g) (dead g) (dead_t g) (time_offset g) (p_acc g) (g_acc g) (menu g) v (fright_chain g) (waiting g) (last_menu_toggle g).
Definition set_fright_chain v g := mkGame (score g) (hiscore g) (lives g) (level g) (pellets g) (power g) (px g) (py g) (dir g) (want g) (ghosts g) (dead g) (dead_t g) (time_offset g) (p_acc g) (g_acc g) (menu g) (menu_idx g) v (waiting g) (last_menu_toggle g).
Definition set_waiting v g := mkGame (score g) (hiscore g) (lives g) (level g) (pellets g) (power g) (px g) (py g) (dir g) (want g) (ghosts g) (dead g) (dead_t g) (time_offset g) (p_acc g) (g_acc g) (menu g) (menu_idx g) (fright_chain g) v (last_menu_toggle g).
Definition set_last_menu_toggle v g := mkGame (score g) (hiscore g) (lives g) (level g) (pellets g) (power g) (px g) (py g) (dir g) (want g) (ghosts g) (dead g) (dead_t g) (time_offset g) (p_acc g) (g_acc g) (menu g) (menu_idx g) (fright_chain g) (waiting g) v.

(** [d[name] = v] on a dictionary keyed by ghost names. *)
Definition upd {A : Type} (f : GhostName -> A) (n : GhostName) (v : A) : GhostName -> A :=
  fun m => if ghost_name_eqb m n then v else f m.

Definition set_ghost (n : GhostName) (gh : Ghost) (g : Game) : Game :=
  set_ghosts (upd (ghosts g) n gh) g.

Definition ghost_at (x y : Z) (gh : Ghost) : Ghost :=
  mkGhost x y (g_dir gh) (g_fright gh) (g_home gh).
Definition ghost_dir (d : Dir) (gh : Ghost) : Ghost :=
  mkGhost (g_x gh) (g_y gh) d (g_fright gh) (g_home gh).
Definition ghost_fright (f : Q) (gh : Ghost) : Ghost :=
  mkGhost (g_x gh) (g_y gh) (g_dir gh) f (g_home gh).
Definition ghost_home (h : Tile) (gh : Ghost) : Ghost :=
  mkGhost (g_x gh) (g_y gh) (g_dir gh) (g_fright gh) h.

(** The body of the [for name, _ in GHOSTS] loop of [reset_level]. *)
Definition reset_ghost (g : Game) (name : GhostName) : Game :=
  let '(hx, hy) := GHOST_HOME_TILES name in
  let '(gx, gy) := cell_center hx hy in
  let gh := ghosts g name in
  let gh := ghost_home (hx, hy) (ghost_fright 0 (ghost_dir DIR_U (ghost_at gx gy gh))) in
  set_g_acc (upd (g_acc g) name 0%Q) (set_ghost name gh g).

Definition reset_level (g : Game) : Game :=
  let ps := pick_start_tile_pac in
  let reachable := flood_reachable ps in
  let '(pellets, power) := build_pellets reachable in
  let g := set_power power (set_pellets pellets g) in
  let '(x, y) := cell_center (fst ps) (snd ps) in
  let g := set_p_acc 0%Q (set_want DIR_L (set_dir DIR_L (set_pos x y g))) in
  let g := fold_left reset_ghost GHOSTS g in
  set_waiting true (set_fright_chain 0 (set_menu_idx 0 (set_menu false g))).

Definition new_game (hs : Z) : Game :=
  let ghosts := fun name =>
    let '(hx, hy) := GHOST_HOME_TILES name in
    let '(gx, gy) := cell_center hx hy in
    mkGhost gx gy DIR_U 0%Q (hx, hy) in
  reset_level
    (mkGame 0 hs 3 1 [] [] 0 0 DIR_L DIR_L ghosts false 0%Q 0%Q 0%Q
       (fun _ => 0%Q) false 0 0 true 0%Q).

(** ** The main loop *)

Record NavEvent : Type := mkNav {
  ev_up : bool;
  ev_down : bool;
  ev_left : bool;
  ev_right : bool;
  ev_a : bool;
  ev_b : bool;
  ev_x : bool;
  ev_y : bool;
  ev_start : bool;
  ev_select : bool
}.

Definition MENU_TOGGLE_FALLBACK_Y : bool := false.
Definition MENU_DEBOUNCE_SEC : Q := 35 # 100.
Definition MENU_ITEMS : list string := ["RESUME"; "RESTART"; "EXIT"].

Definition dt : Q := 2 # 100.
Definition PAC_SPEED_BASE : Q := 24 # 1.
Definition FRIGHT_DURATION : Q := 105 # 10.

(** What one pass through [while running] reads from outside: the popped
    joystick event, the two clock readings and the random draws. *)
Record Input : Type := mkInput {
  ev : NavEvent;
  t_pop : Q;
  t_frame : Q;
  rnd : GhostName -> Rand
}.

(** The loop's own state: the game, the local [last], and the content of
    the high-score file ([None] when it is missing or unreadable). *)
Record Loop : Type := mkLoop {
  game : Game;
  last : Q;
  hiscore_file : option Z
}.

Inductive Outcome : Type :=
| Continue (l : Loop)
| Exit (file : option Z).

Definition load_hiscore (file : option Z) : Z :=
  match file with
  | Some v => v
  | None => 0
  end.

(** [if score > hiscore: hiscore = score; save_hiscore(hiscore)] *)
Definition flush_hiscore (st : Game * option Z) : Game * option Z :=
  let '(g, file) := st in
  if hiscore g <? score g
  then (set_hiscore (score g) g, Some (score g))
  else (g, file).

Definition menu_toggle (e : NavEvent) (now : Q) (g : Game) : Game :=
  let raw_toggle := ev_start e || ev_select e || (MENU_TOGGLE_FALLBACK_Y && ev_y e) in
  if raw_toggle && Qltb MENU_DEBOUNCE_SEC (now - last_menu_toggle g) then
    let g := set_menu (negb (menu g)) (set_last_menu_toggle now g) in
    if menu g then set_menu_idx 0 g else g
  else g.

Definition waiting_start (e : NavEvent) (g : Game) : Game :=
  if waiting g && negb (menu g) && negb (dead g) then
    if ev_left e then set_dir DIR_L (set_want DIR_L (set_waiting false g))
    else if ev_right e then set_dir DIR_R (set_want DIR_R (set_waiting false g))
    else g
  else g.

(** The [if game["menu"]] block; [None] is the EXIT item, which replaces
    the process by the launcher after the flush. *)
Definition menu_actions (e : NavEvent) (st : Game * option Z)
  : (Game * option Z) + option Z :=
  let '(g, file) := st in
  if menu g then
    let n := Z.of_nat (List.length MENU_ITEMS) in
    let g := if ev_up e then set_menu_idx ((menu_idx g - 1) mod n) g else g in
    let g := if ev_down e then set_menu_idx ((menu_idx g + 1) mod n) g else g in
    let g := if ev_b e || ev_y e then set_menu false g else g in
    if ev_a e || ev_x e then
      let choice := nth (Z.to_nat (menu_idx g)) MENU_ITEMS EmptyString in
      if String.eqb choice "RESUME" then inl (set_menu false g, file)
      else if String.eqb choice "RESTART" then
        let '(g', file') := flush_hiscore (g, file) in
        inl (new_game (hiscore g'), file')
      else if String.eqb choice "EXIT" then
        inr (snd (flush_hiscore (g, file)))
      else inl (g, file)
    else inl (g, file)
  else inl (g, file).

Definition dpad_intent (e : NavEvent) (g : Game) : Game :=
  if negb (waiting g) && negb (menu g) && negb (dead g) then
    let g := if ev_left e then set_want DIR_L g else g in
    let g := if ev_right e then set_want DIR_R g else g in
    let g := if ev_up e then set_want DIR_U g else g in
    if ev_down e then set_want DIR_D g else g
  else g.

(** The body of the [for name, gg in game["ghosts"].items()] loop run
    when a life is lost. *)
Definition respawn_ghost (g : Game) (name : GhostName) : Game :=
  let gg := ghosts g name in
  let '(hx, hy) := g_home gg in
  let '(x, y) := cell_center hx hy in
  set_g_acc (upd (g_acc g) name 0%Q)
    (set_ghost name (ghost_fright 0 (ghost_dir DIR_U (ghost_at x y gg))) g).

Definition respawn (g : Game) : Game :=
  let ps := pick_start_tile_pac in
  let '(x, y) := cell_center (fst ps) (snd ps) in
  let g := set_p_acc 0%Q (set_want DIR_L (set_dir DIR_L (set_pos x y g))) in
  let g := fold_left respawn_ghost GHOSTS g in
  set_waiting true (set_fright_chain 0 g).

Definition death_handling (elapsed : Q) (st : Game * option Z) : Game * option Z :=
  let '(g, file) := st in
  if dead g then
    let g := set_dead_t (Qred (dead_t g + elapsed)) g in
    if Qle_bool 1 (dead_t g) then
      let g := set_lives (lives g - 1) (set_dead false (set_dead_t 0%Q g)) in
      if lives g <=? 0 then
        let '(g', file') := flush_hiscore (g, file) in
        (new_game (hiscore g'), file')
      else (respawn g, file)
    else (g, file)
  else (g, file).

(** Lines 873-875: the desired direction becomes the current one. *)
Definition latch_dir (g : Game) : Game :=
  let '(wx, wy) := want g in
  if can_stand pac_mask (px g + wx) (py g + wy) then set_dir (want g) g else g.

(** One pass of the player's [while] body, after the accumulator update. *)
Definition pac_step (g : Game) : Game :=
  let '(dx, dy) := dir g in
  let g := if negb (dx =? 0)
           then let '(x, y) := tunnel_wrap_on_centerline (px g) (py g) dx in
                set_pos x y g
           else g in
  let nx := px g + dx in
  let ny := py g + dy in
  if can_stand pac_mask nx ny then set_pos nx ny g else g.

Fixpoint pac_loop (fuel : nat) (g : Game) : Game :=
  match fuel with
  | O => g
  | S fuel' =>
      if Qle_bool 1 (p_acc g)
      then pac_loop fuel' (pac_step (set_p_acc (Qred (p_acc g - 1)) g))
      else g
  end.

(** An accumulator [acc] allows at most [floor acc] passes. *)
Definition steps_of (acc : Q) : nat := Z.to_nat (Qfloor acc).

Definition pac_move (elapsed : Q) (g : Game) : Game :=
  let g := set_p_acc (Qred (p_acc g + PAC_SPEED_BASE * elapsed)) g in
  pac_loop (steps_of (p_acc g)) g.

Definition eat (g : Game) : Game :=
  let '(cx, cy) := px_to_cell (px g) (py g) in
  let '(txc, tyc) := cell_center cx cy in
  if (px g =? txc) && (py g =? tyc) then
    let g := if mem_tile (cx, cy) (pellets g)
             then set_score (score g + 10)
                    (set_pellets (set_discard_tile (cx, cy) (pellets g)) g)
             else g in
    if mem_tile (cx, cy) (power g)
    then
      let g := set_score (score g + 50)
                 (set_power (set_discard_tile (cx, cy) (power g)) g) in
      let g := set_ghosts (fun n => ghost_fright FRIGHT_DURATION (ghosts g n)) g in
      set_fright_chain 0 g
    else g
  else g.

Definition fright_decay (elapsed : Q) (g : Game) : Game :=
  set_ghosts
    (fun n =>
       let gg := ghosts g n in
       if Qltb 0 (g_fright gg)
       then
         let v := Qred (g_fright gg - elapsed) in
         ghost_fright (if Qle_bool v 0 then 0%Q else v) gg
       else gg)
    g.

(** The direction choice made when a ghost stands on a tile center. *)
Definition ghost_decide (pac_px : Z * Z) (r : Rand) (gh : Ghost) : Ghost :=
  let frightened := Qltb 0 (g_fright gh) in
  let gx := g_x gh in
  let gy := g_y gh in
  if is_at_tile_center gx gy then
    let '(gcx, gcy) := px_to_cell gx gy in
    if in_house gcx gcy && negb frightened then
      if can_stand ghost_mask gx (gy - 1) then ghost_dir DIR_U gh
      else
        let '(ex, ey) := cell_center (fst HOUSE_EXIT_TILE) (snd HOUSE_EXIT_TILE) in
        ghost_dir (ghost_choose_dir gx gy (g_dir gh) (ex, ey) false ghost_mask r) gh
    else ghost_dir (ghost_choose_dir gx gy (g_dir gh) pac_px frightened ghost_mask r) gh
  else gh.

(** The ghost's [while] loop, which stops at the first blocked pixel. *)
Fixpoint ghost_loop (fuel : nat) (gh : Ghost) (acc : Q) : Ghost * Q :=
  match fuel with
  | O => (gh, acc)
  | S fuel' =>
      if Qle_bool 1 acc then
        let acc := Qred (acc - 1) in
        let '(ddx, ddy) := g_dir gh in
        let gh := if negb (ddx =? 0)
                  then let '(x, y) := tunnel_wrap_on_centerline (g_x gh) (g_y gh) ddx in
                       ghost_at x y gh
                  else gh in
        let nx := g_x gh + ddx in
        let ny := g_y gh + ddy in
        if can_stand ghost_mask nx ny
        then ghost_loop fuel' (ghost_at nx ny gh) acc
        else (gh, acc)
      else (gh, acc)
  end.

(** A frightened ghost is eaten. *)
Definition capture (name : GhostName) (g : Game) : Game :=
  let g := set_fright_chain (fright_chain g + 1) g in
  let g := set_score (score g + 200 * 2 ^ Z.max 0 (fright_chain g - 1)) g in
  let gh := ghosts g name in
  let '(hx, hy) := g_home gh in
  let '(x, y) := cell_center hx hy in
  set_g_acc (upd (g_acc g) name 0%Q)
    (set_ghost name (ghost_fright 0 (ghost_dir DIR_U (ghost_at x y gh))) g).

(** One pass of [for name, g in game["ghosts"].items()]; the boolean tells
    whether the pass ended in [break]. *)
Definition ghost_turn (elapsed speed : Q) (pac_px : Z * Z) (r : Rand)
  (g : Game) (name : GhostName) : Game * bool :=
  let gh := ghosts g name in
  let frightened := Qltb 0 (g_fright gh) in
  let gh := ghost_decide pac_px r gh in
  let acc := Qred (g_acc g name + speed * elapsed) in
  let '(gh, acc) := ghost_loop (steps_of acc) gh acc in
  let g := set_g_acc (upd (g_acc g) name acc) (set_ghost name gh g) in
  if collide (px g) (py g) (g_x gh) (g_y gh) 1 then
    if frightened then (capture name g, false)
    else (set_dead_t 0%Q (set_dead true g), true)
  else (g, false).

Fixpoint ghosts_loop (names : list GhostName) (elapsed speed : Q)
  (pac_px : Z * Z) (r : GhostName -> Rand) (g : Game) : Game :=
  match names with
  | [] => g
  | n :: rest =>
      let '(g', brk) := ghost_turn elapsed speed pac_px (r n) g n in
      if brk then g' else ghosts_loop rest elapsed speed pac_px r g'
  end.

Definition track_hiscore (g : Game) : Game :=
  if hiscore g <? score g then set_hiscore (score g) g else g.

Definition level_cleared (g : Game) : bool :=
  (Z.of_nat (List.length (pellets g)) =? 0) && (Z.of_nat (List.length (power g)) =? 0).

Definition next_level (g : Game) : Game :=
  if level_cleared g
  then reset_level (set_lives 3 (set_level (level g + 1) g))
  else g.

Definition ghost_speed (lvl : Z) : Q :=
  let f := (1 + (1 # 10) * inject_Z (lvl - 1))%Q in
  (PAC_SPEED_BASE * (if Qle_bool 2 f then 2 else f))%Q.

(** The [if not paused] gameplay block up to the level check. *)
Definition play (elapsed : Q) (r : GhostName -> Rand) (g : Game) : Game :=
  let speed := ghost_speed (level g) in
  let g := latch_dir g in
  let g := pac_move elapsed g in
  let g := eat g in
  let g := fright_decay elapsed g in
  let pac_px := (px g, py g) in
  let g := ghosts_loop GHOSTS elapsed speed pac_px r g in
  track_hiscore g.

Definition gameplay (elapsed : Q) (r : GhostName -> Rand) (g : Game) : Game :=
  next_level (play elapsed r g).

Definition is_paused (g : Game) : bool := waiting g || menu g || dead g.

(** Lines 820-821: the time spent paused is added to [time_offset]. *)
Definition pause_time (elapsed : Q) (paused : bool) (g : Game) : Game :=
  if paused then set_time_offset (Qred (time_offset g + elapsed)) g else g.

(** Everything after the frame-time test. *)
Definition frame (elapsed : Q) (r : GhostName -> Rand) (st : Game * option Z)
  : Game * option Z :=
  let paused := is_paused (fst st) in
  let st := (pause_time elapsed paused (fst st), snd st) in
  let '(g, file) := death_handling elapsed st in
  if negb paused then (gameplay elapsed r g, file) else (g, file).

Definition loop_iter (l : Loop) (i : Input) : Outcome :=
  let g := menu_toggle (ev i) (t_pop i) (game l) in
  let g := waiting_start (ev i) g in
  match menu_actions (ev i) (g, hiscore_file l) with
  | inr file => Exit file
  | inl (g, file) =>
      let g := dpad_intent (ev i) g in
      if Qltb (t_frame i - last l) dt then Continue (mkLoop g (last l) file)
      else
        let elapsed := Qred (t_frame i - last l) in
        let '(g, file) := frame elapsed (rnd i) (g, file) in
        Continue (mkLoop g (t_frame i) file)
  end.

Definition init_loop (file : option Z) (t0 : Q) : Loop :=
  mkLoop (new_game (load_hiscore file)) t0 file.

(** The states the loop can be in. *)
Inductive reachable : Loop -> Prop :=
| reach_init : forall file t0, reachable (init_loop file t0)
| reach_step : forall l i l',
    reachable l -> loop_iter l i = Continue l' -> reachable l'.

(** Running the loop over a list of inputs, as long as it continues. *)
Fixpoint run (l : Loop) (ins : list Input) : Outcome :=
  match ins with
  | [] => Continue l
  | i :: ins' =>
      match loop_iter l i with
      | Continue l' => run l' ins'
      | Exit file => Exit file
      end
  end.

(** ** Auxiliary definitions used to state the properties *)

Definition all_pixels : list (Z * Z) := list_prod (range 0 W) (range 0 H).

Definition all_tiles : list Tile := list_prod (range 0 COLS) (range 0 ROWS).

(** Manhattan distance to the target from the pixel one step away in
    direction [d], the quantity [score_dir] computes. *)
Definition pixel_distance (gx gy : Z) (target_px : Z * Z) (d : Dir) : Z :=
  Z.abs (fst target_px - (gx + fst d)) + Z.abs (snd target_px - (gy + snd d)).

(** Manhattan distance to the target from the center of the neighbouring
    tile in direction [d]. *)
Definition tile_distance (gx gy : Z) (target_px : Z * Z) (d : Dir) : Z :=
  let '(cx, cy) := px_to_cell gx gy in
  let '(nx, ny) := cell_center (cx + fst d) (cy + snd d) in
  Z.abs (fst target_px - nx) + Z.abs (snd target_px - ny).

(** Whether [ghost_choose_dir] takes its random branch. *)
Definition tie_break_taken (mask : Mask) (gx gy : Z) (gdir : Dir)
  (frightened : bool) (r : Rand) : bool :=
  (1 <? Z.of_nat (List.length (ghost_choices mask gx gy gdir))) &&
  Qltb (roll r) (tie_break_odds frightened).

Definition no_tie_break : Rand := {| roll := 1; pick := 0 |}.

(** The tile test at the head of the pellet block, and whether that block
    eats a power pellet. *)
Definition at_center (g : Game) : bool :=
  let '(cx, cy) := px_to_cell (px g) (py g) in
  let '(txc, tyc) := cell_center cx cy in
  (px g =? txc) && (py g =? tyc).

Definition eats_power (g : Game) : bool :=
  at_center g && mem_tile (px_to_cell (px g) (py g)) (power g).

(** The updates of a pass of the loop that are neither a capture, nor a
    power pellet, nor a reset (restart, lost life, next level). *)
Inductive quiet_step : Game -> Game -> Prop :=
| quiet_intent e g : quiet_step g (dpad_intent e g)
| quiet_latch g : quiet_step g (latch_dir g)
| quiet_move elapsed g : quiet_step g (pac_move elapsed g)
| quiet_eat g : eats_power g = false -> quiet_step g (eat g)
| quiet_decay elapsed g : quiet_step g (fright_decay elapsed g)
| quiet_ghost name gh acc g :
    quiet_step g (set_g_acc (upd (g_acc g) name acc) (set_ghost name gh g))
| quiet_hiscore g : quiet_step g (track_hiscore g)
| quiet_dead g : quiet_step g (set_dead_t 0%Q (set_dead true g))
| quiet_dead_t v g : quiet_step g (set_dead_t v g)
| quiet_toggle e now g : quiet_step g (menu_toggle e now g)
| quiet_start e g : quiet_step g (waiting_start e g)
| quiet_menu_idx v g : quiet_step g (set_menu_idx v g)
| quiet_menu v g : quiet_step g (set_menu v g)
| quiet_pause elapsed paused g : quiet_step g (pause_time elapsed paused g).

(** [since_power k g]: [g] comes after a power pellet was eaten, [k]
    frightened captures later, with no power pellet or reset in between. *)
Inductive since_power : nat -> Game -> Prop :=
| sp_power g : eats_power g = true -> since_power 0 (eat g)
| sp_capture k g name : since_power k g -> since_power (S k) (capture name g)
| sp_quiet k g g' : since_power k g -> quiet_step g g' -> since_power k g'.

(** The test of lines 933-934 in a ghost's turn: after its movement the
    ghost touches the player, and it was frightened when its turn began. *)
Definition turn_captures (elapsed speed : Q) (pac_px : Z * Z) (r : Rand)
  (g : Game) (name : GhostName) : bool :=
  let gh := ghosts g name in
  let acc := Qred (g_acc g name + speed * elapsed) in
  let gh' := fst (ghost_loop (steps_of acc) (ghost_decide pac_px r gh) acc) in
  collide (px g) (py g) (g_x gh') (g_y gh') 1 && Qltb 0 (g_fright gh).

(** The number of turns of the ghost loop that pass that test. *)
Fixpoint loop_captures (names : list GhostName) (elapsed speed : Q)
  (pac_px : Z * Z) (r : GhostName -> Rand) (g : Game) : nat :=
  match names with
  | [] => 0%nat
  | n :: rest =>
      let '(g', brk) := ghost_turn elapsed speed pac_px (r n) g n in
      ((if turn_captures elapsed speed pac_px (r n) g n then 1 else 0) +
       (if brk then 0 else loop_captures rest elapsed speed pac_px r g'))%nat
  end.

(** The captures of one playing frame. *)
Definition frame_captures (elapsed : Q) (r : GhostName -> Rand) (g : Game) : nat :=
  let g4 := fright_decay elapsed (eat (pac_move elapsed (latch_dir g))) in
  loop_captures GHOSTS elapsed (ghost_speed (level g)) (px g4, py g4) r g4.

(** What a reset (restart, lost life, next level) leaves of the chain: the
    counter is 0 and no ghost is frightened. *)
Definition calm (g : Game) : Prop :=
  fright_chain g = 0 /\ forall n, g_fright (ghosts g n) = 0%Q.

(** The tiles a flood fill is meant to find: those joined to the start by
    a chain of neighbouring tiles that are all open for the player. *)
Inductive pac_reach (start : Tile) : Tile -> Prop :=
| pr_start :
    is_open_for_pac (fst start) (snd start) = true -> pac_reach start start
| pr_step t d :
    pac_reach start t ->
    In d DIR_LIST ->
    is_open_for_pac (fst t + fst d) (snd t + snd d) = true ->
    pac_reach start (fst t + fst d, snd t + snd d).

(** Checks run on the list the flood fill returns: every open neighbour of
    a member is a member, and every member after the first has a neighbour
    that was added before it. *)
Definition step_closed (l : list Tile) : bool :=
  forallb (fun t : Tile =>
             forallb (fun d : Dir =>
                        implb (is_open_for_pac (fst t + fst d) (snd t + snd d))
                              (mem_tile (fst t + fst d, snd t + snd d) l))
               DIR_LIST)
    l.

Fixpoint linked (before l : list Tile) : bool :=
  match l with
  | [] => true
  | t :: l' =>
      is_open_for_pac (fst t) (snd t) &&
      existsb (fun d : Dir => mem_tile (fst t - fst d, snd t - snd d) before) DIR_LIST &&
      linked (t :: before) l'
  end.

(** ** Invariants of the loop *)

(** Both standing-mask conditions. *)
Definition on_masks (g : Game) : Prop :=
  can_stand pac_mask (px g) (py g) = true /\
  forall n, can_stand ghost_mask (g_x (ghosts g n)) (g_y (ghosts g n)) = true.

(** The player stands on its mask and faces along the band it stands on:
    a horizontal direction only on a row of centers, a vertical one only
    on a column of centers. *)
Definition player_ok (x y : Z) (d w : Dir) : Prop :=
  can_stand pac_mask x y = true /\
  In d DIR_LIST /\
  In w DIR_LIST /\
  (fst d <> 0 -> Z.even y = true) /\
  (snd d <> 0 -> x mod 4 = 2).

Definition ghost_ok (n : GhostName) (gh : Ghost) : Prop :=
  can_stand ghost_mask (g_x gh) (g_y gh) = true /\
  g_home gh = GHOST_HOME_TILES n.

Definition start_px : Z * Z :=
  cell_center (fst pick_start_tile_pac) (snd pick_start_tile_pac).

(** The fields of the player the invariant reads. *)
Definition pcore (g : Game) : Z * Z * Dir * Dir * bool :=
  (px g, py g, dir g, want g, waiting g).

Definition Inv0 (g : Game) : Prop :=
  player_ok (px g) (py g) (dir g) (want g) /\
  (forall n, ghost_ok n (ghosts g n)) /\
  (waiting g = true -> (px g, py g) = start_px).

Definition Inv (g : Game) : Prop :=
  Inv0 g /\ (dead g = true -> score g <= hiscore g).

(** Checked on every pixel of the player mask: a step in a direction is
    possible only along the band through the pixel. *)
Definition turns_along_band (x y : Z) : bool :=
  implb (can_stand pac_mask x y)
    (forallb (fun w : Dir =>
                implb (can_stand pac_mask (x + fst w) (y + snd w))
                  (implb (negb (fst w =? 0)) (Z.even y) &&
                   implb (negb (snd w =? 0)) (x mod 4 =? 2)))
       DIR_LIST).

(** Checked on every tile open for the player: from its center, a step in
    a direction is possible exactly when the neighbouring tile is open for
    the player. *)
Definition center_step_matches_tile (c : Tile) : bool :=
  implb (is_open_for_pac (fst c) (snd c))
    (let '(x, y) := cell_center (fst c) (snd c) in
     can_stand pac_mask x y &&
     forallb (fun w : Dir =>
                Bool.eqb (can_stand pac_mask (x + fst w) (y + snd w))
                         (is_open_for_pac (fst c + fst w) (snd c + snd w)))
       DIR_LIST).

(** The fields no step of the gameplay block writes, except the latch
    (direction) and the level check. *)
Definition static (g : Game) : Dir * Dir * bool * Z * Z :=
  (dir g, want g, waiting g, level g, lives g).

(** Whether a ghost's name is among those a reset loop has handled. *)
Definition reset_done (names : list GhostName) (n : GhostName) : bool :=
  existsb (ghost_name_eqb n) names.

(** Two ghost records that agree on position and home tile. *)
Definition same_place (gh gh' : Ghost) : Prop :=
  g_x gh' = g_x gh /\ g_y gh' = g_y gh /\ g_home gh' = g_home gh.

Ltac split_eqs := repeat (split; [reflexivity |]).

(** Checked on every pixel of the player mask: a pixel on a row and a
    column of centers is a tile center, and a tile center on the mask is
    the center of a tile open for the player. *)
Definition aligned_is_center (x y : Z) : bool :=
  implb (can_stand pac_mask x y && Z.even y && (x mod 4 =? 2))
        (is_at_tile_center x y).

Definition center_is_open (x y : Z) : bool :=
  implb (can_stand pac_mask x y && is_at_tile_center x y)
        (let '(cx, cy) := px_to_cell x y in
         is_open_for_pac cx cy && tile_eqb (cell_center cx cy) (x, y)).

(** ** Sample inputs *)

Definition no_buttons : NavEvent :=
  mkNav false false false false false false false false false false.
Definition press_left : NavEvent :=
  mkNav false false true false false false false false false false.
Definition press_right : NavEvent :=
  mkNav false false false true false false false false false false.
Definition press_up : NavEvent :=
  mkNav true false false false false false false false false false.
Definition press_down : NavEvent :=
  mkNav false true false false false false false false false false.

(** The input of the [k]-th pass of a run at exactly 50 passes a second
    in which the random branch is never taken. *)
Definition pass (e : NavEvent) (k : Z) : Input :=
  mkInput e (k # 50) (k # 50) (fun _ => no_tie_break).

(** [n] passes with the same event, the first being pass [k + 1]. *)
Definition passes (e : NavEvent) (k : Z) (n : nat) : list Input :=
  map (fun j => pass e (k + Z.of_nat j)) (seq 1 n).

(** What a pass may do to the player's direction: keep the fields below,
    or reset the game to waiting, facing left. *)
Definition keeps (g g' : Game) : Prop :=
  px g' = px g /\ py g' = py g /\ dir g' = dir g /\
  waiting g' = waiting g /\ dead g' = dead g /\
  score g' = score g /\ hiscore g' = hiscore g /\ lives g' = lives g /\
  level g' = level g.

Definition was_reset (g : Game) : Prop :=
  waiting g = true /\ dir g = DIR_L /\ dead g = false.

(** A schedule of held events, turned into passes numbered from [k + 1]. *)
Fixpoint sched (k : Z) (s : list (NavEvent * nat)) : list Input :=
  match s with
  | [] => []
  | (e, n) :: s' => passes e k n ++ sched (k + Z.of_nat n) s'
  end.

(** The state after a run that starts with the high-score file holding
    [file]; the second branch is not taken when the run never picks EXIT. *)
Definition after (file : option Z) (ins : list Input) : Loop :=
  match run (init_loop file 0) ins with
  | Continue l => l
  | Exit _ => init_loop file 0
  end.

(** Start to the right and let three passes go by: the player is then one
    pixel right of the start tile's center. *)
Definition one_pixel_right : list Input :=
  sched 0 [(press_right, 1%nat); (no_buttons, 2%nat)].

(** A way to lose a life: from the start tile up through the maze to the
    corridor above the ghost house, back and forth there until a ghost is
    met, then wait out the second the death lasts. *)
Definition lose_a_life : list (NavEvent * nat) :=
  [(press_right, 1%nat); (press_up, 40%nat); (press_right, 1%nat);
   (press_up, 60%nat); (press_left, 1%nat); (press_up, 60%nat);
   (press_right, 1%nat); (press_up, 100%nat); (press_left, 100%nat);
   (press_right, 47%nat); (no_buttons, 50%nat)].

Definition lose_three_lives : list Input :=
  sched 0 (lose_a_life ++ lose_a_life ++ lose_a_life).

Definition continues (o : Outcome) : bool :=
  match o with
  | Continue _ => true
  | Exit _ => false
  end.

(** The fields of a loop state that the dying and game-over properties
    read: score, in-memory high score, lives, level, dead, waiting, and
    the content of the high-score file. *)
Definition snapshot (l : Loop) : Z * Z * Z * Z * bool * bool * option Z :=
  let g := game l in
  (score g, hiscore g, lives g, level g, dead g, waiting g, hiscore_file l).

(** The third life is lost in pass 1383 of [lose_three_lives]. *)
Definition game_over_pass : Input := pass no_buttons 1383.
Definition until_game_over : list Input := removelast lose_three_lives.

(** Checked on every pixel of a mask: the tunnel wrap, whatever the sign
    of the direction, leaves an entity on the mask. *)
Definition wrap_stays_on (m : Mask) (x y : Z) : bool :=
  forallb (fun d => implb (can_stand m x y)
                      (let '(x', y') := tunnel_wrap_on_centerline x y d in
                       can_stand m x' y'))
    [-1; 0; 1].

(** The order [sort_by] sorts into. *)
Definition key_le (key : Dir -> Z) (a b : Dir) : Prop := key a <= key b.

(** What the flood fill keeps true of the set of seen tiles. *)
Definition flood_inv (seen : list Tile) : Prop :=
  NoDup seen /\ Forall (fun t => in_bounds (fst t) (snd t) = true) seen.

(** The [finally] block: on leaving the loop the in-memory high score is
    written to the file. *)
Definition on_exit (l : Loop) : option Z := Some (hiscore (game l)).

(** * Further definitions: invariants, input and rendering *)

(** Checked on every pixel of the screen: a pixel an entity can stand on
    belongs to a tile that is open for it. *)
Definition stands_on_open_tile (x y : Z) : bool :=
  let '(cx, cy) := px_to_cell x y in
  implb (can_stand pac_mask x y) (is_open_for_pac cx cy) &&
  implb (can_stand ghost_mask x y) (is_open_for_ghost cx cy).

(** Checked on every tile: the center pixel is on a mask exactly when the
    tile is open for that entity. *)
Definition center_matches_tile (c : Tile) : bool :=
  let '(x, y) := cell_center (fst c) (snd c) in
  Bool.eqb (can_stand pac_mask x y) (is_open_for_pac (fst c) (snd c)) &&
  Bool.eqb (can_stand ghost_mask x y) (is_open_for_ghost (fst c) (snd c)).

(** Checked on every pixel: the masks stay inside the maze, on the lines
    through the tile centers, and the player mask inside the ghost mask. *)
Definition mask_shape (x y : Z) : bool :=
  implb (can_stand pac_mask x y) (can_stand ghost_mask x y) &&
  implb (can_stand ghost_mask x y)
    ((2 <=? x) && (x <=? 110) && (4 <=? y) && (y <=? 60) &&
     (Z.even y || (x mod 4 =? 2))).

(** What the [while q] loop of the flood fill keeps true of its queue and
    its set of seen tiles: the start is seen, the queue holds seen tiles
    only, every seen tile is joined to the start, and a seen tile that is
    no longer queued has all its open neighbours seen. *)
Definition bfs_inv (start : Tile) (q seen : list Tile) : Prop :=
  In start seen /\
  incl q seen /\
  (forall t, In t seen -> pac_reach start t) /\
  (forall t, In t seen ->
     In t q \/
     forall d, In d DIR_LIST ->
       is_open_for_pac (fst t + fst d) (snd t + snd d) = true ->
       In (fst t + fst d, snd t + snd d) seen).

(** Whether a ghost is frightened, as the loop tests it, and how many are. *)
Definition frightened (g : Game) (n : GhostName) : bool :=
  Qltb 0 (g_fright (ghosts g n)).

Definition frightened_count (g : Game) : Z :=
  Z.of_nat (List.length (filter (frightened g) GHOSTS)).

(** The counters and timers of the game stay in these ranges. *)
Definition Bounds (g : Game) : Prop :=
  1 <= lives g <= 3 /\
  1 <= level g /\
  0 <= menu_idx g < 3 /\
  (0 <= score g /\ (10 | score g)) /\
  (0 <= fright_chain g /\ fright_chain g + frightened_count g <= 4) /\
  (forall n, 0 <= g_fright (ghosts g n) /\ g_fright (ghosts g n) <= FRIGHT_DURATION)%Q /\
  (0 <= p_acc g /\ p_acc g < 1)%Q /\
  (forall n, In (g_dir (ghosts g n)) DIR_LIST).

(** The fields [Bounds] reads, apart from the ghosts. *)
Definition counters (g : Game) : Z * Z * Z * Z * Z * Q :=
  (lives g, level g, menu_idx g, score g, fright_chain g, p_acc g).

(** Checked on every pixel of the ghost mask: a ghost always has a pixel
    to step to. *)
Definition ghost_can_move (x y : Z) : bool :=
  implb (can_stand ghost_mask x y)
        (negb (Nat.eqb (List.length (ghost_possible_dirs ghost_mask x y)) 0)).

Ltac fields :=
  cbn [score hiscore lives level pellets power px py dir want ghosts dead dead_t
       time_offset p_acc g_acc menu menu_idx fright_chain waiting last_menu_toggle
       set_score set_hiscore set_lives set_level set_pellets set_power set_pos
       set_dir set_want set_ghosts set_dead set_dead_t set_time_offset set_p_acc set_g_acc
       set_menu set_menu_idx set_fright_chain set_waiting set_last_menu_toggle
       set_ghost g_x g_y g_dir g_fright g_home ghost_at ghost_dir ghost_fright
       ghost_home fst snd].

(** The two sets a level starts with. *)
Definition level_layout : list Tile * list Tile :=
  build_pellets (flood_reachable pick_start_tile_pac).

(** Nothing is in the pellet sets that the level did not start with. *)
Definition within_layout (g : Game) : Prop :=
  incl (pellets g) (fst level_layout) /\ incl (power g) (snd level_layout).

(** A paused game with the menu open on its second item. *)
Definition menu_open_sample : Game :=
  mkGame 120 300 2 1 [] [] 58 60 DIR_L DIR_L
    (fun n => let '(hx, hy) := GHOST_HOME_TILES n in
              mkGhost (fst (cell_center hx hy)) (snd (cell_center hx hy)) DIR_U 0%Q (hx, hy))
    false 0%Q 0%Q 0%Q (fun _ => 0%Q) true 1 0 false 0%Q.

(** [1.0 + 0.1 * (lvl - 1)] and its cap at [2.0], the two factors of
    [ghost_speed]. *)
Definition level_factor (lvl : Z) : Q := (1 + (1 # 10) * inject_Z (lvl - 1))%Q.

Definition ghost_factor (lvl : Z) : Q :=
  if Qle_bool 2 (level_factor lvl) then 2%Q else level_factor lvl.

(** ** The joystick thread *)

Definition BTN_X : Z := 0.
Definition BTN_A : Z := 1.
Definition BTN_B : Z := 2.
Definition BTN_Y : Z := 3.
Definition BTN_SELECT : Z := 8.
Definition BTN_START : Z := 9.

(** [self.DEAD] *)
Definition DEAD : Z := 12000.

(** One record read from the device, as [struct.unpack("IhBB", data)]
    returns it, without the time stamp the code drops: a signed 16-bit
    value and two unsigned bytes. *)
Record JsPacket : Type := mkJs {
  js_value : Z;
  js_etype : Z;
  js_num : Z
}.

Definition press_ev_up (e : NavEvent) : NavEvent :=
  mkNav true (ev_down e) (ev_left e) (ev_right e) (ev_a e) (ev_b e) (ev_x e) (ev_y e)
        (ev_start e) (ev_select e).
Definition press_ev_down (e : NavEvent) : NavEvent :=
  mkNav (ev_up e) true (ev_left e) (ev_right e) (ev_a e) (ev_b e) (ev_x e) (ev_y e)
        (ev_start e) (ev_select e).
Definition press_ev_left (e : NavEvent) : NavEvent :=
  mkNav (ev_up e) (ev_down e) true (ev_right e) (ev_a e) (ev_b e) (ev_x e) (ev_y e)
        (ev_start e) (ev_select e).
Definition press_ev_right (e : NavEvent) : NavEvent :=
  mkNav (ev_up e) (ev_down e) (ev_left e) true (ev_a e) (ev_b e) (ev_x e) (ev_y e)
        (ev_start e) (ev_select e).
Definition press_ev_a (e : NavEvent) : NavEvent :=
  mkNav (ev_up e) (ev_down e) (ev_left e) (ev_right e) true (ev_b e) (ev_x e) (ev_y e)
        (ev_start e) (ev_select e).
Definition press_ev_b (e : NavEvent) : NavEvent :=
  mkNav (ev_up e) (ev_down e) (ev_left e) (ev_right e) (ev_a e) true (ev_x e) (ev_y e)
        (ev_start e) (ev_select e).
Definition press_ev_x (e : NavEvent) : NavEvent :=
  mkNav (ev_up e) (ev_down e) (ev_left e) (ev_right e) (ev_a e) (ev_b e) true (ev_y e)
        (ev_start e) (ev_select e).
Definition press_ev_y (e : NavEvent) : NavEvent :=
  mkNav (ev_up e) (ev_down e) (ev_left e) (ev_right e) (ev_a e) (ev_b e) (ev_x e) true
        (ev_start e) (ev_select e).
Definition press_ev_start (e : NavEvent) : NavEvent :=
  mkNav (ev_up e) (ev_down e) (ev_left e) (ev_right e) (ev_a e) (ev_b e) (ev_x e) (ev_y e)
        true (ev_select e).
Definition press_ev_select (e : NavEvent) : NavEvent :=
  mkNav (ev_up e) (ev_down e) (ev_left e) (ev_right e) (ev_a e) (ev_b e) (ev_x e) (ev_y e)
        (ev_start e) true.

(** The body of the [while not self._stop] loop of [Joystick.run] for one
    complete record; [e] is [self.ev]. *)
Definition joystick_packet (e : NavEvent) (p : JsPacket) : NavEvent :=
  let value := js_value p in
  let num := js_num p in
  if negb (Z.land (js_etype p) 128 =? 0) then e
  else
    let etype := Z.land (js_etype p) 127 in
    if etype =? 2 then
      if num =? 0 then
        if value <? - DEAD then press_ev_left e
        else if DEAD <? value then press_ev_right e
        else e
      else if num =? 1 then
        if value <? - DEAD then press_ev_up e
        else if DEAD <? value then press_ev_down e
        else e
      else e
    else if (etype =? 1) && (value =? 1) then
      if num =? BTN_A then press_ev_a e
      else if num =? BTN_B then press_ev_b e
      else if num =? BTN_X then press_ev_x e
      else if num =? BTN_Y then press_ev_y e
      else if num =? BTN_START then press_ev_start e
      else if num =? BTN_SELECT then press_ev_select e
      else e
    else e.

(** The records read between two calls of [pop]. *)
Definition joystick_run (ps : list JsPacket) (e : NavEvent) : NavEvent :=
  fold_left joystick_packet ps e.

(** [Joystick.pop]: the event handed to the loop and the new [self.ev]. *)
Definition joystick_pop (e : NavEvent) : NavEvent * NavEvent := (e, no_buttons).

(** Every flag of [e] is a flag of [e']. *)
Definition event_le (e e' : NavEvent) : bool :=
  implb (ev_up e) (ev_up e') && implb (ev_down e) (ev_down e') &&
  implb (ev_left e) (ev_left e') && implb (ev_right e) (ev_right e') &&
  implb (ev_a e) (ev_a e') && implb (ev_b e) (ev_b e') &&
  implb (ev_x e) (ev_x e') && implb (ev_y e) (ev_y e') &&
  implb (ev_start e) (ev_start e') && implb (ev_select e) (ev_select e').

(** The records that carry no press: a synthetic record of the initial
    state (bit [0x80]), a stick at rest inside the dead zone, a button
    going up, and any type other than axis and button. *)
Definition js_idle (p : JsPacket) : bool :=
  negb (Z.land (js_etype p) 128 =? 0) ||
  ((Z.land (js_etype p) 127 =? 2) && (- DEAD <=? js_value p) && (js_value p <=? DEAD)) ||
  ((Z.land (js_etype p) 127 =? 1) && negb (js_value p =? 1)) ||
  (negb (Z.land (js_etype p) 127 =? 2) && negb (Z.land (js_etype p) 127 =? 1)).

(** ** Rendering

    A drawing function is embedded as the list of calls it makes on the
    [ImageDraw] object, in order; what the imaging library does with a
    call is not modelled. *)

Definition Color : Type := (Z * Z * Z)%type.

Definition BLACK : Color := (0, 0, 0).
Definition PAC : Color := (255, 220, 0).
Definition TXT : Color := (240, 240, 240).
Definition DIM : Color := (150, 150, 150).
Definition FRIGHT : Color := (40, 70, 255).
Definition HUD_BG : Color := (0, 0, 0).
Definition HUD_LINE : Color := (60, 60, 60).
Definition HUD_FG : Color := (255, 255, 255).
Definition HUD_DIM : Color := (200, 200, 200).

Definition ghost_color (n : GhostName) : Color :=
  match n with
  | blinky => (255, 0, 0)
  | pinky => (255, 120, 180)
  | inky => (0, 200, 255)
  | clyde => (255, 140, 0)
  end.

Inductive DrawOp : Type :=
| Point (x y : Z) (fill : Color)
| Rectangle (x0 y0 x1 y1 : Z) (fill outline : option Color)
| Line (x0 y0 x1 y1 : Z) (fill : Color)
| Ellipse (x0 y0 x1 y1 : Z) (fill : Color).

Definition HUD_X0 : Z := MAZE_W + 1.

(** [enumerate(l)] *)
Definition enumerate {A : Type} (l : list A) : list (Z * A) :=
  combine (range 0 (Z.of_nat (List.length l))) l.

Fixpoint mapM {A B : Type} (f : A -> result B) (l : list A) : result (list B) :=
  match l with
  | [] => Ok []
  | a :: l' => b <- f a ;; bs <- mapM f l' ;; Ok (b :: bs)
  end.

(** The dictionary literal [FONT_3x5], in source order; a later entry of
    a repeated key replaces the earlier one. *)
Definition FONT_3x5 : list (ascii * list string) := [
  ("A"%char, ["###"; "# #"; "###"; "# #"; "# #"]);
  ("B"%char, ["## "; "# #"; "## "; "# #"; "## "]);
  ("C"%char, ["###"; "#  "; "#  "; "#  "; "###"]);
  ("D"%char, ["## "; "# #"; "# #"; "# #"; "## "]);
  ("E"%char, ["###"; "#  "; "###"; "#  "; "###"]);
  ("F"%char, ["###"; "#  "; "###"; "#  "; "#  "]);
  ("G"%char, ["###"; "#  "; "# ##"; "# #"; "###"]);
  ("H"%char, ["# #"; "# #"; "###"; "# #"; "# #"]);
  ("I"%char, ["###"; " # "; " # "; " # "; "###"]);
  ("J"%char, ["  #"; "  #"; "  #"; "# #"; "###"]);
  ("K"%char, ["# #"; "# #"; "## "; "# #"; "# #"]);
  ("L"%char, ["#  "; "#  "; "#  "; "#  "; "###"]);
  ("M"%char, ["# #"; "###"; "###"; "# #"; "# #"]);
  ("N"%char, ["# #"; "###"; "###"; "###"; "# #"]);
  ("O"%char, ["###"; "# #"; "# #"; "# #"; "###"]);
  ("P"%char, ["## "; "# #"; "## "; "#  "; "#  "]);
  ("Q"%char, ["###"; "# #"; "# #"; "###"; "  #"]);
  ("R"%char, ["## "; "# #"; "## "; "# #"; "# #"]);
  ("S"%char, ["###"; "#  "; "###"; "  #"; "###"]);
  ("T"%char, ["###"; " # "; " # "; " # "; " # "]);
  ("U"%char, ["# #"; "# #"; "# #"; "# #"; "###"]);
  ("V"%char, ["# #"; "# #"; "# #"; "# #"; " # "]);
  ("W"%char, ["# #"; "# #"; "###"; "###"; "# #"]);
  ("X"%char, ["# #"; " # "; " # "; " # "; "# #"]);
  ("Y"%char, ["# #"; " # "; " # "; " # "; " # "]);
  ("Z"%char, ["###"; "  #"; " # "; "#  "; "###"]);
  (":"%char, ["   "; " # "; "   "; " # "; "   "]);
  (" "%char, ["   "; "   "; "   "; "   "; "   "]);
  ("0"%char, ["###"; "# #"; "# #"; "# #"; "###"]);
  ("1"%char, [" ##"; "  #"; "  #"; "  #"; " ###"]);
  ("2"%char, ["###"; "  #"; "###"; "#  "; "###"]);
  ("3"%char, ["###"; "  #"; "###"; "  #"; "###"]);
  ("4"%char, ["# #"; "# #"; "###"; "  #"; "  #"]);
  ("5"%char, ["###"; "#  "; "###"; "  #"; "###"]);
  ("6"%char, ["###"; "#  "; "###"; "# #"; "###"]);
  ("7"%char, ["###"; "  #"; "  #"; "  #"; "  #"]);
  ("8"%char, ["###"; "# #"; "###"; "# #"; "###"]);
  ("9"%char, ["###"; "# #"; "###"; "  #"; "###"]);
  ("V"%char, ["# #"; "# #"; "# #"; "# #"; " # "])
].

(** [d.get(k, default)] and [d[k]] on a dictionary given by its literal. *)
Definition dict_find {V : Type} (d : list (ascii * V)) (k : ascii) : option V :=
  match find (fun kv => Ascii.eqb (fst kv) k) (rev d) with
  | Some kv => Some (snd kv)
  | None => None
  end.

(** [FONT_3x5.get(ch, FONT_3x5[" "])]; the key [" "] is in the table. *)
Definition font_glyph (ch : ascii) : list string :=
  let blank := match dict_find FONT_3x5 " "%char with
               | Some p => p
               | None => []
               end in
  match dict_find FONT_3x5 ch with
  | Some p => p
  | None => blank
  end.

(** The two inner loops of [draw_text_3x5] for one glyph. *)
Definition glyph_points (x y : Z) (pat : list string) (color : Color) : list DrawOp :=
  flat_map
    (fun yr : Z * string =>
       flat_map
         (fun xc : Z * ascii =>
            if Ascii.eqb (snd xc) "#" then [Point (x + fst xc) (y + fst yr) color] else [])
         (enumerate (list_ascii_of_string (snd yr))))
    (enumerate pat).

Fixpoint draw_text_3x5 (x y : Z) (s : string) (color : Color) (spacing : Z)
  : list DrawOp :=
  match s with
  | EmptyString => []
  | String ch s' =>
      glyph_points x y (font_glyph ch) color ++
      draw_text_3x5 (x + (3 + spacing)) y s' color spacing
  end.

(** The glyph turned by a quarter: [rot[ry][rx] = pat[4 - rx][ry]]. *)
Definition rotate_glyph (pat : list string) : result (list (list ascii)) :=
  mapM (fun ry =>
          mapM (fun rx => row <- py_index pat (4 - rx) ;; py_str_index row ry)
               (range 0 5))
       (range 0 3).

(** The drawing loops of [draw_text_3x5_v] for one turned glyph. *)
Definition rotated_points (x y : Z) (rot : list (list ascii)) (color : Color)
  (bold : bool) : result (list DrawOp) :=
  rows <- mapM
    (fun yy =>
       cells <- mapM
         (fun xx =>
            row <- py_index rot yy ;;
            c <- py_index row xx ;;
            Ok (if Ascii.eqb c "#"
                then Point (x + xx) (y + yy) color ::
                     (if bold then [Point (x + xx + 1) (y + yy) color] else [])
                else []))
         (range 0 5) ;;
       Ok (List.concat cells))
    (range 0 3) ;;
  Ok (List.concat rows).

Fixpoint draw_text_3x5_v (x y : Z) (s : string) (color : Color) (spacing : Z)
  (bold : bool) : result (list DrawOp) :=
  match s with
  | EmptyString => Ok []
  | String ch s' =>
      rot <- rotate_glyph (font_glyph ch) ;;
      here <- rotated_points x y rot color bold ;;
      rest <- draw_text_3x5_v x (y + (3 + spacing)) s' color spacing bold ;;
      Ok (here ++ rest)
  end.

(** [str(n)] and the format [{n:05d}]. *)
Definition py_str (n : Z) : string := NilZero.string_of_int (Z.to_int n).

Definition format_05d (n : Z) : string :=
  let sign := if n <? 0 then "-" else EmptyString in
  let digits := py_str (Z.abs n) in
  let pad := (5 - String.length sign - String.length digits)%nat in
  (sign ++ string_of_list_ascii (repeat "0"%char pad) ++ digits)%string.

Definition draw_hud (score hiscore lives tsec level : Z) : result (list DrawOp) :=
  let hud_w := W - HUD_X0 in
  let text_w := 6 in
  let x := HUD_X0 + Z.max 0 ((hud_w - text_w) / 2) in
  t1 <- draw_text_3x5_v x 0 (format_05d (score mod 100000)) HUD_FG 1 true ;;
  t2 <- draw_text_3x5_v x 22 (format_05d (hiscore mod 100000)) HUD_DIM 1 true ;;
  t3 <- draw_text_3x5_v x 44 ("LV" ++ py_str (Z.max 0 lives mod 10))%string HUD_FG 0 true ;;
  t4 <- draw_text_3x5_v x 54 ("L" ++ py_str (Z.min 9 (Z.max 1 level)))%string HUD_DIM 0 true ;;
  t5 <- draw_text_3x5_v x 60 (format_05d (Z.max 0 tsec mod 100000)) HUD_DIM 1 true ;;
  Ok (Rectangle HUD_X0 0 (W - 1) (H - 1) (Some HUD_BG) None ::
      Line HUD_X0 0 HUD_X0 (H - 1) HUD_LINE ::
      t1 ++ t2 ++ t3 ++ t4 ++ t5).

Definition draw_pacman (x y : Z) (mouth_open : bool) (direction : Dir) : list DrawOp :=
  let r := 2 in
  Ellipse (x - r) (y - r) (x + r) (y + r) PAC ::
  (if negb mouth_open then []
   else
     let '(dx, dy) := direction in
     map (fun p : Z * Z => Point (fst p) (snd p) BLACK)
       (if dx =? 1 then [(x + 1, y); (x + 2, y - 1); (x + 2, y); (x + 2, y + 1)]
        else if dx =? -1 then [(x - 1, y); (x - 2, y - 1); (x - 2, y); (x - 2, y + 1)]
        else if dy =? 1 then [(x, y + 1); (x - 1, y + 2); (x, y + 2); (x + 1, y + 2)]
        else if dy =? -1 then [(x, y - 1); (x - 1, y - 2); (x, y - 2); (x + 1, y - 2)]
        else [])).

Definition draw_ghost (x y : Z) (col : Color) (frightened : bool) : list DrawOp :=
  let body := if frightened then FRIGHT else col in
  let pattern := ["01110"; "11111"; "11111"; "11111"; "10101"] in
  flat_map
    (fun yr : Z * string =>
       let py := y - 2 + fst yr in
       flat_map
         (fun xc : Z * ascii =>
            if Ascii.eqb (snd xc) "1" then [Point (x - 2 + fst xc) py body] else [])
         (enumerate (list_ascii_of_string (snd yr))))
    (enumerate pattern) ++
  [Point (x - 1) (y - 1) BLACK; Point (x + 1) (y - 1) BLACK].

(** The calls of lines 965-967: the player, then every ghost. *)
Definition draw_sprites (g : Game) (mouth_open : bool) : list DrawOp :=
  draw_pacman (px g) (py g) mouth_open (dir g) ++
  flat_map (fun n => draw_ghost (g_x (ghosts g n)) (g_y (ghosts g n)) (ghost_color n)
                       (Qltb 0 (g_fright (ghosts g n))))
    GHOSTS.

(** Where a call draws: inside the box of columns [x0..x1] and rows
    [y0..y1]. *)
Definition op_within (x0 x1 y0 y1 : Z) (op : DrawOp) : bool :=
  match op with
  | Point x y _ => (x0 <=? x) && (x <=? x1) && (y0 <=? y) && (y <=? y1)
  | Rectangle a b c d _ _ | Line a b c d _ | Ellipse a b c d _ =>
      (x0 <=? a) && (a <=? c) && (c <=? x1) && (y0 <=? b) && (b <=? d) && (d <=? y1)
  end.

Definition is_point (op : DrawOp) : bool :=
  match op with
  | Point _ _ _ => true
  | _ => false
  end.

Definition draw_menu_overlay (idx : Z) : list DrawOp :=
  let x0 := 18 in
  let y0 := 12 in
  let x1 := 100 in
  let y1 := 46 in
  Rectangle x0 y0 x1 y1 (Some BLACK) (Some DIM) ::
  let base_y := y0 + 6 in
  flat_map
    (fun it : Z * string =>
       let i := fst it in
       let yy := base_y + i * 10 in
       (if i =? idx
        then [Rectangle (x0 + 4) (yy - 2) (x1 - 4) (yy + 7) (Some BLACK) (Some TXT)]
        else []) ++
       draw_text_3x5 (x0 + 10) yy (snd it) (if i =? idx then TXT else DIM) 1)
    (enumerate MENU_ITEMS).

(** The three overlays at the end of the render block (lines 971-980). *)
Definition draw_overlays (g : Game) : list DrawOp :=
  (if waiting g && negb (menu g)
   then Rectangle 30 26 98 38 (Some BLACK) (Some DIM) ::
        draw_text_3x5 34 29 "READY" TXT 1
   else []) ++
  (if menu g then draw_menu_overlay (menu_idx g) else []) ++
  (if dead g
   then Rectangle 28 26 100 38 (Some BLACK) (Some DIM) ::
        draw_text_3x5 38 29 "OUCH" TXT 1
   else []).


(** A call that is a [d.point] inside the box. *)
Definition point_in (x0 x1 y0 y1 : Z) (op : DrawOp) : Prop :=
  is_point op = true /\ op_within x0 x1 y0 y1 op = true.

(** Checked on every glyph of the table: five rows of three or four
    characters. *)
Definition glyph_ok (pat : list string) : bool :=
  Nat.eqb (List.length pat) 5 &&
  forallb (fun r => Nat.leb 3 (String.length r) && Nat.leb (String.length r) 4) pat.

(** * Properties *)

(** ** The built-in layout agrees with the checked model *)

Lemma layout_cols : Layout.COLS WALLMAP = Ok COLS.
Proof. reflexivity. Qed.

Lemma layout_masks : Layout.build_centerline_masks WALLMAP = Ok centerline_masks.
Proof. vm_compute. reflexivity. Qed.

Lemma layout_tunnel_rows : Layout.TUNNEL_ROWS WALLMAP = Ok TUNNEL_ROWS.
Proof. vm_compute. reflexivity. Qed.

Lemma layout_house_exit : Layout.compute_house_exit_tile WALLMAP = Ok HOUSE_EXIT_TILE.
Proof. vm_compute. reflexivity. Qed.

Lemma layout_startup :
  Layout.startup WALLMAP = Ok (HOUSE_EXIT_TILE, TUNNEL_ROWS, centerline_masks).
Proof. vm_compute. reflexivity. Qed.

(** ** Basic facts *)

Lemma mem_Z_In a l : mem_Z a l = true <-> In a l.
Proof.
  unfold mem_Z. rewrite existsb_exists. split.
  - intros [b [Hb Heq]]. apply Z.eqb_eq in Heq. subst. exact Hb.
  - intros Hin. exists a. split; [exact Hin | apply Z.eqb_refl].
Qed.

Lemma tile_eqb_eq (a b : Tile) : tile_eqb a b = true <-> a = b.
Proof.
  destruct a as [a1 a2], b as [b1 b2]. unfold tile_eqb. simpl.
  rewrite andb_true_iff, !Z.eqb_eq. split.
  - intros [-> ->]. reflexivity.
  - intros Heq. inversion Heq. split; reflexivity.
Qed.

Lemma tile_eqb_refl (a : Tile) : tile_eqb a a = true.
Proof. apply tile_eqb_eq. reflexivity. Qed.

Lemma mem_tile_In a l : mem_tile a l = true <-> In a l.
Proof.
  unfold mem_tile. rewrite existsb_exists. split.
  - intros [b [Hb Heq]]. apply tile_eqb_eq in Heq. subst. exact Hb.
  - intros Hin. exists a. split; [exact Hin | apply tile_eqb_refl].
Qed.

Lemma mem_tile_false a l : mem_tile a l = false <-> ~ In a l.
Proof.
  rewrite <- mem_tile_In. destruct (mem_tile a l); split; intros; congruence.
Qed.

Lemma In_range a b i : In i (range a b) <-> a <= i < b.
Proof.
  unfold range. rewrite in_map_iff. split.
  - intros [k [Hk Hin]]. apply in_seq in Hin. lia.
  - intros Hi. exists (Z.to_nat (i - a)). split; [lia | apply in_seq; lia].
Qed.

Lemma In_all_pixels x y : In (x, y) all_pixels <-> (0 <= x < W /\ 0 <= y < H).
Proof. unfold all_pixels. rewrite in_prod_iff, !In_range. reflexivity. Qed.

Lemma In_all_tiles cx cy : In (cx, cy) all_tiles <-> in_bounds cx cy = true.
Proof.
  unfold all_tiles, in_bounds. rewrite in_prod_iff, !In_range.
  rewrite !andb_true_iff, !Z.leb_le, !Z.ltb_lt. tauto.
Qed.

Lemma can_stand_bounds m x y :
  can_stand m x y = true -> 0 <= x < W /\ 0 <= y < H.
Proof.
  unfold can_stand. rewrite !andb_true_iff, !Z.leb_le, !Z.ltb_lt. tauto.
Qed.

(** A boolean property checked on every pixel of the screen holds at every
    pixel a mask allows. *)
Lemma on_every_pixel (P : Z -> Z -> bool) :
  forallb (fun p => P (fst p) (snd p)) all_pixels = true ->
  forall m x y, can_stand m x y = true -> P x y = true.
Proof.
  intros Hall m x y Hs. apply can_stand_bounds in Hs.
  rewrite forallb_forall in Hall.
  apply (Hall (x, y)). apply In_all_pixels. exact Hs.
Qed.

(** ** Tunnel wrap *)

Lemma tunnel_wrap_sgn x y dirx :
  tunnel_wrap_on_centerline x y dirx = tunnel_wrap_on_centerline x y (Z.sgn dirx).
Proof.
  unfold tunnel_wrap_on_centerline.
  destruct (px_to_cell x y) as [cx cy].
  destruct (negb (mem_Z cy TUNNEL_ROWS)); [reflexivity |].
  destruct (cell_center 0 cy) as [lx ly], (cell_center (COLS - 1) cy) as [rx ry].
  replace (Z.sgn dirx <? 0) with (dirx <? 0)
    by (destruct dirx; reflexivity).
  replace (0 <? Z.sgn dirx) with (0 <? dirx)
    by (destruct dirx; reflexivity).
  reflexivity.
Qed.

Lemma wrap_stays_on_pac :
  forallb (fun p => wrap_stays_on pac_mask (fst p) (snd p)) all_pixels = true.
Proof. vm_compute. reflexivity. Qed.

Lemma wrap_stays_on_ghost :
  forallb (fun p => wrap_stays_on ghost_mask (fst p) (snd p)) all_pixels = true.
Proof. vm_compute. reflexivity. Qed.

Lemma wrap_stays_on_mask m x y dirx :
  forallb (fun p => wrap_stays_on m (fst p) (snd p)) all_pixels = true ->
  can_stand m x y = true ->
  can_stand m (fst (tunnel_wrap_on_centerline x y dirx))
              (snd (tunnel_wrap_on_centerline x y dirx)) = true.
Proof.
  intros Hall Hs.
  pose proof (on_every_pixel _ Hall m x y Hs) as Hp.
  unfold wrap_stays_on in Hp. rewrite forallb_forall in Hp.
  rewrite tunnel_wrap_sgn.
  assert (Hin : In (Z.sgn dirx) [-1; 0; 1]).
  { destruct dirx; simpl; auto. }
  specialize (Hp _ Hin). rewrite Hs in Hp. simpl in Hp.
  destruct (tunnel_wrap_on_centerline x y (Z.sgn dirx)) as [x' y']. exact Hp.
Qed.

Lemma pac_step_dir g : dir (pac_step g) = dir g.
Proof.
  unfold pac_step. destruct (dir g) as [dx dy] eqn:Hd.
  destruct (negb (dx =? 0)).
  - destruct (tunnel_wrap_on_centerline (px g) (py g) dx) as [x y]. simpl.
    destruct (can_stand pac_mask (x + dx) (y + dy)); simpl; exact Hd.
  - destruct (can_stand pac_mask (px g + dx) (py g + dy)); simpl; exact Hd.
Qed.

Lemma ghost_loop_dir fuel : forall gh acc,
  g_dir (fst (ghost_loop fuel gh acc)) = g_dir gh.
Proof.
  induction fuel as [| fuel IH]; intros gh acc; simpl; [reflexivity |].
  destruct (Qle_bool 1 acc); [| reflexivity].
  destruct (g_dir gh) as [ddx ddy] eqn:Hd.
  destruct (negb (ddx =? 0)).
  - destruct (tunnel_wrap_on_centerline (g_x gh) (g_y gh) ddx) as [x y]. simpl.
    destruct (can_stand ghost_mask (x + ddx) (y + ddy)).
    + rewrite IH. simpl. exact Hd.
    + simpl. exact Hd.
  - destruct (can_stand ghost_mask (g_x gh + ddx) (g_y gh + ddy)).
    + rewrite IH. simpl. exact Hd.
    + simpl. exact Hd.
Qed.

Lemma tunnel_row_cases cy :
  In cy TUNNEL_ROWS ->
  cy = 10 \/ cy = 11 \/ cy = 12 \/ cy = 14 \/ cy = 16 \/ cy = 17 \/ cy = 18.
Proof. simpl. intuition. Qed.

(** C5. On a tunnel row, an entity moving left that is at or beyond the
    center of column 0 is put on the center of the last column of the same
    row, and one moving right at or beyond the center of the last column
    is put on the center of column 0; both centers lie on that row, and
    neither the player's step nor the ghost's loop touches the direction. *)
Theorem tunnel_wrap_edges :
  forall x y dirx cx cy,
    px_to_cell x y = (cx, cy) ->
    In cy TUNNEL_ROWS ->
    (dirx < 0 -> x <= fst (cell_center 0 cy) ->
     tunnel_wrap_on_centerline x y dirx = cell_center (COLS - 1) cy) /\
    (0 < dirx -> fst (cell_center (COLS - 1) cy) <= x ->
     tunnel_wrap_on_centerline x y dirx = cell_center 0 cy) /\
    px_to_cell (fst (cell_center (COLS - 1) cy)) (snd (cell_center (COLS - 1) cy))
      = (COLS - 1, cy) /\
    px_to_cell (fst (cell_center 0 cy)) (snd (cell_center 0 cy)) = (0, cy) /\
    (forall g, dir (pac_step g) = dir g) /\
    (forall fuel gh acc, g_dir (fst (ghost_loop fuel gh acc)) = g_dir gh).
Proof.
  intros x y dirx cx cy Hcell Hrow.
  assert (Hmem : mem_Z cy TUNNEL_ROWS = true) by (apply mem_Z_In; exact Hrow).
  repeat split.
  - intros Hd Hx. unfold tunnel_wrap_on_centerline.
    rewrite Hcell, Hmem. simpl negb. cbv iota.
    destruct (cell_center 0 cy) as [lx ly] eqn:Hl.
    destruct (cell_center (COLS - 1) cy) as [rx ry] eqn:Hr.
    simpl in Hx.
    replace (dirx <? 0) with true by (symmetry; apply Z.ltb_lt; exact Hd).
    replace (x <=? lx) with true by (symmetry; apply Z.leb_le; exact Hx).
    reflexivity.
  - intros Hd Hx. unfold tunnel_wrap_on_centerline.
    rewrite Hcell, Hmem. simpl negb. cbv iota.
    destruct (cell_center 0 cy) as [lx ly] eqn:Hl.
    destruct (cell_center (COLS - 1) cy) as [rx ry] eqn:Hr.
    simpl in Hx.
    replace (dirx <? 0) with false by (symmetry; apply Z.ltb_ge; lia).
    replace (0 <? dirx) with true by (symmetry; apply Z.ltb_lt; exact Hd).
    replace (rx <=? x) with true by (symmetry; apply Z.leb_le; exact Hx).
    reflexivity.
  - destruct (tunnel_row_cases cy Hrow) as [-> | [-> | [-> | [-> | [-> | [-> | ->]]]]]];
      reflexivity.
  - destruct (tunnel_row_cases cy Hrow) as [-> | [-> | [-> | [-> | [-> | [-> | ->]]]]]];
      reflexivity.
  - apply pac_step_dir.
  - apply ghost_loop_dir.
Qed.

Lemma tunnel_wrap_edges_witness :
  tunnel_wrap_on_centerline 2 30 (-1) = (110, 30) /\
  tunnel_wrap_on_centerline 110 30 1 = (2, 30).
Proof.
  split.
  - apply (tunnel_wrap_edges 2 30 (-1) 0 14);
      [reflexivity | simpl; tauto | lia |].
    vm_compute. discriminate.
  - apply (tunnel_wrap_edges 110 30 1 27 14);
      [reflexivity | simpl; tauto | lia |].
    vm_compute. discriminate.
Defined.

(** C10. On a tunnel row the wrap always returns that row's center y, and
    when no edge test fires it returns the incoming x with that y; off a
    tunnel row it returns both coordinates as they came. *)
Theorem tunnel_wrap_snaps_y :
  forall x y dirx cx cy,
    px_to_cell x y = (cx, cy) ->
    (In cy TUNNEL_ROWS ->
     snd (tunnel_wrap_on_centerline x y dirx) = snd (cell_center 0 cy) /\
     (~ (dirx < 0 /\ x <= fst (cell_center 0 cy)) ->
      ~ (0 < dirx /\ fst (cell_center (COLS - 1) cy) <= x) ->
      tunnel_wrap_on_centerline x y dirx = (x, snd (cell_center 0 cy)))) /\
    (~ In cy TUNNEL_ROWS -> tunnel_wrap_on_centerline x y dirx = (x, y)).
Proof.
  intros x y dirx cx cy Hcell. split.
  - intros Hrow.
    assert (Hmem : mem_Z cy TUNNEL_ROWS = true) by (apply mem_Z_In; exact Hrow).
    unfold tunnel_wrap_on_centerline. rewrite Hcell, Hmem. simpl negb. cbv iota.
    unfold cell_center. cbn [fst snd].
    destruct (dirx <? 0) eqn:Hneg; destruct (x <=? OX + 0 * CELL_X + CELL_X / 2) eqn:Hl;
      destruct (0 <? dirx) eqn:Hpos;
      destruct (OX + (COLS - 1) * CELL_X + CELL_X / 2 <=? x) eqn:Hr;
      cbn [andb fst snd]; split; try reflexivity; intros Hn1 Hn2;
      try reflexivity;
      rewrite ?Z.ltb_lt, ?Z.leb_le in *; exfalso; tauto.
  - intros Hrow.
    assert (Hmem : mem_Z cy TUNNEL_ROWS = false).
    { destruct (mem_Z cy TUNNEL_ROWS) eqn:E; [| reflexivity].
      apply mem_Z_In in E. contradiction. }
    unfold tunnel_wrap_on_centerline. rewrite Hcell, Hmem. reflexivity.
Qed.

Lemma tunnel_wrap_snaps_y_witness :
  tunnel_wrap_on_centerline 6 23 1 = (6, 22) /\
  tunnel_wrap_on_centerline 6 19 1 = (6, 19).
Proof.
  split.
  - apply (tunnel_wrap_snaps_y 6 23 1 1 10); [reflexivity | simpl; tauto | |].
    + intros [H _]. lia.
    + intros [_ H]. vm_compute in H. apply H. reflexivity.
  - apply (tunnel_wrap_snaps_y 6 19 1 1 8); [reflexivity |].
    simpl. intros H. repeat (destruct H as [H | H]; [discriminate H |]). exact H.
Defined.

(** ** Ghost direction choice *)

Section SortBy.

Variable key : Dir -> Z.

Lemma insert_by_In d l x : In x (insert_by key d l) <-> x = d \/ In x l.
  Proof.
    induction l as [| e l IH]; simpl.
    - intuition.
    - destruct (key d <=? key e); simpl; [intuition |].
      rewrite IH. intuition.
  Qed.

Lemma sort_by_In l x : In x (sort_by key l) <-> In x l.
  Proof.
    induction l as [| d l IH]; simpl; [reflexivity |].
    rewrite insert_by_In, IH. intuition.
  Qed.

Lemma sort_by_length l : List.length (sort_by key l) = List.length l.
  Proof.
    assert (Hins : forall d l', List.length (insert_by key d l') = S (List.length l')).
    { intros d l'. induction l' as [| e l' IH]; simpl; [reflexivity |].
      destruct (key d <=? key e); simpl; [reflexivity | rewrite IH; reflexivity]. }
    induction l as [| d l IH]; simpl; [reflexivity |].
    rewrite Hins, IH. reflexivity.
  Qed.

Lemma insert_by_sorted d l :
    Sorted.StronglySorted (key_le key) l -> Sorted.StronglySorted (key_le key) (insert_by key d l).
  Proof.
    induction l as [| e l IH]; intros Hs; simpl.
    - constructor; constructor.
    - destruct (key d <=? key e) eqn:Hle.
      + apply Z.leb_le in Hle. constructor; [exact Hs |].
        apply Sorted.StronglySorted_inv in Hs. destruct Hs as [_ Hall].
        constructor; [exact Hle |].
        rewrite Forall_forall in *. intros x Hx. specialize (Hall x Hx).
        unfold key_le in *. lia.
      + apply Z.leb_gt in Hle.
        apply Sorted.StronglySorted_inv in Hs. destruct Hs as [Hs Hall].
        constructor; [apply IH; exact Hs |].
        rewrite Forall_forall in *. intros x Hx.
        apply insert_by_In in Hx. destruct Hx as [-> | Hx].
        * unfold key_le. lia.
        * apply Hall. exact Hx.
  Qed.

Lemma sort_by_sorted l : Sorted.StronglySorted (key_le key) (sort_by key l).
  Proof.
    induction l as [| d l IH]; simpl; [constructor |].
    apply insert_by_sorted. exact IH.
  Qed.

  (** The first element of the sorted list has the least key. *)
Lemma sort_by_head_least l x :
    In x l -> key (hd (0, 0) (sort_by key l)) <= key x.
  Proof.
    intros Hx. apply sort_by_In in Hx.
    pose proof (sort_by_sorted l) as Hs.
    destruct (sort_by key l) as [| a s]; [contradiction |].
    simpl. apply Sorted.StronglySorted_inv in Hs. destruct Hs as [_ Hall].
    destruct Hx as [-> | Hx]; [lia |].
    rewrite Forall_forall in Hall. apply (Hall x Hx).
  Qed.

Lemma sort_by_head_In l : l <> [] -> In (hd (0, 0) (sort_by key l)) l.
  Proof.
    intros Hne. apply sort_by_In.
    pose proof (sort_by_length l) as Hlen.
    destruct (sort_by key l) as [| a s].
    - destruct l; [contradiction | discriminate].
    - left. reflexivity.
  Qed.

End SortBy.

Lemma random_choice_In l k : l <> [] -> In (random_choice l k) l.
Proof.
  intros Hne. unfold random_choice. apply nth_In.
  apply Nat.mod_upper_bound. destruct l; [contradiction | discriminate].
Qed.

Lemma firstn_In {A : Type} n (l : list A) x : In x (firstn n l) -> In x l.
Proof.
  revert l. induction n as [| n IH]; intros l Hx; simpl in Hx; [contradiction |].
  destruct l as [| a l]; [contradiction |].
  destruct Hx as [-> | Hx]; [left; reflexivity | right; apply IH; exact Hx].
Qed.

Lemma ghost_choices_possible mask gx gy gdir d :
  In d (ghost_choices mask gx gy gdir) -> In d (ghost_possible_dirs mask gx gy).
Proof.
  unfold ghost_choices.
  match goal with
  | |- context [filter ?f ?l] => destruct (filter f l) as [| c cs] eqn:Hf
  end; [tauto |].
  intros Hd. rewrite <- Hf in Hd. apply filter_In in Hd. tauto.
Qed.

Lemma ghost_choices_nonempty mask gx gy gdir :
  ghost_possible_dirs mask gx gy <> [] -> ghost_choices mask gx gy gdir <> [].
Proof.
  unfold ghost_choices. intros Hne.
  match goal with
  | |- context [filter ?f ?l] => destruct (filter f l)
  end; [exact Hne | discriminate].
Qed.

Lemma ghost_choices_not_reverse mask gx gy gdir :
  (exists d, In d (ghost_possible_dirs mask gx gy) /\ d <> reverse_dir gdir) ->
  forall c, In c (ghost_choices mask gx gy gdir) -> c <> reverse_dir gdir.
Proof.
  intros [d [Hd Hrev]] c Hc. unfold ghost_choices in Hc.
  destruct (filter (fun d0 => negb (tile_eqb d0 (reverse_dir gdir)))
              (ghost_possible_dirs mask gx gy)) as [| e es] eqn:Hf.
  - exfalso.
    assert (Hin : In d (filter (fun d0 => negb (tile_eqb d0 (reverse_dir gdir)))
                          (ghost_possible_dirs mask gx gy))).
    { apply filter_In. split; [exact Hd |].
      destruct (tile_eqb d (reverse_dir gdir)) eqn:E; [| reflexivity].
      apply tile_eqb_eq in E. contradiction. }
    rewrite Hf in Hin. contradiction.
  - rewrite <- Hf in Hc. apply filter_In in Hc. destruct Hc as [_ Hn].
    intros ->. rewrite tile_eqb_refl in Hn. discriminate.
Qed.

(** Whatever branch is taken, the result is one of [choices]. *)
Lemma ghost_choose_dir_In gx gy gdir target frightened mask r :
  ghost_possible_dirs mask gx gy <> [] ->
  In (ghost_choose_dir gx gy gdir target frightened mask r)
     (ghost_choices mask gx gy gdir).
Proof.
  intros Hne. unfold ghost_choose_dir.
  destruct (ghost_possible_dirs mask gx gy) as [| p ps] eqn:Hp; [contradiction |].
  rewrite <- Hp in Hne.
  pose proof (ghost_choices_nonempty mask gx gy gdir Hne) as Hc.
  set (key := score_dir gx gy target frightened).
  set (cs := ghost_choices mask gx gy gdir) in *.
  destruct ((1 <? Z.of_nat (List.length (sort_by key cs))) &&
            Qltb (roll r) (tie_break_odds frightened)) eqn:Hb.
  - apply (sort_by_In key). apply firstn_In with (n := 2%nat).
    apply random_choice_In.
    apply andb_true_iff in Hb. destruct Hb as [Hlen _]. apply Z.ltb_lt in Hlen.
    destruct (sort_by key cs) as [| a [| b s]]; simpl in *; try lia. discriminate.
  - apply sort_by_head_In. exact Hc.
Qed.

Lemma score_dir_pixel gx gy target frightened d :
  score_dir gx gy target frightened d =
  if frightened then - pixel_distance gx gy target d
  else pixel_distance gx gy target d.
Proof. unfold score_dir, pixel_distance. destruct target. reflexivity. Qed.

(** C3 (as the code has it). With a legal direction other than the reverse
    of the current one, the choice is legal and is not that reverse; and
    when the random branch is not taken, the choice has the least (not
    frightened) or greatest (frightened) Manhattan distance to the target,
    measured from the pixel one step away, among the candidate directions. *)
Theorem ghost_choose_dir_policy :
  forall gx gy gdir target frightened mask r,
    is_at_tile_center gx gy = true ->
    (exists d, In d (ghost_possible_dirs mask gx gy) /\ d <> reverse_dir gdir) ->
    let res := ghost_choose_dir gx gy gdir target frightened mask r in
    In res (ghost_possible_dirs mask gx gy) /\
    res <> reverse_dir gdir /\
    (tie_break_taken mask gx gy gdir frightened r = false ->
     forall d, In d (ghost_possible_dirs mask gx gy) -> d <> reverse_dir gdir ->
       if frightened
       then pixel_distance gx gy target d <= pixel_distance gx gy target res
       else pixel_distance gx gy target res <= pixel_distance gx gy target d).
Proof.
  intros gx gy gdir target frightened mask r _ Hex res.
  assert (Hne : ghost_possible_dirs mask gx gy <> []).
  { destruct Hex as [d [Hd _]]. intros E. rewrite E in Hd. contradiction. }
  pose proof (ghost_choose_dir_In gx gy gdir target frightened mask r Hne) as Hin.
  fold res in Hin.
  split; [apply (ghost_choices_possible _ _ _ gdir); exact Hin |].
  split; [apply (ghost_choices_not_reverse mask gx gy gdir Hex); exact Hin |].
  intros Htb d Hd Hrev.
  assert (Hdc : In d (ghost_choices mask gx gy gdir)).
  { unfold ghost_choices.
    assert (Hf : In d (filter (fun d0 => negb (tile_eqb d0 (reverse_dir gdir)))
                         (ghost_possible_dirs mask gx gy))).
    { apply filter_In. split; [exact Hd |].
      destruct (tile_eqb d (reverse_dir gdir)) eqn:E; [| reflexivity].
      apply tile_eqb_eq in E. contradiction. }
    match goal with
    | |- context [filter ?f ?l] => destruct (filter f l)
    end; [contradiction | exact Hf]. }
  assert (Hres : res = hd (0, 0) (sort_by (score_dir gx gy target frightened)
                                    (ghost_choices mask gx gy gdir))).
  { unfold res, ghost_choose_dir.
    destruct (ghost_possible_dirs mask gx gy) as [| p ps]; [contradiction |].
    unfold tie_break_taken in Htb. rewrite sort_by_length, Htb. reflexivity. }
  pose proof (sort_by_head_least (score_dir gx gy target frightened)
                (ghost_choices mask gx gy gdir) d Hdc) as Hle.
  rewrite <- Hres in Hle. rewrite !score_dir_pixel in Hle.
  destruct frightened; lia.
Qed.

Lemma ghost_choose_dir_policy_witness :
  ghost_choose_dir 26 12 DIR_R (27, 42) false ghost_mask no_tie_break <> DIR_L /\
  pixel_distance 26 12 (27, 42)
    (ghost_choose_dir 26 12 DIR_R (27, 42) false ghost_mask no_tie_break)
  <= pixel_distance 26 12 (27, 42) DIR_D.
Proof.
  assert (Hex : exists d, In d (ghost_possible_dirs ghost_mask 26 12) /\
                          d <> reverse_dir DIR_R).
  { exists DIR_D. split; [vm_compute; tauto | discriminate]. }
  destruct (ghost_choose_dir_policy 26 12 DIR_R (27, 42) false ghost_mask
              no_tie_break eq_refl Hex) as [_ [Hrev Hmin]].
  split; [exact Hrev |].
  apply (Hmin eq_refl DIR_D); [vm_compute; tauto | discriminate].
Defined.

(** C3 fails when the distance is measured from the resulting tile: at the
    crossing (6, 5), heading right with the player at pixel (27, 42), going
    down leads to a tile nearer to the player than the tile to the right,
    yet the choice, made without the random branch, is to go right. *)
Lemma ghost_choose_dir_not_nearest_tile :
  is_at_tile_center 26 12 = true /\
  can_stand ghost_mask 26 12 = true /\
  can_stand pac_mask 27 42 = true /\
  tie_break_taken ghost_mask 26 12 DIR_R false no_tie_break = false /\
  ~ (forall d, In d (ghost_possible_dirs ghost_mask 26 12) ->
               d <> reverse_dir DIR_R ->
               tile_distance 26 12 (27, 42)
                 (ghost_choose_dir 26 12 DIR_R (27, 42) false ghost_mask no_tie_break)
               <= tile_distance 26 12 (27, 42) d).
Proof.
  repeat split; try reflexivity.
  intros Hall.
  specialize (Hall DIR_D).
  assert (Hd : In DIR_D (ghost_possible_dirs ghost_mask 26 12)) by (vm_compute; tauto).
  assert (Hr : DIR_D <> reverse_dir DIR_R) by discriminate.
  specialize (Hall Hd Hr). vm_compute in Hall. apply Hall. reflexivity.
Qed.

(** ** Capture chain *)

Lemma pac_loop_chain fuel : forall g,
  fright_chain (pac_loop fuel g) = fright_chain g.
Proof.
  induction fuel as [| fuel IH]; intros g; simpl; [reflexivity |].
  destruct (Qle_bool 1 (p_acc g)); [| reflexivity].
  rewrite IH. unfold pac_step. simpl.
  destruct (dir g) as [dx dy].
  destruct (negb (dx =? 0)).
  - destruct (tunnel_wrap_on_centerline (px g) (py g) dx) as [x y]. simpl.
    destruct (can_stand pac_mask (x + dx) (y + dy)); reflexivity.
  - simpl. destruct (can_stand pac_mask (px g + dx) (py g + dy)); reflexivity.
Qed.

Lemma eat_chain_quiet g : eats_power g = false -> fright_chain (eat g) = fright_chain g.
Proof.
  unfold eats_power, at_center, eat.
  destruct (px_to_cell (px g) (py g)) as [cx cy].
  destruct (cell_center cx cy) as [txc tyc].
  destruct ((px g =? txc) && (py g =? tyc)); [| reflexivity].
  simpl. intros Hp.
  destruct (mem_tile (cx, cy) (pellets g)); simpl; rewrite Hp; reflexivity.
Qed.

Lemma eat_power_effect g :
  eats_power g = true ->
  fright_chain (eat g) = 0 /\
  (forall n, g_fright (ghosts (eat g) n) = FRIGHT_DURATION).
Proof.
  unfold eats_power, at_center, eat.
  destruct (px_to_cell (px g) (py g)) as [cx cy].
  destruct (cell_center cx cy) as [txc tyc].
  destruct ((px g =? txc) && (py g =? tyc)); [| discriminate].
  simpl. intros Hp.
  destruct (mem_tile (cx, cy) (pellets g)); simpl; rewrite Hp; simpl;
    split; reflexivity.
Qed.

Lemma quiet_step_chain g g' : quiet_step g g' -> fright_chain g' = fright_chain g.
Proof.
  intros Hq. destruct Hq.
  - unfold dpad_intent.
    destruct (negb (waiting g) && negb (menu g) && negb (dead g)); [| reflexivity].
    destruct (ev_left e), (ev_right e), (ev_up e), (ev_down e); reflexivity.
  - unfold latch_dir. destruct (want g) as [wx wy].
    destruct (can_stand pac_mask (px g + wx) (py g + wy)); reflexivity.
  - unfold pac_move. rewrite pac_loop_chain. reflexivity.
  - apply eat_chain_quiet. assumption.
  - reflexivity.
  - reflexivity.
  - unfold track_hiscore. destruct (hiscore g <? score g); reflexivity.
  - reflexivity.
  - reflexivity.
  - unfold menu_toggle. cbv zeta. destruct (_ && _); [| reflexivity].
    cbn [menu set_menu set_last_menu_toggle]. destruct (negb (menu g)); reflexivity.
  - unfold waiting_start. destruct (_ && _); [| reflexivity].
    destruct (ev_left e); [reflexivity |]. destruct (ev_right e); reflexivity.
  - reflexivity.
  - reflexivity.
  - destruct paused; reflexivity.
Qed.

Lemma since_power_chain k g : since_power k g -> fright_chain g = Z.of_nat k.
Proof.
  induction 1 as [g Hp | k g name _ IH | k g g' _ IH Hq].
  - apply eat_power_effect. exact Hp.
  - unfold capture. destruct (g_home _) as [hx hy]. simpl.
    destruct (cell_center hx hy). simpl. lia.
  - rewrite (quiet_step_chain _ _ Hq). exact IH.
Qed.

Lemma capture_score name g :
  score (capture name g) = score g + 200 * 2 ^ Z.max 0 (fright_chain g + 1 - 1).
Proof.
  unfold capture. destruct (g_home _) as [hx hy]. simpl.
  destruct (cell_center hx hy). reflexivity.
Qed.

(** ** Flood fill and pellets *)

Lemma is_open_for_pac_in_bounds cx cy :
  is_open_for_pac cx cy = true -> in_bounds cx cy = true.
Proof.
  unfold is_open_for_pac, is_wall.
  destruct (is_gate_tile cx cy); [discriminate |].
  destruct (in_bounds cx cy); [reflexivity | discriminate].
Qed.

Lemma all_tiles_length : List.length all_tiles = flood_fuel.
Proof. vm_compute. reflexivity. Qed.

(** A duplicate-free list of tiles inside the grid is no longer than the
    grid. *)
Lemma seen_bounded (seen : list Tile) :
  NoDup seen ->
  Forall (fun t => in_bounds (fst t) (snd t) = true) seen ->
  (List.length seen <= flood_fuel)%nat.
Proof.
  intros Hnd Hall. rewrite <- all_tiles_length.
  apply NoDup_incl_length; [exact Hnd |].
  intros [cx cy] Hin. apply In_all_tiles.
  rewrite Forall_forall in Hall. apply (Hall (cx, cy) Hin).
Qed.

Lemma visit_inv x y q seen d :
  flood_inv seen ->
  let st := visit x y (q, seen) d in
  flood_inv (snd st) /\
  (List.length (snd st) + List.length q = List.length seen + List.length (fst st))%nat.
Proof.
  intros [Hnd Hall]. unfold visit.
  set (n := (x + fst d, y + snd d)).
  destruct (mem_tile n seen) eqn:Hm; [simpl; split; [split; assumption | lia] |].
  destruct (in_bounds (fst n) (snd n) && is_open_for_pac (fst n) (snd n)) eqn:Ho;
    [| simpl; split; [split; assumption | lia]].
  simpl. apply andb_true_iff in Ho. destruct Ho as [Hb _].
  apply mem_tile_false in Hm. split; [split |].
  - apply NoDup_app; [exact Hnd | repeat constructor; simpl; tauto |].
    intros a Ha [<- | []]. contradiction.
  - apply Forall_app. split; [exact Hall | constructor; [exact Hb | constructor]].
  - rewrite !length_app. simpl. lia.
Qed.

Lemma visits_inv x y ds : forall q seen,
  flood_inv seen ->
  flood_inv (snd (fold_left (visit x y) ds (q, seen))) /\
  (List.length (snd (fold_left (visit x y) ds (q, seen))) + List.length q =
   List.length seen + List.length (fst (fold_left (visit x y) ds (q, seen))))%nat.
Proof.
  induction ds as [| d ds IH]; intros q seen Hinv.
  - simpl. split; [exact Hinv | lia].
  - change (fold_left (visit x y) (d :: ds) (q, seen))
      with (fold_left (visit x y) ds (visit x y (q, seen) d)).
    pose proof (visit_inv x y q seen d Hinv) as [Hinv1 Hlen1].
    destruct (visit x y (q, seen) d) as [q1 seen1].
    cbn [fst snd] in Hinv1, Hlen1.
    pose proof (IH q1 seen1 Hinv1) as [Hinv2 Hlen2].
    split; [exact Hinv2 | lia].
Qed.

Lemma flood_loop_terminates fuel : forall q seen,
  flood_inv seen ->
  (flood_fuel - List.length seen + List.length q <= fuel)%nat ->
  exists r, flood_loop fuel q seen = Some r.
Proof.
  induction fuel as [| fuel IH]; intros q seen Hinv Hfuel.
  - destruct q as [| [x y] q]; [exists seen; reflexivity |].
    cbn [List.length] in Hfuel. lia.
  - destruct q as [| [x y] q]; [exists seen; reflexivity |].
    cbn [flood_loop].
    pose proof (visits_inv x y DIR_LIST q seen Hinv) as [Hinv2 Hlen].
    destruct (fold_left (visit x y) DIR_LIST (q, seen)) as [q2 seen2].
    cbn [fst snd] in Hinv2, Hlen. apply IH; [exact Hinv2 |].
    pose proof (seen_bounded seen2 (proj1 Hinv2) (proj2 Hinv2)).
    pose proof (seen_bounded seen (proj1 Hinv) (proj2 Hinv)).
    cbn [List.length] in Hfuel. lia.
Qed.

(** The flood fill returns for every start tile. *)
Lemma flood_reachable_total start :
  flood_reachable_opt start = Some (flood_reachable start).
Proof.
  unfold flood_reachable. unfold flood_reachable_opt.
  destruct start as [sx sy].
  destruct (negb (is_open_for_pac sx sy)) eqn:Ho; [reflexivity |].
  apply negb_false_iff in Ho.
  destruct (flood_loop_terminates flood_fuel [(sx, sy)] [(sx, sy)]) as [r Hr].
  - split; [repeat constructor; simpl; tauto |].
    constructor; [apply is_open_for_pac_in_bounds; exact Ho | constructor].
  - assert (Hpos : Nat.eqb flood_fuel 0 = false) by (vm_compute; reflexivity).
    apply Nat.eqb_neq in Hpos. cbn [List.length]. lia.
  - rewrite Hr. reflexivity.
Qed.

Lemma flood_start_closed :
  step_closed (flood_reachable pick_start_tile_pac) = true.
Proof. vm_compute. reflexivity. Qed.

Lemma flood_start_linked :
  match flood_reachable pick_start_tile_pac with
  | [] => false
  | s :: rest =>
      tile_eqb s pick_start_tile_pac && is_open_for_pac (fst s) (snd s) &&
      linked [s] rest
  end = true.
Proof. vm_compute. reflexivity. Qed.

Lemma linked_sound start : forall l before,
  (forall t, In t before -> pac_reach start t) ->
  linked before l = true ->
  forall t, In t l -> pac_reach start t.
Proof.
  induction l as [| a l IH]; intros before Hb Hl t Ht; [contradiction |].
  cbn [linked] in Hl. apply andb_true_iff in Hl. destruct Hl as [Hl Hrest].
  apply andb_true_iff in Hl. destruct Hl as [Hopen Hex].
  assert (Ha : pac_reach start a).
  { apply existsb_exists in Hex. destruct Hex as [d [Hd Hm]].
    apply mem_tile_In in Hm. apply Hb in Hm.
    pose proof (pr_step start _ d Hm Hd) as Hstep. cbn [fst snd] in Hstep.
    replace (fst a - fst d + fst d) with (fst a) in Hstep by lia.
    replace (snd a - snd d + snd d) with (snd a) in Hstep by lia.
    destruct a as [ax ay]. apply Hstep. exact Hopen. }
  destruct Ht as [<- | Ht]; [exact Ha |].
  apply (IH (a :: before)); [| exact Hrest | exact Ht].
  intros u [<- | Hu]; [exact Ha | apply Hb; exact Hu].
Qed.

Lemma step_closed_complete start l :
  In start l -> step_closed l = true ->
  forall t, pac_reach start t -> In t l.
Proof.
  intros Hs Hc t Hr. induction Hr as [Ho | t d _ IH Hd Ho]; [exact Hs |].
  unfold step_closed in Hc. rewrite forallb_forall in Hc.
  specialize (Hc t IH). rewrite forallb_forall in Hc.
  specialize (Hc d Hd). rewrite Ho in Hc. apply mem_tile_In. exact Hc.
Qed.

(** The flood fill from the player's start tile finds exactly the tiles
    joined to it through tiles open for the player. *)
Lemma flood_reachable_start t :
  In t (flood_reachable pick_start_tile_pac) <-> pac_reach pick_start_tile_pac t.
Proof.
  pose proof flood_start_linked as Hl. pose proof flood_start_closed as Hc.
  destruct (flood_reachable pick_start_tile_pac) as [| s rest]; [discriminate |].
  apply andb_true_iff in Hl. destruct Hl as [Hl Hrest].
  apply andb_true_iff in Hl. destruct Hl as [Hs Ho].
  apply tile_eqb_eq in Hs. subst s.
  assert (Hstart : pac_reach pick_start_tile_pac pick_start_tile_pac)
    by (apply pr_start; exact Ho).
  split.
  - intros [<- | Ht]; [exact Hstart |].
    apply (linked_sound _ rest [pick_start_tile_pac]); [| exact Hrest | exact Ht].
    intros u [<- | []]. exact Hstart.
  - apply step_closed_complete; [left; reflexivity | exact Hc].
Qed.

Lemma set_add_tile_In c l t : In t (set_add_tile c l) <-> In t l \/ t = c.
Proof.
  unfold set_add_tile. destruct (mem_tile c l) eqn:Hm.
  - apply mem_tile_In in Hm. split; [tauto |]. intros [H | ->]; assumption.
  - rewrite in_app_iff. simpl. intuition.
Qed.

Lemma set_discard_tile_In c l t : In t (set_discard_tile c l) <-> In t l /\ t <> c.
Proof.
  unfold set_discard_tile. rewrite filter_In. split.
  - intros [Hin Hn]. split; [exact Hin |]. intros ->.
    rewrite tile_eqb_refl in Hn. discriminate.
  - intros [Hin Hn]. split; [exact Hin |].
    destruct (tile_eqb c t) eqn:E; [| reflexivity].
    apply tile_eqb_eq in E. congruence.
Qed.

Lemma plain_pellets_In r : forall acc t,
  In t (fold_left (fun p (c : Tile) =>
                     if in_house (fst c) (snd c) then p else set_add_tile c p) r acc)
  <-> In t acc \/ (In t r /\ in_house (fst t) (snd t) = false).
Proof.
  induction r as [| c r IH]; intros acc t; cbn [fold_left].
  - simpl. tauto.
  - rewrite IH. destruct (in_house (fst c) (snd c)) eqn:Hh.
    + simpl. split; [tauto |]. intros [H | [[<- | H] Hf]]; try tauto. congruence.
    + rewrite set_add_tile_In. simpl. split.
      * intros [[H | ->] | [H Hf]]; tauto.
      * intros [H | [[<- | H] Hf]]; tauto.
Qed.

Lemma power_fold_In r cands : forall pp t,
  let res := fold_left
               (fun (pp : list Tile * list Tile) c =>
                  if mem_tile c r
                  then (set_discard_tile c (fst pp), set_add_tile c (snd pp))
                  else pp) cands pp in
  (In t (fst res) <-> In t (fst pp) /\ ~ (In t cands /\ In t r)) /\
  (In t (snd res) <-> In t (snd pp) \/ (In t cands /\ In t r)).
Proof.
  induction cands as [| c cands IH]; intros pp t; cbn [fold_left].
  - simpl. tauto.
  - specialize (IH (if mem_tile c r
                    then (set_discard_tile c (fst pp), set_add_tile c (snd pp))
                    else pp) t).
    cbv zeta in IH. destruct IH as [IH1 IH2]. cbv zeta.
    rewrite IH1, IH2. clear IH1 IH2.
    destruct (mem_tile c r) eqn:Hm; cbn [fst snd].
    + apply mem_tile_In in Hm.
      rewrite set_discard_tile_In, set_add_tile_In. simpl. split.
      * split; [intros [[H1 H2] H3]; split; [exact H1 |]; intros [[E | H4] H5];
                [congruence | tauto] |].
        intros [H1 H2]. split; [split; [exact H1 |] |]; [intros -> |]; tauto.
      * split; [intros [[H | ->] | H]; tauto |].
        intros [H | [[<- | H4] H5]]; tauto.
    + apply mem_tile_false in Hm. simpl. split.
      * split; [intros [H1 H2]; split; [exact H1 |]; intros [[<- | H4] H5]; tauto |].
        intros [H1 H2]. split; [exact H1 | tauto].
      * split; [tauto |]. intros [H | [[<- | H4] H5]]; tauto.
Qed.

Lemma build_pellets_In r t :
  (In t (fst (build_pellets r)) <->
   In t r /\ in_house (fst t) (snd t) = false /\ ~ In t power_candidates) /\
  (In t (snd (build_pellets r)) <-> In t r /\ In t power_candidates).
Proof.
  unfold build_pellets.
  pose proof (power_fold_In r power_candidates
    (fold_left (fun p (c : Tile) =>
                  if in_house (fst c) (snd c) then p else set_add_tile c p) r [], []) t)
    as Hp.
  cbv zeta in Hp. destruct Hp as [Hp1 Hp2].
  cbn [fst snd] in Hp1, Hp2. rewrite plain_pellets_In in Hp1.
  split.
  - rewrite Hp1. split.
    + intros [[[] | [Hr Hh]] Hn]. tauto.
    + intros [Hr [Hh Hn]]. split; [right; tauto | tauto].
  - rewrite Hp2. split.
    + intros [[] | [Hc Hr]]. tauto.
    + intros [Hr Hc]. right. tauto.
Qed.

Lemma power_candidates_outside_house t :
  In t power_candidates -> in_house (fst t) (snd t) = false.
Proof.
  intros Ht. simpl in Ht.
  destruct Ht as [<- | [<- | [<- | [<- | []]]]]; reflexivity.
Qed.

Lemma reset_level_layout g :
  pellets (reset_level g) = fst (build_pellets (flood_reachable pick_start_tile_pac)) /\
  power (reset_level g) = snd (build_pellets (flood_reachable pick_start_tile_pac)).
Proof.
  unfold reset_level. cbv zeta.
  destruct (build_pellets (flood_reachable pick_start_tile_pac)) as [pe po].
  destruct (cell_center (fst pick_start_tile_pac) (snd pick_start_tile_pac)) as [x y].
  split; reflexivity.
Qed.

(** C8. After [reset_level] the pellets and power pellets together are
    exactly the tiles outside the house box that are joined to the player's
    start tile through tiles open for the player; no tile is in both sets;
    and a corner candidate is a power pellet exactly when it is so joined,
    and is never a plain pellet. *)
Theorem level_start_layout :
  forall g,
    let s := reset_level g in
    (forall t, In t (pellets s) \/ In t (power s) <->
               pac_reach pick_start_tile_pac t /\ in_house (fst t) (snd t) = false) /\
    (forall t, ~ (In t (pellets s) /\ In t (power s))) /\
    (forall c, In c power_candidates ->
               (In c (power s) <-> pac_reach pick_start_tile_pac c) /\
               ~ In c (pellets s)) /\
    (forall t, In t (power s) -> In t power_candidates).
Proof.
  intros g s. unfold s. clear s.
  destruct (reset_level_layout g) as [Epe Epo].
  assert (Hpe := fun t => proj1 (build_pellets_In (flood_reachable pick_start_tile_pac) t)).
  assert (Hpo := fun t => proj2 (build_pellets_In (flood_reachable pick_start_tile_pac) t)).
  rewrite <- Epe in Hpe. rewrite <- Epo in Hpo. clear Epe Epo.
  assert (Hfl := flood_reachable_start).
  generalize dependent (flood_reachable pick_start_tile_pac). intros fl Hpe Hpo Hfl.
  generalize dependent (pellets (reset_level g)). intros pe Hpe.
  generalize dependent (power (reset_level g)). intros po Hpo.
  split; [| split; [| split]].
  - intros t. split.
    + intros [H | H].
      * apply Hpe in H. split; [apply Hfl; tauto | tauto].
      * apply Hpo in H.
        split; [apply Hfl; tauto | apply power_candidates_outside_house; tauto].
    + intros [Hr Hh]. apply Hfl in Hr.
      destruct (mem_tile t power_candidates) eqn:E;
        [apply mem_tile_In in E | apply mem_tile_false in E].
      * right. apply Hpo. tauto.
      * left. apply Hpe. tauto.
  - intros t [H1 H2]. apply Hpe in H1. apply Hpo in H2. tauto.
  - intros c Hc. split; [split |].
    + intros H. apply Hpo in H. apply Hfl. tauto.
    + intros H. apply Hpo. split; [apply Hfl; exact H | exact Hc].
    + intros H. apply Hpe in H. tauto.
  - intros t H. apply Hpo in H. tauto.
Qed.

(** ** Standing masks: facts checked on the whole screen *)

Lemma turns_along_band_all :
  forallb (fun p => turns_along_band (fst p) (snd p)) all_pixels = true.
Proof. vm_compute. reflexivity. Qed.

Lemma center_step_matches_tile_all :
  forallb center_step_matches_tile all_tiles = true.
Proof. vm_compute. reflexivity. Qed.

Lemma start_px_value : start_px = (58, 60).
Proof. reflexivity. Qed.

Lemma start_on_mask : can_stand pac_mask 58 60 = true.
Proof. vm_compute. reflexivity. Qed.

Lemma homes_on_mask n :
  can_stand ghost_mask (fst (cell_center (fst (GHOST_HOME_TILES n)) (snd (GHOST_HOME_TILES n))))
                       (snd (cell_center (fst (GHOST_HOME_TILES n)) (snd (GHOST_HOME_TILES n))))
  = true.
Proof. destruct n; vm_compute; reflexivity. Qed.

Lemma DIR_LIST_cases (d : Dir) :
  In d DIR_LIST -> d = DIR_L \/ d = DIR_R \/ d = DIR_U \/ d = DIR_D.
Proof. simpl. intuition. Qed.

Lemma turn_along_band x y w :
  can_stand pac_mask x y = true ->
  In w DIR_LIST ->
  can_stand pac_mask (x + fst w) (y + snd w) = true ->
  (fst w <> 0 -> Z.even y = true) /\ (snd w <> 0 -> x mod 4 = 2).
Proof.
  intros Hs Hw Hn.
  pose proof (on_every_pixel _ turns_along_band_all pac_mask x y Hs) as Hp.
  unfold turns_along_band in Hp. rewrite Hs in Hp. cbn [implb] in Hp.
  rewrite forallb_forall in Hp. specialize (Hp w Hw).
  rewrite Hn in Hp. cbn [implb] in Hp.
  apply andb_true_iff in Hp. destruct Hp as [H1 H2]. split.
  - intros Hne. destruct (fst w =? 0) eqn:E; [apply Z.eqb_eq in E; contradiction |].
    exact H1.
  - intros Hne. destruct (snd w =? 0) eqn:E; [apply Z.eqb_eq in E; contradiction |].
    apply Z.eqb_eq. exact H2.
Qed.

Lemma cell_center_y_even cx cy : Z.even (snd (cell_center cx cy)) = true.
Proof.
  unfold cell_center, OY, CELL_Y. cbn [snd].
  replace (1 + cy * 2 + 2 / 2) with (2 * (cy + 1)) by (change (2 / 2) with 1; lia).
  rewrite Z.even_mul. reflexivity.
Qed.

Lemma tunnel_wrap_y x y dirx :
  snd (tunnel_wrap_on_centerline x y dirx) = y \/
  Z.even (snd (tunnel_wrap_on_centerline x y dirx)) = true.
Proof.
  unfold tunnel_wrap_on_centerline.
  destruct (px_to_cell x y) as [cx cy].
  destruct (negb (mem_Z cy TUNNEL_ROWS)); [left; reflexivity |].
  pose proof (cell_center_y_even 0 cy) as Hl.
  pose proof (cell_center_y_even (COLS - 1) cy) as Hr.
  destruct (cell_center 0 cy) as [lx ly], (cell_center (COLS - 1) cy) as [rx ry].
  cbn [snd] in Hl, Hr.
  destruct ((dirx <? 0) && (x <=? lx)); [right; exact Hr |].
  destruct ((0 <? dirx) && (rx <=? x)); right; exact Hl.
Qed.

(** ** Preservation of the invariant *)

#[global] Opaque centerline_masks.
Arguments can_stand : simpl never.

Lemma ghost_name_eqb_eq a b : ghost_name_eqb a b = true <-> a = b.
Proof. destruct a, b; simpl; split; intros H; try reflexivity; discriminate. Qed.

Lemma ghost_ok_upd (f : GhostName -> Ghost) name gh :
  (forall n, ghost_ok n (f n)) -> ghost_ok name gh ->
  forall n, ghost_ok n (upd f name gh n).
Proof.
  intros Hf Hg n. unfold upd. destruct (ghost_name_eqb n name) eqn:E.
  - apply ghost_name_eqb_eq in E. subst. exact Hg.
  - apply Hf.
Qed.

Lemma Inv0_frame g g' :
  pcore g' = pcore g ->
  (forall n, ghost_ok n (ghosts g' n)) ->
  Inv0 g -> Inv0 g'.
Proof.
  unfold pcore. intros Hc Hg [Hp [_ Hw]].
  injection Hc as Hx Hy Hd Hwa Hwt.
  unfold Inv0. rewrite Hx, Hy, Hd, Hwa, Hwt. auto.
Qed.

Lemma player_ok_start : player_ok (fst start_px) (snd start_px) DIR_L DIR_L.
Proof.
  unfold player_ok. cbn [fst snd start_px].
  split; [exact start_on_mask |].
  repeat split; simpl; tauto.
Qed.

Lemma home_ghost_ok n gh :
  g_home gh = GHOST_HOME_TILES n ->
  ghost_ok n (ghost_fright 0 (ghost_dir DIR_U
    (ghost_at (fst (cell_center (fst (g_home gh)) (snd (g_home gh))))
              (snd (cell_center (fst (g_home gh)) (snd (g_home gh)))) gh))).
Proof.
  intros Hh. unfold ghost_ok. cbn [g_x g_y g_home ghost_fright ghost_dir ghost_at].
  rewrite Hh. split; [apply homes_on_mask | reflexivity].
Qed.

(** *** Resets *)

Lemma reset_ghost_effect g name :
  pcore (reset_ghost g name) = pcore g /\
  dead (reset_ghost g name) = dead g /\
  score (reset_ghost g name) = score g /\
  hiscore (reset_ghost g name) = hiscore g /\
  lives (reset_ghost g name) = lives g /\
  level (reset_ghost g name) = level g /\
  fright_chain (reset_ghost g name) = fright_chain g /\
  p_acc (reset_ghost g name) = p_acc g /\
  pellets (reset_ghost g name) = pellets g /\
  power (reset_ghost g name) = power g /\
  (forall n, ghosts (reset_ghost g name) n =
             if ghost_name_eqb n name
             then mkGhost (fst (cell_center (fst (GHOST_HOME_TILES name)) (snd (GHOST_HOME_TILES name))))
                          (snd (cell_center (fst (GHOST_HOME_TILES name)) (snd (GHOST_HOME_TILES name))))
                          DIR_U 0%Q (GHOST_HOME_TILES name)
             else ghosts g n) /\
  (forall n, g_acc (reset_ghost g name) n =
             if ghost_name_eqb n name then 0%Q else g_acc g n).
Proof.
  unfold reset_ghost. destruct (GHOST_HOME_TILES name) as [hx hy].
  cbn [fst snd]. destruct (cell_center hx hy) as [gx gy].
  repeat split.
Qed.

Lemma reset_ghosts_effect names : forall g,
  let g' := fold_left reset_ghost names g in
  pcore g' = pcore g /\
  dead g' = dead g /\ score g' = score g /\ hiscore g' = hiscore g /\
  lives g' = lives g /\ level g' = level g /\
  fright_chain g' = fright_chain g /\ p_acc g' = p_acc g /\
  pellets g' = pellets g /\ power g' = power g /\
  (forall n, reset_done names n = true ->
             ghosts g' n =
             mkGhost (fst (cell_center (fst (GHOST_HOME_TILES n)) (snd (GHOST_HOME_TILES n))))
                     (snd (cell_center (fst (GHOST_HOME_TILES n)) (snd (GHOST_HOME_TILES n))))
                     DIR_U 0%Q (GHOST_HOME_TILES n) /\
             g_acc g' n = 0%Q) /\
  (forall n, reset_done names n = false ->
             ghosts g' n = ghosts g n /\ g_acc g' n = g_acc g n).
Proof.
  induction names as [| name names IH] using rev_ind; intros g g'.
  - unfold g'. simpl. repeat split; intros; discriminate.
  - unfold g'. rewrite fold_left_app. cbn [fold_left].
    specialize (IH g). cbv zeta in IH.
    set (g1 := fold_left reset_ghost names g) in *.
    destruct IH as (I1 & I2 & I3 & I4 & I5 & I6 & I7 & I8 & I9 & I10 & I11 & I12).
    destruct (reset_ghost_effect g1 name)
      as (E1 & E2 & E3 & E4 & E5 & E6 & E7 & E8 & E9 & E10 & E11 & E12).
    repeat (split; [congruence |]).
    split; intros n H; unfold reset_done in H; rewrite existsb_app in H;
      cbn [existsb] in H; rewrite orb_false_r in H.
    + rewrite E11, E12. destruct (ghost_name_eqb n name) eqn:En.
      * apply ghost_name_eqb_eq in En. subst. split; reflexivity.
      * rewrite orb_false_r in H. apply I11. exact H.
    + apply orb_false_iff in H. destruct H as [H1 H2].
      rewrite E11, E12, H2. apply I12. exact H1.
Qed.

Lemma reset_done_all n : reset_done GHOSTS n = true.
Proof. destruct n; reflexivity. Qed.

(** Everything [reset_level] leaves behind. *)
Lemma reset_level_effect g :
  let s := reset_level g in
  (px s = fst start_px /\ py s = snd start_px) /\ dir s = DIR_L /\ want s = DIR_L /\
  p_acc s = 0%Q /\ waiting s = true /\ fright_chain s = 0 /\
  menu s = false /\ menu_idx s = 0 /\
  dead s = dead g /\ score s = score g /\ hiscore s = hiscore g /\
  lives s = lives g /\ level s = level g /\
  (forall n,
     ghosts s n =
     mkGhost (fst (cell_center (fst (GHOST_HOME_TILES n)) (snd (GHOST_HOME_TILES n))))
             (snd (cell_center (fst (GHOST_HOME_TILES n)) (snd (GHOST_HOME_TILES n))))
             DIR_U 0%Q (GHOST_HOME_TILES n) /\
     g_acc s n = 0%Q).
Proof.
  unfold reset_level. cbv zeta.
  destruct (build_pellets (flood_reachable pick_start_tile_pac)) as [pe po].
  fold start_px. destruct start_px as [x y] eqn:Hs.
  match goal with
  | |- context [fold_left reset_ghost GHOSTS ?g0] =>
      pose proof (reset_ghosts_effect GHOSTS g0) as Hf; cbv zeta in Hf;
      set (g1 := fold_left reset_ghost GHOSTS g0) in *; clearbody g1
  end.
  destruct Hf as (I1 & I2 & I3 & I4 & I5 & I6 & I7 & I8 & I9 & I10 & I11 & I12).
  unfold pcore in I1. cbn in I1, I2, I3, I4, I5, I6, I8.
  injection I1 as Hx Hy Hd Hw _.
  cbn. rewrite Hx, Hy, Hd, Hw, I2, I3, I4, I5, I6, I8.
  repeat split; intros; apply (I11 n (reset_done_all n)).
Qed.

#[global] Opaque reset_level.

Lemma home_center_ok n :
  ghost_ok n
    (mkGhost (fst (cell_center (fst (GHOST_HOME_TILES n)) (snd (GHOST_HOME_TILES n))))
             (snd (cell_center (fst (GHOST_HOME_TILES n)) (snd (GHOST_HOME_TILES n))))
             DIR_U 0%Q (GHOST_HOME_TILES n)).
Proof. split; [apply homes_on_mask | reflexivity]. Qed.

Lemma Inv0_reset_level g : Inv0 (reset_level g).
Proof.
  pose proof (reset_level_effect g) as He. cbv zeta in He.
  destruct He as ([Hx Hy] & Hd & Hw & _ & Hwt & _ & _ & _ & _ & _ & _ & _ & _ & Hg).
  unfold Inv0. rewrite Hx, Hy, Hd, Hw.
  split; [exact player_ok_start |]. split.
  - intros n. rewrite (proj1 (Hg n)). apply home_center_ok.
  - intros _. destruct start_px; reflexivity.
Qed.

Lemma Inv_reset_level g :
  (dead g = true -> score g <= hiscore g) -> Inv (reset_level g).
Proof.
  intros Hd. split; [apply Inv0_reset_level |].
  pose proof (reset_level_effect g) as He. cbv zeta in He.
  destruct He as (_ & _ & _ & _ & _ & _ & _ & _ & E1 & E2 & E3 & _).
  rewrite E1, E2, E3. exact Hd.
Qed.

Lemma Inv_new_game hs : Inv (new_game hs).
Proof. unfold new_game. apply Inv_reset_level. cbn. discriminate. Qed.

Lemma new_game_effect hs :
  let s := new_game hs in
  score s = 0 /\ hiscore s = hs /\ lives s = 3 /\ level s = 1 /\
  dead s = false /\ waiting s = true /\ fright_chain s = 0 /\
  (px s = fst start_px /\ py s = snd start_px) /\ dir s = DIR_L /\
  (forall n,
     (g_x (ghosts s n), g_y (ghosts s n)) =
       cell_center (fst (GHOST_HOME_TILES n)) (snd (GHOST_HOME_TILES n)) /\
     g_dir (ghosts s n) = DIR_U /\ g_fright (ghosts s n) = 0%Q).
Proof.
  unfold new_game.
  match goal with
  | |- context [reset_level ?g0] =>
      pose proof (reset_level_effect g0) as He; cbv zeta in He;
      set (s := reset_level g0) in *; clearbody s
  end.
  destruct He as (Hp & Hd & Hw & _ & Hwt & Hc & _ & _ & E1 & E2 & E3 & E4 & E5 & Hg).
  cbn in E1, E2, E3, E4, E5. cbv zeta.
  repeat split; try assumption; try apply Hp;
    destruct (Hg n) as [-> _]; cbn; try reflexivity.
Qed.

#[global] Opaque new_game.

Lemma respawn_ghost_effect g name :
  pcore (respawn_ghost g name) = pcore g /\
  dead (respawn_ghost g name) = dead g /\
  score (respawn_ghost g name) = score g /\
  hiscore (respawn_ghost g name) = hiscore g /\
  lives (respawn_ghost g name) = lives g /\
  level (respawn_ghost g name) = level g /\
  fright_chain (respawn_ghost g name) = fright_chain g /\
  (forall n, ghosts (respawn_ghost g name) n =
             if ghost_name_eqb n name
             then ghost_fright 0 (ghost_dir DIR_U
                    (ghost_at
                       (fst (cell_center (fst (g_home (ghosts g name))) (snd (g_home (ghosts g name)))))
                       (snd (cell_center (fst (g_home (ghosts g name))) (snd (g_home (ghosts g name)))))
                       (ghosts g name)))
             else ghosts g n).
Proof.
  unfold respawn_ghost. destruct (g_home (ghosts g name)) as [hx hy].
  cbn [fst snd]. destruct (cell_center hx hy) as [x y].
  repeat split.
Qed.

Lemma respawn_ghosts_effect names : forall g,
  (forall n, ghost_ok n (ghosts g n)) ->
  let g' := fold_left respawn_ghost names g in
  pcore g' = pcore g /\
  dead g' = dead g /\ score g' = score g /\ hiscore g' = hiscore g /\
  lives g' = lives g /\ level g' = level g /\
  fright_chain g' = fright_chain g /\
  (forall n, ghost_ok n (ghosts g' n)) /\
  (forall n, reset_done names n = true ->
     (g_x (ghosts g' n), g_y (ghosts g' n)) =
       cell_center (fst (GHOST_HOME_TILES n)) (snd (GHOST_HOME_TILES n)) /\
     g_dir (ghosts g' n) = DIR_U /\ g_fright (ghosts g' n) = 0%Q).
Proof.
  induction names as [| name names IH] using rev_ind; intros g Hg g'.
  - unfold g'. simpl. repeat split; try apply Hg; discriminate.
  - unfold g'. rewrite fold_left_app. cbn [fold_left].
    specialize (IH g Hg). cbv zeta in IH.
    set (g1 := fold_left respawn_ghost names g) in *. clearbody g1.
    destruct IH as (I1 & I2 & I3 & I4 & I5 & I6 & I7 & I8 & I9).
    destruct (respawn_ghost_effect g1 name)
      as (E1 & E2 & E3 & E4 & E5 & E6 & E7 & E8).
    assert (Hh : g_home (ghosts g1 name) = GHOST_HOME_TILES name) by apply I8.
    repeat (split; [congruence |]).
    split.
    + intros n. rewrite E8. destruct (ghost_name_eqb n name) eqn:En; [| apply I8].
      apply ghost_name_eqb_eq in En. subst n. split.
      * cbn [g_x g_y ghost_fright ghost_dir ghost_at]. rewrite Hh. apply homes_on_mask.
      * exact Hh.
    + intros n H. rewrite E8. unfold reset_done in H. rewrite existsb_app in H.
      cbn [existsb] in H. rewrite orb_false_r in H.
      destruct (ghost_name_eqb n name) eqn:En.
      * apply ghost_name_eqb_eq in En. subst n.
        cbn [g_x g_y g_dir g_fright ghost_fright ghost_dir ghost_at]. rewrite Hh.
        destruct (cell_center _ _); repeat split.
      * rewrite orb_false_r in H. apply (I9 n H).
Qed.

(** Everything [respawn] leaves behind. *)
Lemma respawn_effect g :
  (forall n, ghost_ok n (ghosts g n)) ->
  let s := respawn g in
  (px s = fst start_px /\ py s = snd start_px) /\ dir s = DIR_L /\ want s = DIR_L /\
  waiting s = true /\ fright_chain s = 0 /\
  dead s = dead g /\ score s = score g /\ hiscore s = hiscore g /\
  lives s = lives g /\ level s = level g /\
  (forall n, ghost_ok n (ghosts s n)) /\
  (forall n,
     (g_x (ghosts s n), g_y (ghosts s n)) =
       cell_center (fst (GHOST_HOME_TILES n)) (snd (GHOST_HOME_TILES n)) /\
     g_dir (ghosts s n) = DIR_U /\ g_fright (ghosts s n) = 0%Q).
Proof.
  intros Hg. unfold respawn. cbv zeta.
  fold start_px. destruct start_px as [x y] eqn:Hs.
  match goal with
  | |- context [fold_left respawn_ghost GHOSTS ?g0] =>
      pose proof (respawn_ghosts_effect GHOSTS g0 Hg) as Hf; cbv zeta in Hf;
      set (g1 := fold_left respawn_ghost GHOSTS g0) in *; clearbody g1
  end.
  destruct Hf as (I1 & I2 & I3 & I4 & I5 & I6 & I7 & I8 & I9).
  unfold pcore in I1. cbn in I1, I2, I3, I4, I5, I6.
  injection I1 as Hx Hy Hd Hw _.
  cbn. rewrite Hx, Hy, Hd, Hw, I2, I3, I4, I5, I6.
  repeat split; try apply I8; apply (I9 n (reset_done_all n)).
Qed.

#[global] Opaque respawn.

Lemma Inv_respawn g :
  (forall n, ghost_ok n (ghosts g n)) ->
  (dead g = true -> score g <= hiscore g) ->
  Inv (respawn g).
Proof.
  intros Hg Hd. pose proof (respawn_effect g Hg) as He. cbv zeta in He.
  destruct He as ([Hx Hy] & Hdir & Hw & Hwt & _ & E1 & E2 & E3 & _ & _ & Hgo & _).
  split.
  - unfold Inv0. rewrite Hx, Hy, Hdir, Hw.
    split; [exact player_ok_start |]. split; [exact Hgo |].
    intros _. destruct start_px; reflexivity.
  - rewrite E1, E2, E3. exact Hd.
Qed.

(** *** The input phase *)

Lemma Inv_menu_toggle e now g : Inv g -> Inv (menu_toggle e now g).
Proof.
  intros H. unfold menu_toggle.
  destruct (_ && _); [| exact H].
  cbn. destruct (negb (menu g)); exact H.
Qed.

Lemma Inv_waiting_start e g : Inv g -> Inv (waiting_start e g).
Proof.
  intros H. unfold waiting_start.
  destruct (waiting g && negb (menu g) && negb (dead g)) eqn:Hc; [| exact H].
  apply andb_true_iff in Hc. destruct Hc as [Hc _].
  apply andb_true_iff in Hc. destruct Hc as [Hw _].
  pose proof H as H'.
  destruct H as [[Hp [Hg Hwt]] Hd].
  specialize (Hwt Hw). rewrite start_px_value in Hwt. injection Hwt as Hx Hy.
  destruct Hp as (Hs & _ & _ & _ & _).
  assert (Hok : forall d, d = DIR_L \/ d = DIR_R -> player_ok (px g) (py g) d d).
  { intros d Hdd. unfold player_ok. split; [exact Hs |].
    rewrite Hy.
    destruct Hdd as [-> | ->];
      (split; [simpl; tauto |]; split; [simpl; tauto |]; split;
       [intros _; reflexivity | intros Hne; exfalso; apply Hne; reflexivity]). }
  destruct (ev_left e); [| destruct (ev_right e)].
  - split; [split; [apply Hok; tauto | split; [exact Hg | discriminate]] | exact Hd].
  - split; [split; [apply Hok; tauto | split; [exact Hg | discriminate]] | exact Hd].
  - exact H'.
Qed.

Lemma flush_hiscore_Inv g file : Inv g -> Inv (fst (flush_hiscore (g, file))).
Proof.
  intros [H0 Hd]. unfold flush_hiscore.
  destruct (hiscore g <? score g); cbn [fst]; [| split; assumption].
  split; [exact H0 |]. cbn. lia.
Qed.

Lemma inl_pair_inj {A B C : Type} (a a' : A) (b b' : B) :
  @inl (A * B) C (a, b) = inl (a', b') -> a = a' /\ b = b'.
Proof.
  intros E. split.
  - exact (f_equal (fun x : A * B + C => match x with inl p => fst p | inr _ => a end) E).
  - exact (f_equal (fun x : A * B + C => match x with inl p => snd p | inr _ => b end) E).
Qed.

Lemma Inv_menu_actions e g file g' file' :
  Inv g -> menu_actions e (g, file) = inl (g', file') -> Inv g'.
Proof.
  intros H. unfold menu_actions.
  destruct (menu g); [| intros E; apply inl_pair_inj in E; destruct E as [<- _]; exact H].
  cbv zeta.
  match goal with
  | |- context [if ev_b e || ev_y e then set_menu false ?x else _] => set (g3 := x)
  end.
  assert (H2 : Inv g3). { unfold g3. destruct (ev_up e), (ev_down e); exact H. }
  clearbody g3.
  remember (if ev_b e || ev_y e then set_menu false g3 else g3) as g4 eqn:E4.
  assert (H3 : Inv g4) by (subst g4; destruct (ev_b e || ev_y e); exact H2).
  clear E4.
  destruct (ev_a e || ev_x e);
    [| intros E; apply inl_pair_inj in E; destruct E as [<- _]; exact H3].
  remember (nth (Z.to_nat (menu_idx g4)) MENU_ITEMS EmptyString) as choice eqn:Ec. clear Ec.
  destruct (String.eqb choice "RESUME");
    [intros E; apply inl_pair_inj in E; destruct E as [<- _]; exact H3 |].
  destruct (String.eqb choice "RESTART").
  - destruct (flush_hiscore (g4, file)) as [g5 f5].
    intros E. apply inl_pair_inj in E. destruct E as [<- _]. apply Inv_new_game.
  - destruct (String.eqb choice "EXIT"); [discriminate |].
    intros E; apply inl_pair_inj in E; destruct E as [<- _]; exact H3.
Qed.

Lemma Inv_dpad_intent e g : Inv g -> Inv (dpad_intent e g).
Proof.
  intros H. unfold dpad_intent.
  destruct (negb (waiting g) && negb (menu g) && negb (dead g)); [| exact H].
  destruct H as [[Hp [Hg Hw]] Hd].
  assert (Hset : forall w g0, In w DIR_LIST -> Inv g0 -> Inv (set_want w g0)).
  { intros w g0 Hin [[Hp0 [Hg0 Hw0]] Hd0].
    split; [split; [| split; [exact Hg0 | exact Hw0]] | exact Hd0].
    unfold player_ok in *. cbn. tauto. }
  assert (H0 : Inv g) by (split; [split; [| split] |]; assumption).
  set (g1 := if ev_left e then _ else g).
  assert (H1 : Inv g1)
    by (unfold g1; destruct (ev_left e); [apply Hset; [simpl; tauto |] |]; exact H0).
  clearbody g1.
  set (g2 := if ev_right e then _ else g1).
  assert (H2 : Inv g2)
    by (unfold g2; destruct (ev_right e); [apply Hset; [simpl; tauto |] |]; exact H1).
  clearbody g2.
  set (g3 := if ev_up e then _ else g2).
  assert (H3 : Inv g3)
    by (unfold g3; destruct (ev_up e); [apply Hset; [simpl; tauto |] |]; exact H2).
  clearbody g3.
  destruct (ev_down e); [apply Hset; [simpl; tauto |] |]; exact H3.
Qed.

Lemma Inv_death_handling elapsed g file :
  Inv g -> Inv (fst (death_handling elapsed (g, file))).
Proof.
  intros H. unfold death_handling.
  destruct (dead g) eqn:Hdead; [| exact H].
  cbn [dead_t set_dead_t].
  destruct (Qle_bool 1 (Qred (dead_t g + elapsed))); [| exact H].
  match goal with
  | |- context [if lives ?g0 <=? 0 then _ else _] => set (g1 := g0)
  end.
  assert (Hg1 : forall n, ghost_ok n (ghosts g1 n)) by (apply H).
  assert (Hd1 : dead g1 = true -> score g1 <= hiscore g1) by (cbn; discriminate).
  clearbody g1.
  destruct (lives g1 <=? 0).
  - destruct (flush_hiscore (g1, file)) as [g4 f4]. cbn [fst]. apply Inv_new_game.
  - cbn [fst]. apply Inv_respawn; assumption.
Qed.

(** *** The gameplay block *)


Lemma latch_dir_effect g :
  dir (latch_dir g) =
    (if can_stand pac_mask (px g + fst (want g)) (py g + snd (want g))
     then want g else dir g) /\
  px (latch_dir g) = px g /\ py (latch_dir g) = py g /\
  want (latch_dir g) = want g /\ waiting (latch_dir g) = waiting g /\
  level (latch_dir g) = level g /\ lives (latch_dir g) = lives g /\
  ghosts (latch_dir g) = ghosts g /\ dead (latch_dir g) = dead g /\
  score (latch_dir g) = score g /\ hiscore (latch_dir g) = hiscore g /\
  pellets (latch_dir g) = pellets g /\ power (latch_dir g) = power g.
Proof.
  unfold latch_dir. destruct (want g) as [wx wy] eqn:Hw. cbn [fst snd].
  destruct (can_stand pac_mask (px g + wx) (py g + wy)); cbn; rewrite ?Hw;
    repeat split.
Qed.

Lemma Inv0_latch_dir g : Inv0 g -> Inv0 (latch_dir g).
Proof.
  intros [Hp [Hg Hw]].
  destruct (latch_dir_effect g)
    as (Ed & Ex & Ey & Ew & Ewt & _ & _ & Eg & _).
  unfold Inv0. rewrite Ex, Ey, Ew, Ewt, Eg, Ed.
  split; [| split; assumption].
  destruct (can_stand pac_mask (px g + fst (want g)) (py g + snd (want g))) eqn:Hc;
    [| exact Hp].
  destruct Hp as (Hs & Hd & Hwa & _ & _).
  pose proof (turn_along_band _ _ _ Hs Hwa Hc) as [H1 H2].
  unfold player_ok. tauto.
Qed.

Lemma player_ok_step x y d w :
  player_ok x y d w ->
  let p := if negb (fst d =? 0) then tunnel_wrap_on_centerline x y (fst d) else (x, y) in
  player_ok (fst p) (snd p) d w /\
  (can_stand pac_mask (fst p + fst d) (snd p + snd d) = true ->
   player_ok (fst p + fst d) (snd p + snd d) d w).
Proof.
  intros (Hs & Hd & Hw & He & Hm) p.
  assert (Hp : player_ok (fst p) (snd p) d w).
  { unfold p. destruct (fst d =? 0) eqn:E; cbn [negb fst snd].
    - unfold player_ok. tauto.
    - apply Z.eqb_neq in E. unfold player_ok.
      split; [apply wrap_stays_on_mask; [exact wrap_stays_on_pac | exact Hs] |].
      split; [exact Hd |]. split; [exact Hw |]. split.
      + intros _. destruct (tunnel_wrap_y x y (fst d)) as [-> | Hev];
          [apply He; exact E | exact Hev].
      + intros Hsd. exfalso.
        destruct (DIR_LIST_cases d Hd) as [-> | [-> | [-> | ->]]];
          cbn in E, Hsd; congruence. }
  split; [exact Hp |]. intros Hc.
  destruct Hp as (_ & _ & _ & He' & Hm').
  unfold player_ok. split; [exact Hc |]. split; [exact Hd |]. split; [exact Hw |].
  destruct (DIR_LIST_cases d Hd) as [-> | [-> | [-> | ->]]]; cbn [fst snd DIR_L DIR_R DIR_U DIR_D] in *;
    (split; [intros Hne; try (exfalso; apply Hne; reflexivity);
             rewrite Z.add_0_r; apply He'; discriminate
            | intros Hne; try (exfalso; apply Hne; reflexivity);
              rewrite Z.add_0_r; apply Hm'; discriminate]).
Qed.

Lemma pac_step_effect g :
  static (pac_step g) = static g /\
  ghosts (pac_step g) = ghosts g /\ dead (pac_step g) = dead g /\
  score (pac_step g) = score g /\ hiscore (pac_step g) = hiscore g /\
  pellets (pac_step g) = pellets g /\ power (pac_step g) = power g /\
  p_acc (pac_step g) = p_acc g /\
  (player_ok (px g) (py g) (dir g) (want g) ->
   player_ok (px (pac_step g)) (py (pac_step g)) (dir g) (want g)).
Proof.
  unfold pac_step, static. destruct (dir g) as [dx dy] eqn:Hd.
  assert (Hstep := player_ok_step (px g) (py g) (dx, dy) (want g)).
  cbn [fst snd] in Hstep.
  destruct (negb (dx =? 0)).
  - destruct (tunnel_wrap_on_centerline (px g) (py g) dx) as [x y].
    cbn [fst snd] in Hstep. cbn [px py set_pos].
    destruct (can_stand pac_mask (x + dx) (y + dy)) eqn:Hc; cbn;
      rewrite ?Hd; split_eqs; intros Hp; apply Hstep in Hp; tauto.
  - cbn [fst snd] in Hstep.
    destruct (can_stand pac_mask (px g + dx) (py g + dy)) eqn:Hc; cbn;
      rewrite ?Hd; split_eqs; intros Hp; apply Hstep in Hp; tauto.
Qed.

Lemma pac_loop_effect fuel : forall g,
  static (pac_loop fuel g) = static g /\
  ghosts (pac_loop fuel g) = ghosts g /\ dead (pac_loop fuel g) = dead g /\
  score (pac_loop fuel g) = score g /\ hiscore (pac_loop fuel g) = hiscore g /\
  pellets (pac_loop fuel g) = pellets g /\ power (pac_loop fuel g) = power g /\
  (player_ok (px g) (py g) (dir g) (want g) ->
   player_ok (px (pac_loop fuel g)) (py (pac_loop fuel g)) (dir g) (want g)).
Proof.
  induction fuel as [| fuel IH]; intros g; cbn [pac_loop].
  - split_eqs. tauto.
  - destruct (Qle_bool 1 (p_acc g)); [| split_eqs; tauto].
    set (g1 := set_p_acc (Qred (p_acc g - 1)) g).
    destruct (pac_step_effect g1) as (S1 & S2 & S3 & S4 & S5 & S6 & S7 & _ & S8).
    destruct (IH (pac_step g1)) as (I1 & I2 & I3 & I4 & I5 & I6 & I7 & I8).
    rewrite I1, I2, I3, I4, I5, I6, I7, S1, S2, S3, S4, S5, S6, S7.
    split_eqs.
    intros Hp. apply S8 in Hp.
    unfold static in S1. injection S1 as E1 E2 _ _ _.
    rewrite E1, E2 in I8. apply I8 in Hp. exact Hp.
Qed.

Lemma pac_move_effect elapsed g :
  static (pac_move elapsed g) = static g /\
  ghosts (pac_move elapsed g) = ghosts g /\ dead (pac_move elapsed g) = dead g /\
  score (pac_move elapsed g) = score g /\ hiscore (pac_move elapsed g) = hiscore g /\
  pellets (pac_move elapsed g) = pellets g /\ power (pac_move elapsed g) = power g /\
  (Inv0 g -> waiting g = false -> Inv0 (pac_move elapsed g)).
Proof.
  unfold pac_move. cbv zeta.
  match goal with
  | |- context [pac_loop ?f ?g0] =>
      destruct (pac_loop_effect f g0) as (I1 & I2 & I3 & I4 & I5 & I6 & I7 & I8);
      set (g1 := pac_loop f g0) in *; clearbody g1
  end.
  cbn in I1, I2, I3, I4, I5, I6, I7, I8.
  repeat (split; [assumption |]).
  intros [Hp [Hg Hw]] Hwt. unfold static in I1. injection I1 as E1 E2 E3 _ _.
  unfold Inv0. rewrite E1, E2, E3, I2.
  split; [apply I8; exact Hp |]. split; [exact Hg |].
  rewrite Hwt. discriminate.
Qed.

Lemma same_place_ok n gh gh' : same_place gh gh' -> ghost_ok n gh -> ghost_ok n gh'.
Proof. intros (Ex & Ey & Eh) [Hs Hh]. unfold ghost_ok. rewrite Ex, Ey, Eh. tauto. Qed.

Lemma eat_effect g :
  static (eat g) = static g /\ px (eat g) = px g /\ py (eat g) = py g /\
  dead (eat g) = dead g /\ hiscore (eat g) = hiscore g /\
  (forall n, same_place (ghosts g n) (ghosts (eat g) n)).
Proof.
  unfold eat.
  destruct (px_to_cell (px g) (py g)) as [cx cy].
  destruct (cell_center cx cy) as [txc tyc].
  destruct ((px g =? txc) && (py g =? tyc));
    [| split_eqs; intros; repeat split].
  cbv zeta.
  destruct (mem_tile (cx, cy) (pellets g)); cbn [power set_score set_pellets];
    destruct (mem_tile (cx, cy) (power g)); cbn;
    split_eqs; intros; repeat split.
Qed.

Lemma fright_decay_effect elapsed g :
  static (fright_decay elapsed g) = static g /\
  px (fright_decay elapsed g) = px g /\ py (fright_decay elapsed g) = py g /\
  dead (fright_decay elapsed g) = dead g /\
  score (fright_decay elapsed g) = score g /\
  hiscore (fright_decay elapsed g) = hiscore g /\
  pellets (fright_decay elapsed g) = pellets g /\
  power (fright_decay elapsed g) = power g /\
  (forall n, same_place (ghosts g n) (ghosts (fright_decay elapsed g) n)).
Proof.
  unfold fright_decay. cbn.
  repeat (split; [reflexivity |]). intros n.
  destruct (Qltb 0 (g_fright (ghosts g n))); repeat split.
Qed.

Lemma ghost_decide_place pac_px r gh : same_place gh (ghost_decide pac_px r gh).
Proof.
  unfold ghost_decide.
  destruct (is_at_tile_center (g_x gh) (g_y gh)); [| repeat split].
  destruct (px_to_cell (g_x gh) (g_y gh)) as [gcx gcy].
  destruct (in_house gcx gcy && negb (Qltb 0 (g_fright gh))); [| repeat split].
  destruct (can_stand ghost_mask (g_x gh) (g_y gh - 1)); [repeat split |].
  destruct (cell_center (fst HOUSE_EXIT_TILE) (snd HOUSE_EXIT_TILE)).
  repeat split.
Qed.

Lemma ghost_loop_ok n fuel : forall gh acc,
  ghost_ok n gh -> ghost_ok n (fst (ghost_loop fuel gh acc)).
Proof.
  induction fuel as [| fuel IH]; intros gh acc Hok; cbn [ghost_loop]; [exact Hok |].
  destruct (Qle_bool 1 acc); [| exact Hok].
  destruct (g_dir gh) as [ddx ddy].
  assert (Hw : ghost_ok n
                 (if negb (ddx =? 0)
                  then let '(x, y) := tunnel_wrap_on_centerline (g_x gh) (g_y gh) ddx in
                       ghost_at x y gh
                  else gh)).
  { destruct (negb (ddx =? 0)); [| exact Hok].
    destruct Hok as [Hs Hh].
    pose proof (wrap_stays_on_mask ghost_mask (g_x gh) (g_y gh) ddx
                  wrap_stays_on_ghost Hs) as Hm.
    destruct (tunnel_wrap_on_centerline (g_x gh) (g_y gh) ddx) as [x y].
    split; [exact Hm | exact Hh]. }
  match goal with
  | |- context [if can_stand ghost_mask (g_x ?w + ddx) (g_y ?w + ddy) then _ else _] =>
      set (gw := w) in *
  end.
  clearbody gw.
  destruct (can_stand ghost_mask (g_x gw + ddx) (g_y gw + ddy)) eqn:Hc; [| exact Hw].
  apply IH. split; [exact Hc | apply Hw].
Qed.

Lemma set_ghost_effect name gh acc g :
  let g' := set_g_acc (upd (g_acc g) name acc) (set_ghost name gh g) in
  static g' = static g /\ px g' = px g /\ py g' = py g /\
  dead g' = dead g /\ score g' = score g /\ hiscore g' = hiscore g /\
  fright_chain g' = fright_chain g /\
  pellets g' = pellets g /\ power g' = power g /\
  ghosts g' = upd (ghosts g) name gh.
Proof. cbv zeta. repeat split. Qed.

Lemma capture_effect name g :
  static (capture name g) = static g /\
  px (capture name g) = px g /\ py (capture name g) = py g /\
  dead (capture name g) = dead g /\ hiscore (capture name g) = hiscore g /\
  pellets (capture name g) = pellets g /\ power (capture name g) = power g /\
  ghosts (capture name g) =
    upd (ghosts g) name
      (ghost_fright 0 (ghost_dir DIR_U
         (ghost_at
            (fst (cell_center (fst (g_home (ghosts g name))) (snd (g_home (ghosts g name)))))
            (snd (cell_center (fst (g_home (ghosts g name))) (snd (g_home (ghosts g name)))))
            (ghosts g name)))).
Proof.
  unfold capture. cbv zeta. cbn [ghosts set_score set_fright_chain].
  destruct (g_home (ghosts g name)) as [hx hy]. cbn [fst snd].
  destruct (cell_center hx hy) as [x y]. repeat split.
Qed.

Lemma Inv0_capture name g : Inv0 g -> Inv0 (capture name g).
Proof.
  intros H.
  destruct (capture_effect name g) as (E1 & E2 & E3 & _ & _ & _ & _ & E4).
  apply (Inv0_frame g); [| | exact H].
  - unfold pcore. unfold static in E1. injection E1 as D1 D2 D3 _ _.
    rewrite E2, E3, D1, D2, D3. reflexivity.
  - rewrite E4. apply ghost_ok_upd; [apply H |].
    apply home_ghost_ok. apply H.
Qed.

(** What one ghost's pass does to the rest of the game. *)
Lemma ghost_turn_effect elapsed speed pac_px r g name :
  let g' := fst (ghost_turn elapsed speed pac_px r g name) in
  static g' = static g /\ px g' = px g /\ py g' = py g /\
  hiscore g' = hiscore g /\ pellets g' = pellets g /\ power g' = power g /\
  (dead g = true -> dead g' = true) /\
  (snd (ghost_turn elapsed speed pac_px r g name) = true -> dead g' = true) /\
  (Inv0 g -> Inv0 g').
Proof.
  unfold ghost_turn. cbv zeta.
  pose proof (ghost_decide_place pac_px r (ghosts g name)) as Hd.
  set (gh1 := ghost_decide pac_px r (ghosts g name)) in *. clearbody gh1.
  match goal with
  | |- context [ghost_loop ?f gh1 ?a] =>
      pose proof (fun n => ghost_loop_ok n f gh1 a) as Hl;
      destruct (ghost_loop f gh1 a) as [gh2 acc2]
  end.
  cbn [fst] in Hl.
  destruct (set_ghost_effect name gh2 acc2 g)
    as (S1 & S2 & S3 & S4 & S5 & S6 & S7 & S8 & S9 & S10).
  set (g1 := set_g_acc (upd (g_acc g) name acc2) (set_ghost name gh2 g)) in *.
  clearbody g1.
  assert (H1 : Inv0 g -> Inv0 g1).
  { intros H. apply (Inv0_frame g); [| | exact H].
    - unfold pcore. unfold static in S1. injection S1 as D1 D2 D3 _ _.
      rewrite S2, S3, D1, D2, D3. reflexivity.
    - rewrite S10. apply ghost_ok_upd; [apply H |].
      apply Hl. apply (same_place_ok _ _ _ Hd). apply H. }
  destruct (collide (px g1) (py g1) (g_x gh2) (g_y gh2) 1).
  - destruct (Qltb 0 (g_fright (ghosts g name))); cbn [fst snd].
    + destruct (capture_effect name g1) as (C1 & C2 & C3 & C4 & C5 & C6 & C7 & _).
      rewrite C1, C2, C3, C4, C5, C6, C7, S1, S2, S3, S4, S6, S8, S9.
      split_eqs. split; [tauto |]. split; [discriminate |].
      intros H. apply Inv0_capture. apply H1. exact H.
    + repeat (split;
                [first [rewrite <- S1 | rewrite <- S2 | rewrite <- S3
                       | rewrite <- S6 | rewrite <- S8 | rewrite <- S9];
                 reflexivity |]).
      split; [reflexivity |]. split; [reflexivity |].
      intros H. apply H1 in H. exact H.
  - cbn [fst snd]. rewrite S1, S2, S3, S4, S6, S8, S9. split_eqs.
    split; [tauto |]. split; [discriminate |]. exact H1.
Qed.

Lemma ghosts_loop_effect names elapsed speed pac_px r : forall g,
  let g' := ghosts_loop names elapsed speed pac_px r g in
  static g' = static g /\ px g' = px g /\ py g' = py g /\
  hiscore g' = hiscore g /\ pellets g' = pellets g /\ power g' = power g /\
  (dead g = true -> dead g' = true) /\
  (Inv0 g -> Inv0 g').
Proof.
  induction names as [| n names IH]; intros g; cbn [ghosts_loop].
  - cbv zeta. split_eqs. tauto.
  - pose proof (ghost_turn_effect elapsed speed pac_px (r n) g n) as Ht.
    cbv zeta in Ht.
    destruct (ghost_turn elapsed speed pac_px (r n) g n) as [g1 brk].
    cbn [fst snd] in Ht.
    destruct Ht as (T1 & T2 & T3 & T4 & T5 & T6 & T7 & T8 & T9).
    destruct brk.
    + cbv zeta. repeat (split; [assumption |]). exact T9.
    + specialize (IH g1). cbv zeta in IH.
      destruct IH as (I1 & I2 & I3 & I4 & I5 & I6 & I7 & I8).
      cbv zeta. rewrite I1, I2, I3, I4, I5, I6, T1, T2, T3, T4, T5, T6.
      split_eqs. split; [tauto | tauto].
Qed.

Lemma track_hiscore_effect g :
  static (track_hiscore g) = static g /\
  px (track_hiscore g) = px g /\ py (track_hiscore g) = py g /\
  dead (track_hiscore g) = dead g /\ score (track_hiscore g) = score g /\
  ghosts (track_hiscore g) = ghosts g /\
  pellets (track_hiscore g) = pellets g /\ power (track_hiscore g) = power g /\
  score (track_hiscore g) <= hiscore (track_hiscore g).
Proof.
  unfold track_hiscore. destruct (hiscore g <? score g) eqn:E; cbn; split_eqs.
  - lia.
  - apply Z.ltb_ge in E. exact E.
Qed.

(** What the gameplay block up to the level check does to the fields the
    later properties read. *)
Lemma play_effect elapsed r g :
  let g' := play elapsed r g in
  dir g' = dir (latch_dir g) /\ want g' = want g /\ waiting g' = waiting g /\
  level g' = level g /\ lives g' = lives g /\
  score g' <= hiscore g' /\
  (dead g = true -> dead g' = true) /\
  (Inv0 g -> waiting g = false -> Inv0 g').
Proof.
  unfold play. cbv zeta.
  destruct (latch_dir_effect g)
    as (L1 & L2 & L3 & L4 & L5 & L6 & L7 & L8 & L9 & _).
  pose proof (Inv0_latch_dir g) as HL.
  set (g1 := latch_dir g) in *. clearbody g1.
  destruct (pac_move_effect elapsed g1) as (M1 & M2 & M3 & _ & _ & _ & _ & M8).
  set (g2 := pac_move elapsed g1) in *. clearbody g2.
  destruct (eat_effect g2) as (A1 & A2 & A3 & A4 & _ & A6).
  set (g3 := eat g2) in *. clearbody g3.
  destruct (fright_decay_effect elapsed g3) as (F1 & F2 & F3 & F4 & _ & _ & _ & _ & F9).
  set (g4 := fright_decay elapsed g3) in *. clearbody g4.
  match goal with
  | |- context [ghosts_loop GHOSTS elapsed ?sp ?pp r g4] =>
      pose proof (ghosts_loop_effect GHOSTS elapsed sp pp r g4) as HG;
      cbv zeta in HG;
      set (g5 := ghosts_loop GHOSTS elapsed sp pp r g4) in *; clearbody g5
  end.
  destruct HG as (G1 & G2 & G3 & _ & _ & _ & G7 & G8).
  destruct (track_hiscore_effect g5) as (T1 & T2 & T3 & T4 & _ & T6 & _ & _ & T9).
  set (g6 := track_hiscore g5) in *. clearbody g6.
  assert (Hst : static g6 = static g1) by congruence.
  unfold static in Hst. injection Hst as D1 D2 D3 D4 D5.
  split; [exact D1 |]. split; [congruence |]. split; [congruence |].
  split; [congruence |]. split; [congruence |]. split; [exact T9 |].
  split; [intros Hd; rewrite T4; apply G7; congruence |].
  intros H0 Hw.
  assert (H1 : Inv0 g1) by (apply HL; exact H0).
  assert (H2 : Inv0 g2) by (apply M8; [exact H1 | congruence]).
  assert (H3 : Inv0 g3).
  { apply (Inv0_frame g2); [| | exact H2].
    - unfold pcore. unfold static in A1. injection A1 as B1 B2 B3 _ _.
      rewrite A2, A3, B1, B2, B3. reflexivity.
    - intros n. apply (same_place_ok _ _ _ (A6 n)). apply H2. }
  assert (H4 : Inv0 g4).
  { apply (Inv0_frame g3); [| | exact H3].
    - unfold pcore. unfold static in F1. injection F1 as B1 B2 B3 _ _.
      rewrite F2, F3, B1, B2, B3. reflexivity.
    - intros n. apply (same_place_ok _ _ _ (F9 n)). apply H3. }
  assert (H5 : Inv0 g5) by (apply G8; exact H4).
  apply (Inv0_frame g5); [| | exact H5].
  - unfold pcore. unfold static in T1. injection T1 as B1 B2 B3 _ _.
    rewrite T2, T3, B1, B2, B3. reflexivity.
  - rewrite T6. apply H5.
Qed.

Lemma Inv_next_level g : Inv g -> Inv (next_level g).
Proof.
  intros H. unfold next_level. destruct (level_cleared g); [| exact H].
  apply Inv_reset_level. exact (proj2 H).
Qed.

Lemma Inv_gameplay elapsed r g :
  Inv0 g -> waiting g = false -> Inv (gameplay elapsed r g).
Proof.
  intros H0 Hw. unfold gameplay. apply Inv_next_level.
  pose proof (play_effect elapsed r g) as Hp. cbv zeta in Hp.
  destruct Hp as (_ & _ & _ & _ & _ & Hs & _ & Hi).
  split; [apply Hi; assumption | intros _; exact Hs].
Qed.

Lemma death_handling_alive elapsed g file :
  dead g = false -> death_handling elapsed (g, file) = (g, file).
Proof. intros Hd. unfold death_handling. rewrite Hd. reflexivity. Qed.

Lemma Inv_frame elapsed r g file :
  Inv g -> Inv (fst (frame elapsed r (g, file))).
Proof.
  intros H. unfold frame. cbn [fst snd].
  destruct (is_paused g) eqn:Hp; cbn [pause_time].
  - pose proof (Inv_death_handling elapsed
                  (set_time_offset (Qred (time_offset g + elapsed)) g) file H) as Hd.
    destruct (death_handling elapsed _) as [g1 f1]. exact Hd.
  - unfold is_paused in Hp. apply orb_false_iff in Hp. destruct Hp as [Hp Hdead].
    apply orb_false_iff in Hp. destruct Hp as [Hw _].
    rewrite (death_handling_alive elapsed g file Hdead). cbn [negb fst].
    apply Inv_gameplay; [exact (proj1 H) | exact Hw].
Qed.

Lemma Continue_inj l l' : Continue l = Continue l' -> l = l'.
Proof.
  intros E.
  exact (f_equal (fun o => match o with Continue x => x | Exit _ => l end) E).
Qed.

Lemma Inv_loop_iter l i l' :
  Inv (game l) -> loop_iter l i = Continue l' -> Inv (game l').
Proof.
  intros H. unfold loop_iter. cbv zeta.
  pose proof (Inv_waiting_start (ev i) _ (Inv_menu_toggle (ev i) (t_pop i) _ H)) as H1.
  set (g1 := waiting_start (ev i) (menu_toggle (ev i) (t_pop i) (game l))) in *.
  clearbody g1.
  pose proof (Inv_menu_actions (ev i) g1 (hiscore_file l)) as Hm.
  destruct (menu_actions (ev i) (g1, hiscore_file l)) as [[g2 f2] | f2];
    [| discriminate].
  specialize (Hm g2 f2 H1 eq_refl).
  pose proof (Inv_dpad_intent (ev i) g2 Hm) as H3.
  set (g3 := dpad_intent (ev i) g2) in *. clearbody g3.
  destruct (Qltb (t_frame i - last l) dt).
  - intros E. apply Continue_inj in E. subst l'. exact H3.
  - pose proof (Inv_frame (Qred (t_frame i - last l)) (rnd i) g3 f2 H3) as H4.
    destruct (frame (Qred (t_frame i - last l)) (rnd i) (g3, f2)) as [g4 f4].
    intros E. apply Continue_inj in E. subst l'. exact H4.
Qed.

(** The invariant holds in every state the loop can be in. *)
Lemma reachable_Inv l : reachable l -> Inv (game l).
Proof.
  induction 1 as [file t0 | l i l' _ IH Hstep].
  - apply Inv_new_game.
  - apply (Inv_loop_iter l i l' IH Hstep).
Qed.

Lemma run_reachable ins : forall l l',
  reachable l -> run l ins = Continue l' -> reachable l'.
Proof.
  induction ins as [| i ins IH]; intros l l' Hr; cbn [run].
  - intros E. apply Continue_inj in E. subst. exact Hr.
  - destruct (loop_iter l i) as [l1 | f] eqn:Hs; [| discriminate].
    apply IH. apply (reach_step l i l1 Hr Hs).
Qed.

(** ** Entities stay on their masks *)

Lemma pac_step_on_mask g :
  can_stand pac_mask (px g) (py g) = true ->
  can_stand pac_mask (px (pac_step g)) (py (pac_step g)) = true.
Proof.
  intros Hs. unfold pac_step. destruct (dir g) as [dx dy].
  destruct (negb (dx =? 0)).
  - pose proof (wrap_stays_on_mask pac_mask (px g) (py g) dx wrap_stays_on_pac Hs) as Hw.
    destruct (tunnel_wrap_on_centerline (px g) (py g) dx) as [x y].
    cbn [fst snd] in Hw. cbn [px py set_pos].
    destruct (can_stand pac_mask (x + dx) (y + dy)) eqn:Hc; cbn [px py set_pos];
      assumption.
  - destruct (can_stand pac_mask (px g + dx) (py g + dy)) eqn:Hc; cbn [px py set_pos];
      assumption.
Qed.

Lemma ghost_loop_on_mask fuel : forall gh acc,
  can_stand ghost_mask (g_x gh) (g_y gh) = true ->
  can_stand ghost_mask (g_x (fst (ghost_loop fuel gh acc)))
                       (g_y (fst (ghost_loop fuel gh acc))) = true.
Proof.
  intros gh acc Hs.
  assert (Hok : ghost_ok blinky (ghost_home (GHOST_HOME_TILES blinky) gh))
    by (split; [exact Hs | reflexivity]).
  pose proof (ghost_loop_ok blinky fuel (ghost_home (GHOST_HOME_TILES blinky) gh) acc Hok)
    as [Hm _].
  assert (Hsame : forall f g0 a h,
            g_x (fst (ghost_loop f (ghost_home h g0) a)) = g_x (fst (ghost_loop f g0 a)) /\
            g_y (fst (ghost_loop f (ghost_home h g0) a)) = g_y (fst (ghost_loop f g0 a))).
  { induction f as [| f IH]; intros g0 a h; cbn [ghost_loop]; [split; reflexivity |].
    destruct (Qle_bool 1 a); [| split; reflexivity].
    cbn [g_dir ghost_home g_x g_y].
    destruct (g_dir g0) as [ddx ddy].
    destruct (negb (ddx =? 0)).
    - destruct (tunnel_wrap_on_centerline (g_x g0) (g_y g0) ddx) as [x y].
      cbn [g_x g_y ghost_at].
      destruct (can_stand ghost_mask (x + ddx) (y + ddy)); [| split; reflexivity].
      apply (IH (ghost_at (x + ddx) (y + ddy) (ghost_at x y g0)) _ h).
    - cbn [g_x g_y ghost_home].
      destruct (can_stand ghost_mask (g_x g0 + ddx) (g_y g0 + ddy)); [| split; reflexivity].
      apply (IH (ghost_at (g_x g0 + ddx) (g_y g0 + ddy) g0) _ h). }
  destruct (Hsame fuel gh acc (GHOST_HOME_TILES blinky)) as [Ex Ey].
  rewrite <- Ex, <- Ey. exact Hm.
Qed.

(** C1. In every state the loop can be in, the player stands on the player
    mask and every ghost on the ghost mask; and each way an entity is
    moved keeps it there: the tunnel wrap, the player's step, the ghost's
    stepping loop, and the placements made by a level reset and by a
    respawn. *)
Theorem entities_stay_on_masks :
  forall l,
    reachable l ->
    on_masks (game l) /\
    (forall x y dirx,
        (can_stand pac_mask x y = true ->
         can_stand pac_mask (fst (tunnel_wrap_on_centerline x y dirx))
                            (snd (tunnel_wrap_on_centerline x y dirx)) = true) /\
        (can_stand ghost_mask x y = true ->
         can_stand ghost_mask (fst (tunnel_wrap_on_centerline x y dirx))
                              (snd (tunnel_wrap_on_centerline x y dirx)) = true)) /\
    (can_stand pac_mask (px (pac_step (game l))) (py (pac_step (game l))) = true) /\
    (forall n fuel acc,
        can_stand ghost_mask
          (g_x (fst (ghost_loop fuel (ghosts (game l) n) acc)))
          (g_y (fst (ghost_loop fuel (ghosts (game l) n) acc))) = true) /\
    on_masks (reset_level (game l)) /\
    on_masks (respawn (game l)).
Proof.
  intros l Hr. pose proof (reachable_Inv l Hr) as [[Hp [Hg Hw]] Hd].
  assert (Hon : forall g, Inv0 g -> on_masks g).
  { intros g [Hp0 [Hg0 _]]. split; [apply Hp0 | intros n; apply Hg0]. }
  split; [apply Hon; exact (conj Hp (conj Hg Hw)) |].
  split.
  { intros x y dirx. split; intros Hs.
    - apply wrap_stays_on_mask; [exact wrap_stays_on_pac | exact Hs].
    - apply wrap_stays_on_mask; [exact wrap_stays_on_ghost | exact Hs]. }
  split; [apply pac_step_on_mask; apply Hp |].
  split; [intros n fuel acc; apply ghost_loop_on_mask; apply Hg |].
  split; [apply Hon; apply Inv0_reset_level |].
  apply Hon. apply (Inv_respawn (game l) Hg Hd).
Qed.

Lemma entities_stay_on_masks_witness :
  on_masks (game (init_loop None 0)).
Proof.
  exact (proj1 (entities_stay_on_masks (init_loop None 0) (reach_init None 0))).
Defined.

(** ** Turning discipline *)

Lemma aligned_is_center_all :
  forallb (fun p => aligned_is_center (fst p) (snd p)) all_pixels = true.
Proof. vm_compute. reflexivity. Qed.

Lemma center_is_open_all :
  forallb (fun p => center_is_open (fst p) (snd p)) all_pixels = true.
Proof. vm_compute. reflexivity. Qed.

Lemma off_center_off_band x y :
  can_stand pac_mask x y = true ->
  is_at_tile_center x y = false ->
  Z.even y = false \/ x mod 4 <> 2.
Proof.
  intros Hs Hc.
  pose proof (on_every_pixel _ aligned_is_center_all pac_mask x y Hs) as Hp.
  unfold aligned_is_center in Hp. rewrite Hs, Hc in Hp.
  destruct (Z.even y); [| left; reflexivity].
  destruct (x mod 4 =? 2) eqn:E; [discriminate |].
  right. apply Z.eqb_neq. exact E.
Qed.

(** Off a tile center the latch keeps the direction or turns it around. *)
Lemma latch_off_center g :
  Inv0 g ->
  is_at_tile_center (px g) (py g) = false ->
  dir (latch_dir g) = dir g \/ dir (latch_dir g) = reverse_dir (dir g).
Proof.
  intros [(Hs & Hd & Hw & He & Hm) _] Hc.
  destruct (latch_dir_effect g) as (Ed & _). rewrite Ed.
  destruct (can_stand pac_mask (px g + fst (want g)) (py g + snd (want g))) eqn:Hn;
    [| left; reflexivity].
  pose proof (turn_along_band _ _ _ Hs Hw Hn) as [H1 H2].
  pose proof (off_center_off_band _ _ Hs Hc) as Hoff.
  destruct (DIR_LIST_cases _ Hd) as [Dd | [Dd | [Dd | Dd]]];
    destruct (DIR_LIST_cases _ Hw) as [Dw | [Dw | [Dw | Dw]]];
    rewrite Dd, Dw in *; cbn [fst snd DIR_L DIR_R DIR_U DIR_D] in *;
    try (left; reflexivity); try (right; reflexivity);
    exfalso;
    (destruct Hoff as [Hoff | Hoff];
     [ first [ rewrite He in Hoff by discriminate; discriminate
             | rewrite H1 in Hoff by discriminate; discriminate ]
     | first [ apply Hoff; apply Hm; discriminate
             | apply Hoff; apply H2; discriminate ] ]).
Qed.

Lemma center_step_tile x y w :
  can_stand pac_mask x y = true ->
  is_at_tile_center x y = true ->
  In w DIR_LIST ->
  can_stand pac_mask (x + fst w) (y + snd w) =
  is_open_for_pac (fst (px_to_cell x y) + fst w) (snd (px_to_cell x y) + snd w).
Proof.
  intros Hs Hc Hw.
  pose proof (on_every_pixel _ center_is_open_all pac_mask x y Hs) as Hp.
  unfold center_is_open in Hp. rewrite Hs, Hc in Hp. cbn [andb implb] in Hp.
  destruct (px_to_cell x y) as [cx cy]. cbn [fst snd].
  apply andb_true_iff in Hp. destruct Hp as [Ho Hcen].
  apply tile_eqb_eq in Hcen.
  pose proof center_step_matches_tile_all as Hall.
  rewrite forallb_forall in Hall.
  assert (Hin : In (cx, cy) all_tiles)
    by (apply In_all_tiles; apply is_open_for_pac_in_bounds; exact Ho).
  specialize (Hall _ Hin). unfold center_step_matches_tile in Hall.
  cbn [fst snd] in Hall. rewrite Ho, Hcen in Hall. cbn [implb] in Hall.
  apply andb_true_iff in Hall. destruct Hall as [_ Hall].
  rewrite forallb_forall in Hall. specialize (Hall w Hw).
  apply Bool.eqb_prop in Hall. exact Hall.
Qed.

Lemma keeps_trans g1 g2 g3 : keeps g1 g2 -> keeps g2 g3 -> keeps g1 g3.
Proof.
  unfold keeps.
  intros (A1 & A2 & A3 & A4 & A5 & A6 & A7 & A8 & A9)
         (B1 & B2 & B3 & B4 & B5 & B6 & B7 & B8 & B9).
  repeat split; congruence.
Qed.

Lemma menu_toggle_keeps e now g : keeps g (menu_toggle e now g).
Proof.
  unfold menu_toggle. destruct (_ && _); [| repeat split].
  cbn. destruct (negb (menu g)); repeat split.
Qed.

Lemma waiting_start_idle e g : waiting g = false -> waiting_start e g = g.
Proof. intros Hw. unfold waiting_start. rewrite Hw. reflexivity. Qed.

Lemma dpad_intent_keeps e g : keeps g (dpad_intent e g).
Proof.
  unfold dpad_intent.
  destruct (negb (waiting g) && negb (menu g) && negb (dead g)); [| repeat split].
  destruct (ev_left e), (ev_right e), (ev_up e), (ev_down e); repeat split.
Qed.

Lemma was_reset_new_game hs : was_reset (new_game hs).
Proof.
  pose proof (new_game_effect hs) as H. cbv zeta in H.
  destruct H as (_ & _ & _ & _ & Hd & Hw & _ & _ & Hdir & _).
  repeat split; assumption.
Qed.

Lemma menu_actions_keeps e g file g' file' :
  menu_actions e (g, file) = inl (g', file') -> keeps g g' \/ was_reset g'.
Proof.
  unfold menu_actions.
  destruct (menu g);
    [| intros E; apply inl_pair_inj in E; destruct E as [<- _]; left; repeat split].
  cbv zeta.
  match goal with
  | |- context [if ev_b e || ev_y e then set_menu false ?x else _] => set (g3 := x)
  end.
  assert (H2 : keeps g g3).
  { unfold g3. destruct (ev_up e), (ev_down e); repeat split. }
  clearbody g3.
  remember (if ev_b e || ev_y e then set_menu false g3 else g3) as g4 eqn:E4.
  assert (H3 : keeps g g4).
  { apply (keeps_trans _ g3); [exact H2 |].
    subst g4; destruct (ev_b e || ev_y e); repeat split. }
  clear E4.
  destruct (ev_a e || ev_x e);
    [| intros E; apply inl_pair_inj in E; destruct E as [<- _]; left; exact H3].
  remember (nth (Z.to_nat (menu_idx g4)) MENU_ITEMS EmptyString) as choice eqn:Ec. clear Ec.
  destruct (String.eqb choice "RESUME").
  { intros E; apply inl_pair_inj in E; destruct E as [<- _]. left.
    apply (keeps_trans _ g4); [exact H3 | repeat split]. }
  destruct (String.eqb choice "RESTART").
  - destruct (flush_hiscore (g4, file)) as [g5 f5].
    intros E. apply inl_pair_inj in E. destruct E as [<- _].
    right. apply was_reset_new_game.
  - destruct (String.eqb choice "EXIT"); [discriminate |].
    intros E; apply inl_pair_inj in E; destruct E as [<- _]; left; exact H3.
Qed.

Lemma death_handling_keeps elapsed g file :
  (forall n, ghost_ok n (ghosts g n)) ->
  let g' := fst (death_handling elapsed (g, file)) in
  (px g' = px g /\ py g' = py g /\ dir g' = dir g /\ waiting g' = waiting g) \/
  (waiting g' = true /\ dir g' = DIR_L).
Proof.
  intros Hg. unfold death_handling.
  destruct (dead g); [| left; repeat split].
  cbn [dead_t set_dead_t].
  destruct (Qle_bool 1 (Qred (dead_t g + elapsed))); [| left; repeat split].
  match goal with
  | |- context [if lives ?g0 <=? 0 then _ else _] => set (g1 := g0)
  end.
  assert (Hg1 : forall n, ghost_ok n (ghosts g1 n)) by exact Hg.
  clearbody g1. right.
  destruct (lives g1 <=? 0).
  - destruct (flush_hiscore (g1, file)) as [g4 f4]. cbn [fst].
    destruct (was_reset_new_game (hiscore g4)) as (Hw & Hd & _). tauto.
  - cbn [fst]. pose proof (respawn_effect g1 Hg1) as He. cbv zeta in He.
    destruct He as (_ & Hd & _ & Hw & _). tauto.
Qed.

Lemma next_level_dir g :
  (dir (next_level g) = dir g /\ waiting (next_level g) = waiting g) \/
  (waiting (next_level g) = true /\ dir (next_level g) = DIR_L).
Proof.
  unfold next_level. destruct (level_cleared g); [| left; split; reflexivity].
  match goal with
  | |- context [reset_level ?g0] =>
      pose proof (reset_level_effect g0) as He; cbv zeta in He
  end.
  destruct He as (_ & Hd & _ & _ & Hw & _). right. tauto.
Qed.

(** C2 (as the code has it). The latch takes the desired direction exactly
    when the pixel one step that way is on the player mask, which at a
    tile center means that the neighbouring tile is open for the player;
    and over a whole pass that starts off a tile center, the direction is
    kept or turned around, unless the pass ends in a reset that leaves
    the game waiting and facing left. *)
Theorem direction_latch_discipline :
  forall l i l',
    reachable l ->
    loop_iter l i = Continue l' ->
    let g := game l in
    let g' := game l' in
    dir (latch_dir g) =
      (if can_stand pac_mask (px g + fst (want g)) (py g + snd (want g))
       then want g else dir g) /\
    (is_at_tile_center (px g) (py g) = true ->
     forall w, In w DIR_LIST ->
       can_stand pac_mask (px g + fst w) (py g + snd w) =
       is_open_for_pac (fst (px_to_cell (px g) (py g)) + fst w)
                       (snd (px_to_cell (px g) (py g)) + snd w)) /\
    (is_at_tile_center (px g) (py g) = false ->
     dir g' = dir g \/ dir g' = reverse_dir (dir g) \/
     (waiting g' = true /\ dir g' = DIR_L)).
Proof.
  intros l i l' Hr Hstep g g'.
  pose proof (reachable_Inv l Hr) as HI. fold g in HI.
  split; [apply latch_dir_effect |].
  split; [intros Hc w Hw; apply center_step_tile; [apply HI | exact Hc | exact Hw] |].
  intros Hc.
  assert (Hwait : waiting g = false).
  { destruct (waiting g) eqn:E; [| reflexivity].
    destruct HI as [[_ [_ Hw]] _]. specialize (Hw E).
    rewrite start_px_value in Hw. injection Hw as Hx Hy.
    rewrite Hx, Hy in Hc. discriminate Hc. }
  revert Hstep. unfold loop_iter. cbv zeta. fold g.
  pose proof (menu_toggle_keeps (ev i) (t_pop i) g) as K1.
  pose proof (Inv_menu_toggle (ev i) (t_pop i) g HI) as I1.
  set (g1 := menu_toggle (ev i) (t_pop i) g) in *. clearbody g1.
  assert (Hw1 : waiting g1 = false) by (destruct K1 as (_ & _ & _ & E & _); congruence).
  rewrite (waiting_start_idle (ev i) g1 Hw1).
  pose proof (Inv_menu_actions (ev i) g1 (hiscore_file l)) as Im.
  pose proof (menu_actions_keeps (ev i) g1 (hiscore_file l)) as Km.
  destruct (menu_actions (ev i) (g1, hiscore_file l)) as [[g2 f2] | f2];
    [| discriminate].
  specialize (Im g2 f2 I1 eq_refl). specialize (Km g2 f2 eq_refl).
  pose proof (dpad_intent_keeps (ev i) g2) as K3.
  pose proof (Inv_dpad_intent (ev i) g2 Im) as I3.
  set (g3 := dpad_intent (ev i) g2) in *. clearbody g3.
  assert (H3 : keeps g g3 \/ was_reset g3).
  { destruct Km as [Km | (R1 & R2 & R3)].
    - left. apply (keeps_trans _ g1); [exact K1 |].
      apply (keeps_trans _ g2); assumption.
    - right. destruct K3 as (_ & _ & E3 & E4 & E5 & _).
      repeat split; congruence. }
  clear K1 Km K3 I1 Im Hw1 g1 g2.
  destruct (Qltb (t_frame i - last l) dt).
  { intros E. apply Continue_inj in E. subst l'. unfold g'. cbn [game].
    destruct H3 as [(_ & _ & E3 & _) | (R1 & R2 & _)]; [left; exact E3 | tauto]. }
  unfold frame. cbn [fst snd].
  destruct (is_paused g3) eqn:Hp; cbn [pause_time].
  - pose proof (death_handling_keeps (Qred (t_frame i - last l))
                  (set_time_offset
                     (Qred (time_offset g3 + Qred (t_frame i - last l))) g3) f2
                  (proj1 (proj2 (proj1 I3)))) as Kd.
    cbv zeta in Kd.
    destruct (death_handling (Qred (t_frame i - last l)) _) as [g4 f4].
    cbn [fst negb px py dir waiting set_time_offset] in *.
    intros E. apply Continue_inj in E. subst l'. unfold g'. cbn [game].
    destruct Kd as [(_ & _ & D3 & D4) | Kd]; [| tauto].
    destruct H3 as [(_ & _ & E3 & _) | (R1 & R2 & _)].
    + left. congruence.
    + right. right. split; congruence.
  - unfold is_paused in Hp. apply orb_false_iff in Hp. destruct Hp as [Hp Hdead].
    apply orb_false_iff in Hp. destruct Hp as [Hw3 _].
    rewrite (death_handling_alive _ g3 f2 Hdead). cbn [negb fst].
    intros E. apply Continue_inj in E. subst l'. unfold g'. cbn [game].
    destruct H3 as [(E1 & E2 & E3 & _) | (R1 & _)]; [| congruence].
    unfold gameplay.
    pose proof (play_effect (Qred (t_frame i - last l)) (rnd i) g3) as Hpl.
    cbv zeta in Hpl. destruct Hpl as (P1 & _ & P3 & _).
    pose proof (next_level_dir (play (Qred (t_frame i - last l)) (rnd i) g3)) as Hn.
    destruct Hn as [[N1 N2] | Hn]; [| tauto].
    assert (Hc3 : is_at_tile_center (px g3) (py g3) = false) by (rewrite E1, E2; exact Hc).
    destruct (latch_off_center g3 (proj1 I3) Hc3) as [Hl | Hl].
    + left. congruence.
    + right. left. congruence.
Qed.

Lemma run_app l ins1 : forall ins2,
  run l (ins1 ++ ins2) =
  match run l ins1 with
  | Continue l' => run l' ins2
  | Exit f => Exit f
  end.
Proof.
  revert l. induction ins1 as [| i ins1 IH]; intros l ins2; cbn [run app].
  - reflexivity.
  - destruct (loop_iter l i) as [l1 | f]; [apply IH | reflexivity].
Qed.

Lemma run_after file ins :
  continues (run (init_loop file 0) ins) = true ->
  run (init_loop file 0) ins = Continue (after file ins).
Proof.
  unfold after. destruct (run (init_loop file 0) ins); [reflexivity | discriminate].
Qed.

Lemma after_reachable file ins :
  continues (run (init_loop file 0) ins) = true -> reachable (after file ins).
Proof.
  intros Hc. apply (run_reachable ins (init_loop file 0));
    [apply reach_init | apply run_after; exact Hc].
Qed.

(** The last pass of a run that continues, seen as one step of the loop. *)
Lemma after_step file ins i :
  continues (run (init_loop file 0) (ins ++ [i])) = true ->
  reachable (after file ins) /\
  loop_iter (after file ins) i = Continue (after file (ins ++ [i])).
Proof.
  intros Hc.
  assert (Ha : run (init_loop file 0) ins = Continue (after file ins)).
  { apply run_after. rewrite run_app in Hc.
    destruct (run (init_loop file 0) ins); [reflexivity | discriminate]. }
  split; [apply (run_reachable ins (init_loop file 0)); [apply reach_init | exact Ha] |].
  pose proof (run_after file (ins ++ [i]) Hc) as Hb.
  rewrite run_app, Ha in Hb. cbn [run] in Hb.
  destruct (loop_iter (after file ins) i); [exact Hb | discriminate].
Qed.

Lemma one_pixel_right_turn :
  continues (run (init_loop None 0) (one_pixel_right ++ [pass press_left 4])) = true.
Proof. vm_compute. reflexivity. Qed.

Lemma direction_latch_discipline_witness :
  let g := game (after None one_pixel_right) in
  let g' := game (after None (one_pixel_right ++ [pass press_left 4])) in
  dir g' = dir g \/ dir g' = reverse_dir (dir g) \/
  (waiting g' = true /\ dir g' = DIR_L).
Proof.
  intros g g'.
  destruct (after_step None one_pixel_right (pass press_left 4) one_pixel_right_turn)
    as [Hr Hs].
  apply (direction_latch_discipline _ _ _ Hr Hs).
  vm_compute. reflexivity.
Defined.

(** C2 fails as stated: one pixel right of the start tile's center, which
    is not a tile center, pressing left turns the player around in that
    very pass, without any reset and without the player moving. *)
Lemma direction_changes_off_center :
  exists l i l',
    reachable l /\ loop_iter l i = Continue l' /\
    is_at_tile_center (px (game l)) (py (game l)) = false /\
    dir (game l) = DIR_R /\ dir (game l') = DIR_L /\
    waiting (game l') = false /\
    (px (game l'), py (game l')) = (px (game l), py (game l)).
Proof.
  exists (after None one_pixel_right), (pass press_left 4),
         (after None (one_pixel_right ++ [pass press_left 4])).
  destruct (after_step None one_pixel_right (pass press_left 4) one_pixel_right_turn)
    as [Hr Hs].
  split; [exact Hr |]. split; [exact Hs |].
  split; [vm_compute; reflexivity |].
  split; [vm_compute; reflexivity |].
  split; [vm_compute; reflexivity |].
  split; vm_compute; reflexivity.
Qed.

(** ** Level completion *)

Lemma level_cleared_nil g :
  level_cleared g = true <-> pellets g = [] /\ power g = [].
Proof.
  unfold level_cleared. rewrite andb_true_iff, !Z.eqb_eq. split.
  - intros [H1 H2]. split; [destruct (pellets g) | destruct (power g)];
      try reflexivity; cbn [List.length] in *; lia.
  - intros [-> ->]. split; reflexivity.
Qed.

Lemma eat_cleared g : level_cleared g = true -> level_cleared (eat g) = true.
Proof.
  intros Hc. apply level_cleared_nil in Hc. destruct Hc as [Hpe Hpo].
  apply level_cleared_nil. unfold eat.
  destruct (px_to_cell (px g) (py g)) as [cx cy].
  destruct (cell_center cx cy) as [txc tyc].
  destruct ((px g =? txc) && (py g =? tyc)); [| split; assumption].
  cbv zeta. rewrite Hpe. cbn [mem_tile existsb]. rewrite Hpo.
  cbn [mem_tile existsb]. split; assumption.
Qed.

Lemma play_cleared elapsed r g :
  level_cleared g = true -> level_cleared (play elapsed r g) = true.
Proof.
  intros Hc. unfold play. cbv zeta.
  destruct (latch_dir_effect g)
    as (_ & _ & _ & _ & _ & _ & _ & _ & _ & _ & _ & L1 & L2).
  set (g1 := latch_dir g) in *. clearbody g1.
  destruct (pac_move_effect elapsed g1) as (_ & _ & _ & _ & _ & M1 & M2 & _).
  set (g2 := pac_move elapsed g1) in *. clearbody g2.
  assert (H2 : level_cleared g2 = true).
  { apply level_cleared_nil. apply level_cleared_nil in Hc.
    rewrite M1, M2, L1, L2. exact Hc. }
  pose proof (eat_cleared g2 H2) as H3.
  set (g3 := eat g2) in *. clearbody g3.
  destruct (fright_decay_effect elapsed g3) as (_ & _ & _ & _ & _ & _ & F1 & F2 & _).
  set (g4 := fright_decay elapsed g3) in *. clearbody g4.
  match goal with
  | |- context [ghosts_loop GHOSTS elapsed ?sp ?pp r g4] =>
      pose proof (ghosts_loop_effect GHOSTS elapsed sp pp r g4) as HG;
      cbv zeta in HG;
      set (g5 := ghosts_loop GHOSTS elapsed sp pp r g4) in *; clearbody g5
  end.
  destruct HG as (_ & _ & _ & _ & G1 & G2 & _).
  destruct (track_hiscore_effect g5) as (_ & _ & _ & _ & _ & _ & T1 & T2 & _).
  apply level_cleared_nil. apply level_cleared_nil in H3.
  rewrite T1, T2, G1, G2, F1, F2. exact H3.
Qed.

Lemma frame_playing elapsed r g file :
  is_paused g = false ->
  frame elapsed r (g, file) = (gameplay elapsed r g, file).
Proof.
  intros Hp. unfold frame. cbn [fst snd]. rewrite Hp. cbn [pause_time].
  unfold is_paused in Hp. apply orb_false_iff in Hp. destruct Hp as [_ Hd].
  rewrite (death_handling_alive elapsed g file Hd). reflexivity.
Qed.

Lemma frame_paused elapsed r g file :
  is_paused g = true ->
  frame elapsed r (g, file) =
  death_handling elapsed (set_time_offset (Qred (time_offset g + elapsed)) g, file).
Proof.
  intros Hp. unfold frame. cbn [fst snd]. rewrite Hp. cbn [pause_time negb].
  destruct (death_handling elapsed _) as [g1 f1]. reflexivity.
Qed.

Lemma next_level_cleared p :
  level_cleared p = true ->
  next_level p = reset_level (set_lives 3 (set_level (level p + 1) p)).
Proof. intros Hc. unfold next_level. rewrite Hc. reflexivity. Qed.

(** C6. In a playing frame in which both sets are empty, already at its
    start or once the player has eaten, the level goes up by one, lives
    become 3, and the level is reset: the sets are rebuilt, the player is
    on the start tile's center facing left with an empty accumulator,
    every ghost is on its home tile's center facing up with no fright and
    an empty accumulator, the chain is 0 and the game is waiting. *)
Theorem level_clear_resets :
  forall elapsed r g file,
    is_paused g = false ->
    (level_cleared g = true \/ level_cleared (play elapsed r g) = true) ->
    let s := fst (frame elapsed r (g, file)) in
    level s = level g + 1 /\ lives s = 3 /\
    pellets s = fst (build_pellets (flood_reachable pick_start_tile_pac)) /\
    power s = snd (build_pellets (flood_reachable pick_start_tile_pac)) /\
    (px s, py s) = start_px /\ dir s = DIR_L /\ want s = DIR_L /\
    p_acc s = 0%Q /\
    (forall n,
       ghosts s n =
         mkGhost (fst (cell_center (fst (GHOST_HOME_TILES n)) (snd (GHOST_HOME_TILES n))))
                 (snd (cell_center (fst (GHOST_HOME_TILES n)) (snd (GHOST_HOME_TILES n))))
                 DIR_U 0%Q (GHOST_HOME_TILES n) /\
       g_acc s n = 0%Q) /\
    fright_chain s = 0 /\ waiting s = true.
Proof.
  intros elapsed r g file Hp Hc s.
  assert (Hc' : level_cleared (play elapsed r g) = true).
  { destruct Hc as [Hc | Hc]; [apply play_cleared; exact Hc | exact Hc]. }
  pose proof (play_effect elapsed r g) as Hpl. cbv zeta in Hpl.
  destruct Hpl as (_ & _ & _ & Hlv & _).
  assert (Hs : s = next_level (play elapsed r g)).
  { unfold s. rewrite (frame_playing elapsed r g file Hp). reflexivity. }
  clearbody s. clear Hc Hp.
  revert Hc' Hlv Hs. generalize (play elapsed r g). intros p Hc' Hlv Hs.
  rewrite (next_level_cleared p Hc') in Hs.
  set (q := set_lives 3 (set_level (level p + 1) p)) in Hs.
  assert (Hq1 : lives q = 3) by reflexivity.
  assert (Hq2 : level q = level p + 1) by reflexivity.
  clearbody q.
  pose proof (reset_level_effect q) as He.
  pose proof (reset_level_layout q) as Hl.
  cbv zeta in He. rewrite <- Hs in He, Hl. clear Hs.
  destruct He as ([Hx Hy] & Hd & Hw & Ha & Hwt & Hch & _ & _ & _ & _ & _ & Hli & Hle & Hg).
  destruct Hl as [Hpe Hpo].
  split; [congruence |]. split; [congruence |]. split; [exact Hpe |].
  split; [exact Hpo |].
  split; [rewrite Hx, Hy; destruct start_px; reflexivity |].
  split; [exact Hd |]. split; [exact Hw |]. split; [exact Ha |].
  split; [exact Hg |]. split; [exact Hch | exact Hwt].
Qed.

Lemma level_clear_resets_witness :
  let g := set_waiting false (set_power [] (set_pellets [] (new_game 0))) in
  level (fst (frame (1 # 50) (fun _ => no_tie_break) (g, None))) = level g + 1 /\
  lives (fst (frame (1 # 50) (fun _ => no_tie_break) (g, None))) = 3.
Proof.
  intros g.
  assert (Hp : is_paused g = false) by (vm_compute; reflexivity).
  assert (Hc : level_cleared g = true) by (vm_compute; reflexivity).
  destruct (level_clear_resets (1 # 50) (fun _ => no_tie_break) g None Hp (or_introl Hc))
    as (H1 & H2 & _).
  split; [exact H1 | exact H2].
Defined.

(** ** Dying, respawn and game over *)

(** A collision with a ghost that is not frightened sets [dead] and leaves
    the ghost loop. *)
Lemma ghost_turn_lethal elapsed speed pac_px r g name :
  let t := ghost_turn elapsed speed pac_px r g name in
  Qltb 0 (g_fright (ghosts g name)) = false ->
  collide (px (fst t)) (py (fst t))
          (g_x (ghosts (fst t) name)) (g_y (ghosts (fst t) name)) 1 = true ->
  dead (fst t) = true /\ snd t = true.
Proof.
  unfold ghost_turn. cbv zeta. intros Hf. rewrite Hf.
  set (gh1 := ghost_decide pac_px r (ghosts g name)). clearbody gh1.
  match goal with
  | |- context [ghost_loop ?f gh1 ?a] => destruct (ghost_loop f gh1 a) as [gh2 acc2]
  end.
  destruct (set_ghost_effect name gh2 acc2 g)
    as (_ & S2 & S3 & _ & _ & _ & _ & _ & _ & S10).
  set (g1 := set_g_acc (upd (g_acc g) name acc2) (set_ghost name gh2 g)) in *.
  assert (Hgh : ghosts g1 name = gh2).
  { rewrite S10. unfold upd. destruct name; reflexivity. }
  clearbody g1.
  destruct (collide (px g1) (py g1) (g_x gh2) (g_y gh2) 1) eqn:Hc; cbn [fst snd].
  - intros _. split; reflexivity.
  - rewrite Hgh, Hc. discriminate.
Qed.

Lemma next_level_dead g : dead (next_level g) = dead g.
Proof.
  unfold next_level. destruct (level_cleared g); [| reflexivity].
  match goal with
  | |- context [reset_level ?g0] =>
      pose proof (reset_level_effect g0) as He; cbv zeta in He
  end.
  destruct He as (_ & _ & _ & _ & _ & _ & _ & _ & E & _). exact E.
Qed.

(** Once set in the ghost loop, [dead] is still set when the frame ends. *)
Lemma dying_persists names elapsed speed pac_px r g :
  dead g = true ->
  dead (next_level (track_hiscore (ghosts_loop names elapsed speed pac_px r g))) = true.
Proof.
  intros Hd. rewrite next_level_dead.
  destruct (track_hiscore_effect (ghosts_loop names elapsed speed pac_px r g))
    as (_ & _ & _ & E & _).
  rewrite E. apply (ghosts_loop_effect names elapsed speed pac_px r g). exact Hd.
Qed.

Lemma frame_dying elapsed r g file :
  dead g = true ->
  frame elapsed r (g, file) =
  death_handling elapsed (set_time_offset (Qred (time_offset g + elapsed)) g, file).
Proof.
  intros Hd. apply frame_paused. unfold is_paused. rewrite Hd.
  apply orb_true_r.
Qed.

Lemma flush_hiscore_noop g file :
  score g <= hiscore g -> flush_hiscore (g, file) = (g, file).
Proof.
  intros H. unfold flush_hiscore.
  destruct (hiscore g <? score g) eqn:E; [| reflexivity].
  apply Z.ltb_lt in E. lia.
Qed.

(** What the frame does while the player is dead: the timer runs, and
    when it reaches one second a life is taken; with lives left the
    player and the ghosts are put back and the game waits; with none left
    the high score is flushed by [flush_hiscore] and a new game starts. *)
Lemma dying_expiry elapsed r g file :
  dead g = true ->
  (forall n, ghost_ok n (ghosts g n)) ->
  let s := fst (frame elapsed r (g, file)) in
  let f := snd (frame elapsed r (g, file)) in
  (Qle_bool 1 (Qred (dead_t g + elapsed)) = false ->
   dead s = true /\ lives s = lives g /\ f = file) /\
  (Qle_bool 1 (Qred (dead_t g + elapsed)) = true ->
   (1 < lives g ->
    lives s = lives g - 1 /\ dead s = false /\ waiting s = true /\
    (px s = fst start_px /\ py s = snd start_px) /\ dir s = DIR_L /\
    (forall n,
       (g_x (ghosts s n), g_y (ghosts s n)) =
         cell_center (fst (GHOST_HOME_TILES n)) (snd (GHOST_HOME_TILES n)) /\
       g_dir (ghosts s n) = DIR_U /\ g_fright (ghosts s n) = 0%Q) /\
    level s = level g /\ score s = score g /\ fright_chain s = 0 /\ f = file) /\
   (lives g <= 1 ->
    level s = 1 /\ lives s = 3 /\ score s = 0 /\ dead s = false /\
    waiting s = true /\
    hiscore s = Z.max (hiscore g) (score g) /\
    f = (if hiscore g <? score g then Some (score g) else file))).
Proof.
  intros Hd Hg s f. unfold s, f. clear s f.
  rewrite (frame_dying elapsed r g file Hd).
  unfold death_handling. cbn [dead dead_t set_time_offset set_dead_t]. rewrite Hd.
  split.
  - intros Hq. rewrite Hq. cbn [fst snd]. repeat split. exact Hd.
  - intros Hq. rewrite Hq.
    match goal with
    | |- context [respawn ?x] => set (g1 := x)
    end.
    assert (E1 : lives g1 = lives g - 1) by reflexivity.
    assert (E2 : dead g1 = false) by reflexivity.
    assert (E3 : score g1 = score g) by reflexivity.
    assert (E4 : hiscore g1 = hiscore g) by reflexivity.
    assert (E5 : level g1 = level g) by reflexivity.
    assert (E6 : forall n, ghost_ok n (ghosts g1 n)) by exact Hg.
    clearbody g1. split.
    + intros Hl. replace (lives g1 <=? 0) with false
        by (symmetry; apply Z.leb_gt; lia).
      cbn [fst snd].
      pose proof (respawn_effect g1 E6) as He. cbv zeta in He.
      destruct He as (R1 & R2 & _ & R4 & R5 & R6 & R7 & _ & R9 & R10 & _ & R12).
      split; [congruence |]. split; [congruence |]. split; [exact R4 |].
      split; [exact R1 |]. split; [exact R2 |]. split; [exact R12 |].
      split; [congruence |]. split; [congruence |]. split; [exact R5 | reflexivity].
    + intros Hl. replace (lives g1 <=? 0) with true
        by (symmetry; apply Z.leb_le; lia).
      unfold flush_hiscore. rewrite E3, E4.
      destruct (hiscore g <? score g) eqn:E; cbn [fst snd hiscore set_hiscore].
      * pose proof (new_game_effect (score g)) as He. cbv zeta in He.
        destruct He as (N1 & N2 & N3 & N4 & N5 & N6 & _).
        apply Z.ltb_lt in E.
        split; [exact N4 |]. split; [exact N3 |]. split; [exact N1 |].
        split; [exact N5 |]. split; [exact N6 |].
        split; [rewrite N2; lia | reflexivity].
      * pose proof (new_game_effect (hiscore g1)) as He. cbv zeta in He.
        destruct He as (N1 & N2 & N3 & N4 & N5 & N6 & _).
        apply Z.ltb_ge in E.
        split; [exact N4 |]. split; [exact N3 |]. split; [exact N1 |].
        split; [exact N5 |]. split; [exact N6 |].
        split; [rewrite N2, E4; lia | reflexivity].
Qed.

Lemma waiting_start_dead e g : dead g = true -> waiting_start e g = g.
Proof.
  intros Hd. unfold waiting_start. rewrite Hd. rewrite andb_false_r. reflexivity.
Qed.

Lemma menu_actions_file e g file g' file' :
  score g <= hiscore g ->
  menu_actions e (g, file) = inl (g', file') -> file' = file.
Proof.
  intros Hs. unfold menu_actions.
  destruct (menu g);
    [| intros E; apply inl_pair_inj in E; destruct E as [_ <-]; reflexivity].
  cbv zeta.
  match goal with
  | |- context [if ev_b e || ev_y e then set_menu false ?x else _] => set (g3 := x)
  end.
  assert (H2 : score g3 <= hiscore g3).
  { unfold g3. destruct (ev_up e), (ev_down e); exact Hs. }
  clearbody g3.
  remember (if ev_b e || ev_y e then set_menu false g3 else g3) as g4 eqn:E4.
  assert (H3 : score g4 <= hiscore g4)
    by (subst g4; destruct (ev_b e || ev_y e); exact H2).
  clear E4.
  destruct (ev_a e || ev_x e);
    [| intros E; apply inl_pair_inj in E; destruct E as [_ <-]; reflexivity].
  remember (nth (Z.to_nat (menu_idx g4)) MENU_ITEMS EmptyString) as choice eqn:Ec. clear Ec.
  destruct (String.eqb choice "RESUME");
    [intros E; apply inl_pair_inj in E; destruct E as [_ <-]; reflexivity |].
  destruct (String.eqb choice "RESTART").
  - rewrite (flush_hiscore_noop g4 file H3).
    intros E. apply inl_pair_inj in E. destruct E as [_ <-]. reflexivity.
  - destruct (String.eqb choice "EXIT"); [discriminate |].
    intros E; apply inl_pair_inj in E; destruct E as [_ <-]; reflexivity.
Qed.

Lemma death_handling_file elapsed g file :
  score g <= hiscore g -> snd (death_handling elapsed (g, file)) = file.
Proof.
  intros Hs. unfold death_handling.
  destruct (dead g); [| reflexivity].
  cbn [dead_t set_dead_t].
  destruct (Qle_bool 1 (Qred (dead_t g + elapsed))); [| reflexivity].
  match goal with
  | |- context [if lives ?g0 <=? 0 then _ else _] => set (g1 := g0)
  end.
  assert (H1 : score g1 <= hiscore g1) by exact Hs.
  clearbody g1.
  destruct (lives g1 <=? 0); [| reflexivity].
  rewrite (flush_hiscore_noop g1 file H1). reflexivity.
Qed.

(** A pass that starts with the player dead never writes the high-score
    file: the in-memory high score already covers the score. *)
Lemma dying_pass_keeps_file l i l' :
  reachable l -> dead (game l) = true ->
  loop_iter l i = Continue l' ->
  hiscore_file l' = hiscore_file l.
Proof.
  intros Hr Hd. pose proof (reachable_Inv l Hr) as HI.
  assert (Hs : score (game l) <= hiscore (game l)) by (apply HI; exact Hd).
  unfold loop_iter. cbv zeta.
  pose proof (menu_toggle_keeps (ev i) (t_pop i) (game l)) as K1.
  set (g1 := menu_toggle (ev i) (t_pop i) (game l)) in *. clearbody g1.
  destruct K1 as (_ & _ & _ & _ & D1 & S1 & H1 & _).
  rewrite (waiting_start_dead (ev i) g1) by congruence.
  pose proof (menu_actions_file (ev i) g1 (hiscore_file l)) as Fm.
  pose proof (menu_actions_keeps (ev i) g1 (hiscore_file l)) as Km.
  destruct (menu_actions (ev i) (g1, hiscore_file l)) as [[g2 f2] | f2];
    [| discriminate].
  assert (Hf2 : f2 = hiscore_file l) by (apply (Fm g2); [lia | reflexivity]).
  specialize (Km g2 f2 eq_refl). subst f2.
  pose proof (dpad_intent_keeps (ev i) g2) as K3.
  set (g3 := dpad_intent (ev i) g2) in *. clearbody g3.
  destruct (Qltb (t_frame i - last l) dt).
  { intros E. apply Continue_inj in E. subst l'. reflexivity. }
  assert (Hsnd : snd (frame (Qred (t_frame i - last l)) (rnd i) (g3, hiscore_file l))
                 = hiscore_file l).
  { destruct K3 as (_ & _ & _ & W3 & D3 & S3 & H3 & _).
    destruct Km as [(_ & _ & _ & _ & D2 & S2 & H2 & _) | (R1 & _ & R3)].
    - rewrite frame_dying by congruence.
      apply death_handling_file. cbn [score hiscore set_time_offset]. lia.
    - rewrite frame_paused by (unfold is_paused; rewrite W3, R1; reflexivity).
      rewrite death_handling_alive by (cbn [dead set_time_offset]; congruence).
      reflexivity. }
  destruct (frame (Qred (t_frame i - last l)) (rnd i) (g3, hiscore_file l)) as [g4 f4].
  cbn [snd] in Hsnd. intros E. apply Continue_inj in E. subst l'. exact Hsnd.
Qed.

Lemma lose_three_lives_split :
  lose_three_lives = until_game_over ++ [game_over_pass].
Proof. vm_compute. reflexivity. Qed.

Lemma lose_three_lives_continues :
  continues (run (init_loop (Some 0) 0) (until_game_over ++ [game_over_pass])) = true.
Proof. vm_compute. reflexivity. Qed.

(** C7, the game-over write. Starting with 0 in the high-score file, the
    player scores 300 and loses three lives. In the pass that takes the
    last life a new game starts at level 1 with 3 lives and score 0, the
    in-memory high score is 300, and the file still holds 0: the score
    exceeded the persisted high score and the file was not written. *)
Theorem game_over_leaves_file_stale :
  reachable (after (Some 0) until_game_over) /\
  loop_iter (after (Some 0) until_game_over) game_over_pass
    = Continue (after (Some 0) (until_game_over ++ [game_over_pass])) /\
  snapshot (after (Some 0) until_game_over)
    = (300, 300, 1, 1, true, false, Some 0) /\
  snapshot (after (Some 0) (until_game_over ++ [game_over_pass]))
    = (0, 300, 3, 1, false, true, Some 0).
Proof.
  destruct (after_step (Some 0) until_game_over game_over_pass
              lose_three_lives_continues) as [Hr Hs].
  split; [exact Hr |]. split; [exact Hs |].
  split; vm_compute; reflexivity.
Qed.

(** ** The capture chain over a run *)

Lemma capture_since k g name :
  since_power k g ->
  score (capture name g) = score g + 200 * 2 ^ Z.of_nat k.
Proof.
  intros H. rewrite capture_score, (since_power_chain k g H).
  f_equal. f_equal. f_equal. lia.
Qed.

Lemma ghost_turn_since k g elapsed speed pac_px r name :
  since_power k g ->
  let t := ghost_turn elapsed speed pac_px r g name in
  if turn_captures elapsed speed pac_px r g name
  then score (fst t) = score g + 200 * 2 ^ Z.of_nat k /\
       since_power (S k) (fst t) /\ snd t = false
  else score (fst t) = score g /\ since_power k (fst t).
Proof.
  intros H. unfold ghost_turn, turn_captures. cbv zeta.
  set (gh1 := ghost_decide pac_px r (ghosts g name)). clearbody gh1.
  match goal with
  | |- context [ghost_loop ?f gh1 ?a] => destruct (ghost_loop f gh1 a) as [gh2 acc2]
  end.
  cbn [fst].
  assert (H1 : since_power k (set_g_acc (upd (g_acc g) name acc2) (set_ghost name gh2 g)))
    by (apply (sp_quiet k g); [exact H | apply quiet_ghost]).
  assert (S1 : score (set_g_acc (upd (g_acc g) name acc2) (set_ghost name gh2 g)) = score g)
    by reflexivity.
  assert (X1 : px (set_g_acc (upd (g_acc g) name acc2) (set_ghost name gh2 g)) = px g)
    by reflexivity.
  assert (Y1 : py (set_g_acc (upd (g_acc g) name acc2) (set_ghost name gh2 g)) = py g)
    by reflexivity.
  set (g1 := set_g_acc (upd (g_acc g) name acc2) (set_ghost name gh2 g)) in *.
  clearbody g1. rewrite X1, Y1.
  destruct (collide (px g) (py g) (g_x gh2) (g_y gh2) 1); cbn [andb].
  - destruct (Qltb 0 (g_fright (ghosts g name))); cbn [fst snd].
    + split; [rewrite (capture_since k g1 name H1), S1; reflexivity |].
      split; [apply sp_capture; exact H1 | reflexivity].
    + split; [exact S1 |]. apply (sp_quiet k g1); [exact H1 | apply quiet_dead].
  - cbn [fst]. split; [exact S1 | exact H1].
Qed.

Lemma pow2_chain k c :
  2 ^ Z.of_nat k + (2 ^ Z.of_nat (S k + c) - 2 ^ Z.of_nat (S k)) =
  2 ^ Z.of_nat (k + S c) - 2 ^ Z.of_nat k.
Proof.
  replace (k + S c)%nat with (S k + c)%nat by lia.
  rewrite (Nat2Z.inj_succ k), Z.pow_succ_r by lia. lia.
Qed.

Lemma ghosts_loop_since names elapsed speed pac_px r : forall k g,
  since_power k g ->
  let c := loop_captures names elapsed speed pac_px r g in
  since_power (k + c) (ghosts_loop names elapsed speed pac_px r g) /\
  score (ghosts_loop names elapsed speed pac_px r g) =
    score g + 200 * (2 ^ Z.of_nat (k + c) - 2 ^ Z.of_nat k).
Proof.
  induction names as [| n rest IH]; intros k g H; cbn [loop_captures ghosts_loop].
  - cbv zeta. rewrite Nat.add_0_r. split; [exact H | lia].
  - pose proof (ghost_turn_since k g elapsed speed pac_px (r n) n H) as T.
    cbv zeta in T.
    destruct (ghost_turn elapsed speed pac_px (r n) g n) as [g' brk].
    cbn [fst snd] in T.
    destruct (turn_captures elapsed speed pac_px (r n) g n).
    + destruct T as (Ts & Tp & ->).
      specialize (IH (S k) g' Tp). cbv zeta in IH. destruct IH as [I1 I2].
      set (c := loop_captures rest elapsed speed pac_px r g') in *. clearbody c.
      cbv zeta. cbn [Nat.add]. replace (k + S c)%nat with (S k + c)%nat by lia.
      split; [exact I1 |].
      rewrite I2, Ts. pose proof (pow2_chain k c) as P.
      replace (k + S c)%nat with (S k + c)%nat in P by lia. lia.
    + destruct T as (Ts & Tp). cbv zeta. cbn [Nat.add].
      destruct brk.
      * rewrite Nat.add_0_r. split; [exact Tp | lia].
      * specialize (IH k g' Tp). cbv zeta in IH. destruct IH as [I1 I2].
        split; [exact I1 | rewrite I2, Ts; reflexivity].
Qed.

Lemma play_since k g elapsed r :
  let g2 := pac_move elapsed (latch_dir g) in
  since_power k g \/ eats_power g2 = true ->
  let k0 := if eats_power g2 then 0%nat else k in
  let c := frame_captures elapsed r g in
  since_power (k0 + c) (play elapsed r g) /\
  score (play elapsed r g) =
    score (eat g2) + 200 * (2 ^ Z.of_nat (k0 + c) - 2 ^ Z.of_nat k0).
Proof.
  cbv zeta. intros H. unfold play, frame_captures. cbv zeta.
  assert (H2 : eats_power (pac_move elapsed (latch_dir g)) = false ->
               since_power k (pac_move elapsed (latch_dir g))).
  { intros E. destruct H as [H | H]; [| congruence].
    apply (sp_quiet k (latch_dir g)); [| apply quiet_move].
    apply (sp_quiet k g); [exact H | apply quiet_latch]. }
  clear H.
  set (sp := ghost_speed (level g)). clearbody sp.
  set (g2 := pac_move elapsed (latch_dir g)) in *. clearbody g2.
  set (k0 := if eats_power g2 then 0%nat else k).
  assert (H3 : since_power k0 (eat g2)).
  { unfold k0. destruct (eats_power g2) eqn:E.
    - apply sp_power. exact E.
    - apply (sp_quiet k g2); [apply H2; reflexivity | apply quiet_eat; exact E]. }
  clearbody k0. clear H2.
  set (g3 := eat g2) in *. clearbody g3.
  assert (H4 : since_power k0 (fright_decay elapsed g3))
    by (apply (sp_quiet k0 g3); [exact H3 | apply quiet_decay]).
  assert (S4 : score (fright_decay elapsed g3) = score g3) by reflexivity.
  set (g4 := fright_decay elapsed g3) in *. clearbody g4.
  pose proof (ghosts_loop_since GHOSTS elapsed sp (px g4, py g4) r k0 g4 H4) as L.
  cbv zeta in L. destruct L as [L1 L2].
  set (c := loop_captures GHOSTS elapsed sp (px g4, py g4) r g4) in *. clearbody c.
  set (g5 := ghosts_loop GHOSTS elapsed sp (px g4, py g4) r g4) in *. clearbody g5.
  split.
  - apply (sp_quiet _ g5); [exact L1 | apply quiet_hiscore].
  - destruct (track_hiscore_effect g5) as (_ & _ & _ & _ & T & _).
    rewrite T, L2, S4. reflexivity.
Qed.

Lemma new_game_calm hs :
  waiting (new_game hs) = true /\ dead (new_game hs) = false /\ calm (new_game hs).
Proof.
  pose proof (new_game_effect hs) as N. cbv zeta in N.
  destruct N as (_ & _ & _ & _ & N5 & N6 & N7 & _ & _ & N10).
  split; [exact N6 |]. split; [exact N5 |].
  split; [exact N7 | intros n; apply N10].
Qed.

Lemma menu_actions_since k e g file g' file' :
  since_power k g ->
  menu_actions e (g, file) = inl (g', file') ->
  since_power k g' \/ (waiting g' = true /\ dead g' = false /\ calm g').
Proof.
  intros H. unfold menu_actions.
  destruct (menu g);
    [| intros E; apply inl_pair_inj in E; destruct E as [<- _]; left; exact H].
  cbv zeta.
  match goal with
  | |- context [if ev_b e || ev_y e then set_menu false ?x else _] => set (g3 := x)
  end.
  assert (H3 : since_power k g3).
  { unfold g3. destruct (ev_up e), (ev_down e).
    - apply (sp_quiet k (set_menu_idx ((menu_idx g - 1) mod Z.of_nat (List.length MENU_ITEMS)) g));
        [| apply quiet_menu_idx].
      apply (sp_quiet k g); [exact H | apply quiet_menu_idx].
    - apply (sp_quiet k g); [exact H | apply quiet_menu_idx].
    - apply (sp_quiet k g); [exact H | apply quiet_menu_idx].
    - exact H. }
  clearbody g3.
  remember (if ev_b e || ev_y e then set_menu false g3 else g3) as g4 eqn:E4.
  assert (H4 : since_power k g4).
  { subst g4. destruct (ev_b e || ev_y e); [| exact H3].
    apply (sp_quiet k g3); [exact H3 | apply quiet_menu]. }
  clear E4.
  destruct (ev_a e || ev_x e);
    [| intros E; apply inl_pair_inj in E; destruct E as [<- _]; left; exact H4].
  remember (nth (Z.to_nat (menu_idx g4)) MENU_ITEMS EmptyString) as choice eqn:Ec. clear Ec.
  destruct (String.eqb choice "RESUME").
  { intros E; apply inl_pair_inj in E; destruct E as [<- _]. left.
    apply (sp_quiet k g4); [exact H4 | apply quiet_menu]. }
  destruct (String.eqb choice "RESTART").
  - destruct (flush_hiscore (g4, file)) as [g5 f5].
    pose proof (new_game_calm (hiscore g5)) as N.
    intros E. apply inl_pair_inj in E. destruct E as [<- _].
    right. exact N.
  - destruct (String.eqb choice "EXIT"); [discriminate |].
    intros E; apply inl_pair_inj in E; destruct E as [<- _]. left. exact H4.
Qed.

Lemma death_handling_since k elapsed g file :
  since_power k g ->
  (forall n, ghost_ok n (ghosts g n)) ->
  let g' := fst (death_handling elapsed (g, file)) in
  since_power k g' \/ calm g'.
Proof.
  intros H Hg. unfold death_handling.
  destruct (dead g); [| left; exact H].
  cbn [dead_t set_dead_t].
  destruct (Qle_bool 1 (Qred (dead_t g + elapsed)));
    [| left; cbn [fst]; apply (sp_quiet k g); [exact H | apply quiet_dead_t]].
  match goal with
  | |- context [if lives ?g0 <=? 0 then _ else _] => set (g1 := g0)
  end.
  assert (Hg1 : forall n, ghost_ok n (ghosts g1 n)) by exact Hg.
  clearbody g1. right.
  destruct (lives g1 <=? 0).
  - destruct (flush_hiscore (g1, file)) as [g2 f2]. cbn [fst].
    apply (new_game_calm (hiscore g2)).
  - cbn [fst]. pose proof (respawn_effect g1 Hg1) as R. cbv zeta in R.
    destruct R as (_ & _ & _ & _ & R5 & _ & _ & _ & _ & _ & _ & R12).
    split; [exact R5 | intros n; apply R12].
Qed.

Lemma next_level_since k g :
  since_power k g ->
  since_power k (next_level g) \/ calm (next_level g).
Proof.
  intros H. unfold next_level. destruct (level_cleared g); [| left; exact H].
  right.
  match goal with
  | |- context [reset_level ?g0] =>
      pose proof (reset_level_effect g0) as He; cbv zeta in He
  end.
  destruct He as (_ & _ & _ & _ & _ & Hc & _ & _ & _ & _ & _ & _ & _ & Hg).
  split; [exact Hc |]. intros n. destruct (Hg n) as [E _]. rewrite E. reflexivity.
Qed.

Lemma frame_since k elapsed r g file :
  since_power k g ->
  (forall n, ghost_ok n (ghosts g n)) ->
  let g' := fst (frame elapsed r (g, file)) in
  (exists j, since_power j g') \/ calm g'.
Proof.
  intros H Hg. cbv zeta.
  destruct (is_paused g) eqn:Hp.
  - rewrite (frame_paused elapsed r g file Hp).
    assert (H1 : since_power k (set_time_offset (Qred (time_offset g + elapsed)) g))
      by (apply (sp_quiet k g); [exact H | apply (quiet_pause elapsed true)]).
    destruct (death_handling_since k elapsed _ file H1 Hg) as [D | D].
    + left. exists k. exact D.
    + right. exact D.
  - rewrite (frame_playing elapsed r g file Hp). cbn [fst]. unfold gameplay.
    destruct (play_since k g elapsed r (or_introl H)) as [P _].
    destruct (next_level_since _ _ P) as [N | N].
    + left. eexists. exact N.
    + right. exact N.
Qed.

Lemma loop_iter_since k l i l' :
  reachable l -> since_power k (game l) -> loop_iter l i = Continue l' ->
  (exists j, since_power j (game l')) \/ calm (game l').
Proof.
  intros Hr H. pose proof (reachable_Inv l Hr) as HI.
  unfold loop_iter. cbv zeta.
  assert (H1 : since_power k (waiting_start (ev i) (menu_toggle (ev i) (t_pop i) (game l)))).
  { apply (sp_quiet k (menu_toggle (ev i) (t_pop i) (game l))); [| apply quiet_start].
    apply (sp_quiet k (game l)); [exact H | apply quiet_toggle]. }
  pose proof (Inv_waiting_start (ev i) _ (Inv_menu_toggle (ev i) (t_pop i) _ HI)) as I1.
  set (g1 := waiting_start (ev i) (menu_toggle (ev i) (t_pop i) (game l))) in *.
  clearbody g1.
  pose proof (Inv_menu_actions (ev i) g1 (hiscore_file l)) as Im.
  pose proof (menu_actions_since k (ev i) g1 (hiscore_file l)) as Sm.
  destruct (menu_actions (ev i) (g1, hiscore_file l)) as [[g2 f2] | f2];
    [| discriminate].
  specialize (Im g2 f2 I1 eq_refl). specialize (Sm g2 f2 H1 eq_refl).
  pose proof (Inv_dpad_intent (ev i) g2 Im) as I3.
  destruct Sm as [S2 | (W2 & D2 & C2)].
  - assert (H3 : since_power k (dpad_intent (ev i) g2))
      by (apply (sp_quiet k g2); [exact S2 | apply quiet_intent]).
    set (g3 := dpad_intent (ev i) g2) in *. clearbody g3.
    destruct (Qltb (t_frame i - last l) dt).
    + intros E. apply Continue_inj in E. subst l'. left. exists k. exact H3.
    + pose proof (frame_since k (Qred (t_frame i - last l)) (rnd i) g3 f2 H3
                    (proj1 (proj2 (proj1 I3)))) as F.
      cbv zeta in F.
      destruct (frame (Qred (t_frame i - last l)) (rnd i) (g3, f2)) as [g4 f4].
      intros E. apply Continue_inj in E. subst l'. exact F.
  - assert (E3 : dpad_intent (ev i) g2 = g2)
      by (unfold dpad_intent; rewrite W2; reflexivity).
    rewrite E3.
    destruct (Qltb (t_frame i - last l) dt).
    + intros E. apply Continue_inj in E. subst l'. right. exact C2.
    + assert (Hp : is_paused g2 = true) by (unfold is_paused; rewrite W2; reflexivity).
      rewrite (frame_paused _ _ _ _ Hp).
      rewrite death_handling_alive by exact D2.
      intros E. apply Continue_inj in E. subst l'. right. exact C2.
Qed.

(** C4. [since_power k g] says that [g] comes [k] captures after a power
    pellet.  In such a state a ghost's turn that ends on the player while
    the ghost was frightened adds [200 * 2^k] and leads to a state [k + 1]
    captures after the pellet, and a turn that does not leaves the score
    alone.  A playing frame that starts [k] captures after the pellet, or
    that eats a power pellet itself (which starts the count at 0), ends
    as many captures later as its ghost loop made, the captures having
    added 200, 400, 800, ... from the count reached before them.  A pass
    of the loop keeps the game some number of captures after the pellet
    unless it ends in a reset, which leaves the chain at 0 and no ghost
    frightened.  So the capture that follows [k] earlier ones adds
    [200 * 2^k], and four captures in a row add 200, 400, 800 and 1600. *)
Theorem frightened_capture_scores :
  (forall k g elapsed speed pac_px r name,
     since_power k g ->
     let t := ghost_turn elapsed speed pac_px r g name in
     if turn_captures elapsed speed pac_px r g name
     then score (fst t) = score g + 200 * 2 ^ (Z.of_nat (S k) - 1) /\
          since_power (S k) (fst t) /\ snd t = false
     else score (fst t) = score g /\ since_power k (fst t)) /\
  (forall k g elapsed r,
     let g2 := pac_move elapsed (latch_dir g) in
     since_power k g \/ eats_power g2 = true ->
     let k0 := if eats_power g2 then 0%nat else k in
     let c := frame_captures elapsed r g in
     since_power (k0 + c) (play elapsed r g) /\
     score (play elapsed r g) =
       score (eat g2) + 200 * (2 ^ Z.of_nat (k0 + c) - 2 ^ Z.of_nat k0)) /\
  (forall k l i l',
     reachable l -> since_power k (game l) -> loop_iter l i = Continue l' ->
     (exists j, since_power j (game l')) \/ calm (game l')) /\
  (forall k g name,
     since_power k g ->
     score (capture name g) = score g + 200 * 2 ^ (Z.of_nat (S k) - 1) /\
     (k = 0%nat ->
      forall n2 n3 n4,
        let g1 := capture name g in
        let g2 := capture n2 g1 in
        let g3 := capture n3 g2 in
        let g4 := capture n4 g3 in
        score g1 - score g = 200 /\
        score g2 - score g1 = 2 * 200 /\
        score g3 - score g2 = 4 * 200 /\
        score g4 - score g3 = 8 * 200)).
Proof.
  split; [| split; [| split]].
  - intros k g elapsed speed pac_px r name H.
    pose proof (ghost_turn_since k g elapsed speed pac_px r name H) as T.
    cbv zeta in *.
    replace (Z.of_nat (S k) - 1) with (Z.of_nat k) by lia. exact T.
  - intros k g elapsed r. apply play_since.
  - intros k l i l'. apply loop_iter_since.
  - intros k g name Hsp. split.
    + rewrite (capture_since k g name Hsp). f_equal. f_equal. f_equal. lia.
    + intros -> n2 n3 n4 g1 g2 g3 g4.
      assert (H1 : since_power 1 g1) by (apply sp_capture; exact Hsp).
      assert (H2 : since_power 2 g2) by (apply sp_capture; exact H1).
      assert (H3 : since_power 3 g3) by (apply sp_capture; exact H2).
      unfold g4, g3, g2, g1 in *.
      rewrite (capture_since _ _ n4 H3), (capture_since _ _ n3 H2),
        (capture_since _ _ n2 H1), (capture_since _ _ name Hsp).
      change (2 ^ Z.of_nat 0) with 1. change (2 ^ Z.of_nat 1) with 2.
      change (2 ^ Z.of_nat 2) with 4. change (2 ^ Z.of_nat 3) with 8.
      lia.
Qed.

Lemma frightened_capture_scores_witness :
  let g := eat (set_pos 6 8 (new_game 0)) in
  let g' := set_g_acc (upd (g_acc g) blinky 0%Q)
              (set_ghost blinky (ghost_at 6 8 (ghosts g blinky)) g) in
  let t := ghost_turn 0 24 (6, 8) no_tie_break g' blinky in
  score (fst t) = score g' + 200 * 2 ^ (Z.of_nat 1 - 1) /\
  since_power 1 (fst t) /\ snd t = false.
Proof.
  intros g g' t.
  assert (Hsp : since_power 0 g').
  { apply (sp_quiet 0 g); [| apply quiet_ghost].
    apply sp_power. vm_compute. reflexivity. }
  assert (Hc : turn_captures 0 24 (6, 8) no_tie_break g' blinky = true)
    by (vm_compute; reflexivity).
  pose proof (proj1 frightened_capture_scores 0%nat g' 0%Q 24%Q (6, 8)
                no_tie_break blinky Hsp) as T.
  cbv zeta in T. rewrite Hc in T. exact T.
Defined.

(** ** Startup on an arbitrary layout *)

Lemma bind_ok {A B : Type} (c : result A) (k : A -> result B) b :
  bind c k = Ok b -> exists a, c = Ok a /\ k a = Ok b.
Proof. destruct c as [a | e]; cbn; [intros H; exists a; tauto | discriminate]. Qed.

Lemma raises_bind {A B : Type} (c : result A) (k : A -> result B) :
  raises (bind c k) =
  match c with
  | Ok a => raises (k a)
  | Raise _ => true
  end.
Proof. destruct c; reflexivity. Qed.

Lemma foldM_total {A S : Type} (f : S -> A -> result S) (l : list A) :
  (forall s a, In a l -> raises (f s a) = false) ->
  forall s, raises (foldM f l s) = false.
Proof.
  induction l as [| a l IH]; intros Hf s; cbn [foldM]; [reflexivity |].
  rewrite raises_bind.
  pose proof (Hf s a (or_introl eq_refl)) as Ha.
  destruct (f s a) as [s' | e]; [| discriminate].
  apply IH. intros s0 a0 Hin. apply Hf. right. exact Hin.
Qed.

Lemma foldM_raises {A S : Type} (f : S -> A -> result S) (l : list A) a :
  In a l -> (forall s, raises (f s a) = true) ->
  forall s, raises (foldM f l s) = true.
Proof.
  induction l as [| b l IH]; intros Hin Hf s; [contradiction |].
  cbn [foldM]. rewrite raises_bind.
  destruct Hin as [-> | Hin].
  - specialize (Hf s). destruct (f s a); [exact (False_ind _ (Bool.diff_false_true Hf)) | reflexivity].
  - destruct (f s b); [apply IH; assumption | reflexivity].
Qed.

Lemma list_ascii_length s :
  List.length (list_ascii_of_string s) = String.length s.
Proof. induction s as [| c s IH]; cbn; [reflexivity | rewrite IH; reflexivity]. Qed.

Lemma py_index_inside {A : Type} (l : list A) i :
  0 <= i < Z.of_nat (List.length l) ->
  exists a, py_index l i = Ok a /\ nth_error l (Z.to_nat i) = Some a.
Proof.
  intros Hi. unfold py_index.
  replace (i <? 0) with false by (symmetry; apply Z.ltb_ge; lia).
  replace ((0 <=? i) && (i <? Z.of_nat (List.length l))) with true
    by (symmetry; apply andb_true_iff; split; [apply Z.leb_le | apply Z.ltb_lt]; lia).
  destruct (nth_error l (Z.to_nat i)) as [a |] eqn:E.
  - exists a. split; reflexivity.
  - apply nth_error_None in E. lia.
Qed.

Lemma py_index_beyond {A : Type} (l : list A) i :
  Z.of_nat (List.length l) <= i -> py_index l i = Raise IndexError.
Proof.
  intros Hi. unfold py_index.
  replace (i <? 0) with false by (symmetry; apply Z.ltb_ge; lia).
  replace ((0 <=? i) && (i <? Z.of_nat (List.length l))) with false; [reflexivity |].
  symmetry. apply andb_false_iff. right. apply Z.ltb_ge. exact Hi.
Qed.

Section AnyLayout.

Variable wm : list string.
Variable cols : Z.

  (** With every row long enough, no lookup inside the grid raises. *)
Lemma lookup_total cx cy :
    Layout.rows_cover wm cols = true ->
    0 <= cx < cols -> 0 <= cy < Layout.ROWS wm ->
    exists row c, py_index wm cy = Ok row /\ py_str_index row cx = Ok c.
  Proof.
    intros Hcov Hx Hy. unfold Layout.ROWS in Hy.
    destruct (py_index_inside wm cy Hy) as [row [Hrow Hnth]].
    exists row. unfold Layout.rows_cover in Hcov. rewrite forallb_forall in Hcov.
    pose proof (Hcov row (nth_error_In _ _ Hnth)) as Hlen. apply Z.leb_le in Hlen.
    unfold py_str_index.
    destruct (py_index_inside (list_ascii_of_string row) cx) as [c [Hc _]].
    - rewrite list_ascii_length. lia.
    - exists c. split; assumption.
  Qed.

Lemma is_wall_total cx cy :
    Layout.rows_cover wm cols = true ->
    raises (Layout.is_wall wm cols cx cy) = false.
  Proof.
    intros Hcov. unfold Layout.is_wall.
    destruct (Layout.in_bounds wm cols cx cy) eqn:Hb; [| reflexivity].
    cbn [negb]. unfold Layout.in_bounds in Hb.
    rewrite !andb_true_iff, !Z.leb_le, !Z.ltb_lt in Hb.
    destruct (lookup_total cx cy Hcov) as [row [c [Hr Hc]]]; [lia | lia |].
    rewrite Hr. cbn [bind]. rewrite Hc. reflexivity.
  Qed.

Lemma is_wall_value cx cy :
    Layout.rows_cover wm cols = true ->
    exists b, Layout.is_wall wm cols cx cy = Ok b.
  Proof.
    intros Hcov. pose proof (is_wall_total cx cy Hcov) as H.
    destruct (Layout.is_wall wm cols cx cy) as [b | e]; [exists b; reflexivity | discriminate].
  Qed.

Lemma is_open_for_pac_value cx cy :
    Layout.rows_cover wm cols = true ->
    exists b, Layout.is_open_for_pac wm cols cx cy = Ok b.
  Proof.
    intros Hcov. unfold Layout.is_open_for_pac.
    destruct (is_gate_tile cx cy); [exists false; reflexivity |].
    destruct (is_wall_value cx cy Hcov) as [b Hb]. rewrite Hb.
    exists (negb b). reflexivity.
  Qed.

Lemma is_open_for_ghost_value cx cy :
    Layout.rows_cover wm cols = true ->
    exists b, Layout.is_open_for_ghost wm cols cx cy = Ok b.
  Proof.
    intros Hcov. unfold Layout.is_open_for_ghost.
    destruct (is_wall_value cx cy Hcov) as [b Hb]. rewrite Hb.
    eexists. reflexivity.
  Qed.

Lemma band_pixel_total a b pt m t :
    Layout.rows_cover wm cols = true ->
    raises (Layout.band_pixel wm cols a b pt m t) = false.
  Proof.
    intros Hcov. unfold Layout.band_pixel.
    destruct m as [pac ghost]. destruct (pt t) as [x y].
    destruct (is_open_for_pac_value (fst a) (snd a) Hcov) as [oa Ha]. rewrite Ha.
    cbn [bind].
    destruct (is_open_for_pac_value (fst b) (snd b) Hcov) as [ob Hb].
    destruct oa; [rewrite Hb |]; reflexivity.
  Qed.

Lemma mask_tile_total m c :
    Layout.rows_cover wm cols = true ->
    raises (Layout.mask_tile wm cols m c) = false.
  Proof.
    intros Hcov. unfold Layout.mask_tile. destruct c as [cx cy].
    destruct (is_wall_value cx cy Hcov) as [w Hw]. rewrite Hw. cbn [bind].
    destruct (w && negb (is_gate_tile cx cy)); [reflexivity |].
    destruct (cell_center cx cy) as [x y].
    destruct (is_open_for_pac_value cx cy Hcov) as [op Hop]. rewrite Hop. cbn [bind].
    destruct (is_open_for_ghost_value cx cy Hcov) as [og Hog]. rewrite Hog. cbn [bind].
    rewrite raises_bind.
    match goal with
    | |- match ?c with Ok _ => _ | Raise _ => _ end = false =>
        assert (Hm3 : raises c = false)
    end.
    { destruct (cx + 1 <? cols); [| reflexivity].
      destruct (is_open_for_ghost_value (cx + 1) cy Hcov) as [o Ho]. rewrite Ho.
      cbn [bind]. destruct o; [| reflexivity].
      apply foldM_total. intros s a _. apply band_pixel_total. exact Hcov. }
    match goal with
    | |- match ?c with Ok _ => _ | Raise _ => _ end = false =>
        destruct c as [m3 | e]; [| discriminate Hm3]
    end.
    destruct (cy + 1 <? Layout.ROWS wm); [| reflexivity].
    destruct (is_open_for_ghost_value cx (cy + 1) Hcov) as [o Ho]. rewrite Ho.
    cbn [bind]. destruct o; [| reflexivity].
    apply foldM_total. intros s a _. apply band_pixel_total. exact Hcov.
  Qed.

Lemma startup_with_cols_total :
    Layout.rows_cover wm cols = true ->
    raises (Layout.startup_with_cols wm cols) = false.
  Proof.
    intros Hcov. unfold Layout.startup_with_cols.
    assert (H1 : raises (Layout.house_exit_with_cols wm cols) = false).
    { unfold Layout.house_exit_with_cols. rewrite raises_bind.
      match goal with
      | |- match ?c with Ok _ => _ | Raise _ => _ end = false =>
          assert (Hc : raises c = false); [| destruct c; [reflexivity | discriminate Hc]]
      end.
      apply foldM_total. intros found [cx cy] _. unfold Layout.house_exit_candidate.
      destruct found; [reflexivity |].
      destruct ((0 <=? cx) && (cx <? cols) && (0 <=? cy) && (cy <? Layout.ROWS wm)) eqn:Hb;
        [| reflexivity].
      rewrite !andb_true_iff, !Z.leb_le, !Z.ltb_lt in Hb.
      destruct (lookup_total cx cy Hcov) as [row [c [Hr Hc]]]; [lia | lia |].
      rewrite Hr. cbn [bind]. rewrite Hc. reflexivity. }
    assert (H2 : raises (Layout.tunnel_rows_with_cols wm cols) = false).
    { unfold Layout.tunnel_rows_with_cols. apply foldM_total.
      intros acc cy _. unfold Layout.tunnel_row.
      destruct (is_open_for_ghost_value 0 cy Hcov) as [l Hl]. rewrite Hl. cbn [bind].
      destruct (is_open_for_ghost_value (cols - 1) cy Hcov) as [r Hr].
      destruct l; [rewrite Hr |]; reflexivity. }
    assert (H3 : raises (Layout.build_masks_with_cols wm cols) = false).
    { unfold Layout.build_masks_with_cols. rewrite raises_bind.
      match goal with
      | |- match ?c with Ok _ => _ | Raise _ => _ end = false =>
          assert (Hc : raises c = false); [| destruct c; [reflexivity | discriminate Hc]]
      end.
      apply foldM_total. intros m cy _. unfold Layout.mask_row.
      apply foldM_total. intros m0 cx _. apply mask_tile_total. exact Hcov. }
    destruct (Layout.house_exit_with_cols wm cols); [| discriminate H1].
    destruct (Layout.tunnel_rows_with_cols wm cols); [| discriminate H2].
    destruct (Layout.build_masks_with_cols wm cols); [| discriminate H3].
    reflexivity.
  Qed.

  (** A row shorter than [cols] makes the mask builder raise. *)
Lemma short_row_raises cy row :
    0 <= cy -> nth_error wm (Z.to_nat cy) = Some row ->
    Z.of_nat (String.length row) < cols ->
    raises (Layout.build_masks_with_cols wm cols) = true.
  Proof.
    intros Hcy Hnth Hshort.
    assert (Hrows : cy < Layout.ROWS wm).
    { unfold Layout.ROWS. assert (Hn : nth_error wm (Z.to_nat cy) <> None) by congruence.
      apply nth_error_Some in Hn. lia. }
    set (cx := Z.of_nat (String.length row)).
    assert (Hwall : Layout.is_wall wm cols cx cy = Raise IndexError).
    { unfold Layout.is_wall, Layout.in_bounds.
      replace ((0 <=? cx) && (cx <? cols) && (0 <=? cy) && (cy <? Layout.ROWS wm))
        with true
        by (symmetry; rewrite !andb_true_iff, !Z.leb_le, !Z.ltb_lt; unfold cx; lia).
      cbn [negb].
      destruct (py_index_inside wm cy) as [row' [Hr Hn']];
        [unfold Layout.ROWS in Hrows; lia |].
      rewrite Hr. cbn [bind]. assert (row' = row) by congruence. subst row'.
      unfold py_str_index. rewrite py_index_beyond; [reflexivity |].
      rewrite list_ascii_length. unfold cx. lia. }
    unfold Layout.build_masks_with_cols. rewrite raises_bind.
    match goal with
    | |- match ?c with Ok _ => _ | Raise _ => _ end = true =>
        assert (Hc : raises c = true); [| destruct c; [discriminate Hc | reflexivity]]
    end.
    apply (foldM_raises _ _ cy); [apply In_range; lia |].
    intros m. unfold Layout.mask_row.
    apply (foldM_raises _ _ cx); [apply In_range; unfold cx; lia |].
    intros m0. unfold Layout.mask_tile. rewrite Hwall. reflexivity.
  Qed.

End AnyLayout.

Lemma rows_cover_false wm cols :
  Layout.rows_cover wm cols = false <->
  exists row, In row wm /\ Z.of_nat (String.length row) < cols.
Proof.
  unfold Layout.rows_cover. split.
  - intros H. induction wm as [| r wm' IH]; [discriminate |].
    cbn [forallb] in H. apply andb_false_iff in H. destruct H as [H | H].
    + exists r. split; [left; reflexivity | apply Z.leb_gt; exact H].
    + destruct (IH H) as [row [Hin Hlt]]. exists row. split; [right |]; assumption.
  - intros [row [Hin Hlt]].
    destruct (forallb _ wm) eqn:E; [| reflexivity].
    rewrite forallb_forall in E. specialize (E row Hin). apply Z.leb_le in E. lia.
Qed.

(** C9 (as the code has it). The built-in layout is rectangular and well
    formed and starts up without error. The code never validates a
    layout: startup raises exactly when the layout is empty or has a row
    shorter than its first row, and then with the [IndexError] of the
    failing lookup; any other layout, whatever the lengths of its rows
    and whatever characters it holds, is accepted without a diagnostic. *)
Theorem layout_is_not_validated :
  (Layout.rectangular WALLMAP = true /\ Layout.well_formed WALLMAP = true /\
   Layout.startup WALLMAP = Ok (HOUSE_EXIT_TILE, TUNNEL_ROWS, centerline_masks)) /\
  (forall wm,
     raises (Layout.startup wm) = true <->
     (wm = [] \/
      exists row, In row wm /\
                  (String.length row < String.length (hd EmptyString wm))%nat)) /\
  (forall wm e, Layout.startup wm = Raise e -> e = IndexError).
Proof.
  split; [split; [reflexivity | split; [reflexivity | exact layout_startup]] |].
  split.
  - intros wm. unfold Layout.startup, Layout.COLS.
    destruct wm as [| r0 wm'].
    + cbn. split; [intros _; left; reflexivity | reflexivity].
    + change (py_index (r0 :: wm') 0) with (@Ok string r0). cbn [bind hd].
      set (cols := Z.of_nat (String.length r0)). split.
      * intros Hr. right.
        destruct (Layout.rows_cover (r0 :: wm') cols) eqn:Hcov.
        -- rewrite (startup_with_cols_total _ _ Hcov) in Hr. discriminate.
        -- apply rows_cover_false in Hcov. destruct Hcov as [row [Hin Hlt]].
           exists row. split; [exact Hin | unfold cols in Hlt; lia].
      * intros [Hnil | [row [Hin Hlt]]]; [discriminate |].
        destruct (In_nth_error _ _ Hin) as [n Hn].
        pose proof (short_row_raises (r0 :: wm') cols (Z.of_nat n) row) as Hs.
        rewrite Nat2Z.id in Hs.
        specialize (Hs ltac:(lia) Hn ltac:(unfold cols; lia)).
        unfold Layout.startup_with_cols. rewrite !raises_bind.
        destruct (Layout.house_exit_with_cols (r0 :: wm') cols); [| reflexivity].
        destruct (Layout.tunnel_rows_with_cols (r0 :: wm') cols); [| reflexivity].
        destruct (Layout.build_masks_with_cols (r0 :: wm') cols);
          [discriminate Hs | reflexivity].
  - intros wm e _. destruct e. reflexivity.
Qed.

(** C9 fails as stated: a layout whose second row is longer than the
    first, and a layout made of characters the maze is not drawn with,
    both start up without any error and yield masks. *)
Lemma startup_accepts_bad_layouts :
  Layout.rectangular ["  "; "   "] = false /\
  raises (Layout.startup ["  "; "   "]) = false /\
  Layout.well_formed ["?#"] = false /\
  raises (Layout.startup ["?#"]) = false.
Proof.
  split; [reflexivity |]. split; [vm_compute; reflexivity |].
  split; [reflexivity |]. vm_compute. reflexivity.
Qed.

(** ** The stepping loops run to their exit *)

Lemma Qfloor_pred x : Qfloor (Qred (x - 1)) = (Qfloor x - 1)%Z.
Proof.
  rewrite (Qfloor_comp _ _ (Qred_correct (x - 1))).
  pose proof (Qfloor_le x) as Hlo. pose proof (Qlt_floor x) as Hhi.
  pose proof (Qfloor_le (x - 1)) as Hlo'. pose proof (Qlt_floor (x - 1)) as Hhi'.
  assert (H1 : (Qfloor x - 1 <= Qfloor (x - 1))%Z).
  { rewrite <- (Qfloor_Z (Qfloor x - 1)). apply Qfloor_resp_le.
    unfold Z.sub. rewrite inject_Z_plus, inject_Z_opp.
    apply Qplus_le_l. exact Hlo. }
  assert (H2 : (Qfloor (x - 1) < Qfloor x)%Z).
  { rewrite Zlt_Qlt. apply (Qle_lt_trans _ (x - 1)); [exact Hlo' |].
    apply (Qplus_lt_l _ _ 1). rewrite inject_Z_plus in Hhi.
    setoid_replace (x - 1 + 1)%Q with x by ring. exact Hhi. }
  lia.
Qed.

Lemma floor_nonpos_below_one x : (Qfloor x <= 0)%Z -> Qle_bool 1 x = false.
Proof.
  intros H. destruct (Qle_bool 1 x) eqn:E; [| reflexivity].
  apply Qle_bool_iff in E. pose proof (Qlt_floor x) as Hhi.
  assert (Hc : (x < 1)%Q).
  { apply (Qlt_le_trans _ _ _ Hhi).
    assert (Hz : (Qfloor x + 1 <= 1)%Z) by lia.
    rewrite Zle_Qle in Hz. exact Hz. }
  exfalso. apply (Qlt_not_le _ _ Hc). exact E.
Qed.

(** With the fuel [steps_of] gives, the player's loop stops only because
    its accumulator has dropped below one. *)
Lemma pac_loop_exhausts fuel : forall g,
  (Qfloor (p_acc g) <= Z.of_nat fuel)%Z ->
  Qle_bool 1 (p_acc (pac_loop fuel g)) = false.
Proof.
  induction fuel as [| fuel IH]; intros g Hf; cbn [pac_loop].
  - apply floor_nonpos_below_one. exact Hf.
  - destruct (Qle_bool 1 (p_acc g)) eqn:E; [| exact E].
    apply IH.
    destruct (pac_step_effect (set_p_acc (Qred (p_acc g - 1)) g))
      as (_ & _ & _ & _ & _ & _ & _ & Ha & _).
    rewrite Ha. cbn [p_acc set_p_acc]. rewrite Qfloor_pred. lia.
Qed.

Lemma pac_move_exhausts elapsed g :
  Qle_bool 1 (p_acc (pac_move elapsed g)) = false.
Proof.
  unfold pac_move. cbv zeta. apply pac_loop_exhausts.
  unfold steps_of. lia.
Qed.

(** The ghost's loop stops because its accumulator has dropped below one
    or because the next pixel is blocked. *)
Lemma ghost_loop_exhausts fuel : forall gh acc,
  (Qfloor acc <= Z.of_nat fuel)%Z ->
  let res := ghost_loop fuel gh acc in
  Qle_bool 1 (snd res) = false \/
  can_stand ghost_mask (g_x (fst res) + fst (g_dir (fst res)))
                       (g_y (fst res) + snd (g_dir (fst res))) = false.
Proof.
  induction fuel as [| fuel IH]; intros gh acc Hf; cbn [ghost_loop].
  - left. apply floor_nonpos_below_one. exact Hf.
  - destruct (Qle_bool 1 acc) eqn:E; [| left; exact E].
    destruct (g_dir gh) as [ddx ddy] eqn:Hd.
    match goal with
    | |- context [if can_stand ghost_mask (g_x ?w + ddx) (g_y ?w + ddy) then _ else _] =>
        set (gw := w) in *
    end.
    assert (Hgw : g_dir gw = (ddx, ddy)).
    { unfold gw. destruct (negb (ddx =? 0)); [| exact Hd].
      destruct (tunnel_wrap_on_centerline (g_x gh) (g_y gh) ddx). exact Hd. }
    clearbody gw.
    destruct (can_stand ghost_mask (g_x gw + ddx) (g_y gw + ddy)) eqn:Hc.
    + apply IH. rewrite Qfloor_pred. lia.
    + right. cbn [fst snd]. rewrite Hgw. exact Hc.
Qed.

(** * Further properties of the code *)
(** ** Tiles, pixels and masks *)

Lemma round_div_exact c d : 0 < d -> round_div (c * d) d = c.
Proof.
  intros Hd. unfold round_div.
  rewrite Z.div_mul by lia. rewrite Z.mod_mul by lia.
  replace (2 * 0 <? d) with true; [reflexivity |].
  symmetry. apply Z.ltb_lt. lia.
Qed.

(** Rounding to the nearest: the result is within half a divisor. *)
Lemma round_div_near n d : 0 < d -> 2 * Z.abs (n - d * round_div n d) <= d.
Proof.
  intros Hd. unfold round_div.
  pose proof (Z.div_mod n d ltac:(lia)) as E.
  pose proof (Z.mod_pos_bound n d Hd) as B.
  destruct (2 * (n mod d) <? d) eqn:H1.
  - apply Z.ltb_lt in H1. lia.
  - apply Z.ltb_ge in H1. destruct (d <? 2 * (n mod d)) eqn:H2.
    + apply Z.ltb_lt in H2. lia.
    + apply Z.ltb_ge in H2. destruct (Z.even (n / d)); lia.
Qed.

Lemma px_to_cell_center cx cy :
  in_bounds cx cy = true -> px_to_cell (fst (cell_center cx cy)) (snd (cell_center cx cy)) = (cx, cy).
Proof.
  unfold in_bounds. rewrite !andb_true_iff, !Z.leb_le, !Z.ltb_lt.
  intros [[[Hx0 Hx1] Hy0] Hy1].
  unfold px_to_cell, cell_center. cbn [fst snd].
  replace (OX + cx * CELL_X + CELL_X / 2 - (OX + CELL_X / 2)) with (cx * CELL_X) by lia.
  replace (OY + cy * CELL_Y + CELL_Y / 2 - (OY + CELL_Y / 2)) with (cy * CELL_Y) by lia.
  rewrite !round_div_exact by reflexivity.
  f_equal; lia.
Qed.

Lemma px_to_cell_clamped px py :
  in_bounds (fst (px_to_cell px py)) (snd (px_to_cell px py)) = true.
Proof.
  unfold px_to_cell, in_bounds. cbn [fst snd].
  rewrite !andb_true_iff, !Z.leb_le, !Z.ltb_lt.
  unfold COLS, ROWS. lia.
Qed.

(** X1. [px_to_cell] clamps: the tile of any pixel, on the screen or not,
    lies inside the grid. And for a tile inside the grid, [cell_center]
    followed by [px_to_cell] gives the tile back, and the center pixel
    passes [is_at_tile_center]. *)
Theorem cell_center_round_trip :
  (forall px py, in_bounds (fst (px_to_cell px py)) (snd (px_to_cell px py)) = true) /\
  (forall cx cy,
     in_bounds cx cy = true ->
     let '(x, y) := cell_center cx cy in
     px_to_cell x y = (cx, cy) /\ is_at_tile_center x y = true).
Proof.
  split; [apply px_to_cell_clamped |].
  intros cx cy Hb. pose proof (px_to_cell_center cx cy Hb) as E.
  unfold is_at_tile_center.
  destruct (cell_center cx cy) as [x y] eqn:Hc. cbn [fst snd] in E.
  rewrite E, Hc. split; [reflexivity |].
  rewrite !Z.eqb_refl. reflexivity.
Qed.

Lemma cell_center_round_trip_witness :
  let '(x, y) := cell_center 14 29 in
  px_to_cell x y = (14, 29) /\ is_at_tile_center x y = true.
Proof. apply (proj2 cell_center_round_trip 14 29). reflexivity. Defined.

(** X2. A pixel is a tile center exactly when its column is 2 modulo 4
    between 2 and 110 and its row is even between 2 and 62. *)
Theorem is_at_tile_center_iff x y :
  is_at_tile_center x y = true <->
  (2 <= x <= 110 /\ x mod 4 = 2) /\ (2 <= y <= 62 /\ y mod 2 = 0).
Proof.
  unfold is_at_tile_center.
  destruct (px_to_cell x y) as [cx cy] eqn:Hp.
  pose proof (px_to_cell_clamped x y) as Hb. rewrite Hp in Hb. cbn [fst snd] in Hb.
  unfold in_bounds, COLS, ROWS in Hb.
  rewrite !andb_true_iff, !Z.leb_le, !Z.ltb_lt in Hb.
  split.
  - unfold cell_center, OX, OY, CELL_X, CELL_Y.
    change (4 / 2) with 2. change (2 / 2) with 1.
    rewrite andb_true_iff, !Z.eqb_eq. intros [-> ->].
    repeat split; try lia.
    + replace (0 + cx * 4 + 2) with (2 + cx * 4) by lia. rewrite Z.mod_add by lia. reflexivity.
    + replace (1 + cy * 2 + 1) with (0 + (cy + 1) * 2) by lia. rewrite Z.mod_add by lia. reflexivity.
  - intros [[Hx Hxm] [Hy Hym]].
    assert (Ex : x = fst (cell_center ((x - 2) / 4) ((y - 2) / 2))).
    { unfold cell_center, OX, CELL_X. cbn [fst]. change (4 / 2) with 2.
      Z.div_mod_to_equations. lia. }
    assert (Ey : y = snd (cell_center ((x - 2) / 4) ((y - 2) / 2))).
    { unfold cell_center, OY, CELL_Y. cbn [snd]. change (2 / 2) with 1.
      Z.div_mod_to_equations. lia. }
    assert (Hin : in_bounds ((x - 2) / 4) ((y - 2) / 2) = true).
    { unfold in_bounds, COLS, ROWS.
      rewrite !andb_true_iff, !Z.leb_le, !Z.ltb_lt.
      Z.div_mod_to_equations. lia. }
    pose proof (px_to_cell_center _ _ Hin) as E.
    rewrite <- Ex, <- Ey in E. rewrite Hp in E. inversion E; subst cx cy.
    destruct (cell_center ((x - 2) / 4) ((y - 2) / 2)) as [tx ty].
    cbn [fst snd] in Ex, Ey. subst. rewrite !Z.eqb_refl. reflexivity.
Qed.

(** X3. A pixel halfway between the centers of two neighbouring tiles
    belongs to the one with the even index, since Python rounds a tie to
    the even integer: between columns [c] and [c + 1] it is column [c]
    when [c] is even and [c + 1] otherwise, and likewise between rows. *)
Theorem px_to_cell_ties_to_even c :
  (0 <= c < COLS - 1 ->
   forall cy y, fst (px_to_cell (fst (cell_center c cy) + CELL_X / 2) y)
                = if Z.even c then c else c + 1) /\
  (0 <= c < ROWS - 1 ->
   forall cx x, snd (px_to_cell x (snd (cell_center cx c) + CELL_Y / 2))
                = if Z.even c then c else c + 1).
Proof.
  unfold px_to_cell, cell_center, round_div, OX, OY, CELL_X, CELL_Y, COLS, ROWS.
  cbn [fst snd]. change (4 / 2) with 2. change (2 / 2) with 1.
  split; intros Hc ? ?.
  - replace (0 + c * 4 + 2 + 2 - (0 + 2)) with (2 + c * 4) by lia.
    rewrite Z.div_add, Z.mod_add by lia.
    change (2 / 4) with 0. change (2 mod 4) with 2.
    change (2 * 2 <? 4) with false. change (4 <? 2 * 2) with false.
    cbn [Z.add]. destruct (Z.even c); lia.
  - replace (1 + c * 2 + 1 + 1 - (1 + 1)) with (1 + c * 2) by lia.
    rewrite Z.div_add, Z.mod_add by lia.
    change (1 / 2) with 0. change (1 mod 2) with 1.
    change (2 * 1 <? 2) with false. change (2 <? 2 * 1) with false.
    cbn [Z.add]. destruct (Z.even c); lia.
Qed.

Lemma px_to_cell_ties_to_even_witness :
  fst (px_to_cell 8 0) = 2 /\ snd (px_to_cell 0 5) = 2.
Proof.
  split.
  - apply (proj1 (px_to_cell_ties_to_even 1) ltac:(unfold COLS; lia) 0 0).
  - apply (proj2 (px_to_cell_ties_to_even 1) ltac:(unfold ROWS; lia) 0 0).
Defined.

Lemma px_to_cell_row x x' y : snd (px_to_cell x y) = snd (px_to_cell x' y).
Proof. reflexivity. Qed.

Lemma tunnel_rows_in_bounds cy : In cy TUNNEL_ROWS -> in_bounds 0 cy = true.
Proof.
  intros Hin. apply tunnel_row_cases in Hin.
  repeat (destruct Hin as [-> | Hin]; [reflexivity |]). subst. reflexivity.
Qed.

Lemma px_to_cell_on_row x cy :
  in_bounds 0 cy = true -> snd (px_to_cell x (snd (cell_center 0 cy))) = cy.
Proof.
  intros Hb. rewrite (px_to_cell_row x (fst (cell_center 0 cy))).
  rewrite px_to_cell_center by exact Hb. reflexivity.
Qed.

(** X4. The tunnel wrap is idempotent: applied again, with the same
    direction, to the position it returned, it returns that position. *)
Theorem tunnel_wrap_idempotent x y dirx :
  let '(x', y') := tunnel_wrap_on_centerline x y dirx in
  tunnel_wrap_on_centerline x' y' dirx = (x', y').
Proof.
  destruct (tunnel_wrap_on_centerline x y dirx) as [x' y'] eqn:Hw.
  unfold tunnel_wrap_on_centerline in Hw.
  destruct (px_to_cell x y) as [cx cy] eqn:Hp.
  destruct (mem_Z cy TUNNEL_ROWS) eqn:Hm; cbn [negb] in Hw.
  - assert (Hb : in_bounds 0 cy = true)
      by (apply tunnel_rows_in_bounds, mem_Z_In; exact Hm).
    assert (Hrow : forall a, snd (px_to_cell a (snd (cell_center 0 cy))) = cy)
      by (intros a; apply px_to_cell_on_row; exact Hb).
    unfold cell_center in Hw. cbn [fst snd] in Hw.
    assert (Hy : y' = snd (cell_center 0 cy)).
    { unfold cell_center. cbn [snd].
      destruct ((dirx <? 0) && (x <=? _)); [inversion Hw; reflexivity |].
      destruct ((0 <? dirx) && (_ <=? x)); inversion Hw; reflexivity. }
    unfold tunnel_wrap_on_centerline.
    destruct (px_to_cell x' y') as [cx' cy'] eqn:Hp'.
    assert (cy' = cy) by (rewrite <- (Hrow x'), <- Hy, Hp'; reflexivity). subst cy'.
    rewrite Hm. cbn [negb].
    unfold cell_center in *. cbn [fst snd] in *.
    unfold OX, OY, CELL_X, CELL_Y, COLS in *.
    destruct ((dirx <? 0) && (x <=? _)) eqn:H1.
    + inversion Hw; subst x'.
      apply andb_true_iff in H1. destruct H1 as [Hd _]. apply Z.ltb_lt in Hd.
      replace (0 <? dirx) with false by (symmetry; apply Z.ltb_ge; lia).
      rewrite andb_false_l.
      match goal with |- context [?a <=? ?b] => replace (a <=? b) with false by reflexivity end.
      rewrite andb_false_r. f_equal; lia.
    + destruct ((0 <? dirx) && (_ <=? x)) eqn:H2.
      * inversion Hw; subst x'.
        apply andb_true_iff in H2. destruct H2 as [Hd _]. apply Z.ltb_lt in Hd.
        replace (dirx <? 0) with false by (symmetry; apply Z.ltb_ge; lia).
        rewrite andb_false_l.
        match goal with |- context [?a <=? ?b] => replace (a <=? b) with false by reflexivity end.
        rewrite andb_false_r. f_equal; lia.
      * inversion Hw; subst x'. rewrite H1, H2. f_equal; lia.
  - inversion Hw; subst x' y'.
    unfold tunnel_wrap_on_centerline. rewrite Hp, Hm. reflexivity.
Qed.

Lemma mask_shape_all :
  forallb (fun p => mask_shape (fst p) (snd p)) all_pixels = true.
Proof. vm_compute. reflexivity. Qed.

Lemma stands_on_open_tile_all :
  forallb (fun p => stands_on_open_tile (fst p) (snd p)) all_pixels = true.
Proof. vm_compute. reflexivity. Qed.

Lemma center_matches_tile_all : forallb center_matches_tile all_tiles = true.
Proof. vm_compute. reflexivity. Qed.

Lemma ghost_mask_bounds x y :
  can_stand ghost_mask x y = true ->
  (2 <= x <= 110 /\ 4 <= y <= 60) /\ (Z.even y = true \/ x mod 4 = 2).
Proof.
  intros Hs. pose proof (on_every_pixel _ mask_shape_all _ x y Hs) as Hp.
  unfold mask_shape in Hp. rewrite Hs in Hp.
  apply andb_true_iff in Hp. destruct Hp as [_ Hp]. cbn [implb] in Hp.
  rewrite !andb_true_iff, orb_true_iff, !Z.leb_le, Z.eqb_eq in Hp. tauto.
Qed.

Lemma pac_mask_in_ghost_mask x y :
  can_stand pac_mask x y = true -> can_stand ghost_mask x y = true.
Proof.
  intros Hs. pose proof (on_every_pixel _ mask_shape_all _ x y Hs) as Hp.
  unfold mask_shape in Hp. rewrite Hs in Hp.
  apply andb_true_iff in Hp. destruct Hp as [Hp _]. exact Hp.
Qed.

(** X5. The player mask lies inside the ghost mask, and every pixel of
    the ghost mask lies in columns 2 to 110 and rows 4 to 60, on a line
    through tile centers: on an even row or on a column that is 2 modulo
    4. *)
Theorem masks_shape x y :
  (can_stand pac_mask x y = true -> can_stand ghost_mask x y = true) /\
  (can_stand ghost_mask x y = true ->
   (2 <= x <= 110 /\ 4 <= y <= 60) /\ (Z.even y = true \/ x mod 4 = 2)).
Proof.
  split; [apply pac_mask_in_ghost_mask | apply ghost_mask_bounds].
Qed.

Lemma masks_shape_witness :
  can_stand ghost_mask 58 60 = true /\
  ((2 <= 58 <= 110 /\ 4 <= 60 <= 60) /\ (Z.even 60 = true \/ 58 mod 4 = 2)).
Proof.
  assert (Hp : can_stand pac_mask 58 60 = true) by (vm_compute; reflexivity).
  pose proof (proj1 (masks_shape 58 60) Hp) as Hg.
  split; [exact Hg | exact (proj2 (masks_shape 58 60) Hg)].
Defined.

Lemma open_tiles_in_bounds cx cy :
  is_open_for_ghost cx cy = true -> in_bounds cx cy = true.
Proof.
  unfold is_open_for_ghost, is_wall. destruct (in_bounds cx cy) eqn:Hb; [reflexivity |].
  cbn [negb orb]. unfold is_gate_tile. rewrite andb_true_iff, Z.eqb_eq, mem_Z_In.
  intros [-> Hin]. unfold GATE_XS in Hin. apply In_range in Hin.
  unfold in_bounds, COLS, ROWS, GATE_CY in Hb.
  rewrite !andb_false_iff, !Z.leb_gt, !Z.ltb_ge in Hb. exfalso. lia.
Qed.

(** X6. For every tile, inside the grid or not, the center pixel of the
    tile is on the player mask exactly when the tile is open for the
    player, and on the ghost mask exactly when it is open for ghosts. *)
Theorem mask_centers_match_tiles cx cy :
  let '(x, y) := cell_center cx cy in
  can_stand pac_mask x y = is_open_for_pac cx cy /\
  can_stand ghost_mask x y = is_open_for_ghost cx cy.
Proof.
  destruct (in_bounds cx cy) eqn:Hb.
  - pose proof center_matches_tile_all as Hall. rewrite forallb_forall in Hall.
    specialize (Hall (cx, cy) (proj2 (In_all_tiles cx cy) Hb)).
    unfold center_matches_tile in Hall. cbn [fst snd] in Hall.
    destruct (cell_center cx cy) as [x y].
    apply andb_true_iff in Hall. destruct Hall as [H1 H2].
    apply eqb_prop in H1. apply eqb_prop in H2. split; assumption.
  - destruct (cell_center cx cy) as [x y] eqn:Hc.
    assert (Hg : can_stand ghost_mask x y = false).
    { destruct (can_stand ghost_mask x y) eqn:Hs; [| reflexivity].
      apply ghost_mask_bounds in Hs. destruct Hs as [[Hx Hy] _].
      pose proof (f_equal fst Hc) as Ex. pose proof (f_equal snd Hc) as Ey.
      unfold cell_center, OX, OY, CELL_X, CELL_Y in Ex, Ey. cbn [fst snd] in Ex, Ey.
      change (4 / 2) with 2 in Ex. change (2 / 2) with 1 in Ey.
      unfold in_bounds, COLS, ROWS in Hb.
      rewrite !andb_false_iff, !Z.leb_gt, !Z.ltb_ge in Hb. exfalso. lia. }
    assert (Hp : can_stand pac_mask x y = false).
    { destruct (can_stand pac_mask x y) eqn:Hs; [| reflexivity].
      apply pac_mask_in_ghost_mask in Hs. congruence. }
    assert (Hog : is_open_for_ghost cx cy = false).
    { destruct (is_open_for_ghost cx cy) eqn:Ho; [| reflexivity].
      apply open_tiles_in_bounds in Ho. congruence. }
    assert (Hop : is_open_for_pac cx cy = false).
    { unfold is_open_for_pac, is_wall. rewrite Hb.
      destruct (is_gate_tile cx cy); reflexivity. }
    rewrite Hg, Hp, Hog, Hop. split; reflexivity.
Qed.

(** X7. In every state the loop can be in, the tile under the player is
    open for the player and is not a gate tile, and the tile under every
    ghost is open for ghosts: nobody is ever inside a wall. *)
Theorem entities_on_open_tiles l :
  reachable l ->
  (let '(cx, cy) := px_to_cell (px (game l)) (py (game l)) in
   is_open_for_pac cx cy = true /\ is_gate_tile cx cy = false) /\
  (forall n,
     let '(cx, cy) := px_to_cell (g_x (ghosts (game l) n)) (g_y (ghosts (game l) n)) in
     is_open_for_ghost cx cy = true).
Proof.
  intros Hr. apply reachable_Inv in Hr. destruct Hr as [[Hp [Hg _]] _].
  destruct Hp as [Hp _]. split.
  - pose proof (on_every_pixel _ stands_on_open_tile_all _ _ _ Hp) as Hc.
    unfold stands_on_open_tile in Hc.
    destruct (px_to_cell (px (game l)) (py (game l))) as [cx cy].
    rewrite Hp in Hc. apply andb_true_iff in Hc. destruct Hc as [Hc _].
    cbn [implb] in Hc. split; [exact Hc |].
    unfold is_open_for_pac in Hc. destruct (is_gate_tile cx cy); [discriminate | reflexivity].
  - intros n. destruct (Hg n) as [Hs _].
    pose proof (on_every_pixel _ stands_on_open_tile_all _ _ _ Hs) as Hc.
    unfold stands_on_open_tile in Hc.
    destruct (px_to_cell (g_x (ghosts (game l) n)) (g_y (ghosts (game l) n))) as [cx cy].
    rewrite Hs in Hc. apply andb_true_iff in Hc. destruct Hc as [_ Hc]. exact Hc.
Qed.

Lemma entities_on_open_tiles_witness :
  let '(cx, cy) := px_to_cell (px (game (init_loop None 0))) (py (game (init_loop None 0))) in
  is_open_for_pac cx cy = true /\ is_gate_tile cx cy = false.
Proof. exact (proj1 (entities_on_open_tiles _ (reach_init None 0))). Defined.

(** ** The flood fill from any start *)

Lemma visit_grows x y q seen d :
  let st := visit x y (q, seen) d in
  let n := (x + fst d, y + snd d) in
  incl q (fst st) /\ incl seen (snd st) /\
  (forall t, In t (snd st) -> In t seen \/
     (t = n /\ is_open_for_pac (fst n) (snd n) = true /\ In t (fst st))) /\
  (forall t, In t (fst st) -> In t q \/ In t (snd st)) /\
  (is_open_for_pac (fst n) (snd n) = true -> In n (snd st)).
Proof.
  cbv zeta. unfold visit.
  set (n := (x + fst d, y + snd d)).
  destruct (mem_tile n seen) eqn:Hm.
  - cbn [fst snd]. apply mem_tile_In in Hm.
    repeat split; auto using incl_refl.
  - destruct (in_bounds (fst n) (snd n) && is_open_for_pac (fst n) (snd n)) eqn:Ho.
    + cbn [fst snd]. apply andb_true_iff in Ho. destruct Ho as [_ Ho].
      split; [apply incl_appl, incl_refl |].
      split; [apply incl_appl, incl_refl |].
      split; [| split].
      * intros t Ht. apply in_app_iff in Ht. destruct Ht as [Ht | [<- | []]]; [left; exact Ht |].
        right. split; [reflexivity |]. split; [exact Ho |].
        apply in_app_iff. right. left. reflexivity.
      * intros t Ht. apply in_app_iff in Ht. destruct Ht as [Ht | [<- | []]]; [left; exact Ht |].
        right. apply in_app_iff. right. left. reflexivity.
      * intros _. apply in_app_iff. right. left. reflexivity.
    + cbn [fst snd].
      split; [apply incl_refl |]. split; [apply incl_refl |].
      split; [intros t Ht; left; exact Ht |].
      split; [intros t Ht; left; exact Ht |].
      intros Hopen. rewrite Hopen, (is_open_for_pac_in_bounds _ _ Hopen) in Ho.
      discriminate.
Qed.

Lemma visits_grow x y ds : forall q seen,
  let st := fold_left (visit x y) ds (q, seen) in
  incl q (fst st) /\ incl seen (snd st) /\
  (forall t, In t (snd st) -> In t seen \/
     (exists d, In d ds /\ t = (x + fst d, y + snd d) /\
                is_open_for_pac (fst t) (snd t) = true /\ In t (fst st))) /\
  (forall t, In t (fst st) -> In t q \/ In t (snd st)) /\
  (forall d, In d ds ->
     is_open_for_pac (x + fst d) (y + snd d) = true ->
     In (x + fst d, y + snd d) (snd st)).
Proof.
  induction ds as [| d ds IH]; intros q seen; cbv zeta.
  - cbn [fold_left fst snd].
    split; [apply incl_refl |]. split; [apply incl_refl |].
    split; [intros t Ht; left; exact Ht |].
    split; [intros t Ht; left; exact Ht |].
    intros d [].
  - change (fold_left (visit x y) (d :: ds) (q, seen))
      with (fold_left (visit x y) ds (visit x y (q, seen) d)).
    pose proof (visit_grows x y q seen d) as V. cbv zeta in V.
    destruct (visit x y (q, seen) d) as [q1 seen1]. cbn [fst snd] in V.
    destruct V as (Vq & Vs & Vnew & Vqs & Vopen).
    specialize (IH q1 seen1). cbv zeta in IH.
    destruct (fold_left (visit x y) ds (q1, seen1)) as [q2 seen2]. cbn [fst snd] in *.
    destruct IH as (Iq & Is & Inew & Iqs & Iopen).
    split; [eapply incl_tran; eassumption |].
    split; [eapply incl_tran; eassumption |].
    split; [| split].
    + intros t Ht. destruct (Inew t Ht) as [Ht1 | [d' [Hd' [Et [Ho Hq]]]]].
      * destruct (Vnew t Ht1) as [Ht0 | [Et [Ho Hq]]]; [left; exact Ht0 |].
        right. exists d. split; [left; reflexivity |].
        split; [exact Et |]. split; [rewrite Et; exact Ho |]. apply Iq. exact Hq.
      * right. exists d'. split; [right; exact Hd' |]. auto.
    + intros t Ht. destruct (Iqs t Ht) as [Ht1 | Ht1]; [| right; exact Ht1].
      destruct (Vqs t Ht1) as [Ht0 | Ht0]; [left; exact Ht0 | right; apply Is; exact Ht0].
    + intros d' [<- | Hd'] Ho.
      * apply Is. apply Vopen. exact Ho.
      * apply Iopen; assumption.
Qed.

Lemma bfs_step start x y (q seen : list Tile) :
  bfs_inv start ((x, y) :: q) seen ->
  let st := fold_left (visit x y) DIR_LIST (q, seen) in
  bfs_inv start (fst st) (snd st).
Proof.
  intros (Hs & Hq & Hr & Hc). cbv zeta.
  pose proof (visits_grow x y DIR_LIST q seen) as V. cbv zeta in V. revert V.
  destruct (fold_left (visit x y) DIR_LIST (q, seen)) as [q2 seen2]. cbn [fst snd].
  intros (Vq & Vs & Vnew & Vqs & Vopen).
  split; [apply Vs; exact Hs |].
  split; [| split].
  - intros t Ht. destruct (Vqs t Ht) as [Ht0 | Ht0]; [| exact Ht0].
    apply Vs, Hq. right. exact Ht0.
  - intros t Ht. destruct (Vnew t Ht) as [Ht0 | [d [Hd [Et [Ho _]]]]]; [apply Hr; exact Ht0 |].
    subst t. cbn [fst snd] in Ho.
    apply (pr_step start (x, y) d); [apply Hr, Hq; left; reflexivity | exact Hd | exact Ho].
  - intros t Ht. destruct (Vnew t Ht) as [Ht0 | [d [Hd [Et [Ho Hq2]]]]]; [| left; exact Hq2].
    destruct (Hc t Ht0) as [[<- | Hin] | Hclosed].
    + right. intros d Hd Ho. cbn [fst snd] in *. apply Vopen; assumption.
    + left. apply Vq. exact Hin.
    + right. intros d Hd Ho. apply Vs. apply Hclosed; assumption.
Qed.

Lemma bfs_loop start fuel : forall (q seen r : list Tile),
  bfs_inv start q seen -> flood_loop fuel q seen = Some r -> bfs_inv start [] r.
Proof.
  induction fuel as [| fuel IH]; intros q seen r Hinv Hl.
  - destruct q as [| [x y] q]; [| discriminate].
    cbn [flood_loop] in Hl. inversion Hl; subst. exact Hinv.
  - destruct q as [| [x y] q].
    + cbn [flood_loop] in Hl. inversion Hl; subst. exact Hinv.
    + cbn [flood_loop] in Hl.
      pose proof (bfs_step start x y q seen Hinv) as Hstep. cbv zeta in Hstep.
      destruct (fold_left (visit x y) DIR_LIST (q, seen)) as [q2 seen2].
      cbn [fst snd] in Hstep. apply (IH q2 seen2 r Hstep Hl).
Qed.

Lemma pac_reach_open start t :
  pac_reach start t -> is_open_for_pac (fst start) (snd start) = true.
Proof. induction 1; assumption. Qed.

(** X8. From any start tile, the flood fill returns exactly the tiles
    joined to the start by a chain of neighbouring tiles that are open for
    the player; from a start that is not open it returns the empty set. *)
Theorem flood_reachable_correct start t :
  In t (flood_reachable start) <-> pac_reach start t.
Proof.
  pose proof (flood_reachable_total start) as Ht.
  unfold flood_reachable_opt in Ht. destruct start as [sx sy].
  destruct (is_open_for_pac sx sy) eqn:Ho; cbn [negb] in Ht.
  - assert (Hinv : bfs_inv (sx, sy) [(sx, sy)] [(sx, sy)]).
    { split; [left; reflexivity |]. split; [apply incl_refl |].
      split; [| intros u Hu; left; exact Hu].
      intros u [<- | []]. apply pr_start. exact Ho. }
    pose proof (bfs_loop _ _ _ _ _ Hinv Ht) as (Hs & _ & Hr & Hc).
    split; [apply Hr |].
    intros Hreach. induction Hreach as [_ | u d _ IH Hd Hou]; [exact Hs |].
    destruct (Hc u IH) as [[] | Hclosed]. apply Hclosed; assumption.
  - assert (E : flood_reachable (sx, sy) = []) by congruence.
    rewrite E. split; [intros [] |].
    intros Hreach. apply pac_reach_open in Hreach. cbn [fst snd] in Hreach. congruence.
Qed.

(** ** Ranges of the counters and timers *)

Lemma Bounds_same g g' :
  counters g' = counters g -> ghosts g' = ghosts g -> Bounds g -> Bounds g'.
Proof.
  unfold counters, Bounds, frightened_count, frightened.
  intros Hc Hg. inversion Hc as [[E1 E2 E3 E4 E5 E6]].
  rewrite Hg, E1, E2, E3, E4, E5, E6. tauto.
Qed.

Lemma counters_eq g g' :
  counters g' = counters g ->
  lives g' = lives g /\ level g' = level g /\ menu_idx g' = menu_idx g /\
  score g' = score g /\ fright_chain g' = fright_chain g /\ p_acc g' = p_acc g.
Proof. unfold counters. intros E. inversion E. repeat split; assumption. Qed.

Lemma ghost_can_move_all :
  forallb (fun p => ghost_can_move (fst p) (snd p)) all_pixels = true.
Proof. vm_compute. reflexivity. Qed.

Lemma Bounds_set_menu_idx v g : 0 <= v < 3 -> Bounds g -> Bounds (set_menu_idx v g).
Proof.
  intros Hv (B1 & B2 & B3 & B4 & B5 & B6 & B7 & B8).
  unfold Bounds, frightened_count, frightened. fields.
  repeat split; try apply B1; try apply B4; try apply B5; try apply B6;
    try apply B7; try apply B8; try lia; exact B2.
Qed.

Lemma Bounds_menu_toggle e now g : Bounds g -> Bounds (menu_toggle e now g).
Proof.
  intros B. unfold menu_toggle. cbv zeta.
  destruct (_ && Qltb MENU_DEBOUNCE_SEC (now - last_menu_toggle g)); [| exact B].
  assert (B' : Bounds (set_menu (negb (menu g)) (set_last_menu_toggle now g)))
    by (apply (Bounds_same g); [reflexivity | reflexivity | exact B]).
  destruct (menu (set_menu (negb (menu g)) (set_last_menu_toggle now g))); [| exact B'].
  apply Bounds_set_menu_idx; [lia | exact B'].
Qed.

Lemma Bounds_waiting_start e g : Bounds g -> Bounds (waiting_start e g).
Proof.
  intros B. unfold waiting_start.
  destruct (waiting g && negb (menu g) && negb (dead g)); [| exact B].
  destruct (ev_left e); [apply (Bounds_same g); [reflexivity | reflexivity | exact B] |].
  destruct (ev_right e); [apply (Bounds_same g); [reflexivity | reflexivity | exact B] |].
  exact B.
Qed.

Lemma Bounds_dpad_intent e g : Bounds g -> Bounds (dpad_intent e g).
Proof.
  intros B. unfold dpad_intent.
  destruct (negb (waiting g) && negb (menu g) && negb (dead g)); [| exact B].
  cbv zeta. apply (Bounds_same g); [| | exact B];
    destruct (ev_left e), (ev_right e), (ev_up e), (ev_down e); reflexivity.
Qed.

Lemma Bounds_latch_dir g : Bounds g -> Bounds (latch_dir g).
Proof.
  intros B. unfold latch_dir. destruct (want g) as [wx wy].
  destruct (can_stand pac_mask (px g + wx) (py g + wy)); [| exact B].
  apply (Bounds_same g); [reflexivity | reflexivity | exact B].
Qed.

Lemma Bounds_track_hiscore g : Bounds g -> Bounds (track_hiscore g).
Proof.
  intros B. unfold track_hiscore. destruct (hiscore g <? score g); [| exact B].
  apply (Bounds_same g); [reflexivity | reflexivity | exact B].
Qed.

Lemma Bounds_flush_hiscore g file : Bounds g -> Bounds (fst (flush_hiscore (g, file))).
Proof.
  intros B. unfold flush_hiscore. destruct (hiscore g <? score g); [| exact B].
  cbn [fst]. apply (Bounds_same g); [reflexivity | reflexivity | exact B].
Qed.

Lemma frightened_count_none g :
  (forall n, frightened g n = false) -> frightened_count g = 0.
Proof.
  intros H. unfold frightened_count, GHOSTS. cbn [filter]. rewrite !H. reflexivity.
Qed.

Lemma frightened_count_range g : 0 <= frightened_count g <= 4.
Proof.
  unfold frightened_count, GHOSTS. cbn [filter].
  destruct (frightened g blinky), (frightened g pinky), (frightened g inky),
    (frightened g clyde); cbn [List.length]; lia.
Qed.

(** What a reset leaves: ghosts facing up, not frightened, chain, menu
    index and the player's accumulator at zero. *)
Lemma Bounds_fresh g :
  1 <= lives g <= 3 -> 1 <= level g -> (0 <= score g /\ (10 | score g)) ->
  0 <= menu_idx g < 3 -> fright_chain g = 0 -> p_acc g = 0%Q ->
  (forall n, g_dir (ghosts g n) = DIR_U /\ g_fright (ghosts g n) = 0%Q) ->
  Bounds g.
Proof.
  intros H1 H2 H3 H4 H5 H6 H7. unfold Bounds.
  rewrite H5, H6.
  split; [exact H1 |]. split; [exact H2 |]. split; [exact H4 |]. split; [exact H3 |].
  split.
  { rewrite frightened_count_none; [lia |].
    intros n. unfold frightened. rewrite (proj2 (H7 n)). reflexivity. }
  split.
  { intros n. rewrite (proj2 (H7 n)). split; [apply Qle_refl | discriminate]. }
  split; [split; [apply Qle_refl | reflexivity] |].
  intros n. rewrite (proj1 (H7 n)). right. right. left. reflexivity.
Qed.

Lemma Bounds_reset_level g :
  1 <= lives g <= 3 -> 1 <= level g -> (0 <= score g /\ (10 | score g)) ->
  Bounds (reset_level g).
Proof.
  intros H1 H2 H3.
  destruct (reset_level_effect g)
    as (_ & _ & _ & Ha & _ & Hc & _ & Hm & _ & Hs & _ & Hl & Hv & Hg).
  apply Bounds_fresh.
  - rewrite Hl. exact H1.
  - rewrite Hv. exact H2.
  - rewrite Hs. exact H3.
  - rewrite Hm. lia.
  - exact Hc.
  - exact Ha.
  - intros n. destruct (Hg n) as [E _]. rewrite E. split; reflexivity.
Qed.

Lemma new_game_unfold hs :
  new_game hs =
  reset_level
    (mkGame 0 hs 3 1 [] [] 0 0 DIR_L DIR_L
       (fun name =>
          let '(hx, hy) := GHOST_HOME_TILES name in
          let '(gx, gy) := cell_center hx hy in
          mkGhost gx gy DIR_U 0%Q (hx, hy))
       false 0%Q 0%Q 0%Q (fun _ => 0%Q) false 0 0 true 0%Q).
Proof. with_strategy transparent [new_game] (unfold new_game). reflexivity. Qed.

Lemma Bounds_new_game hs : Bounds (new_game hs).
Proof.
  rewrite new_game_unfold. apply Bounds_reset_level; fields.
  - lia.
  - lia.
  - split; [lia | apply Z.divide_0_r].
Qed.

Lemma respawn_ghost_counters g name :
  counters (respawn_ghost g name) = counters g /\
  (forall n,
     (g_dir (ghosts (respawn_ghost g name) n), g_fright (ghosts (respawn_ghost g name) n)) =
     if ghost_name_eqb n name then (DIR_U, 0%Q)
     else (g_dir (ghosts g n), g_fright (ghosts g n))).
Proof.
  unfold respawn_ghost. destruct (g_home (ghosts g name)) as [hx hy].
  destruct (cell_center hx hy) as [x y]. split; [reflexivity |].
  intros n. fields. unfold upd. destruct (ghost_name_eqb n name); reflexivity.
Qed.

Lemma respawn_ghosts_counters names : forall g,
  counters (fold_left respawn_ghost names g) = counters g /\
  (forall n,
     (g_dir (ghosts (fold_left respawn_ghost names g) n),
      g_fright (ghosts (fold_left respawn_ghost names g) n)) =
     if reset_done names n then (DIR_U, 0%Q)
     else (g_dir (ghosts g n), g_fright (ghosts g n))).
Proof.
  induction names as [| name names IH]; intros g; cbn [fold_left].
  - split; [reflexivity |]. intros n. reflexivity.
  - destruct (IH (respawn_ghost g name)) as [Hc Hg].
    destruct (respawn_ghost_counters g name) as [Hc1 Hg1].
    split; [rewrite Hc; exact Hc1 |].
    intros n. rewrite Hg, Hg1. unfold reset_done. cbn [existsb].
    fold (reset_done names n).
    destruct (ghost_name_eqb n name), (reset_done names n); reflexivity.
Qed.

Lemma respawn_unfold g :
  respawn g =
  set_waiting true (set_fright_chain 0
    (fold_left respawn_ghost GHOSTS
       (set_p_acc 0%Q (set_want DIR_L (set_dir DIR_L
          (set_pos (fst start_px) (snd start_px) g)))))).
Proof.
  with_strategy transparent [respawn] (unfold respawn).
  unfold start_px. destruct (cell_center (fst pick_start_tile_pac) (snd pick_start_tile_pac)).
  reflexivity.
Qed.

Lemma Bounds_respawn g :
  1 <= lives g <= 3 -> 1 <= level g -> 0 <= menu_idx g < 3 ->
  (0 <= score g /\ (10 | score g)) ->
  Bounds (respawn g).
Proof.
  intros H1 H2 H3 H4. rewrite respawn_unfold.
  match goal with
  | |- context [fold_left respawn_ghost GHOSTS ?x] => set (g0 := x)
  end.
  destruct (respawn_ghosts_counters GHOSTS g0) as [Hc Hg].
  assert (E0 : counters g0 = (lives g, level g, menu_idx g, score g, fright_chain g, 0%Q))
    by reflexivity.
  rewrite E0 in Hc. clearbody g0.
  set (g1 := fold_left respawn_ghost GHOSTS g0) in *. clearbody g1.
  unfold counters in Hc. inversion Hc as [[E1 E2 E3 E4 E5 E6]].
  apply Bounds_fresh; fields.
  - rewrite E1. exact H1.
  - rewrite E2. exact H2.
  - rewrite E4. exact H4.
  - rewrite E3. exact H3.
  - reflexivity.
  - exact E6.
  - intros n. specialize (Hg n). rewrite reset_done_all in Hg.
    inversion Hg as [[Ea Eb]]. rewrite Ea, Eb. split; reflexivity.
Qed.

Lemma Bounds_death_handling elapsed g file :
  Bounds g -> Bounds (fst (death_handling elapsed (g, file))).
Proof.
  intros B. unfold death_handling.
  destruct (dead g); [| exact B].
  cbn [dead_t set_dead_t].
  destruct (Qle_bool 1 (Qred (dead_t g + elapsed)));
    [| cbn [fst]; apply (Bounds_same g); [reflexivity | reflexivity | exact B]].
  match goal with
  | |- context [if lives ?g0 <=? 0 then _ else _] => set (g1 := g0)
  end.
  assert (E1 : counters g1 =
               (lives g - 1, level g, menu_idx g, score g, fright_chain g, p_acc g))
    by reflexivity.
  clearbody g1. unfold counters in E1. inversion E1 as [[El Ev Em Es Ec Ea]].
  destruct B as (B1 & B2 & B3 & B4 & _).
  destruct (lives g1 <=? 0) eqn:Hl.
  - destruct (flush_hiscore (g1, file)) as [g4 f4]. cbn [fst]. apply Bounds_new_game.
  - cbn [fst]. apply Z.leb_gt in Hl. apply Bounds_respawn.
    + lia.
    + rewrite Ev. exact B2.
    + rewrite Em. exact B3.
    + rewrite Es. exact B4.
Qed.

Lemma menu_items_length : Z.of_nat (List.length MENU_ITEMS) = 3.
Proof. reflexivity. Qed.

Lemma Bounds_menu_actions e g file g' file' :
  Bounds g -> menu_actions e (g, file) = inl (g', file') -> Bounds g'.
Proof.
  intros B. unfold menu_actions.
  destruct (menu g); [| intros E; apply inl_pair_inj in E; destruct E as [<- _]; exact B].
  cbv zeta. rewrite menu_items_length.
  match goal with
  | |- context [if ev_b e || ev_y e then set_menu false ?x else _] => set (g3 := x)
  end.
  assert (B3 : Bounds g3).
  { unfold g3.
    destruct (ev_up e).
    - destruct (ev_down e).
      + apply Bounds_set_menu_idx; [apply Z.mod_pos_bound; lia |].
        apply Bounds_set_menu_idx; [apply Z.mod_pos_bound; lia | exact B].
      + apply Bounds_set_menu_idx; [apply Z.mod_pos_bound; lia | exact B].
    - destruct (ev_down e); [| exact B].
      apply Bounds_set_menu_idx; [apply Z.mod_pos_bound; lia | exact B]. }
  clearbody g3.
  remember (if ev_b e || ev_y e then set_menu false g3 else g3) as g4 eqn:E4.
  assert (B4 : Bounds g4).
  { subst g4. destruct (ev_b e || ev_y e); [| exact B3].
    apply (Bounds_same g3); [reflexivity | reflexivity | exact B3]. }
  clear E4.
  destruct (ev_a e || ev_x e);
    [| intros E; apply inl_pair_inj in E; destruct E as [<- _]; exact B4].
  remember (nth (Z.to_nat (menu_idx g4)) MENU_ITEMS EmptyString) as choice eqn:Ec. clear Ec.
  destruct (String.eqb choice "RESUME").
  { intros E; apply inl_pair_inj in E; destruct E as [<- _].
    apply (Bounds_same g4); [reflexivity | reflexivity | exact B4]. }
  destruct (String.eqb choice "RESTART").
  - destruct (flush_hiscore (g4, file)) as [g5 f5].
    intros E. apply inl_pair_inj in E. destruct E as [<- _]. apply Bounds_new_game.
  - destruct (String.eqb choice "EXIT"); [discriminate |].
    intros E; apply inl_pair_inj in E; destruct E as [<- _]; exact B4.
Qed.

(** *** The gameplay block *)

Lemma pac_step_counters g :
  counters (pac_step g) = counters g /\ ghosts (pac_step g) = ghosts g.
Proof.
  unfold pac_step. destruct (dir g) as [dx dy].
  destruct (negb (dx =? 0)).
  - destruct (tunnel_wrap_on_centerline (px g) (py g) dx) as [x y]. fields.
    destruct (can_stand pac_mask (x + dx) (y + dy)); split; reflexivity.
  - destruct (can_stand pac_mask (px g + dx) (py g + dy)); split; reflexivity.
Qed.

Lemma pac_loop_counters fuel : forall g,
  let g' := pac_loop fuel g in
  (lives g', level g', menu_idx g', score g', fright_chain g') =
  (lives g, level g, menu_idx g, score g, fright_chain g) /\
  ghosts g' = ghosts g /\
  (0 <= p_acc g -> 0 <= p_acc g')%Q.
Proof.
  induction fuel as [| fuel IH]; intros g; cbv zeta; cbn [pac_loop].
  - split; [reflexivity |]. split; [reflexivity | tauto].
  - destruct (Qle_bool 1 (p_acc g)) eqn:E;
      [| split; [reflexivity |]; split; [reflexivity | tauto]].
    specialize (IH (pac_step (set_p_acc (Qred (p_acc g - 1)) g))). cbv zeta in IH.
    destruct IH as (I1 & I2 & I3).
    destruct (pac_step_counters (set_p_acc (Qred (p_acc g - 1)) g)) as [S1 S2].
    destruct (counters_eq _ _ S1) as (E1 & E2 & E3 & E4 & E5 & E6).
    rewrite I1, I2, S2, E1, E2, E3, E4, E5.
    split; [reflexivity |]. split; [reflexivity |].
    intros _. apply I3. rewrite E6. fields.
    rewrite Qred_correct. apply Qle_bool_iff in E.
    apply (Qplus_le_l _ _ 1). setoid_replace (p_acc g - 1 + 1)%Q with (p_acc g) by ring.
    rewrite Qplus_0_l. exact E.
Qed.

Lemma Bounds_pac_move elapsed g :
  (0 <= elapsed)%Q -> Bounds g -> Bounds (pac_move elapsed g).
Proof.
  intros He (B1 & B2 & B3 & B4 & B5 & B6 & B7 & B8).
  pose proof (pac_move_exhausts elapsed g) as Hx.
  unfold pac_move in *. cbv zeta in *.
  match goal with
  | |- context [pac_loop ?f ?x] => set (n := f) in *; set (g0 := x) in *
  end.
  destruct (pac_loop_counters n g0) as (I1 & I2 & I3). cbv zeta in I1, I2, I3.
  assert (H0 : (0 <= p_acc g0)%Q).
  { unfold g0. fields. rewrite Qred_correct.
    apply (Qle_trans _ (0 + 0)); [discriminate |].
    apply Qplus_le_compat; [apply B7 |].
    apply Qmult_le_0_compat; [discriminate | exact He]. }
  specialize (I3 H0).
  change (lives g0, level g0, menu_idx g0, score g0, fright_chain g0)
    with (lives g, level g, menu_idx g, score g, fright_chain g) in I1.
  change (ghosts g0) with (ghosts g) in I2.
  clearbody g0 n. set (g' := pac_loop n g0) in *. clearbody g'.
  inversion I1 as [[E1 E2 E3 E4 E5]].
  unfold Bounds, frightened_count, frightened.
  rewrite I2, E1, E2, E3, E4, E5.
  split; [exact B1 |]. split; [exact B2 |]. split; [exact B3 |]. split; [exact B4 |].
  split; [exact B5 |]. split; [exact B6 |]. split; [| exact B8].
  split; [exact I3 |].
  apply Qnot_le_lt. intros Hc. apply Qle_bool_iff in Hc. congruence.
Qed.

Lemma frightened_count_le g g' :
  (forall n, frightened g' n = true -> frightened g n = true) ->
  frightened_count g' <= frightened_count g.
Proof.
  intros H. unfold frightened_count, GHOSTS. cbn [filter].
  pose proof (H blinky). pose proof (H pinky). pose proof (H inky). pose proof (H clyde).
  destruct (frightened g' blinky), (frightened g' pinky), (frightened g' inky),
    (frightened g' clyde), (frightened g blinky), (frightened g pinky),
    (frightened g inky), (frightened g clyde); cbn [List.length];
    try lia; exfalso; intuition discriminate.
Qed.

Lemma frightened_count_drop g g' name :
  frightened g name = true ->
  (forall n, frightened g' n = if ghost_name_eqb n name then false else frightened g n) ->
  frightened_count g' = frightened_count g - 1.
Proof.
  intros Hf H. unfold frightened_count, GHOSTS. cbn [filter].
  rewrite !H. destruct name; cbn [ghost_name_eqb]; rewrite Hf;
    destruct (frightened g blinky), (frightened g pinky), (frightened g inky),
      (frightened g clyde); cbn [List.length]; try lia; discriminate.
Qed.

Lemma Bounds_eat g : Bounds g -> Bounds (eat g).
Proof.
  intros B. unfold eat.
  destruct (px_to_cell (px g) (py g)) as [cx cy].
  destruct (cell_center cx cy) as [txc tyc].
  destruct ((px g =? txc) && (py g =? tyc)); [| exact B].
  cbv zeta.
  match goal with
  | |- context [if mem_tile (cx, cy) (power ?x) then _ else _] => set (g1 := x)
  end.
  assert (B1 : Bounds g1).
  { unfold g1. destruct (mem_tile (cx, cy) (pellets g)); [| exact B].
    destruct B as (B1 & B2 & B3 & [B4 B4'] & B5 & B6 & B7 & B8).
    unfold Bounds, frightened_count, frightened. fields.
    split; [exact B1 |]. split; [exact B2 |]. split; [exact B3 |].
    split; [split; [lia | apply Z.divide_add_r; [exact B4' | exists 1; reflexivity]] |].
    split; [exact B5 |]. split; [exact B6 |]. split; [exact B7 | exact B8]. }
  clearbody g1.
  destruct (mem_tile (cx, cy) (power g1)); [| exact B1].
  destruct B1 as (B1 & B2 & B3 & [B4 B4'] & B5 & B6 & B7 & B8).
  unfold Bounds. fields.
  split; [exact B1 |]. split; [exact B2 |]. split; [exact B3 |].
  split; [split; [lia | apply Z.divide_add_r; [exact B4' | exists 5; reflexivity]] |].
  split.
  { split; [lia |].
    match goal with |- 0 + frightened_count ?x <= 4 => pose proof (frightened_count_range x) end.
    lia. }
  split; [intros n; split; [discriminate | apply Qle_refl] |].
  split; [exact B7 | exact B8].
Qed.

Lemma Bounds_fright_decay elapsed g :
  (0 <= elapsed)%Q -> Bounds g -> Bounds (fright_decay elapsed g).
Proof.
  intros He (B1 & B2 & B3 & B4 & [B5 B5'] & B6 & B7 & B8).
  assert (Hf : forall n,
    let gg := ghosts g n in
    let gg' := ghosts (fright_decay elapsed g) n in
    g_dir gg' = g_dir gg /\
    (0 <= g_fright gg' /\ g_fright gg' <= FRIGHT_DURATION)%Q /\
    (Qltb 0 (g_fright gg') = true -> Qltb 0 (g_fright gg) = true)).
  { intros n. cbv zeta. unfold fright_decay. fields.
    destruct (Qltb 0 (g_fright (ghosts g n))) eqn:E.
    - destruct (Qle_bool (Qred (g_fright (ghosts g n) - elapsed)) 0) eqn:E2; fields.
      + split; [reflexivity |]. split; [split; [apply Qle_refl | discriminate] |].
        intros; reflexivity.
      + split; [reflexivity |]. split; [| intros; reflexivity].
        rewrite Qred_correct. split.
        * apply Qlt_le_weak. apply Qnot_le_lt. intros Hc.
          rewrite <- (Qred_correct (g_fright (ghosts g n) - elapsed)) in Hc.
          apply Qle_bool_iff in Hc. congruence.
        * apply (Qle_trans _ (g_fright (ghosts g n))); [| apply B6].
          apply (Qplus_le_l _ _ elapsed).
          setoid_replace (g_fright (ghosts g n) - elapsed + elapsed)%Q
            with (g_fright (ghosts g n) + 0)%Q by ring.
          apply Qplus_le_r. exact He.
    - split; [reflexivity |]. split; [apply B6 |]. rewrite E. tauto. }
  cbv zeta in Hf.
  assert (Hc : counters (fright_decay elapsed g) = counters g) by reflexivity.
  set (g' := fright_decay elapsed g) in *. clearbody g'.
  destruct (counters_eq _ _ Hc) as (E1 & E2 & E3 & E4 & E5 & E6).
  unfold Bounds. rewrite E1, E2, E3, E4, E5, E6.
  split; [exact B1 |]. split; [exact B2 |]. split; [exact B3 |]. split; [exact B4 |].
  split.
  { split; [exact B5 |].
    assert (frightened_count g' <= frightened_count g); [| lia].
    apply frightened_count_le. intros n. unfold frightened. apply Hf. }
  split; [intros n; apply Hf |].
  split; [exact B7 |].
  intros n. rewrite (proj1 (Hf n)). apply B8.
Qed.

Lemma ghost_loop_fright fuel : forall gh acc,
  g_fright (fst (ghost_loop fuel gh acc)) = g_fright gh.
Proof.
  induction fuel as [| fuel IH]; intros gh acc; cbn [ghost_loop]; [reflexivity |].
  destruct (Qle_bool 1 acc); [| reflexivity].
  destruct (g_dir gh) as [ddx ddy].
  destruct (negb (ddx =? 0)).
  - destruct (tunnel_wrap_on_centerline (g_x gh) (g_y gh) ddx) as [x y]. fields.
    destruct (can_stand ghost_mask (x + ddx) (y + ddy)); [rewrite IH |]; reflexivity.
  - destruct (can_stand ghost_mask (g_x gh + ddx) (g_y gh + ddy));
      [rewrite IH |]; reflexivity.
Qed.

Lemma ghost_possible_dirs_incl mask x y d :
  In d (ghost_possible_dirs mask x y) -> In d DIR_LIST.
Proof. unfold ghost_possible_dirs. intros H. apply filter_In in H. tauto. Qed.

Lemma ghost_choose_dir_DIR_LIST gx gy gdir target fr r :
  can_stand ghost_mask gx gy = true ->
  In (ghost_choose_dir gx gy gdir target fr ghost_mask r) DIR_LIST.
Proof.
  intros Hs.
  apply (ghost_possible_dirs_incl ghost_mask gx gy).
  apply (ghost_choices_possible _ _ _ gdir).
  apply ghost_choose_dir_In.
  pose proof (on_every_pixel _ ghost_can_move_all _ _ _ Hs) as Hm.
  unfold ghost_can_move in Hm. rewrite Hs in Hm. cbn [implb] in Hm.
  destruct (ghost_possible_dirs ghost_mask gx gy); [discriminate | discriminate].
Qed.

Lemma ghost_decide_effect pac_px r gh :
  can_stand ghost_mask (g_x gh) (g_y gh) = true ->
  In (g_dir gh) DIR_LIST ->
  g_fright (ghost_decide pac_px r gh) = g_fright gh /\
  In (g_dir (ghost_decide pac_px r gh)) DIR_LIST.
Proof.
  intros Hs Hd. unfold ghost_decide. cbv zeta.
  destruct (is_at_tile_center (g_x gh) (g_y gh)); [| split; [reflexivity | exact Hd]].
  destruct (px_to_cell (g_x gh) (g_y gh)) as [gcx gcy].
  destruct (in_house gcx gcy && negb (Qltb 0 (g_fright gh))).
  - destruct (can_stand ghost_mask (g_x gh) (g_y gh - 1)).
    + split; [reflexivity |]. fields. right. right. left. reflexivity.
    + destruct (cell_center (fst HOUSE_EXIT_TILE) (snd HOUSE_EXIT_TILE)) as [ex ey].
      split; [reflexivity |]. fields. apply ghost_choose_dir_DIR_LIST. exact Hs.
  - split; [reflexivity |]. fields. apply ghost_choose_dir_DIR_LIST. exact Hs.
Qed.

(** Replacing one ghost by one with the same fright and a direction of
    [DIR_LIST], and its accumulator, keeps the bounds. *)
Lemma Bounds_set_ghost name gh acc g :
  g_fright gh = g_fright (ghosts g name) ->
  In (g_dir gh) DIR_LIST ->
  Bounds g ->
  Bounds (set_g_acc (upd (g_acc g) name acc) (set_ghost name gh g)) /\
  frightened (set_g_acc (upd (g_acc g) name acc) (set_ghost name gh g)) name =
  frightened g name.
Proof.
  intros Hf Hd (B1 & B2 & B3 & B4 & [B5 B5'] & B6 & B7 & B8).
  set (g' := set_g_acc (upd (g_acc g) name acc) (set_ghost name gh g)).
  assert (Hfr : forall n, g_fright (ghosts g' n) = g_fright (ghosts g n)).
  { intros n. unfold g'. fields. unfold upd.
    destruct (ghost_name_eqb n name) eqn:E; [| reflexivity].
    apply ghost_name_eqb_eq in E. subst n. exact Hf. }
  assert (Hdir : forall n, In (g_dir (ghosts g' n)) DIR_LIST).
  { intros n. unfold g'. fields. unfold upd.
    destruct (ghost_name_eqb n name); [exact Hd | apply B8]. }
  assert (Hc : counters g' = counters g) by reflexivity.
  clearbody g'. destruct (counters_eq _ _ Hc) as (E1 & E2 & E3 & E4 & E5 & E6).
  split; [| unfold frightened; rewrite Hfr; reflexivity].
  unfold Bounds. rewrite E1, E2, E3, E4, E5, E6.
  split; [exact B1 |]. split; [exact B2 |]. split; [exact B3 |]. split; [exact B4 |].
  split.
  { split; [exact B5 |].
    assert (frightened_count g' <= frightened_count g); [| lia].
    apply frightened_count_le. intros n. unfold frightened. rewrite Hfr. tauto. }
  split; [intros n; rewrite Hfr; apply B6 |].
  split; [exact B7 | exact Hdir].
Qed.

Lemma Bounds_capture name g :
  frightened g name = true -> Bounds g -> Bounds (capture name g).
Proof.
  intros Hf (B1 & B2 & B3 & [B4 B4'] & [B5 B5'] & B6 & B7 & B8).
  unfold capture. cbv zeta. fields.
  destruct (g_home (ghosts g name)) as [hx hy].
  destruct (cell_center hx hy) as [x y].
  match goal with |- Bounds ?t => set (g' := t) end.
  assert (Hfr : forall n, frightened g' n =
                          if ghost_name_eqb n name then false else frightened g n).
  { intros n. unfold frightened, g'. fields. unfold upd.
    destruct (ghost_name_eqb n name); reflexivity. }
  assert (Hg : forall n, ghosts g' n =
                         if ghost_name_eqb n name
                         then mkGhost x y DIR_U 0%Q (g_home (ghosts g name))
                         else ghosts g n).
  { intros n. unfold g'. fields. unfold upd.
    destruct (ghost_name_eqb n name); reflexivity. }
  assert (Hc : counters g' =
               (lives g, level g, menu_idx g,
                score g + 200 * 2 ^ Z.max 0 (fright_chain g + 1 - 1),
                fright_chain g + 1, p_acc g)) by reflexivity.
  clearbody g'.
  unfold counters in Hc.
  assert (E1 : lives g' = lives g) by (apply (f_equal (fun t => fst (fst (fst (fst (fst t)))))) in Hc; exact Hc).
  assert (E2 : level g' = level g) by (apply (f_equal (fun t => snd (fst (fst (fst (fst t)))))) in Hc; exact Hc).
  assert (E3 : menu_idx g' = menu_idx g) by (apply (f_equal (fun t => snd (fst (fst (fst t))))) in Hc; exact Hc).
  assert (E4 : score g' = score g + 200 * 2 ^ Z.max 0 (fright_chain g + 1 - 1))
    by (apply (f_equal (fun t => snd (fst (fst t)))) in Hc; exact Hc).
  assert (E5 : fright_chain g' = fright_chain g + 1)
    by (apply (f_equal (fun t => snd (fst t))) in Hc; exact Hc).
  assert (E6 : p_acc g' = p_acc g) by (apply (f_equal snd) in Hc; exact Hc).
  unfold Bounds. rewrite E1, E2, E3, E4, E5, E6.
  split; [exact B1 |]. split; [exact B2 |]. split; [exact B3 |].
  split.
  { assert (Hpow : 0 < 2 ^ Z.max 0 (fright_chain g + 1 - 1))
      by (apply Z.pow_pos_nonneg; lia).
    split; [nia |]. apply Z.divide_add_r; [exact B4' |].
    exists (20 * 2 ^ Z.max 0 (fright_chain g + 1 - 1)). ring. }
  split.
  { rewrite (frightened_count_drop g g' name Hf Hfr). lia. }
  split.
  { intros n. rewrite Hg. destruct (ghost_name_eqb n name); [| apply B6].
    fields. split; [apply Qle_refl | discriminate]. }
  split; [exact B7 |].
  intros n. rewrite Hg. destruct (ghost_name_eqb n name); [| apply B8].
  fields. right. right. left. reflexivity.
Qed.

Lemma Bounds_ghost_turn elapsed speed pac_px r g name :
  ghost_ok name (ghosts g name) -> Bounds g ->
  Bounds (fst (ghost_turn elapsed speed pac_px r g name)).
Proof.
  intros [Hs _] B. unfold ghost_turn. cbv zeta.
  destruct (ghost_decide_effect pac_px r (ghosts g name) Hs
              (proj2 (proj2 (proj2 (proj2 (proj2 (proj2 (proj2 B)))))) name))
    as [Df Dd].
  set (gh1 := ghost_decide pac_px r (ghosts g name)) in *. clearbody gh1.
  set (acc1 := Qred (g_acc g name + speed * elapsed)). clearbody acc1.
  pose proof (ghost_loop_fright (steps_of acc1) gh1 acc1) as Lf.
  pose proof (ghost_loop_dir (steps_of acc1) gh1 acc1) as Ld.
  destruct (ghost_loop (steps_of acc1) gh1 acc1) as [gh2 acc2].
  cbn [fst] in Lf, Ld.
  assert (Hf2 : g_fright gh2 = g_fright (ghosts g name)) by (rewrite Lf; exact Df).
  assert (Hd2 : In (g_dir gh2) DIR_LIST) by (rewrite Ld; exact Dd).
  destruct (Bounds_set_ghost name gh2 acc2 g Hf2 Hd2 B) as [B' Hfr].
  set (g' := set_g_acc (upd (g_acc g) name acc2) (set_ghost name gh2 g)) in *.
  clearbody g'.
  destruct (collide (px g') (py g') (g_x gh2) (g_y gh2) 1); [| exact B'].
  fold (frightened g name). destruct (frightened g name) eqn:Hfg; cbn [fst].
  - apply Bounds_capture; [rewrite Hfr; reflexivity | exact B'].
  - apply (Bounds_same g'); [reflexivity | reflexivity | exact B'].
Qed.

Lemma Bounds_ghosts_loop names elapsed speed pac_px r : forall g,
  Inv0 g -> Bounds g -> Bounds (ghosts_loop names elapsed speed pac_px r g).
Proof.
  induction names as [| n names IH]; intros g H0 B; cbn [ghosts_loop]; [exact B |].
  pose proof (ghost_turn_effect elapsed speed pac_px (r n) g n) as Ht.
  cbv zeta in Ht.
  pose proof (Bounds_ghost_turn elapsed speed pac_px (r n) g n
                (proj1 (proj2 H0) n) B) as Bt.
  destruct (ghost_turn elapsed speed pac_px (r n) g n) as [g1 brk].
  cbn [fst snd] in Ht, Bt.
  destruct Ht as (_ & _ & _ & _ & _ & _ & _ & _ & T9).
  destruct brk; [exact Bt |].
  apply IH; [apply T9; exact H0 | exact Bt].
Qed.

Lemma Bounds_play elapsed r g :
  (0 <= elapsed)%Q -> Inv0 g -> waiting g = false -> Bounds g ->
  Bounds (play elapsed r g).
Proof.
  intros He H0 Hw B. unfold play. cbv zeta.
  destruct (latch_dir_effect g)
    as (L1 & L2 & L3 & L4 & L5 & L6 & L7 & L8 & L9 & _).
  pose proof (Inv0_latch_dir g H0) as H1.
  pose proof (Bounds_latch_dir g B) as B1.
  set (g1 := latch_dir g) in *. clearbody g1.
  destruct (pac_move_effect elapsed g1) as (M1 & M2 & M3 & _ & _ & _ & _ & M8).
  pose proof (Bounds_pac_move elapsed g1 He B1) as B2.
  set (g2 := pac_move elapsed g1) in *. clearbody g2.
  assert (H2 : Inv0 g2) by (apply M8; [exact H1 | congruence]).
  destruct (eat_effect g2) as (A1 & A2 & A3 & A4 & _ & A6).
  pose proof (Bounds_eat g2 B2) as B3.
  set (g3 := eat g2) in *. clearbody g3.
  assert (H3 : Inv0 g3).
  { apply (Inv0_frame g2); [| | exact H2].
    - unfold pcore. unfold static in A1. injection A1 as E1 E2 E3 _ _.
      rewrite A2, A3, E1, E2, E3. reflexivity.
    - intros n. apply (same_place_ok _ _ _ (A6 n)). apply H2. }
  destruct (fright_decay_effect elapsed g3) as (F1 & F2 & F3 & F4 & _ & _ & _ & _ & F9).
  pose proof (Bounds_fright_decay elapsed g3 He B3) as B4.
  set (g4 := fright_decay elapsed g3) in *. clearbody g4.
  assert (H4 : Inv0 g4).
  { apply (Inv0_frame g3); [| | exact H3].
    - unfold pcore. unfold static in F1. injection F1 as E1 E2 E3 _ _.
      rewrite F2, F3, E1, E2, E3. reflexivity.
    - intros n. apply (same_place_ok _ _ _ (F9 n)). apply H3. }
  apply Bounds_track_hiscore. apply Bounds_ghosts_loop; [exact H4 | exact B4].
Qed.

Lemma Bounds_next_level g : Bounds g -> Bounds (next_level g).
Proof.
  intros B. unfold next_level. destruct (level_cleared g); [| exact B].
  destruct B as (B1 & B2 & B3 & B4 & _).
  apply Bounds_reset_level; fields; [lia | lia | exact B4].
Qed.

Lemma Bounds_frame elapsed r g file :
  (0 <= elapsed)%Q -> Inv g -> Bounds g -> Bounds (fst (frame elapsed r (g, file))).
Proof.
  intros He H B. unfold frame. cbn [fst snd].
  destruct (is_paused g) eqn:Hp; cbn [pause_time].
  - pose proof (Bounds_death_handling elapsed
                  (set_time_offset (Qred (time_offset g + elapsed)) g) file B) as Bd.
    destruct (death_handling elapsed _) as [g1 f1]. exact Bd.
  - unfold is_paused in Hp. apply orb_false_iff in Hp. destruct Hp as [Hp Hdead].
    apply orb_false_iff in Hp. destruct Hp as [Hw _].
    rewrite (death_handling_alive elapsed g file Hdead). cbn [negb fst].
    unfold gameplay. apply Bounds_next_level.
    apply Bounds_play; [exact He | exact (proj1 H) | exact Hw | exact B].
Qed.

Lemma frame_elapsed_nonneg a b : Qltb (a - b) dt = false -> (0 <= Qred (a - b))%Q.
Proof.
  unfold Qltb. intros H. apply negb_false_iff in H. apply Qle_bool_iff in H.
  rewrite Qred_correct. apply (Qle_trans _ dt); [discriminate | exact H].
Qed.

Lemma Bounds_loop_iter l i l' :
  Inv (game l) -> Bounds (game l) -> loop_iter l i = Continue l' -> Bounds (game l').
Proof.
  intros H B. unfold loop_iter. cbv zeta.
  pose proof (Inv_waiting_start (ev i) _ (Inv_menu_toggle (ev i) (t_pop i) _ H)) as H1.
  pose proof (Bounds_waiting_start (ev i) _ (Bounds_menu_toggle (ev i) (t_pop i) _ B)) as B1.
  set (g1 := waiting_start (ev i) (menu_toggle (ev i) (t_pop i) (game l))) in *.
  clearbody g1.
  pose proof (Inv_menu_actions (ev i) g1 (hiscore_file l)) as Hm.
  pose proof (Bounds_menu_actions (ev i) g1 (hiscore_file l)) as Bm.
  destruct (menu_actions (ev i) (g1, hiscore_file l)) as [[g2 f2] | f2];
    [| discriminate].
  specialize (Hm g2 f2 H1 eq_refl). specialize (Bm g2 f2 B1 eq_refl).
  pose proof (Inv_dpad_intent (ev i) g2 Hm) as H3.
  pose proof (Bounds_dpad_intent (ev i) g2 Bm) as B3.
  set (g3 := dpad_intent (ev i) g2) in *. clearbody g3.
  destruct (Qltb (t_frame i - last l) dt) eqn:Et.
  - intros E. apply Continue_inj in E. subst l'. exact B3.
  - pose proof (Bounds_frame (Qred (t_frame i - last l)) (rnd i) g3 f2
                  (frame_elapsed_nonneg _ _ Et) H3 B3) as B4.
    destruct (frame (Qred (t_frame i - last l)) (rnd i) (g3, f2)) as [g4 f4].
    intros E. apply Continue_inj in E. subst l'. exact B4.
Qed.

(** The bounds hold in every state the loop can be in. *)
Lemma reachable_Bounds l : reachable l -> Bounds (game l).
Proof.
  induction 1 as [file t0 | l i l' Hr IH Hstep].
  - apply Bounds_new_game.
  - apply (Bounds_loop_iter l i l' (reachable_Inv l Hr) IH Hstep).
Qed.

(** X9. In every state the loop can be in, the player has between 1 and
    3 lives and the level is at least 1. *)
Theorem lives_and_level_in_range l :
  reachable l -> 1 <= lives (game l) <= 3 /\ 1 <= level (game l).
Proof.
  intros Hr. destruct (reachable_Bounds l Hr) as (B1 & B2 & _).
  split; [exact B1 | exact B2].
Qed.

Lemma lives_and_level_in_range_witness :
  1 <= lives (game (init_loop None 0)) <= 3 /\ 1 <= level (game (init_loop None 0)).
Proof. exact (lives_and_level_in_range _ (reach_init None 0)). Defined.

(** X10. In every state the loop can be in, the menu index is 0, 1 or 2,
    so [MENU_ITEMS[menu_idx]] never raises and never counts from the end:
    the checked lookup returns the item the model reads with [nth]. *)
Theorem menu_choice_in_range l :
  reachable l ->
  0 <= menu_idx (game l) < Z.of_nat (List.length MENU_ITEMS) /\
  py_index MENU_ITEMS (menu_idx (game l)) =
    Ok (nth (Z.to_nat (menu_idx (game l))) MENU_ITEMS EmptyString).
Proof.
  intros Hr. destruct (reachable_Bounds l Hr) as (_ & _ & B3 & _).
  rewrite menu_items_length. split; [exact B3 |].
  assert (Hc : menu_idx (game l) = 0 \/ menu_idx (game l) = 1 \/ menu_idx (game l) = 2)
    by lia.
  destruct Hc as [-> | [-> | ->]]; reflexivity.
Qed.

Lemma menu_choice_in_range_witness :
  py_index MENU_ITEMS (menu_idx (game (init_loop None 0))) =
    Ok (nth (Z.to_nat (menu_idx (game (init_loop None 0)))) MENU_ITEMS EmptyString).
Proof. exact (proj2 (menu_choice_in_range _ (reach_init None 0))). Defined.

(** X11. In every state the loop can be in, the score is non-negative
    and a multiple of ten. *)
Theorem score_multiple_of_ten l :
  reachable l -> 0 <= score (game l) /\ score (game l) mod 10 = 0.
Proof.
  intros Hr. destruct (reachable_Bounds l Hr) as (_ & _ & _ & [B4 B4'] & _).
  split; [exact B4 |]. apply Z.mod_divide; [lia | exact B4'].
Qed.

Lemma score_multiple_of_ten_witness :
  0 <= score (game (init_loop None 0)) /\ score (game (init_loop None 0)) mod 10 = 0.
Proof. exact (score_multiple_of_ten _ (reach_init None 0)). Defined.

(** X12. In every state the loop can be in, the capture chain counter
    is non-negative and, added to the number of frightened ghosts, is at
    most 4; so a capture made in such a state awards at least 200 and at
    most 1600 points. *)
Theorem capture_chain_bounded l :
  reachable l ->
  0 <= fright_chain (game l) /\
  fright_chain (game l) + frightened_count (game l) <= 4 /\
  forall name,
    frightened (game l) name = true ->
    200 <= score (capture name (game l)) - score (game l) <= 1600.
Proof.
  intros Hr. destruct (reachable_Bounds l Hr) as (_ & _ & _ & _ & [B5 B5'] & _).
  split; [exact B5 |]. split; [exact B5' |].
  intros name Hf. rewrite capture_score.
  assert (Hc : 1 <= frightened_count (game l)).
  { unfold frightened_count. 
    assert (Hin : In name (filter (frightened (game l)) GHOSTS)).
    { apply filter_In. split; [destruct name; simpl; tauto | exact Hf]. }
    destruct (filter (frightened (game l)) GHOSTS); [contradiction |].
    cbn [List.length]. lia. }
  replace (fright_chain (game l) + 1 - 1) with (fright_chain (game l)) by lia.
  rewrite Z.max_r by lia.
  assert (Hk : fright_chain (game l) = 0 \/ fright_chain (game l) = 1 \/
               fright_chain (game l) = 2 \/ fright_chain (game l) = 3) by lia.
  destruct Hk as [-> | [-> | [-> | ->]]]; cbn; lia.
Qed.

Lemma capture_chain_bounded_witness :
  0 <= fright_chain (game (init_loop None 0)) /\
  fright_chain (game (init_loop None 0)) + frightened_count (game (init_loop None 0)) <= 4.
Proof.
  destruct (capture_chain_bounded _ (reach_init None 0)) as (H1 & H2 & _).
  split; [exact H1 | exact H2].
Defined.

(** X13. In every state the loop can be in, each ghost's frightened
    timer lies between 0 and [FRIGHT_DURATION], and the player's movement
    accumulator lies in [0, 1). *)
Theorem timers_in_range l :
  reachable l ->
  (forall n, 0 <= g_fright (ghosts (game l) n) /\
             g_fright (ghosts (game l) n) <= FRIGHT_DURATION)%Q /\
  (0 <= p_acc (game l) /\ p_acc (game l) < 1)%Q.
Proof.
  intros Hr. destruct (reachable_Bounds l Hr) as (_ & _ & _ & _ & _ & B6 & B7 & _).
  split; [exact B6 | exact B7].
Qed.

Lemma timers_in_range_witness :
  (0 <= p_acc (game (init_loop None 0)) /\ p_acc (game (init_loop None 0)) < 1)%Q.
Proof. exact (proj2 (timers_in_range _ (reach_init None 0))). Defined.

(** X14. In every state the loop can be in, every ghost faces one of the
    four directions, and [ghost_choose_dir] called where the ghost stands
    returns a direction the ghost can step into, whatever the target, the
    frightened flag and the random draws: the [(0, 0)] answer for a ghost
    with no way to go is never given. *)
Theorem ghosts_always_have_a_direction l :
  reachable l ->
  forall n,
    In (g_dir (ghosts (game l) n)) DIR_LIST /\
    forall target fr r,
      In (ghost_choose_dir (g_x (ghosts (game l) n)) (g_y (ghosts (game l) n))
            (g_dir (ghosts (game l) n)) target fr ghost_mask r)
         (ghost_possible_dirs ghost_mask
            (g_x (ghosts (game l) n)) (g_y (ghosts (game l) n))).
Proof.
  intros Hr n.
  destruct (reachable_Bounds l Hr) as (_ & _ & _ & _ & _ & _ & _ & B8).
  destruct (reachable_Inv l Hr) as [[_ [Hg _]] _].
  split; [apply B8 |].
  intros target fr r.
  apply (ghost_choices_possible _ _ _ (g_dir (ghosts (game l) n))).
  apply ghost_choose_dir_In.
  destruct (Hg n) as [Hs _].
  pose proof (on_every_pixel _ ghost_can_move_all _ _ _ Hs) as Hm.
  unfold ghost_can_move in Hm. rewrite Hs in Hm. cbn [implb] in Hm.
  destruct (ghost_possible_dirs ghost_mask _ _); discriminate.
Qed.

Lemma ghosts_always_have_a_direction_witness :
  In (g_dir (ghosts (game (init_loop None 0)) blinky)) DIR_LIST.
Proof. exact (proj1 (ghosts_always_have_a_direction _ (reach_init None 0) blinky)). Defined.

(** ** The high-score file during a run *)

Lemma menu_actions_covered e g file :
  0 <= score g -> score g <= hiscore g ->
  match menu_actions e (g, file) with
  | inl (g', file') =>
      file' = file /\ score g' <= hiscore g' /\ hiscore g <= hiscore g'
  | inr f => f = file
  end.
Proof.
  intros H0 Hs. unfold menu_actions.
  destruct (menu g); [| split; [reflexivity | lia]].
  cbv zeta.
  match goal with
  | |- context [if ev_b e || ev_y e then set_menu false ?x else _] => set (g3 := x)
  end.
  assert (H3 : score g3 = score g /\ hiscore g3 = hiscore g).
  { unfold g3. destruct (ev_up e), (ev_down e); split; reflexivity. }
  clearbody g3.
  remember (if ev_b e || ev_y e then set_menu false g3 else g3) as g4 eqn:E4.
  assert (H4 : score g4 = score g /\ hiscore g4 = hiscore g).
  { subst g4. destruct (ev_b e || ev_y e); exact H3. }
  clear E4. destruct H4 as [S4 K4].
  destruct (ev_a e || ev_x e); [| split; [reflexivity | lia]].
  remember (nth (Z.to_nat (menu_idx g4)) MENU_ITEMS EmptyString) as choice eqn:Ec. clear Ec.
  destruct (String.eqb choice "RESUME").
  { split; [reflexivity |]. fields. lia. }
  assert (Hn : flush_hiscore (g4, file) = (g4, file))
    by (apply flush_hiscore_noop; lia).
  destruct (String.eqb choice "RESTART").
  - rewrite Hn.
    pose proof (new_game_effect (hiscore g4)) as N. cbv zeta in N.
    destruct N as (N1 & N2 & _).
    split; [reflexivity |]. rewrite N1, N2. lia.
  - destruct (String.eqb choice "EXIT").
    + rewrite Hn. reflexivity.
    + split; [reflexivity | lia].
Qed.

Lemma death_handling_covered elapsed g file :
  (forall n, ghost_ok n (ghosts g n)) ->
  0 <= score g -> score g <= hiscore g ->
  let g' := fst (death_handling elapsed (g, file)) in
  0 <= score g' /\ score g' <= hiscore g' /\ hiscore g <= hiscore g'.
Proof.
  intros Hg H0 Hs. unfold death_handling.
  destruct (dead g); [| cbn [fst]; lia].
  cbn [dead_t set_dead_t].
  destruct (Qle_bool 1 (Qred (dead_t g + elapsed))); [| cbn [fst]; fields; lia].
  match goal with
  | |- context [if lives ?g0 <=? 0 then _ else _] => set (g1 := g0)
  end.
  assert (Hg1 : forall n, ghost_ok n (ghosts g1 n)) by exact Hg.
  assert (S1 : score g1 = score g) by reflexivity.
  assert (K1 : hiscore g1 = hiscore g) by reflexivity.
  clearbody g1.
  destruct (lives g1 <=? 0).
  - rewrite flush_hiscore_noop by lia. cbn [fst]. cbv zeta.
    pose proof (new_game_effect (hiscore g1)) as N. cbv zeta in N.
    destruct N as (N1 & N2 & _). rewrite N1, N2. lia.
  - cbn [fst]. cbv zeta. pose proof (respawn_effect g1 Hg1) as R. cbv zeta in R.
    destruct R as (_ & _ & _ & _ & _ & _ & R1 & R2 & _). rewrite R1, R2. lia.
Qed.

Lemma ghost_turn_score elapsed speed pac_px r g name :
  score g <= score (fst (ghost_turn elapsed speed pac_px r g name)).
Proof.
  unfold ghost_turn. cbv zeta.
  destruct (ghost_loop _ _ _) as [gh2 acc2].
  match goal with
  | |- context [collide (px ?x) _ _ _ _] => set (g' := x)
  end.
  assert (S1 : score g' = score g) by reflexivity.
  clearbody g'.
  destruct (collide (px g') (py g') (g_x gh2) (g_y gh2) 1); [| cbn [fst]; lia].
  destruct (Qltb 0 (g_fright (ghosts g name))); cbn [fst].
  - rewrite capture_score.
    assert (0 <= 2 ^ Z.max 0 (fright_chain g' + 1 - 1)) by (apply Z.pow_nonneg; lia).
    lia.
  - fields. lia.
Qed.

Lemma ghosts_loop_score names elapsed speed pac_px r : forall g,
  score g <= score (ghosts_loop names elapsed speed pac_px r g).
Proof.
  induction names as [| n names IH]; intros g; cbn [ghosts_loop]; [lia |].
  pose proof (ghost_turn_score elapsed speed pac_px (r n) g n) as Ht.
  destruct (ghost_turn elapsed speed pac_px (r n) g n) as [g1 brk].
  cbn [fst] in Ht. destruct brk; [exact Ht |].
  specialize (IH g1). lia.
Qed.

(** What the pellet block does to the two sets and the score. *)
Lemma eat_sets g :
  let c := px_to_cell (px g) (py g) in
  score g <= score (eat g) /\
  (pellets (eat g) = pellets g \/ pellets (eat g) = set_discard_tile c (pellets g)) /\
  (power (eat g) = power g \/ power (eat g) = set_discard_tile c (power g)).
Proof.
  cbv zeta. unfold eat.
  destruct (px_to_cell (px g) (py g)) as [cx cy].
  destruct (cell_center cx cy) as [txc tyc].
  destruct ((px g =? txc) && (py g =? tyc)); [| split; [lia | tauto]].
  cbv zeta.
  destruct (mem_tile (cx, cy) (pellets g)); cbn [power set_score set_pellets];
    destruct (mem_tile (cx, cy) (power g)); fields; split; try lia; tauto.
Qed.

Lemma track_hiscore_grows g : hiscore g <= hiscore (track_hiscore g).
Proof.
  unfold track_hiscore. destruct (hiscore g <? score g) eqn:E; fields; [| lia].
  apply Z.ltb_lt in E. lia.
Qed.

(** The stages of the gameplay block, for the fields the properties of
    the pellet sets, the score and the high score read. *)
Lemma play_sets elapsed r g :
  let g' := play elapsed r g in
  let c := px_to_cell (px g') (py g') in
  score g <= score g' /\ hiscore g <= hiscore g' /\
  (pellets g' = pellets g \/ pellets g' = set_discard_tile c (pellets g)) /\
  (power g' = power g \/ power g' = set_discard_tile c (power g)).
Proof.
  unfold play. cbv zeta.
  destruct (latch_dir_effect g)
    as (_ & _ & _ & _ & _ & _ & _ & _ & _ & L10 & L11 & L12 & L13).
  set (g1 := latch_dir g) in *. clearbody g1.
  destruct (pac_move_effect elapsed g1) as (_ & _ & _ & M4 & M5 & M6 & M7 & _).
  set (g2 := pac_move elapsed g1) in *. clearbody g2.
  destruct (eat_effect g2) as (_ & A2 & A3 & _ & A5 & _).
  pose proof (eat_sets g2) as (E1 & E2 & E3). 
  set (g3 := eat g2) in *. clearbody g3.
  destruct (fright_decay_effect elapsed g3) as (_ & F2 & F3 & _ & F5 & F6 & F7 & F8 & _).
  set (g4 := fright_decay elapsed g3) in *. clearbody g4.
  match goal with
  | |- context [ghosts_loop GHOSTS elapsed ?sp ?pp r g4] =>
      pose proof (ghosts_loop_effect GHOSTS elapsed sp pp r g4) as HG;
      pose proof (ghosts_loop_score GHOSTS elapsed sp pp r g4) as HS;
      cbv zeta in HG;
      set (g5 := ghosts_loop GHOSTS elapsed sp pp r g4) in *; clearbody g5
  end.
  destruct HG as (_ & G2 & G3 & G4 & G5 & G6 & _).
  destruct (track_hiscore_effect g5) as (_ & T2 & T3 & _ & T5 & _ & T7 & T8 & _).
  pose proof (track_hiscore_grows g5) as T9.
  set (g6 := track_hiscore g5) in *. clearbody g6.
  rewrite T2, T3, G2, G3, F2, F3, A2, A3.
  rewrite T7, T8, G5, G6, F7, F8.
  rewrite M6, L12 in E2. rewrite M7, L13 in E3.
  split; [lia |]. split; [lia |]. split; [exact E2 | exact E3].
Qed.

Lemma frame_covered elapsed r g file :
  Inv g -> Bounds g -> score g <= hiscore g ->
  let s := frame elapsed r (g, file) in
  snd s = file /\ score (fst s) <= hiscore (fst s) /\ hiscore g <= hiscore (fst s).
Proof.
  intros H B Hs. cbv zeta. unfold frame. cbn [fst snd].
  destruct (is_paused g) eqn:Hp; cbn [pause_time].
  - pose proof (death_handling_covered elapsed
                  (set_time_offset (Qred (time_offset g + elapsed)) g) file
                  (proj1 (proj2 (proj1 H)))
                  (proj1 (proj1 (proj2 (proj2 (proj2 B))))) Hs) as Hd.
    pose proof (death_handling_file elapsed
                  (set_time_offset (Qred (time_offset g + elapsed)) g) file Hs) as Hf.
    cbv zeta in Hd.
    destruct (death_handling elapsed _) as [g1 f1].
    cbn [fst snd negb score hiscore set_time_offset] in *.
    split; [exact Hf | tauto].
  - unfold is_paused in Hp. apply orb_false_iff in Hp. destruct Hp as [_ Hdead].
    rewrite (death_handling_alive elapsed g file Hdead). cbn [negb fst snd].
    split; [reflexivity |].
    pose proof (play_effect elapsed r g) as P. cbv zeta in P.
    destruct P as (_ & _ & _ & _ & _ & P6 & _).
    pose proof (play_sets elapsed r g) as S. cbv zeta in S.
    destruct S as (_ & S2 & _).
    unfold gameplay. set (g1 := play elapsed r g) in *. clearbody g1.
    unfold next_level. destruct (level_cleared g1); [| split; assumption].
    match goal with |- context [reset_level ?x] => set (g2 := x) end.
    destruct (reset_level_effect g2)
      as (_ & _ & _ & _ & _ & _ & _ & _ & _ & R1 & R2 & _).
    rewrite R1, R2. unfold g2. fields. split; assumption.
Qed.

Lemma loop_iter_covered l i :
  Inv (game l) -> Bounds (game l) -> score (game l) <= hiscore (game l) ->
  match loop_iter l i with
  | Continue l' =>
      hiscore_file l' = hiscore_file l /\
      score (game l') <= hiscore (game l') /\
      hiscore (game l) <= hiscore (game l')
  | Exit f => f = hiscore_file l
  end.
Proof.
  intros H B Hs. unfold loop_iter. cbv zeta.
  pose proof (Inv_waiting_start (ev i) _ (Inv_menu_toggle (ev i) (t_pop i) _ H)) as H1.
  pose proof (Bounds_waiting_start (ev i) _ (Bounds_menu_toggle (ev i) (t_pop i) _ B)) as B1.
  assert (K1 : score (waiting_start (ev i) (menu_toggle (ev i) (t_pop i) (game l)))
               = score (game l) /\
               hiscore (waiting_start (ev i) (menu_toggle (ev i) (t_pop i) (game l)))
               = hiscore (game l)).
  { destruct (menu_toggle_keeps (ev i) (t_pop i) (game l))
      as (_ & _ & _ & _ & _ & S1 & K1 & _).
    set (g0 := menu_toggle (ev i) (t_pop i) (game l)) in *. clearbody g0.
    unfold waiting_start.
    destruct (waiting g0 && negb (menu g0) && negb (dead g0)); [| split; assumption].
    destruct (ev_left (ev i)); [split; assumption |].
    destruct (ev_right (ev i)); split; assumption. }
  set (g1 := waiting_start (ev i) (menu_toggle (ev i) (t_pop i) (game l))) in *.
  clearbody g1. destruct K1 as [S1 K1].
  pose proof (Inv_menu_actions (ev i) g1 (hiscore_file l)) as Hm.
  pose proof (Bounds_menu_actions (ev i) g1 (hiscore_file l)) as Bm.
  pose proof (menu_actions_covered (ev i) g1 (hiscore_file l)
                (proj1 (proj1 (proj2 (proj2 (proj2 B1))))) ltac:(lia)) as Cm.
  destruct (menu_actions (ev i) (g1, hiscore_file l)) as [[g2 f2] | f2];
    [| exact Cm].
  specialize (Hm g2 f2 H1 eq_refl). specialize (Bm g2 f2 B1 eq_refl).
  destruct Cm as (-> & S2 & K2).
  pose proof (Inv_dpad_intent (ev i) g2 Hm) as H3.
  pose proof (Bounds_dpad_intent (ev i) g2 Bm) as B3.
  destruct (dpad_intent_keeps (ev i) g2) as (_ & _ & _ & _ & _ & S3 & K3 & _).
  set (g3 := dpad_intent (ev i) g2) in *. clearbody g3.
  destruct (Qltb (t_frame i - last l) dt).
  - cbn [hiscore_file game]. split; [reflexivity | lia].
  - pose proof (frame_covered (Qred (t_frame i - last l)) (rnd i) g3 (hiscore_file l)
                  H3 B3 ltac:(lia)) as F. cbv zeta in F.
    destruct (frame (Qred (t_frame i - last l)) (rnd i) (g3, hiscore_file l)) as [g4 f4].
    cbn [fst snd] in F. cbn [hiscore_file game].
    destruct F as (F1 & F2 & F3). split; [exact F1 | lia].
Qed.

Lemma run_covered ins : forall l,
  reachable l -> score (game l) <= hiscore (game l) ->
  match run l ins with
  | Continue l' =>
      hiscore_file l' = hiscore_file l /\
      score (game l') <= hiscore (game l') /\
      hiscore (game l) <= hiscore (game l')
  | Exit f => f = hiscore_file l
  end.
Proof.
  induction ins as [| i ins IH]; intros l Hr Hs; cbn [run].
  - split; [reflexivity | lia].
  - pose proof (loop_iter_covered l i (reachable_Inv l Hr) (reachable_Bounds l Hr) Hs) as C.
    pose proof (reach_step l i) as Hstep.
    destruct (loop_iter l i) as [l1 | f]; [| exact C].
    destruct C as (C1 & C2 & C3).
    specialize (IH l1 (Hstep l1 Hr eq_refl) C2).
    destruct (run l1 ins) as [l2 | f]; [| congruence].
    destruct IH as (I1 & I2 & I3). split; [congruence | lia].
Qed.

(** X15. When the high-score file is missing or holds a non-negative
    number at startup, no pass of the loop writes it: after any run the
    file holds what it held, also when the run ends with EXIT in the menu.
    Meanwhile the in-memory high score covers the score and never falls
    below the stored value. *)
Theorem loop_never_writes_hiscore_file file t0 ins :
  0 <= load_hiscore file ->
  match run (init_loop file t0) ins with
  | Continue l =>
      hiscore_file l = file /\
      score (game l) <= hiscore (game l) /\
      load_hiscore file <= hiscore (game l)
  | Exit f => f = file
  end.
Proof.
  intros H0.
  pose proof (new_game_effect (load_hiscore file)) as N. cbv zeta in N.
  destruct N as (N1 & N2 & _).
  pose proof (run_covered ins (init_loop file t0) (reach_init file t0)) as R.
  unfold init_loop in *. cbn [game hiscore_file] in R.
  rewrite N1, N2 in R. specialize (R H0).
  destruct (run _ ins) as [l | f]; exact R.
Qed.

Lemma loop_never_writes_hiscore_file_witness :
  match run (init_loop (Some 7) 0) [pass press_left 1] with
  | Continue l => hiscore_file l = Some 7
  | Exit f => f = Some 7
  end.
Proof.
  pose proof (loop_never_writes_hiscore_file (Some 7) 0 [pass press_left 1]
                ltac:(cbn; lia)) as H.
  destruct (run (init_loop (Some 7) 0) [pass press_left 1]) as [l | f].
  - exact (proj1 H).
  - exact H.
Defined.

(** X16. A playing frame never lowers the score.  If the level is not
    completed in it, it adds no pellet and no power pellet, and the only
    tile it can remove from either set is the one under the player where
    its movement ended, however many tile centers the player passed.  If
    both sets are empty once the player has eaten, the frame ends in the
    next level with both sets filled again. *)
Theorem frame_eats_under_the_player elapsed r g file :
  is_paused g = false ->
  let g' := fst (frame elapsed r (g, file)) in
  let c := px_to_cell (px g') (py g') in
  score g <= score g' /\
  (level_cleared (play elapsed r g) = false ->
   (forall t, In t (pellets g') -> In t (pellets g)) /\
   (forall t, In t (pellets g) -> t <> c -> In t (pellets g')) /\
   (forall t, In t (power g') -> In t (power g)) /\
   (forall t, In t (power g) -> t <> c -> In t (power g'))) /\
  (level_cleared (play elapsed r g) = true ->
   level g' = level g + 1 /\
   pellets g' = fst level_layout /\ power g' = snd level_layout).
Proof.
  intros Hp. cbv zeta. rewrite (frame_playing elapsed r g file Hp). cbn [fst].
  unfold gameplay.
  pose proof (play_sets elapsed r g) as S. cbv zeta in S.
  destruct S as (S1 & _ & S3 & S4).
  pose proof (play_effect elapsed r g) as P. cbv zeta in P.
  destruct P as (_ & _ & _ & Pl & _).
  set (p := play elapsed r g) in *. clearbody p.
  unfold next_level. destruct (level_cleared p).
  - match goal with |- context [reset_level ?x] => set (q := x) end.
    assert (Hq1 : score q = score p) by reflexivity.
    assert (Hq2 : level q = level p + 1) by reflexivity.
    clearbody q.
    pose proof (reset_level_effect q) as He. cbv zeta in He.
    destruct He as (_ & _ & _ & _ & _ & _ & _ & _ & _ & Rs & _ & _ & Rl & _).
    pose proof (reset_level_layout q) as [L1 L2].
    split; [lia |]. split; [discriminate |]. intros _.
    split; [lia |]. split; [exact L1 | exact L2].
  - split; [exact S1 |]. split; [| discriminate]. intros _.
    split; [| split; [| split]].
    + intros t Ht. destruct S3 as [E | E]; rewrite E in Ht; [exact Ht |].
      apply set_discard_tile_In in Ht. tauto.
    + intros t Ht Hn. destruct S3 as [E | E]; rewrite E; [exact Ht |].
      apply set_discard_tile_In. tauto.
    + intros t Ht. destruct S4 as [E | E]; rewrite E in Ht; [exact Ht |].
      apply set_discard_tile_In in Ht. tauto.
    + intros t Ht Hn. destruct S4 as [E | E]; rewrite E; [exact Ht |].
      apply set_discard_tile_In. tauto.
Qed.

Lemma frame_eats_under_the_player_witness :
  let g := set_waiting false (new_game 0) in
  score g <= score (fst (frame (1 # 50) (fun _ => no_tie_break) (g, None))).
Proof.
  intros g.
  assert (Hp : is_paused g = false) by (vm_compute; reflexivity).
  exact (proj1 (frame_eats_under_the_player (1 # 50) (fun _ => no_tie_break) g None Hp)).
Defined.

(** ** Pausing *)

(** X17. While the game is paused by the menu or waits for the start,
    and the player is not dying, a pass with no button and no stick event
    changes nothing but the pause clock: a pass that is too early for a
    frame leaves the game as it is, and a pass that runs a frame adds the
    elapsed time to [time_offset] and leaves every other field and the
    high-score file as they are. *)
Theorem paused_game_is_frozen l i :
  is_paused (game l) = true -> dead (game l) = false -> ev i = no_buttons ->
  loop_iter l i =
  Continue
    (if Qltb (t_frame i - last l) dt
     then mkLoop (game l) (last l) (hiscore_file l)
     else mkLoop (set_time_offset
                    (Qred (time_offset (game l) + Qred (t_frame i - last l)))
                    (game l))
                 (t_frame i) (hiscore_file l)).
Proof.
  intros Hp Hd He. unfold loop_iter. cbv zeta. rewrite He.
  assert (E1 : menu_toggle no_buttons (t_pop i) (game l) = game l) by reflexivity.
  rewrite E1.
  assert (E2 : waiting_start no_buttons (game l) = game l).
  { unfold waiting_start. destruct (_ && _); reflexivity. }
  rewrite E2.
  assert (E3 : menu_actions no_buttons (game l, hiscore_file l)
               = inl (game l, hiscore_file l)).
  { unfold menu_actions. destruct (menu (game l)); reflexivity. }
  rewrite E3.
  assert (E4 : dpad_intent no_buttons (game l) = game l).
  { unfold dpad_intent. destruct (_ && _); reflexivity. }
  rewrite E4.
  destruct (Qltb (t_frame i - last l) dt); [reflexivity |].
  rewrite (frame_paused _ _ _ _ Hp).
  rewrite death_handling_alive by exact Hd. reflexivity.
Qed.

Lemma paused_game_is_frozen_witness :
  loop_iter (init_loop None 0) (pass no_buttons 1) =
  Continue (mkLoop (set_time_offset (1 # 50) (game (init_loop None 0)))
                   (1 # 50) None).
Proof.
  assert (Hw : waiting (game (init_loop None 0)) = true /\
               dead (game (init_loop None 0)) = false).
  { unfold init_loop. cbn [game].
    pose proof (new_game_effect (load_hiscore None)) as N. cbv zeta in N.
    destruct N as (_ & _ & _ & _ & Nd & Nw & _). split; assumption. }
  destruct Hw as [Hw Hd].
  assert (Hp : is_paused (game (init_loop None 0)) = true)
    by (unfold is_paused; rewrite Hw; reflexivity).
  exact (paused_game_is_frozen (init_loop None 0) (pass no_buttons 1) Hp Hd eq_refl).
Defined.

(** ** The pellet sets during play *)

Lemma within_layout_same g g' :
  pellets g' = pellets g -> power g' = power g -> within_layout g -> within_layout g'.
Proof. unfold within_layout. intros -> ->. tauto. Qed.

Lemma within_layout_reset_level g : within_layout (reset_level g).
Proof.
  destruct (reset_level_layout g) as [E1 E2]. unfold within_layout, level_layout.
  rewrite E1, E2. split; apply incl_refl.
Qed.

Lemma within_layout_new_game hs : within_layout (new_game hs).
Proof. rewrite new_game_unfold. apply within_layout_reset_level. Qed.

Lemma respawn_ghosts_sets names : forall g,
  pellets (fold_left respawn_ghost names g) = pellets g /\
  power (fold_left respawn_ghost names g) = power g.
Proof.
  induction names as [| name names IH]; intros g; cbn [fold_left].
  - split; reflexivity.
  - destruct (IH (respawn_ghost g name)) as [E1 E2]. rewrite E1, E2.
    unfold respawn_ghost. destruct (g_home (ghosts g name)) as [hx hy].
    destruct (cell_center hx hy) as [x y]. split; reflexivity.
Qed.

Lemma within_layout_respawn g : within_layout g -> within_layout (respawn g).
Proof.
  intros H. rewrite respawn_unfold.
  match goal with
  | |- context [fold_left respawn_ghost GHOSTS ?x] => set (g0 := x)
  end.
  destruct (respawn_ghosts_sets GHOSTS g0) as [E1 E2].
  apply (within_layout_same g); [| | exact H]; fields; [rewrite E1 | rewrite E2]; reflexivity.
Qed.

Lemma within_layout_menu_toggle e now g :
  within_layout g -> within_layout (menu_toggle e now g).
Proof.
  intros H. unfold menu_toggle. cbv zeta.
  destruct (_ && Qltb MENU_DEBOUNCE_SEC (now - last_menu_toggle g)); [| exact H].
  destruct (menu (set_menu (negb (menu g)) (set_last_menu_toggle now g)));
    apply (within_layout_same g); try reflexivity; exact H.
Qed.

Lemma within_layout_waiting_start e g :
  within_layout g -> within_layout (waiting_start e g).
Proof.
  intros H. unfold waiting_start.
  destruct (waiting g && negb (menu g) && negb (dead g)); [| exact H].
  destruct (ev_left e); [apply (within_layout_same g); try reflexivity; exact H |].
  destruct (ev_right e); [apply (within_layout_same g); try reflexivity; exact H |].
  exact H.
Qed.

Lemma within_layout_dpad_intent e g :
  within_layout g -> within_layout (dpad_intent e g).
Proof.
  intros H. unfold dpad_intent.
  destruct (negb (waiting g) && negb (menu g) && negb (dead g)); [| exact H].
  cbv zeta. apply (within_layout_same g); [| | exact H];
    destruct (ev_left e), (ev_right e), (ev_up e), (ev_down e); reflexivity.
Qed.

Lemma within_layout_menu_actions e g file g' file' :
  within_layout g -> menu_actions e (g, file) = inl (g', file') -> within_layout g'.
Proof.
  intros B. unfold menu_actions.
  destruct (menu g); [| intros E; apply inl_pair_inj in E; destruct E as [<- _]; exact B].
  cbv zeta.
  match goal with
  | |- context [if ev_b e || ev_y e then set_menu false ?x else _] => set (g3 := x)
  end.
  assert (B3 : within_layout g3).
  { unfold g3. apply (within_layout_same g); [| | exact B];
      destruct (ev_up e), (ev_down e); reflexivity. }
  clearbody g3.
  remember (if ev_b e || ev_y e then set_menu false g3 else g3) as g4 eqn:E4.
  assert (B4 : within_layout g4).
  { subst g4. destruct (ev_b e || ev_y e); [| exact B3].
    apply (within_layout_same g3); [reflexivity | reflexivity | exact B3]. }
  clear E4.
  destruct (ev_a e || ev_x e);
    [| intros E; apply inl_pair_inj in E; destruct E as [<- _]; exact B4].
  remember (nth (Z.to_nat (menu_idx g4)) MENU_ITEMS EmptyString) as choice eqn:Ec. clear Ec.
  destruct (String.eqb choice "RESUME").
  { intros E; apply inl_pair_inj in E; destruct E as [<- _].
    apply (within_layout_same g4); [reflexivity | reflexivity | exact B4]. }
  destruct (String.eqb choice "RESTART").
  - destruct (flush_hiscore (g4, file)) as [g5 f5].
    intros E. apply inl_pair_inj in E. destruct E as [<- _]. apply within_layout_new_game.
  - destruct (String.eqb choice "EXIT"); [discriminate |].
    intros E; apply inl_pair_inj in E; destruct E as [<- _]; exact B4.
Qed.

Lemma within_layout_death_handling elapsed g file :
  within_layout g -> within_layout (fst (death_handling elapsed (g, file))).
Proof.
  intros B. unfold death_handling.
  destruct (dead g); [| exact B].
  cbn [dead_t set_dead_t].
  destruct (Qle_bool 1 (Qred (dead_t g + elapsed)));
    [| cbn [fst]; apply (within_layout_same g); [reflexivity | reflexivity | exact B]].
  match goal with
  | |- context [if lives ?g0 <=? 0 then _ else _] => set (g1 := g0)
  end.
  assert (B1 : within_layout g1)
    by (apply (within_layout_same g); [reflexivity | reflexivity | exact B]).
  clearbody g1.
  destruct (lives g1 <=? 0).
  - destruct (flush_hiscore (g1, file)) as [g4 f4]. cbn [fst]. apply within_layout_new_game.
  - cbn [fst]. apply within_layout_respawn. exact B1.
Qed.

Lemma within_layout_frame elapsed r g file :
  within_layout g -> within_layout (fst (frame elapsed r (g, file))).
Proof.
  intros B. unfold frame. cbn [fst snd].
  destruct (is_paused g) eqn:Hp; cbn [pause_time].
  - pose proof (within_layout_death_handling elapsed
                  (set_time_offset (Qred (time_offset g + elapsed)) g) file B) as Bd.
    destruct (death_handling elapsed _) as [g1 f1]. exact Bd.
  - unfold is_paused in Hp. apply orb_false_iff in Hp. destruct Hp as [_ Hdead].
    rewrite (death_handling_alive elapsed g file Hdead). cbn [negb fst].
    unfold gameplay, next_level.
    pose proof (play_sets elapsed r g) as S. cbv zeta in S.
    destruct S as (_ & _ & S3 & S4).
    set (g1 := play elapsed r g) in *. clearbody g1.
    destruct (level_cleared g1); [apply within_layout_reset_level |].
    destruct B as [B1 B2]. split.
    + destruct S3 as [E | E]; rewrite E; [exact B1 |].
      intros t Ht. apply set_discard_tile_In in Ht. apply B1. tauto.
    + destruct S4 as [E | E]; rewrite E; [exact B2 |].
      intros t Ht. apply set_discard_tile_In in Ht. apply B2. tauto.
Qed.

Lemma within_layout_loop_iter l i l' :
  within_layout (game l) -> loop_iter l i = Continue l' -> within_layout (game l').
Proof.
  intros B. unfold loop_iter. cbv zeta.
  pose proof (within_layout_waiting_start (ev i) _
                (within_layout_menu_toggle (ev i) (t_pop i) _ B)) as B1.
  set (g1 := waiting_start (ev i) (menu_toggle (ev i) (t_pop i) (game l))) in *.
  clearbody g1.
  pose proof (within_layout_menu_actions (ev i) g1 (hiscore_file l)) as Bm.
  destruct (menu_actions (ev i) (g1, hiscore_file l)) as [[g2 f2] | f2];
    [| discriminate].
  specialize (Bm g2 f2 B1 eq_refl).
  pose proof (within_layout_dpad_intent (ev i) g2 Bm) as B3.
  set (g3 := dpad_intent (ev i) g2) in *. clearbody g3.
  destruct (Qltb (t_frame i - last l) dt).
  - intros E. apply Continue_inj in E. subst l'. exact B3.
  - pose proof (within_layout_frame (Qred (t_frame i - last l)) (rnd i) g3 f2 B3) as B4.
    destruct (frame (Qred (t_frame i - last l)) (rnd i) (g3, f2)) as [g4 f4].
    intros E. apply Continue_inj in E. subst l'. exact B4.
Qed.

Lemma reachable_within_layout l : reachable l -> within_layout (game l).
Proof.
  induction 1 as [file t0 | l i l' Hr IH Hstep].
  - apply within_layout_new_game.
  - apply (within_layout_loop_iter l i l' IH Hstep).
Qed.

(** X28. No pellet is ever created during play: in every state the loop
    can be in, each pellet and power pellet lies on a tile that is joined
    to the player's start tile through tiles open for the player and lies
    outside the house box, the power pellets are corner candidates, and
    no tile is in both sets. *)
Theorem pellets_stay_reachable l :
  reachable l ->
  (forall t, In t (pellets (game l)) \/ In t (power (game l)) ->
     pac_reach pick_start_tile_pac t /\ in_house (fst t) (snd t) = false) /\
  (forall t, In t (power (game l)) -> In t power_candidates) /\
  (forall t, In t (pellets (game l)) -> ~ In t (power (game l))).
Proof.
  intros Hr. destruct (reachable_within_layout l Hr) as [H1 H2].
  unfold level_layout in H1, H2.
  pose proof flood_reachable_start as Hfs.
  set (fr := flood_reachable pick_start_tile_pac) in *. clearbody fr.
  pose proof (build_pellets_In fr) as Hb.
  set (pp := build_pellets fr) in *. clearbody pp.
  assert (P : forall t, In t (pellets (game l)) ->
            In t fr /\ in_house (fst t) (snd t) = false /\ ~ In t power_candidates).
  { intros t Ht. apply H1 in Ht. destruct (Hb t) as [[I1 _] _]. exact (I1 Ht). }
  assert (Q : forall t, In t (power (game l)) -> In t fr /\ In t power_candidates).
  { intros t Ht. apply H2 in Ht. destruct (Hb t) as [_ [I2 _]]. exact (I2 Ht). }
  split; [| split].
  - intros t [Ht | Ht].
    + destruct (P t Ht) as (Hf & Hh & _).
      split; [apply Hfs; exact Hf | exact Hh].
    + destruct (Q t Ht) as (Hf & Hc).
      split; [apply Hfs; exact Hf |].
      apply power_candidates_outside_house. exact Hc.
  - intros t Ht. apply (Q t Ht).
  - intros t Ht Hp. destruct (P t Ht) as (_ & _ & Hn). apply Hn. apply (Q t Hp).
Qed.

Lemma pellets_stay_reachable_witness :
  pac_reach pick_start_tile_pac (1, 1) /\ in_house 1 1 = false.
Proof.
  assert (Hm : mem_tile (1, 1) (pellets (game (init_loop None 0))) = true)
    by (vm_compute; reflexivity).
  exact (proj1 (pellets_stay_reachable _ (reach_init None 0)) (1, 1)
           (or_introl (proj1 (mem_tile_In _ _) Hm))).
Defined.

(** ** The menu and the two best directions *)

(** X18. With the menu open, UP moves the selection one item up and
    wraps from the first item to the last; DOWN then brings back exactly
    the state before. *)
Theorem menu_up_then_down g file :
  menu g = true -> 0 <= menu_idx g < Z.of_nat (List.length MENU_ITEMS) ->
  exists g1,
    menu_actions press_up (g, file) = inl (g1, file) /\
    menu g1 = true /\
    menu_idx g1 = (if menu_idx g =? 0 then 2 else menu_idx g - 1) /\
    menu_actions press_down (g1, file) = inl (g, file).
Proof.
  intros Hm Hi. rewrite menu_items_length in Hi.
  exists (set_menu_idx ((menu_idx g - 1) mod 3) g).
  destruct g as [s h li le pe po x y d w gs de dt toff pa ga m mi fc wa lt].
  cbn [menu menu_idx] in Hm, Hi. subst m.
  assert (Hc : mi = 0 \/ mi = 1 \/ mi = 2) by lia.
  destruct Hc as [-> | [-> | ->]]; repeat split; reflexivity.
Qed.

Lemma menu_up_then_down_witness :
  exists g1,
    menu_actions press_up (menu_open_sample, None) = inl (g1, None) /\
    menu g1 = true /\
    menu_idx g1 = 0 /\
    menu_actions press_down (g1, None) = inl (menu_open_sample, None).
Proof.
  apply (menu_up_then_down menu_open_sample None); [reflexivity |].
  unfold menu_open_sample. cbn [menu_idx MENU_ITEMS List.length Z.of_nat]. lia.
Defined.

(** X19. Whatever the random draws, [ghost_choose_dir] returns one of
    the two best choices: there is a choice [best] with the least score,
    and every choice other than [best] scores at least as much as the
    returned one. *)
Theorem ghost_choose_dir_among_two_best gx gy gdir target fr mask r :
  ghost_possible_dirs mask gx gy <> [] ->
  let key := score_dir gx gy target fr in
  let res := ghost_choose_dir gx gy gdir target fr mask r in
  In res (ghost_choices mask gx gy gdir) /\
  exists best,
    In best (ghost_choices mask gx gy gdir) /\
    (forall c, In c (ghost_choices mask gx gy gdir) -> key best <= key c) /\
    (forall c, In c (ghost_choices mask gx gy gdir) -> c <> best -> key res <= key c).
Proof.
  intros Hne key res.
  split; [apply ghost_choose_dir_In; exact Hne |].
  pose proof (ghost_choices_nonempty mask gx gy gdir Hne) as Hc.
  unfold res, ghost_choose_dir.
  destruct (ghost_possible_dirs mask gx gy) as [| p ps] eqn:Hp; [contradiction |].
  fold key.
  set (cs := ghost_choices mask gx gy gdir) in *.
  pose proof (sort_by_sorted key cs) as Hs.
  pose proof (sort_by_In key cs) as Hin.
  pose proof (sort_by_length key cs) as Hlen.
  destruct (sort_by key cs) as [| a rest] eqn:Hsort.
  { destruct cs; [contradiction | discriminate]. }
  apply Sorted.StronglySorted_inv in Hs. destruct Hs as [Hs' Ha].
  rewrite Forall_forall in Ha.
  exists a. split; [apply Hin; left; reflexivity |].
  split.
  { intros c Hcin. apply Hin in Hcin. destruct Hcin as [<- | Hcin]; [lia |].
    apply Ha. exact Hcin. }
  intros c Hcin Hca. apply Hin in Hcin.
  destruct Hcin as [E | Hcin]; [congruence |].
  assert (Hhead : key a <= key c) by (apply Ha; exact Hcin).
  destruct ((1 <? Z.of_nat (List.length (a :: rest))) &&
            Qltb (roll r) (tie_break_odds fr)); [| exact Hhead].
  destruct rest as [| b rest]; [contradiction |].
  cbn [firstn]. unfold random_choice. cbn [List.length].
  pose proof (Nat.mod_upper_bound (pick r) 2 ltac:(discriminate)) as Hk.
  destruct (Nat.modulo (pick r) 2) as [| [| k]]; cbn [nth]; [| | lia].
  - exact Hhead.
  - apply Sorted.StronglySorted_inv in Hs'. destruct Hs' as [_ Hb].
    rewrite Forall_forall in Hb.
    destruct Hcin as [<- | Hcin]; [lia | apply Hb; exact Hcin].
Qed.

Lemma ghost_choose_dir_among_two_best_witness :
  In (ghost_choose_dir 26 12 DIR_R (58, 60) false ghost_mask {| roll := 0; pick := 1 |})
     (ghost_choices ghost_mask 26 12 DIR_R).
Proof.
  refine (proj1 (ghost_choose_dir_among_two_best 26 12 DIR_R (58, 60) false ghost_mask
                   {| roll := 0; pick := 1 |} _)).
  vm_compute. discriminate.
Defined.

(** ** Ghost speed *)

Lemma ghost_speed_factor lvl : ghost_speed lvl = (PAC_SPEED_BASE * ghost_factor lvl)%Q.
Proof. reflexivity. Qed.

Lemma level_factor_le a b : a <= b -> (level_factor a <= level_factor b)%Q.
Proof.
  intros H. unfold level_factor. apply Qplus_le_r.
  apply Qmult_le_l; [reflexivity |]. rewrite <- Zle_Qle. lia.
Qed.

Lemma level_factor_cap lvl : 11 <= lvl <-> (2 <= level_factor lvl)%Q.
Proof.
  unfold level_factor, Qle, Qplus, Qmult, inject_Z. cbn [Qnum Qden].
  split; intros H; lia.
Qed.

Lemma level_factor_floor lvl : 1 <= lvl <-> (1 <= level_factor lvl)%Q.
Proof.
  unfold level_factor, Qle, Qplus, Qmult, inject_Z. cbn [Qnum Qden].
  split; intros H; lia.
Qed.

Lemma ghost_factor_le a b : a <= b -> (ghost_factor a <= ghost_factor b)%Q.
Proof.
  intros H. pose proof (level_factor_le a b H) as Hf. unfold ghost_factor.
  destruct (Qle_bool 2 (level_factor a)) eqn:Ea;
    destruct (Qle_bool 2 (level_factor b)) eqn:Eb.
  - apply Qle_refl.
  - apply Qle_bool_iff in Ea. apply (Qle_trans _ _ _ Ea Hf).
  - apply Qlt_le_weak. apply Qnot_le_lt. intros Hc.
    apply Qle_bool_iff in Hc. congruence.
  - exact Hf.
Qed.

Lemma ghost_factor_range lvl :
  (ghost_factor lvl <= 2)%Q /\ (1 <= lvl -> (1 <= ghost_factor lvl)%Q) /\
  (11 <= lvl -> ghost_factor lvl = 2%Q).
Proof.
  unfold ghost_factor. destruct (Qle_bool 2 (level_factor lvl)) eqn:E.
  - split; [apply Qle_refl |]. split; [intros _; discriminate | reflexivity].
  - split.
    + apply Qlt_le_weak. apply Qnot_le_lt. intros Hc.
      apply Qle_bool_iff in Hc. congruence.
    + split; [apply level_factor_floor |].
      intros H. apply level_factor_cap in H. apply Qle_bool_iff in H. congruence.
Qed.

(** X20. The ghosts' speed never decreases with the level; it equals
    the player's speed at level 1 and twice that speed from level 11 on;
    and in every state the loop can be in it lies between the two. *)
Theorem ghost_speed_by_level :
  (forall l, reachable l ->
     (PAC_SPEED_BASE <= ghost_speed (level (game l)) /\
      ghost_speed (level (game l)) <= 2 * PAC_SPEED_BASE)%Q) /\
  (forall a b, a <= b -> (ghost_speed a <= ghost_speed b)%Q) /\
  (ghost_speed 1 == PAC_SPEED_BASE)%Q /\
  (forall lvl, 11 <= lvl -> (ghost_speed lvl == 2 * PAC_SPEED_BASE)%Q).
Proof.
  assert (Hpos : (0 < PAC_SPEED_BASE)%Q) by reflexivity.
  split; [| split; [| split]].
  - intros l Hr. destruct (reachable_Bounds l Hr) as (_ & B2 & _).
    rewrite ghost_speed_factor.
    destruct (ghost_factor_range (level (game l))) as (F1 & F2 & _).
    specialize (F2 B2). split.
    + setoid_replace PAC_SPEED_BASE with (PAC_SPEED_BASE * 1)%Q at 1 by ring.
      apply Qmult_le_l; assumption.
    + setoid_replace (2 * PAC_SPEED_BASE)%Q with (PAC_SPEED_BASE * 2)%Q by ring.
      apply Qmult_le_l; assumption.
  - intros a b H. rewrite !ghost_speed_factor.
    apply Qmult_le_l; [exact Hpos | apply ghost_factor_le; exact H].
  - reflexivity.
  - intros lvl H. rewrite ghost_speed_factor.
    destruct (ghost_factor_range lvl) as (_ & _ & F3). rewrite (F3 H). reflexivity.
Qed.

Lemma ghost_speed_by_level_witness :
  (ghost_speed 3 <= ghost_speed 12)%Q /\ (ghost_speed 12 == 2 * PAC_SPEED_BASE)%Q.
Proof.
  destruct ghost_speed_by_level as (_ & Hm & _ & Hc).
  split; [apply (Hm 3 12); lia | apply (Hc 12); lia].
Defined.

(** ** The joystick thread *)

Lemma event_le_refl e : event_le e e = true.
Proof.
  unfold event_le.
  destruct (ev_up e), (ev_down e), (ev_left e), (ev_right e), (ev_a e), (ev_b e),
    (ev_x e), (ev_y e), (ev_start e), (ev_select e); reflexivity.
Qed.

Lemma implb_trans a b c : implb a b = true -> implb b c = true -> implb a c = true.
Proof. destruct a, b, c; auto. Qed.

Lemma event_le_trans e1 e2 e3 :
  event_le e1 e2 = true -> event_le e2 e3 = true -> event_le e1 e3 = true.
Proof.
  unfold event_le. rewrite !andb_true_iff.
  intros (((((((((A1 & A2) & A3) & A4) & A5) & A6) & A7) & A8) & A9) & A10)
         (((((((((B1 & B2) & B3) & B4) & B5) & B6) & B7) & B8) & B9) & B10).
  repeat split; eapply implb_trans; eassumption.
Qed.

Lemma joystick_packet_le e p : event_le e (joystick_packet e p) = true.
Proof.
  unfold joystick_packet. cbv zeta.
  assert (R := event_le_refl e).
  assert (P : forall b, implb b true = true) by (intros []; reflexivity).
  assert (Q : forall b, implb b b = true) by (intros []; reflexivity).
  repeat match goal with
         | |- context [if ?c then _ else _] => destruct c
         end; try exact R;
    unfold event_le; cbn [ev_up ev_down ev_left ev_right ev_a ev_b ev_x ev_y ev_start
                          ev_select press_ev_up press_ev_down press_ev_left press_ev_right
                          press_ev_a press_ev_b press_ev_x press_ev_y press_ev_start
                          press_ev_select];
    rewrite ?P, ?Q; reflexivity.
Qed.

(** X21. The joystick thread only ever sets flags: whatever records
    arrive, every flag that was set in the pending event is still set
    afterwards, until [pop] takes the event. *)
Theorem joystick_keeps_presses ps : forall e,
  event_le e (joystick_run ps e) = true.
Proof.
  unfold joystick_run.
  induction ps as [| p ps IH]; intros e; cbn [fold_left].
  - apply event_le_refl.
  - apply (event_le_trans _ (joystick_packet e p)); [apply joystick_packet_le | apply IH].
Qed.

Lemma joystick_packet_idle e p : js_idle p = true -> joystick_packet e p = e.
Proof.
  unfold js_idle, joystick_packet. cbv zeta.
  destruct (Z.land (js_etype p) 128 =? 0); [| reflexivity].
  cbn [negb orb].
  destruct (Z.land (js_etype p) 127 =? 2) eqn:E2.
  - assert (E1 : (Z.land (js_etype p) 127 =? 1) = false).
    { apply Z.eqb_eq in E2. rewrite E2. reflexivity. }
    rewrite E1. cbn [andb negb orb]. rewrite !orb_false_r.
    rewrite andb_true_iff, !Z.leb_le. intros [Hlo Hhi].
    replace (js_value p <? - DEAD) with false by (symmetry; apply Z.ltb_ge; lia).
    replace (DEAD <? js_value p) with false by (symmetry; apply Z.ltb_ge; lia).
    destruct (js_num p =? 0); [reflexivity |]. destruct (js_num p =? 1); reflexivity.
  - cbn [andb negb orb].
    destruct (Z.land (js_etype p) 127 =? 1); cbn [andb negb orb]; [| reflexivity].
    rewrite orb_false_r. intros Hv. apply negb_true_iff in Hv. rewrite Hv. reflexivity.
Qed.

(** X22. Records that carry no press (the synthetic records of the
    initial state, an axis inside the dead zone, a button release, an
    unknown record type) leave the pending event unchanged; if nothing
    else arrived since the last [pop], the loop is handed the blank
    event. *)
Theorem joystick_ignores_idle_records ps : forall e,
  forallb js_idle ps = true ->
  joystick_run ps e = e /\
  joystick_pop (joystick_run ps no_buttons) = (no_buttons, no_buttons).
Proof.
  assert (H : forall e, forallb js_idle ps = true -> joystick_run ps e = e).
  { unfold joystick_run. induction ps as [| p ps IH]; intros e Hall; cbn [fold_left].
    - reflexivity.
    - cbn [forallb] in Hall. apply andb_true_iff in Hall. destruct Hall as [Hp Hall].
      rewrite (joystick_packet_idle e p Hp). apply IH. exact Hall. }
  intros e Hall. split; [apply H; exact Hall |].
  unfold joystick_pop. rewrite (H no_buttons Hall). reflexivity.
Qed.

Lemma joystick_ignores_idle_records_witness :
  joystick_run [mkJs 0 130 0; mkJs (-300) 2 0; mkJs 0 1 9; mkJs 1 3 0] press_left
  = press_left.
Proof.
  apply (joystick_ignores_idle_records
           [mkJs 0 130 0; mkJs (-300) 2 0; mkJs 0 1 9; mkJs 1 3 0] press_left).
  reflexivity.
Defined.

(** ** Rendering *)

Lemma mapM_ok {A B : Type} (f : A -> result B) (P : B -> Prop) (l : list A) :
  (forall a, In a l -> exists b, f a = Ok b /\ P b) ->
  exists bs, mapM f l = Ok bs /\ Forall P bs /\ List.length bs = List.length l.
Proof.
  induction l as [| a l IH]; intros H; cbn [mapM].
  - exists []. repeat split. constructor.
  - destruct (H a (or_introl eq_refl)) as [b [Hb Pb]].
    destruct IH as [bs [Hbs [Pbs Hlen]]]; [intros a' Ha'; apply H; right; exact Ha' |].
    exists (b :: bs). rewrite Hb. cbn [bind]. rewrite Hbs. cbn [bind].
    split; [reflexivity |]. split; [constructor; assumption |].
    cbn [List.length]. rewrite Hlen. reflexivity.
Qed.

Lemma range_length a b : List.length (range a b) = Z.to_nat (b - a).
Proof. unfold range. rewrite length_map, length_seq. reflexivity. Qed.

Lemma point_in_weaken x0 x1 y0 y1 x0' x1' y0' y1' op :
  x0' <= x0 -> x1 <= x1' -> y0' <= y0 -> y1 <= y1' ->
  point_in x0 x1 y0 y1 op -> point_in x0' x1' y0' y1' op.
Proof.
  intros H1 H2 H3 H4 [Hp Hw]. destruct op; try discriminate.
  split; [reflexivity |]. cbn [op_within] in *.
  rewrite !andb_true_iff, !Z.leb_le in *. lia.
Qed.

Lemma point_in_Point x0 x1 y0 y1 x y c :
  x0 <= x <= x1 -> y0 <= y <= y1 -> point_in x0 x1 y0 y1 (Point x y c).
Proof.
  intros Hx Hy. split; [reflexivity |]. cbn [op_within].
  rewrite !andb_true_iff, !Z.leb_le. lia.
Qed.

Lemma font_table_ok : forallb (fun kv => glyph_ok (snd kv)) FONT_3x5 = true.
Proof. vm_compute. reflexivity. Qed.

Lemma font_glyph_ok ch : glyph_ok (font_glyph ch) = true.
Proof.
  pose proof font_table_ok as Ht. rewrite forallb_forall in Ht.
  assert (Hf : forall k v, dict_find FONT_3x5 k = Some v -> glyph_ok v = true).
  { intros k v. unfold dict_find.
    destruct (find (fun kv => Ascii.eqb (fst kv) k) (rev FONT_3x5)) as [kv |] eqn:E;
      [| discriminate].
    intros Hv. inversion Hv; subst v. apply find_some in E. destruct E as [Hin _].
    apply in_rev in Hin. apply (Ht kv Hin). }
  unfold font_glyph.
  destruct (dict_find FONT_3x5 ch) as [p |] eqn:E; [apply (Hf ch); exact E |].
  destruct (dict_find FONT_3x5 " "%char) as [p |] eqn:E2; [apply (Hf " "%char); exact E2 |].
  vm_compute in E2. discriminate.
Qed.

Lemma rotate_glyph_total pat :
  glyph_ok pat = true ->
  exists rot, rotate_glyph pat = Ok rot /\
              Forall (fun r => List.length r = 5%nat) rot /\ List.length rot = 3%nat.
Proof.
  unfold glyph_ok. rewrite andb_true_iff, Nat.eqb_eq, forallb_forall.
  intros [Hlen Hrows]. unfold rotate_glyph.
  apply mapM_ok. intros ry Hry. apply In_range in Hry.
  destruct (mapM_ok (fun rx => row <- py_index pat (4 - rx) ;; py_str_index row ry)
              (fun _ => True) (range 0 5)) as [r [Hr [_ Hl]]].
  - intros rx Hrx. apply In_range in Hrx.
    destruct (py_index_inside pat (4 - rx)) as [row [Hrow Hnth]]; [lia |].
    rewrite Hrow. cbn [bind].
    apply nth_error_In in Hnth. specialize (Hrows row Hnth).
    apply andb_true_iff in Hrows. destruct Hrows as [H3 _]. apply Nat.leb_le in H3.
    unfold py_str_index.
    destruct (py_index_inside (list_ascii_of_string row) ry) as [c [Hc _]].
    { rewrite list_ascii_length. lia. }
    exists c. split; [exact Hc | exact I].
  - exists r. split; [exact Hr |]. rewrite Hl. reflexivity.
Qed.

Lemma rotated_points_box x y rot color bold :
  Forall (fun r => List.length r = 5%nat) rot -> List.length rot = 3%nat ->
  exists ops, rotated_points x y rot color bold = Ok ops /\
              Forall (point_in x (x + 5) y (y + 2)) ops.
Proof.
  intros Hrows Hlen. unfold rotated_points. rewrite Forall_forall in Hrows.
  destruct (mapM_ok
    (fun yy =>
       cells <- mapM
         (fun xx =>
            row <- py_index rot yy ;;
            c <- py_index row xx ;;
            Ok (if Ascii.eqb c "#"
                then Point (x + xx) (y + yy) color ::
                     (if bold then [Point (x + xx + 1) (y + yy) color] else [])
                else []))
         (range 0 5) ;;
       Ok (List.concat cells))
    (Forall (point_in x (x + 5) y (y + 2))) (range 0 3)) as [rows [Hr [Pr _]]].
  - intros yy Hyy. apply In_range in Hyy.
    destruct (mapM_ok
      (fun xx =>
         row <- py_index rot yy ;;
         c <- py_index row xx ;;
         Ok (if Ascii.eqb c "#"
             then Point (x + xx) (y + yy) color ::
                  (if bold then [Point (x + xx + 1) (y + yy) color] else [])
             else []))
      (Forall (point_in x (x + 5) y (y + 2))) (range 0 5)) as [cells [Hc [Pc _]]].
    + intros xx Hxx. apply In_range in Hxx.
      destruct (py_index_inside rot yy) as [row [Hrow Hnth]]; [lia |].
      rewrite Hrow. cbn [bind]. apply nth_error_In in Hnth.
      destruct (py_index_inside row xx) as [c [Hcc _]]; [rewrite (Hrows row Hnth); lia |].
      rewrite Hcc. cbn [bind]. eexists. split; [reflexivity |].
      destruct (Ascii.eqb c "#"); [| constructor].
      constructor; [apply point_in_Point; lia |].
      destruct bold; [| constructor].
      constructor; [apply point_in_Point; lia | constructor].
    + rewrite Hc. cbn [bind]. eexists. split; [reflexivity |].
      apply Forall_concat. exact Pc.
  - rewrite Hr. cbn [bind]. eexists. split; [reflexivity |].
    apply Forall_concat. exact Pr.
Qed.

(** The rows a vertical text takes: its characters follow each other
    every [3 + spacing] rows. *)
Lemma draw_text_3x5_v_rows s : forall x y color spacing bold,
  0 <= 3 + spacing ->
  exists ops,
    draw_text_3x5_v x y s color spacing bold = Ok ops /\
    Forall (point_in x (x + 5) y
              (y + (Z.of_nat (String.length s) - 1) * (3 + spacing) + 2)) ops.
Proof.
  induction s as [| ch s IH]; intros x y color spacing bold Hsp; cbn [draw_text_3x5_v].
  - exists []. split; [reflexivity | constructor].
  - destruct (rotate_glyph_total _ (font_glyph_ok ch)) as [rot [Hrot [Hrows Hlen]]].
    rewrite Hrot. cbn [bind].
    destruct (rotated_points_box x y rot color bold Hrows Hlen) as [here [Hh Ph]].
    rewrite Hh. cbn [bind].
    destruct (IH x (y + (3 + spacing)) color spacing bold Hsp) as [rest [Hr Pr]].
    rewrite Hr. cbn [bind]. exists (here ++ rest). split; [reflexivity |].
    cbn [String.length]. apply Forall_app. split.
    + eapply Forall_impl; [| exact Ph]. intros op. apply point_in_weaken; nia.
    + eapply Forall_impl; [| exact Pr]. intros op. apply point_in_weaken; nia.
Qed.

(** X23. [draw_text_3x5_v] never raises, for any string: every glyph of
    the table has five rows of at least three characters and an unknown
    character falls back to the blank glyph. It only plots points, all in
    the six columns from [x] and in the rows of the characters, which
    follow each other every [3 + spacing] rows: the first character takes
    rows [y] to [y + 2] and the rest of the string is drawn from row
    [y + 3 + spacing]. *)
Theorem draw_text_3x5_v_never_raises x y s color spacing bold :
  0 <= 3 + spacing ->
  (exists ops,
     draw_text_3x5_v x y s color spacing bold = Ok ops /\
     Forall (point_in x (x + 5) y
               (y + (Z.of_nat (String.length s) - 1) * (3 + spacing) + 2)) ops) /\
  forall ch s',
    s = String ch s' ->
    exists here rest,
      draw_text_3x5_v x y (String ch EmptyString) color spacing bold = Ok here /\
      draw_text_3x5_v x (y + (3 + spacing)) s' color spacing bold = Ok rest /\
      draw_text_3x5_v x y s color spacing bold = Ok (here ++ rest) /\
      Forall (point_in x (x + 5) y (y + 2)) here.
Proof.
  intros Hsp. split; [apply draw_text_3x5_v_rows; exact Hsp |].
  intros ch s' ->.
  destruct (rotate_glyph_total _ (font_glyph_ok ch)) as [rot [Hrot [Hrows Hlen]]].
  destruct (rotated_points_box x y rot color bold Hrows Hlen) as [here [Hh Ph]].
  destruct (draw_text_3x5_v_rows s' x (y + (3 + spacing)) color spacing bold Hsp)
    as [rest [Hr _]].
  exists here, rest. cbn [draw_text_3x5_v].
  rewrite Hrot. cbn [bind]. rewrite Hh. cbn [bind]. rewrite Hr. cbn [bind].
  rewrite app_nil_r. repeat split. exact Ph.
Qed.

Lemma draw_text_3x5_v_never_raises_witness :
  exists ops,
    draw_text_3x5_v 117 44 "LV3" HUD_FG 0 true = Ok ops /\
    Forall (point_in 117 (117 + 5) 44 (44 + (3 - 1) * (3 + 0) + 2)) ops.
Proof.
  apply (proj1 (draw_text_3x5_v_never_raises 117 44 "LV3" HUD_FG 0 true ltac:(lia))).
Defined.

Lemma format_05d_length_all :
  forallb (fun a => forallb (fun b => forallb (fun c => forallb (fun d => forallb (fun e =>
    Nat.eqb (String.length (format_05d ((((a * 10 + b) * 10 + c) * 10 + d) * 10 + e))) 5)
    (range 0 10)) (range 0 10)) (range 0 10)) (range 0 10)) (range 0 10) = true.
Proof. vm_compute. reflexivity. Qed.

Lemma format_05d_length n :
  String.length (format_05d (n mod 100000)) = 5%nat.
Proof.
  pose proof (Z.mod_pos_bound n 100000 ltac:(lia)) as Hn.
  set (m := n mod 100000) in *. clearbody m.
  pose proof format_05d_length_all as H.
  rewrite forallb_forall in H.
  specialize (H (m / 10000)). rewrite In_range in H.
  specialize (H ltac:(Z.div_mod_to_equations; lia)). rewrite forallb_forall in H.
  specialize (H (m / 1000 mod 10)). rewrite In_range in H.
  specialize (H ltac:(Z.div_mod_to_equations; lia)). rewrite forallb_forall in H.
  specialize (H (m / 100 mod 10)). rewrite In_range in H.
  specialize (H ltac:(Z.div_mod_to_equations; lia)). rewrite forallb_forall in H.
  specialize (H (m / 10 mod 10)). rewrite In_range in H.
  specialize (H ltac:(Z.div_mod_to_equations; lia)). rewrite forallb_forall in H.
  specialize (H (m mod 10)). rewrite In_range in H.
  specialize (H ltac:(Z.div_mod_to_equations; lia)).
  apply Nat.eqb_eq in H.
  replace ((((m / 10000 * 10 + m / 1000 mod 10) * 10 + m / 100 mod 10) * 10 +
            m / 10 mod 10) * 10 + m mod 10) with m in H
    by (Z.div_mod_to_equations; lia).
  exact H.
Qed.

Lemma digit_label_length (prefix : string) d :
  0 <= d <= 9 ->
  String.length (prefix ++ py_str d)%string = S (String.length prefix).
Proof.
  intros Hd.
  assert (Hs : String.length (py_str d) = 1%nat).
  { assert (Hc : d = 0 \/ d = 1 \/ d = 2 \/ d = 3 \/ d = 4 \/ d = 5 \/ d = 6 \/
                 d = 7 \/ d = 8 \/ d = 9) by lia.
    repeat (destruct Hc as [-> | Hc]; [reflexivity |]). subst. reflexivity. }
  induction prefix as [| c p IH]; cbn [String.append String.length].
  - exact Hs.
  - rewrite IH. reflexivity.
Qed.

(** X24. [draw_hud] never raises, and its five texts are plotted in the
    six columns starting 4 right of the separator, in rows 0-18 (score),
    22-40 (high score), 44-52 (lives) and 54-59 (level); of the clock,
    drawn from row 60, only the first digit lies above row [H]: the other
    four are plotted in rows [H] to [H + 14], below the 64-row image. *)
Theorem draw_hud_layout score hiscore lives tsec level :
  exists t1 t2 t3 t4 first rest c s',
    draw_hud score hiscore lives tsec level =
      Ok (Rectangle HUD_X0 0 (W - 1) (H - 1) (Some HUD_BG) None ::
          Line HUD_X0 0 HUD_X0 (H - 1) HUD_LINE ::
          t1 ++ t2 ++ t3 ++ t4 ++ first ++ rest) /\
    Forall (point_in (HUD_X0 + 4) (HUD_X0 + 9) 0 18) t1 /\
    Forall (point_in (HUD_X0 + 4) (HUD_X0 + 9) 22 40) t2 /\
    Forall (point_in (HUD_X0 + 4) (HUD_X0 + 9) 44 52) t3 /\
    Forall (point_in (HUD_X0 + 4) (HUD_X0 + 9) 54 59) t4 /\
    format_05d (Z.max 0 tsec mod 100000) = String c s' /\
    draw_text_3x5_v (HUD_X0 + 4) 60 (String c EmptyString) HUD_DIM 1 true = Ok first /\
    Forall (point_in (HUD_X0 + 4) (HUD_X0 + 9) 60 62) first /\
    Forall (point_in (HUD_X0 + 4) (HUD_X0 + 9) H (H + 14)) rest.
Proof.
  unfold draw_hud. cbv zeta.
  change (HUD_X0 + Z.max 0 ((W - HUD_X0 - 6) / 2)) with (HUD_X0 + 4).
  change (HUD_X0 + 9) with (HUD_X0 + 4 + 5).
  destruct (draw_text_3x5_v_rows (format_05d (score mod 100000)) (HUD_X0 + 4) 0 HUD_FG 1 true
              ltac:(lia)) as [t1 [E1 P1]].
  destruct (draw_text_3x5_v_rows (format_05d (hiscore mod 100000)) (HUD_X0 + 4) 22 HUD_DIM 1
              true ltac:(lia)) as [t2 [E2 P2]].
  destruct (draw_text_3x5_v_rows ("LV" ++ py_str (Z.max 0 lives mod 10))%string
              (HUD_X0 + 4) 44 HUD_FG 0 true ltac:(lia)) as [t3 [E3 P3]].
  destruct (draw_text_3x5_v_rows ("L" ++ py_str (Z.min 9 (Z.max 1 level)))%string
              (HUD_X0 + 4) 54 HUD_DIM 0 true ltac:(lia)) as [t4 [E4 P4]].
  rewrite format_05d_length in P1, P2.
  rewrite digit_label_length in P3
    by (pose proof (Z.mod_pos_bound (Z.max 0 lives) 10 ltac:(lia)); lia).
  rewrite digit_label_length in P4 by lia.
  rewrite E1, E2, E3, E4. cbn [bind].
  pose proof (format_05d_length (Z.max 0 tsec)) as L5.
  destruct (format_05d (Z.max 0 tsec mod 100000)) as [| c s'] eqn:E5; [discriminate |].
  cbn [String.length] in L5.
  cbn [draw_text_3x5_v].
  destruct (rotate_glyph_total _ (font_glyph_ok c)) as [rot [Hrot [Hrows Hlen]]].
  rewrite Hrot. cbn [bind].
  destruct (rotated_points_box (HUD_X0 + 4) 60 rot HUD_DIM true Hrows Hlen) as [first [Hf Pf]].
  rewrite Hf. cbn [bind].
  destruct (draw_text_3x5_v_rows s' (HUD_X0 + 4) (60 + (3 + 1)) HUD_DIM 1 true ltac:(lia))
    as [rest [Er Pr]].
  rewrite Er. cbn [bind].
  exists t1, t2, t3, t4, first, rest, c, s'.
  split; [reflexivity |].
  split; [exact P1 |]. split; [exact P2 |]. split; [exact P3 |]. split; [exact P4 |].
  split; [reflexivity |].
  split; [rewrite Hrot; cbn [bind]; rewrite Hf; cbn [bind]; rewrite app_nil_r; reflexivity |].
  split; [exact Pf |].
  eapply Forall_impl; [| exact Pr]. intros op.
  apply point_in_weaken; unfold H; lia.
Qed.

Lemma op_within_weaken x0 x1 y0 y1 x0' x1' y0' y1' op :
  x0' <= x0 -> x1 <= x1' -> y0' <= y0 -> y1 <= y1' ->
  op_within x0 x1 y0 y1 op = true -> op_within x0' x1' y0' y1' op = true.
Proof.
  intros H1 H2 H3 H4. destruct op; cbn [op_within];
    rewrite !andb_true_iff, !Z.leb_le; lia.
Qed.

Lemma draw_pacman_box x y mouth_open d :
  Forall (fun op => op_within (x - 2) (x + 2) (y - 2) (y + 2) op = true)
         (draw_pacman x y mouth_open d).
Proof.
  assert (P : forall a b c, x - 2 <= a <= x + 2 -> y - 2 <= b <= y + 2 ->
                op_within (x - 2) (x + 2) (y - 2) (y + 2) (Point a b c) = true).
  { intros a b c Ha Hb. cbn [op_within]. rewrite !andb_true_iff, !Z.leb_le. lia. }
  unfold draw_pacman. cbv zeta. constructor.
  - cbn [op_within]. rewrite !andb_true_iff, !Z.leb_le. lia.
  - destruct (negb mouth_open); [constructor |].
    destruct d as [dx dy].
    destruct (dx =? 1); [| destruct (dx =? -1); [| destruct (dy =? 1);
      [| destruct (dy =? -1)]]]; cbn [map fst snd];
      repeat (constructor; [apply P; lia |]); constructor.
Qed.

Lemma enumerate_In {A : Type} (l : list A) i a :
  In (i, a) (enumerate l) -> 0 <= i < Z.of_nat (List.length l) /\ In a l.
Proof.
  unfold enumerate. intros H. split.
  - apply in_combine_l in H. apply In_range in H. lia.
  - apply in_combine_r in H. exact H.
Qed.

Lemma draw_ghost_box x y col fr :
  Forall (fun op => op_within (x - 2) (x + 2) (y - 2) (y + 2) op = true)
         (draw_ghost x y col fr).
Proof.
  assert (P : forall a b c, x - 2 <= a <= x + 2 -> y - 2 <= b <= y + 2 ->
                op_within (x - 2) (x + 2) (y - 2) (y + 2) (Point a b c) = true).
  { intros a b c Ha Hb. cbn [op_within]. rewrite !andb_true_iff, !Z.leb_le. lia. }
  unfold draw_ghost. cbv zeta.
  set (body := if fr then FRIGHT else col). clearbody body.
  apply Forall_app. split.
  - apply Forall_forall. intros op Hin.
    apply in_flat_map in Hin. destruct Hin as [[yy row] [Hyr Hin]].
    apply in_flat_map in Hin. destruct Hin as [[xx c] [Hxc Hin]].
    cbn [fst snd] in Hin, Hxc.
    apply enumerate_In in Hyr. destruct Hyr as [Hyy Hrow].
    apply enumerate_In in Hxc. destruct Hxc as [Hxx _].
    rewrite list_ascii_length in Hxx.
    assert (Hlen : String.length row = 5%nat).
    { cbn [In] in Hrow.
      repeat (destruct Hrow as [<- | Hrow]; [reflexivity |]). contradiction. }
    rewrite Hlen in Hxx. cbn [List.length] in Hyy.
    destruct (Ascii.eqb c "1"); [| contradiction].
    destruct Hin as [<- | []]. apply P; lia.
  - repeat (constructor; [apply P; lia |]). constructor.
Qed.

(** X25. In every state the loop can be in, everything drawn for the
    player and the four ghosts lies in columns 0 to [MAZE_W] and rows 0 to
    [H - 1]: on the screen and left of the HUD separator. *)
Theorem sprites_stay_in_maze l mouth_open :
  reachable l ->
  Forall (fun op => op_within 0 MAZE_W 0 (H - 1) op = true)
         (draw_sprites (game l) mouth_open).
Proof.
  intros Hr. destruct (reachable_Inv l Hr) as [[Hp [Hg _]] _].
  destruct Hp as [Hp _]. apply pac_mask_in_ghost_mask in Hp.
  apply ghost_mask_bounds in Hp. destruct Hp as [[Hx Hy] _].
  unfold draw_sprites. apply Forall_app. split.
  - eapply Forall_impl; [| apply draw_pacman_box].
    intros op. apply op_within_weaken; unfold MAZE_W, OX, COLS, CELL_X, H; lia.
  - apply Forall_forall. intros op Hin.
    apply in_flat_map in Hin. destruct Hin as [n [_ Hin]].
    destruct (Hg n) as [Hs _]. apply ghost_mask_bounds in Hs.
    destruct Hs as [[Hgx Hgy] _].
    pose proof (draw_ghost_box (g_x (ghosts (game l) n)) (g_y (ghosts (game l) n))
                  (ghost_color n) (Qltb 0 (g_fright (ghosts (game l) n)))) as Hb.
    rewrite Forall_forall in Hb. specialize (Hb op Hin). revert Hb.
    apply op_within_weaken; unfold MAZE_W, OX, COLS, CELL_X, H; lia.
Qed.

Lemma sprites_stay_in_maze_witness :
  Forall (fun op => op_within 0 MAZE_W 0 (H - 1) op = true)
         (draw_sprites (game (init_loop None 0)) true).
Proof. exact (sprites_stay_in_maze _ true (reach_init None 0)). Defined.

Lemma glyph_points_box x y pat color :
  glyph_ok pat = true ->
  Forall (point_in x (x + 3) y (y + 4)) (glyph_points x y pat color).
Proof.
  unfold glyph_ok. rewrite andb_true_iff, Nat.eqb_eq, forallb_forall.
  intros [Hlen Hrows]. unfold glyph_points.
  apply Forall_forall. intros op Hin.
  apply in_flat_map in Hin. destruct Hin as [[yy row] [Hyr Hin]].
  apply in_flat_map in Hin. destruct Hin as [[xx c] [Hxc Hin]].
  cbn [fst snd] in Hin, Hxc.
  apply enumerate_In in Hyr. destruct Hyr as [Hyy Hrow].
  apply enumerate_In in Hxc. destruct Hxc as [Hxx _].
  rewrite list_ascii_length in Hxx.
  specialize (Hrows row Hrow). apply andb_true_iff in Hrows.
  destruct Hrows as [_ H4]. apply Nat.leb_le in H4.
  destruct (Ascii.eqb c "#"); [| contradiction].
  destruct Hin as [<- | []]. apply point_in_Point; lia.
Qed.

Lemma draw_text_3x5_cols s : forall x y color spacing,
  0 <= 3 + spacing ->
  Forall (point_in x (x + (Z.of_nat (String.length s) - 1) * (3 + spacing) + 3)
                   y (y + 4))
         (draw_text_3x5 x y s color spacing).
Proof.
  induction s as [| ch s IH]; intros x y color spacing Hsp; cbn [draw_text_3x5].
  - constructor.
  - pose proof (glyph_points_box x y (font_glyph ch) color (font_glyph_ok ch)) as Hg.
    cbn [String.length]. apply Forall_app. split.
    + eapply Forall_impl; [| exact Hg]. intros op. apply point_in_weaken; nia.
    + eapply Forall_impl; [| exact (IH (x + (3 + spacing)) y color spacing Hsp)].
      intros op. apply point_in_weaken; nia.
Qed.

(** X26. [draw_text_3x5] only plots points in the five rows from [y];
    each glyph takes at most four columns (the glyphs of G and 1 have a
    fourth one), so with [3 + spacing] columns per character a text stays
    within [x] and [x + (n - 1) * (3 + spacing) + 3]. *)
Theorem draw_text_3x5_box s x y color spacing :
  0 <= 3 + spacing ->
  Forall (point_in x (x + (Z.of_nat (String.length s) - 1) * (3 + spacing) + 3)
                   y (y + 4))
         (draw_text_3x5 x y s color spacing) /\
  forall ch s',
    s = String ch s' ->
    draw_text_3x5 x y s color spacing =
      glyph_points x y (font_glyph ch) color ++
      draw_text_3x5 (x + (3 + spacing)) y s' color spacing /\
    Forall (point_in x (x + 3) y (y + 4)) (glyph_points x y (font_glyph ch) color).
Proof.
  intros Hsp. split; [apply draw_text_3x5_cols; exact Hsp |].
  intros ch s' ->. split; [reflexivity |].
  apply glyph_points_box. apply font_glyph_ok.
Qed.

Lemma draw_text_3x5_box_witness :
  Forall (point_in 34 (34 + (5 - 1) * (3 + 1) + 3) 29 (29 + 4))
         (draw_text_3x5 34 29 "READY" TXT 1).
Proof.
  apply (draw_text_3x5_box "READY" 34 29 TXT 1). lia.
Defined.

Lemma point_in_within x0 x1 y0 y1 op : point_in x0 x1 y0 y1 op -> op_within x0 x1 y0 y1 op = true.
Proof. intros [_ H]. exact H. Qed.

Lemma text_within x y s color x0 x1 y0 y1 :
  x0 <= x -> x + (Z.of_nat (String.length s) - 1) * 4 + 3 <= x1 ->
  y0 <= y -> y + 4 <= y1 ->
  Forall (fun op => op_within x0 x1 y0 y1 op = true) (draw_text_3x5 x y s color 1).
Proof.
  intros H1 H2 H3 H4.
  pose proof (draw_text_3x5_cols s x y color 1 ltac:(lia)) as Hb.
  eapply Forall_impl; [| exact Hb]. intros op Hp. apply point_in_within.
  revert Hp. apply point_in_weaken; lia.
Qed.

Lemma draw_menu_overlay_box idx :
  Forall (fun op => op_within 18 100 12 46 op = true) (draw_menu_overlay idx).
Proof.
  unfold draw_menu_overlay. cbv zeta. constructor; [reflexivity |].
  apply Forall_forall. intros op Hin.
  apply in_flat_map in Hin. destruct Hin as [[i item] [Hit Hin]].
  cbn [fst snd] in Hin.
  apply enumerate_In in Hit. destruct Hit as [Hi Hitem].
  change (Z.of_nat (List.length MENU_ITEMS)) with 3 in Hi.
  assert (Hlen : (String.length item <= 7)%nat).
  { cbn [In MENU_ITEMS] in Hitem.
    repeat (destruct Hitem as [<- | Hitem]; [cbn; lia |]). contradiction. }
  apply in_app_iff in Hin. destruct Hin as [Hin | Hin].
  - destruct (i =? idx); [| contradiction]. destruct Hin as [<- | []].
    cbn [op_within]. rewrite !andb_true_iff, !Z.leb_le. lia.
  - pose proof (text_within (18 + 10) (12 + 6 + i * 10) item
                  (if i =? idx then TXT else DIM) 18 100 12 46
                  ltac:(lia) ltac:(lia) ltac:(lia) ltac:(lia)) as Ht.
    rewrite Forall_forall in Ht. apply Ht. exact Hin.
Qed.

(** X27. Every call made for the menu overlay lies inside its frame
    (18, 12)-(100, 46); the READY and OUCH labels lie inside the boxes
    drawn under them; so whatever the state, the three overlays stay
    inside the maze area. *)
Theorem overlays_stay_in_their_frames :
  (forall idx, Forall (fun op => op_within 18 100 12 46 op = true) (draw_menu_overlay idx)) /\
  Forall (fun op => op_within 30 98 26 38 op = true) (draw_text_3x5 34 29 "READY" TXT 1) /\
  Forall (fun op => op_within 28 100 26 38 op = true) (draw_text_3x5 38 29 "OUCH" TXT 1) /\
  (forall g, Forall (fun op => op_within 18 100 12 46 op = true) (draw_overlays g)).
Proof.
  assert (Hready : Forall (fun op => op_within 30 98 26 38 op = true)
                          (draw_text_3x5 34 29 "READY" TXT 1))
    by (apply text_within; cbn; lia).
  assert (Houch : Forall (fun op => op_within 28 100 26 38 op = true)
                         (draw_text_3x5 38 29 "OUCH" TXT 1))
    by (apply text_within; cbn; lia).
  split; [apply draw_menu_overlay_box |]. split; [exact Hready |]. split; [exact Houch |].
  intros g. unfold draw_overlays.
  apply Forall_app. split; [| apply Forall_app; split].
  - destruct (waiting g && negb (menu g)); [| constructor].
    constructor; [reflexivity |].
    eapply Forall_impl; [| exact Hready]. intros op. apply op_within_weaken; lia.
  - destruct (menu g); [apply draw_menu_overlay_box | constructor].
  - destruct (dead g); [| constructor].
    constructor; [reflexivity |].
    eapply Forall_impl; [| exact Houch]. intros op. apply op_within_weaken; lia.
Qed.
